(** * Fuzzy matching of SEC fund names against CRSP: scorer and candidate funnel

    A shallow embedding of [c2_fuzz_scorer.py] (class [FuzzyScorer]),
    [c1_fuzz_matcher.py] (class [FuzzyFundMatcher]) and
    [f1_preproc_strings.py] ([preproc_string]), followed by the properties
    of the scorer, of the quick filter, of the funnel and of the batch
    driver.

    Python values are modelled as follows.
    - [str]: [string]; a character is an [ascii], read as a code point
      below 256.
    - [int]: [Z].  [float]: an IEEE 754 binary64 number, [spec_float] with
      the operations of [SpecFloat] at precision 53.
    - exceptions: the type [exn]; a computation that may raise is a
      [result].
    - numpy arrays: lists; boolean-mask and integer-array indexing are
      written out, with the errors numpy raises. *)

From Stdlib Require Import ZArith List String Ascii Bool Lia.
From Stdlib Require Import Reals Lra.
From Stdlib Require Import Permutation Sorted.
From Stdlib Require Import SpecFloat.
Import ListNotations.

Local Open Scope Z_scope.

(* ================================================================= *)
(** * Exceptions and results *)

(** The Python exceptions the embedded code can raise.  [InvalidConfig] is
    the error the specification names for a rejected configuration; it is
    listed so that statements about it can be written. *)
Inductive exn : Type :=
| TypeError
| IndexError
| AttributeError
| UnboundLocalError
| ZeroDivisionError
| OverflowError
| ValueError
| InvalidConfig.

Inductive result (A : Type) : Type :=
| Ok (a : A)
| Raise (e : exn).

Arguments Ok {A} a.
Arguments Raise {A} e.

Definition bind {A B : Type} (m : result A) (k : A -> result B) : result B :=
  match m with
  | Ok a => k a
  | Raise e => Raise e
  end.

Declare Scope result_scope.
Delimit Scope result_scope with result.
Notation "x <- m ;; k" := (bind m (fun x => k))
  (at level 61, m at next level, right associativity) : result_scope.
Notation "' p <- m ;; k" := (bind m (fun x => match x with p => k end))
  (at level 61, p pattern, m at next level, right associativity) : result_scope.
Local Open Scope result_scope.

(** [for x in xs: acc.append(f x)], stopping at the first exception. *)
Fixpoint mapM {A B : Type} (f : A -> result B) (xs : list A) : result (list B) :=
  match xs with
  | [] => Ok []
  | x :: rest =>
      y <- f x ;;
      ys <- mapM f rest ;;
      Ok (y :: ys)
  end.

(** [for x in xs: acc = f acc x], stopping at the first exception. *)
Fixpoint foldM {A B : Type} (f : B -> A -> result B) (xs : list A) (acc : B)
  : result B :=
  match xs with
  | [] => Ok acc
  | x :: rest =>
      acc' <- f acc x ;;
      foldM f rest acc'
  end.

(* ================================================================= *)
(** * Numbers *)

(** ** binary64 *)

Module Binary64.

Definition prec : Z := 53.
Definition emax : Z := 1024.

Definition add : spec_float -> spec_float -> spec_float := SFadd prec emax.
Definition mul : spec_float -> spec_float -> spec_float := SFmul prec emax.
Definition div : spec_float -> spec_float -> spec_float := SFdiv prec emax.
Definition sqrt : spec_float -> spec_float := SFsqrt prec emax.

(** The integer [z] rounded to the nearest float (ties to even). *)
Definition of_Z (z : Z) : spec_float := binary_normalize prec emax z 0 false.

(** The integer [z] as an exact mantissa at exponent 0. *)
Definition raw_of_Z (z : Z) : spec_float :=
  match z with
  | Z0 => S754_zero false
  | Zpos p => S754_finite false p 0
  | Zneg p => S754_finite true p 0
  end.

Definition is_zero (x : spec_float) : bool :=
  match x with
  | S754_zero _ => true
  | _ => false
  end.

Definition is_infinity (x : spec_float) : bool :=
  match x with
  | S754_infinity _ => true
  | _ => false
  end.

(** Rounding toward zero of a finite float; [None] on infinities and NaN. *)
Definition trunc (x : spec_float) : option Z :=
  match x with
  | S754_zero _ => Some 0
  | S754_finite s m e =>
      let a := match e with
               | Zneg p => Z.pos m / 2 ^ Z.pos p
               | _ => Z.pos m * 2 ^ e
               end in
      Some (if s then - a else a)
  | _ => None
  end.

(** Rounding toward minus infinity of a finite float. *)
Definition floor (x : spec_float) : option Z :=
  match x with
  | S754_zero _ => Some 0
  | S754_finite s m e =>
      let v := if s then Z.neg m else Z.pos m in
      Some (match e with
            | Zneg p => v / 2 ^ Z.pos p
            | _ => v * 2 ^ e
            end)
  | _ => None
  end.

(** Exact comparison of an integer with a float, as Python compares an
    [int] with a [float]; [None] when the float is NaN. *)
Definition compare_Z (z : Z) (x : spec_float) : option comparison :=
  match x with
  | S754_nan => None
  | S754_infinity s => Some (if s then Gt else Lt)
  | S754_zero _ => Some (z ?= 0)
  | S754_finite s m e =>
      let v := if s then Z.neg m else Z.pos m in
      Some (match e with
            | Zneg p => (z * 2 ^ Z.pos p) ?= v
            | _ => z ?= v * 2 ^ e
            end)
  end.

End Binary64.

(** ** Python numbers: [int] and [float] *)

Inductive pynum : Type :=
| PInt (z : Z)
| PFloat (f : spec_float).

(** [float(z)]: the nearest float, [OverflowError] when [z] is too large. *)
Definition float_of_int (z : Z) : result spec_float :=
  let f := Binary64.of_Z z in
  if Binary64.is_infinity f then Raise OverflowError else Ok f.

Definition as_float (x : pynum) : result spec_float :=
  match x with
  | PInt z => float_of_int z
  | PFloat f => Ok f
  end.

(** [x + y] *)
Definition py_add (x y : pynum) : result pynum :=
  match x, y with
  | PInt a, PInt b => Ok (PInt (a + b))
  | _, _ =>
      fx <- as_float x ;;
      fy <- as_float y ;;
      Ok (PFloat (Binary64.add fx fy))
  end.

(** [x * y] *)
Definition py_mul (x y : pynum) : result pynum :=
  match x, y with
  | PInt a, PInt b => Ok (PInt (a * b))
  | _, _ =>
      fx <- as_float x ;;
      fy <- as_float y ;;
      Ok (PFloat (Binary64.mul fx fy))
  end.

(** [x / y] (true division).  On two [int]s Python returns the correctly
    rounded quotient of the exact integers, which is the division of the
    two exact mantissas. *)
Definition py_truediv (x y : pynum) : result pynum :=
  match x, y with
  | PInt a, PInt b =>
      if b =? 0 then Raise ZeroDivisionError
      else
        let q := Binary64.div (Binary64.raw_of_Z a) (Binary64.raw_of_Z b) in
        if Binary64.is_infinity q then Raise OverflowError else Ok (PFloat q)
  | _, _ =>
      fx <- as_float x ;;
      fy <- as_float y ;;
      if Binary64.is_zero fy then Raise ZeroDivisionError
      else Ok (PFloat (Binary64.div fx fy))
  end.

(** [int(x)] *)
Definition py_int (x : pynum) : result Z :=
  match x with
  | PInt z => Ok z
  | PFloat f =>
      match Binary64.trunc f with
      | Some z => Ok z
      | None =>
          match f with
          | S754_nan => Raise ValueError
          | _ => Raise OverflowError
          end
      end
  end.

(** [z >= t] for an [int] [z] and a number [t]; false against NaN. *)
Definition int_ge (z : Z) (t : pynum) : bool :=
  match t with
  | PInt b => b <=? z
  | PFloat f =>
      match Binary64.compare_Z z f with
      | Some Lt => false
      | Some _ => true
      | None => false
      end
  end.

(* ================================================================= *)
(** * Strings *)

Definition code (c : ascii) : N := N_of_ascii c.

(** [c.isdigit()]: the decimal digits and the superscript digits. *)
Definition isdigit (c : ascii) : bool :=
  let n := code c in
  (((48 <=? n) && (n <=? 57)) || (n =? 178) || (n =? 179) || (n =? 185))%N.

(** [c.isspace()], also the characters the pattern [\s] matches. *)
Definition isspace (c : ascii) : bool :=
  let n := code c in
  (((9 <=? n) && (n <=? 13)) || ((28 <=? n) && (n <=? 32))
   || (n =? 133) || (n =? 160))%N.

(** ASCII letters, the class [a-zA-Z]. *)
Definition isletter (c : ascii) : bool :=
  let n := code c in
  (((65 <=? n) && (n <=? 90)) || ((97 <=? n) && (n <=? 122)))%N.

(** [c.lower()] *)
Definition lower_char (c : ascii) : ascii :=
  let n := code c in
  if (((65 <=? n) && (n <=? 90))
      || ((192 <=? n) && (n <=? 222) && negb (n =? 215)))%N
  then ascii_of_N (n + 32) else c.

Fixpoint lower (s : string) : string :=
  match s with
  | EmptyString => EmptyString
  | String c rest => String (lower_char c) (lower rest)
  end.

Definition str_len (s : string) : nat := String.length s.

(** [s[i]] for [0 <= i] *)
Definition str_get (s : string) (i : nat) : result ascii :=
  match String.get i s with
  | Some c => Ok c
  | None => Raise IndexError
  end.

Definition is_empty (s : string) : bool :=
  match s with
  | EmptyString => true
  | _ => false
  end.

(** [s.split()]: the maximal runs of non-whitespace characters. *)
Fixpoint split_from (s : string) (word : string) : list string :=
  match s with
  | EmptyString => if is_empty word then [] else [word]
  | String c rest =>
      if isspace c
      then (if is_empty word then split_from rest EmptyString
            else word :: split_from rest EmptyString)
      else split_from rest (word ++ String c EmptyString)%string
  end.

Definition py_split (s : string) : list string := split_from s EmptyString.

(** [' '.join(words)] *)
Definition py_join (words : list string) : string :=
  String.concat " " words.

(** [sorted(words)]: a stable insertion sort by code points. *)
Fixpoint insert_sorted (w : string) (ws : list string) : list string :=
  match ws with
  | [] => [w]
  | x :: rest =>
      if String.ltb w x then w :: ws else x :: insert_sorted w rest
  end.

Definition py_sorted (ws : list string) : list string :=
  fold_left (fun acc w => insert_sorted w acc) ws [].

(** [range(lo, hi)] *)
Definition py_range (lo hi : nat) : list nat := seq lo (hi - lo).

(* ================================================================= *)
(** * The values a name field can hold *)

(** A registrant or fund field is a string, or one of the two values a
    missing entry takes: [None], and the NaN with which pandas fills a
    missing cell.  Neither has a length; NaN has no [split] either. *)
Inductive pyobj : Type :=
| PyStr (s : string)
| PyNone
| PyNaN.

(** [len(o)] *)
Definition py_len (o : pyobj) : result nat :=
  match o with
  | PyStr s => Ok (str_len s)
  | _ => Raise TypeError
  end.

(* ================================================================= *)
(** * SequenceMatcher *)

(** A matching block [(start_a, start_b, length)]. *)
Definition block : Type := (nat * nat * nat)%type.

Definition block_len (b : block) : nat := snd b.

(** Modelled from the spec: the matching blocks come from the imported
    [fuzzywuzzy.StringMatcher], which is not among the sources.  The
    specification describes the aligner: the longest common substring,
    ties going to the smallest start in [a], then in [b]; the same on the
    parts to the left and to the right of it. *)
Fixpoint common_prefix (a b : list ascii) : nat :=
  match a, b with
  | x :: a', y :: b' => if Ascii.eqb x y then S (common_prefix a' b') else 0
  | _, _ => 0
  end.

Definition slice {A : Type} (l : list A) (lo hi : nat) : list A :=
  firstn (hi - lo) (skipn lo l).

(** Modelled from the spec: the longest match inside [a[alo:ahi]] and
    [b[blo:bhi]], scanning the starts in [a] in ascending order and, for
    each, the starts in [b] in ascending order; only a strictly longer
    match replaces the current one. *)
Definition better (best cand : block) : block :=
  if (block_len best <? block_len cand)%nat then cand else best.

Definition find_longest_match (a b : list ascii) (alo ahi blo bhi : nat) : block :=
  fold_left
    (fun best i =>
       fold_left
         (fun best' j =>
            better best' (i, j, common_prefix (slice a i ahi) (slice b j bhi)))
         (py_range blo bhi) best)
    (py_range alo ahi) (alo, blo, 0%nat).

(** Modelled from the spec: the recursive partition.  [fuel] bounds the
    depth; the length of [a[alo:ahi]] is enough. *)
Fixpoint align_range (fuel : nat) (a b : list ascii) (alo ahi blo bhi : nat)
  : list block :=
  match fuel with
  | O => []
  | S fuel' =>
      let '(i, j, k) := find_longest_match a b alo ahi blo bhi in
      match k with
      | O => []
      | S _ =>
          align_range fuel' a b alo i blo j
            ++ (i, j, k) :: align_range fuel' a b (i + k) ahi (j + k) bhi
      end
  end.

Definition align (a b : string) : list block :=
  let la := list_ascii_of_string a in
  let lb := list_ascii_of_string b in
  align_range (List.length la) la lb 0 (List.length la) 0 (List.length lb).

(** Modelled from the spec: [get_matching_blocks()] of the library ends
    its list with the sentinel [(len(a), len(b), 0)], on which the loop of
    [compute_score] relies to reach the tail of both strings. *)
Definition spec_matching_blocks (a b : string) : list block :=
  align a b ++ [(str_len a, str_len b, 0%nat)].

(* ================================================================= *)
(** * numpy helpers *)

(** [arr[valid]] for an array [arr] and the array [np.array(valid)] of a
    list of booleans.  An empty list makes an array of floats, and a mask
    of another length does not fit: numpy raises [IndexError] on both. *)
Fixpoint mask_filter {A : Type} (l : list A) (valid : list bool) : list A :=
  match l, valid with
  | x :: l', v :: valid' =>
      if v then x :: mask_filter l' valid' else mask_filter l' valid'
  | _, _ => []
  end.

Definition mask_select {A : Type} (l : list A) (valid : list bool)
  : result (list A) :=
  match valid with
  | [] => Raise IndexError
  | _ :: _ =>
      if (List.length valid =? List.length l)%nat
      then Ok (mask_filter l valid)
      else Raise IndexError
  end.

(** [arr[idx]] for an array of indices. *)
Definition take_idx {A : Type} (l : list A) (idx : list nat) : result (list A) :=
  mapM (fun i => match nth_error l i with
                 | Some x => Ok x
                 | None => Raise IndexError
                 end) idx.

(** [l[start:]] *)
Definition py_slice_from {A : Type} (start : Z) (l : list A) : list A :=
  let n := Z.of_nat (List.length l) in
  let s := if start <? 0 then Z.max 0 (start + n) else Z.min start n in
  skipn (Z.to_nat s) l.

(** [np.maximum(xs, ys)] and [xs > ys] on arrays of one length. *)
Fixpoint np_maximum (xs ys : list Z) : list Z :=
  match xs, ys with
  | x :: xs', y :: ys' => Z.max x y :: np_maximum xs' ys'
  | _, _ => []
  end.

Fixpoint np_gt (xs ys : list Z) : list bool :=
  match xs, ys with
  | x :: xs', y :: ys' => (y <? x) :: np_gt xs' ys'
  | _, _ => []
  end.

(** [xs + ys] on boolean arrays: the elementwise disjunction. *)
Fixpoint np_or (xs ys : list bool) : list bool :=
  match xs, ys with
  | x :: xs', y :: ys' => (x || y) :: np_or xs' ys'
  | _, _ => []
  end.

(** The int64 value of an integer. *)
Definition wrap64 (z : Z) : Z := (z + 2 ^ 63) mod 2 ^ 64 - 2 ^ 63.

(** [np.floor(np.sqrt(z)).astype(int)] on an int64 [z].  The square root
    of a negative number is NaN, which the cast turns into the smallest
    int64. *)
Definition np_floor_sqrt (z : Z) : Z :=
  match Binary64.floor (Binary64.sqrt (Binary64.of_Z z)) with
  | Some r => r
  | None => - 2 ^ 63
  end.

(** The contracts of [np.argsort] and [np.argpartition], which stay
    parameters of the funnel: a permutation of the positions that puts the
    values in ascending order, and a permutation that puts position [kth]
    in its sorted place, no larger value before it and no smaller one
    after it. *)
Definition value_at (xs : list Z) (i : nat) : Z := nth i xs 0.

Definition argsort_spec (argsort : list Z -> list nat) : Prop :=
  forall xs,
    Permutation (argsort xs) (seq 0 (List.length xs))
    /\ StronglySorted Z.le (map (value_at xs) (argsort xs)).

Definition argpartition_spec (argpartition : list Z -> nat -> list nat) : Prop :=
  forall xs kth,
    (kth < List.length xs)%nat ->
    Permutation (argpartition xs kth) (seq 0 (List.length xs))
    /\ forall i j,
         (i < kth)%nat -> (kth <= j)%nat -> (j < List.length xs)%nat ->
         value_at xs (nth i (argpartition xs kth) O)
         <= value_at xs (nth j (argpartition xs kth) O).

(** A stable insertion sort of the positions, the behaviour of numpy's
    default sort on a short array. *)
Fixpoint insert_pos (xs : list Z) (i : nat) (sorted : list nat) : list nat :=
  match sorted with
  | [] => [i]
  | j :: rest =>
      if value_at xs i <? value_at xs j
      then i :: sorted
      else j :: insert_pos xs i rest
  end.

Definition stable_argsort (xs : list Z) : list nat :=
  fold_left (fun acc i => insert_pos xs i acc) (seq 0 (List.length xs)) [].

Definition sorting_argpartition (xs : list Z) (kth : nat) : list nat :=
  stable_argsort xs.

(* ================================================================= *)
(** * c2_fuzz_scorer.py: class FuzzyScorer *)

Definition exn_eqb (a b : exn) : bool :=
  match a, b with
  | TypeError, TypeError
  | IndexError, IndexError
  | AttributeError, AttributeError
  | UnboundLocalError, UnboundLocalError
  | ZeroDivisionError, ZeroDivisionError
  | OverflowError, OverflowError
  | ValueError, ValueError
  | InvalidConfig, InvalidConfig => true
  | _, _ => false
  end.

(** The float [2.0]. *)
Definition float_two : spec_float := Eval vm_compute in Binary64.of_Z 2.

(** The attributes of a scorer.  [seqmat] is the [SequenceMatcher], that
    is the two sequences it was last given, or [None]. *)
Record FuzzyScorer : Type := mkFuzzyScorer {
  seq1 : pyobj;
  seq2 : pyobj;
  seqmat : option (pyobj * pyobj);
  digit_multiplier : pynum;
  sorted_token : bool
}.

(** [sort_and_token(seq)] *)
Definition sort_and_token (seq : pyobj) : result pyobj :=
  match seq with
  | PyStr s => Ok (PyStr (py_join (py_sorted (py_split s))))
  | PyNone => Ok (PyStr EmptyString)
  | PyNaN => Raise AttributeError
  end.

(** [FuzzyScorer(to_match, choice, digit_multiplier, sorted_token)] *)
Definition FuzzyScorer_init (to_match choice : pyobj) (digit_multiplier : pynum)
    (sorted_token : bool) : result FuzzyScorer :=
  '(s1, s2) <- (if sorted_token
                then s1 <- sort_and_token choice ;;
                     s2 <- sort_and_token to_match ;;
                     Ok (s1, s2)
                else Ok (choice, to_match)) ;;
  Ok {| seq1 := s1; seq2 := s2; seqmat := Some (s1, s2);
        digit_multiplier := digit_multiplier; sorted_token := sorted_token |}.

(** [set_choice(choice)] *)
Definition set_choice (self : FuzzyScorer) (choice : pyobj) : result FuzzyScorer :=
  s1 <- (if sorted_token self then sort_and_token choice else Ok choice) ;;
  match seqmat self with
  | None => Raise AttributeError
  | Some (_, m2) =>
      Ok {| seq1 := s1; seq2 := seq2 self; seqmat := Some (s1, m2);
            digit_multiplier := digit_multiplier self;
            sorted_token := sorted_token self |}
  end.

(** [seq[i]] *)
Definition py_getitem (seq : pyobj) (i : nat) : result ascii :=
  match seq with
  | PyStr s => str_get s i
  | _ => Raise TypeError
  end.

(** The first loop of [compute_score]: the positions before each block
    that the previous block did not reach. *)
Fixpoint unmatched_positions (matching_blocks : list block)
    (cur_pos_a cur_pos_b : nat) (diff_a diff_b : list nat)
  : list nat * list nat :=
  match matching_blocks with
  | [] => (diff_a, diff_b)
  | (start_a, start_b, length) :: rest =>
      unmatched_positions rest (start_a + length) (start_b + length)
        (diff_a ++ py_range cur_pos_a start_a)
        (diff_b ++ py_range cur_pos_b start_b)
  end.

(** One step of a penalty loop. *)
Definition add_penalty (seq : pyobj) (digit_multiplier : pynum)
    (penalty : pynum) (i : nat) : result pynum :=
  c <- py_getitem seq i ;;
  if isdigit c then py_add penalty digit_multiplier
  else py_add penalty (PInt 1).

Definition sum_lengths (matching_blocks : list block) : Z :=
  fold_left (fun acc b => acc + Z.of_nat (block_len b)) matching_blocks 0.

(** [int(100*(matches/(matches+penalty)))] *)
Definition ratio_percent (matches : Z) (penalty : pynum) : result Z :=
  total <- py_add (PInt matches) penalty ;;
  ratio <- py_truediv (PInt matches) total ;;
  scaled <- py_mul (PInt 100) ratio ;;
  py_int scaled.

(** [int(100 * 2.0 * min(len1, len2) / (len1 + len2))] *)
Definition quick_percent (len1 len2 : nat) : result Z :=
  x <- py_mul (PInt 100) (PFloat float_two) ;;
  y <- py_mul x (PInt (Z.of_nat (Nat.min len1 len2))) ;;
  z <- py_truediv y (PInt (Z.of_nat (len1 + len2))) ;;
  py_int z.

(** What the library promises about its blocks: they follow each other in
    both strings without overlap, stay inside the strings, and end with the
    sentinel [(len(a), len(b), 0)]. *)
Fixpoint blocks_ok (cur_a cur_b la lb : nat) (bs : list block) : bool :=
  match bs with
  | [] => false
  | (i, j, n) :: rest =>
      match rest with
      | [] =>
          ((i =? la) && (j =? lb) && (n =? 0)
           && (cur_a <=? la) && (cur_b <=? lb))%nat
      | _ :: _ =>
          ((cur_a <=? i) && (cur_b <=? j))%nat
          && blocks_ok (i + n) (j + n) la lb rest
      end
  end.

Definition matching_blocks_spec
    (get_matching_blocks : string -> string -> list block) : Prop :=
  forall a b,
    blocks_ok 0 0 (str_len a) (str_len b) (get_matching_blocks a b) = true.

(** The words of a string in sorted order, as [sort_and_token] joins them. *)
Definition sort_tokens (s : string) : string :=
  py_join (py_sorted (py_split s)).

(** A scorer whose two sequences are strings, as the constructor and
    [set_choice] leave it. *)
Definition scorer_on (choice to_match : string) (digit_multiplier : pynum)
    (sorted_token : bool) : FuzzyScorer :=
  {| seq1 := PyStr choice; seq2 := PyStr to_match;
     seqmat := Some (PyStr choice, PyStr to_match);
     digit_multiplier := digit_multiplier; sorted_token := sorted_token |}.

(** The weight of an unmatched character, and the penalty of a list of
    unmatched positions of a string, for an integer multiplier. *)
Definition char_weight (d : Z) (c : ascii) : Z := if isdigit c then d else 1.

Definition penalty_of (d : Z) (s : string) (positions : list nat) : Z :=
  fold_right
    (fun i acc =>
       match String.get i s with
       | Some c => char_weight d c + acc
       | None => acc
       end)
    0 positions.

Section Engine.

(** [SequenceMatcher.get_matching_blocks()] on two strings. *)
Variable get_matching_blocks : string -> string -> list block.

(** [np.argsort] and [np.argpartition] with a position [kth >= 0]. *)
Variable argsort : list Z -> list nat.
Variable argpartition : list Z -> nat -> list nat.

(** [re.sub(pattern, repl, s)] for the patterns a caller supplies. *)
Variable re_sub : string -> string -> string -> string.

Definition seqmat_blocks (sm : pyobj * pyobj) : result (list block) :=
  match sm with
  | (PyStr a, PyStr b) => Ok (get_matching_blocks a b)
  | _ => Raise TypeError
  end.

(** [compute_score()] *)
Definition compute_score (self : FuzzyScorer) : result Z :=
  len1 <- py_len (seq1 self) ;;
  len2 <- py_len (seq2 self) ;;
  if ((len1 =? 0) && (len2 =? 0))%nat then Ok 100
  else if ((len1 =? 0) || (len2 =? 0))%nat then Ok 0
  else
    let sm := match seqmat self with
              | Some sm => sm
              | None => (seq1 self, seq2 self)
              end in
    matching_blocks <- seqmat_blocks sm ;;
    let '(diff_a, diff_b) := unmatched_positions matching_blocks 0 0 [] [] in
    penalty <- foldM (add_penalty (seq1 self) (digit_multiplier self))
                     diff_a (PInt 0) ;;
    penalty <- foldM (add_penalty (seq2 self) (digit_multiplier self))
                     diff_b penalty ;;
    let matches := sum_lengths matching_blocks in
    ratio_percent matches penalty.

(** [seq.split()] on an attribute. *)
Definition py_split_obj (seq : pyobj) : result (list string) :=
  match seq with
  | PyStr s => Ok (py_split s)
  | _ => Raise AttributeError
  end.

(** [compute_sorted_token_score()]: the score, and the scorer it leaves
    behind, with its matcher dropped. *)
Definition compute_sorted_token_score (self : FuzzyScorer)
  : result (Z * FuzzyScorer) :=
  w1 <- py_split_obj (seq1 self) ;;
  w2 <- py_split_obj (seq2 self) ;;
  let t1 := PyStr (py_join (py_sorted w1)) in
  let t2 := PyStr (py_join (py_sorted w2)) in
  score <- compute_score
             {| seq1 := t1; seq2 := t2; seqmat := Some (t1, t2);
                digit_multiplier := digit_multiplier self;
                sorted_token := sorted_token self |} ;;
  Ok (score,
      {| seq1 := seq1 self; seq2 := seq2 self; seqmat := None;
         digit_multiplier := digit_multiplier self;
         sorted_token := sorted_token self |}).

(** [real_quick_ratio()] *)
Definition real_quick_ratio (self : FuzzyScorer) : result Z :=
  len1 <- py_len (seq1 self) ;;
  len2 <- py_len (seq2 self) ;;
  if ((len1 =? 0) && (len2 =? 0))%nat then Ok 100
  else quick_percent len1 len2.

(* =============================================================== *)
(** * c1_fuzz_matcher.py: FuzzyFundMatcher.find_cur_best *)

(** What [preproc_string] leaves in [choices_r] and its like: nothing
    ([None]), one string when there was a single name, an array of
    strings otherwise. *)
Inductive pyseq : Type :=
| SNone
| SScalar (s : string)
| SArray (l : list string).

(** The one-character strings of a string. *)
Fixpoint chars (s : string) : list string :=
  match s with
  | EmptyString => []
  | String c rest => String c EmptyString :: chars rest
  end.

(** [for x in xs] *)
Definition py_iter (xs : pyseq) : result (list string) :=
  match xs with
  | SNone => Raise TypeError
  | SScalar s => Ok (chars s)
  | SArray l => Ok l
  end.

(** [xs[valid]]: only an array takes an array as its index. *)
Definition np_mask (xs : pyseq) (valid : list bool) : result (list string) :=
  match xs with
  | SArray l => mask_select l valid
  | _ => Raise TypeError
  end.

(** One emitted match: [(name, weighted score, position, flag)]. *)
Definition pick : Type := (string * Z * Z * string)%type.

(** Where a block of [find_cur_best] leaves the function: it goes on with
    its variables, or it returns. *)
Inductive outcome (A : Type) : Type :=
| Continue (a : A)
| Return (r : option (list pick)).

Arguments Continue {A} a.
Arguments Return {A} r.

(** [try: body except handled: return None] *)
Definition try_except {A : Type} (handled : list exn)
    (body : result (outcome A)) : result (outcome A) :=
  match body with
  | Raise e =>
      if existsb (exn_eqb e) handled then Ok (Return None) else Raise e
  | Ok o => Ok o
  end.

(** The variables [rcr], [rcf] and [rpos]. *)
Record remaining : Type := mkRemaining {
  rcr : list string;
  rcf : list string;
  rpos : list Z
}.

(** Reading a local variable that may not have been assigned. *)
Definition read_local {A B : Type} (v : option A) (field : A -> B) : result B :=
  match v with
  | Some a => Ok (field a)
  | None => Raise UnboundLocalError
  end.

(** [for choice in rc: fus.set_choice(choice);
     valid.append(fus.real_quick_ratio() >= valid_threshold)] *)
Fixpoint quick_loop (fus : FuzzyScorer) (valid_threshold : pynum)
    (rc : list string) : result (list bool) :=
  match rc with
  | [] => Ok []
  | choice :: rest =>
      fus' <- set_choice fus (PyStr choice) ;;
      r <- real_quick_ratio fus' ;;
      valid <- quick_loop fus' valid_threshold rest ;;
      Ok (int_ge r valid_threshold :: valid)
  end.

(** [for choice in rc: fus.set_choice(choice);
     rsc.append(fus.compute_score())] *)
Fixpoint score_loop (fus : FuzzyScorer) (rc : list string) : result (list Z) :=
  match rc with
  | [] => Ok []
  | choice :: rest =>
      fus' <- set_choice fus (PyStr choice) ;;
      s <- compute_score fus' ;;
      rsc <- score_loop fus' rest ;;
      Ok (s :: rsc)
  end.

(** [for choice, cur in zip(rc, rsc)] of the tokenized re-scoring *)
Fixpoint token_loop (fus : FuzzyScorer) (half_valid_threshold : Z)
    (rc : list string) (rsc : list Z) : result (list Z) :=
  match rc, rsc with
  | choice :: rc', cur :: rsc' =>
      if cur =? 100 then
        rest <- token_loop fus half_valid_threshold rc' rsc' ;;
        Ok (100 :: rest)
      else if cur <? half_valid_threshold then
        rest <- token_loop fus half_valid_threshold rc' rsc' ;;
        Ok (0 :: rest)
      else
        fus' <- set_choice fus (PyStr choice) ;;
        s <- compute_score fus' ;;
        rest <- token_loop fus' half_valid_threshold rc' rsc' ;;
        Ok (s :: rest)
  | _, _ => Ok []
  end.

(** The tokenized re-scoring of a stage (lines 217-237 and 272-290): the
    best of both scores, and where the tokenized score is the larger. *)
Definition token_rescore (to_match : pyobj) (digit_multiplier : pynum)
    (half_valid_threshold : option Z) (rc : list string) (rsc : list Z)
  : result (list Z * list bool) :=
  fus <- FuzzyScorer_init to_match PyNone digit_multiplier true ;;
  half <- read_local half_valid_threshold (fun h => h) ;;
  rsc_token <- token_loop fus half rc rsc ;;
  Ok (np_maximum rsc rsc_token, np_gt rsc_token rsc).

(** The block QUICK COMPARISON, lines 167-198. *)
Definition quick_comparison_block (registrant fund : pyobj)
    (choices_r choices_f : pyseq) (match_pos : list Z)
    (valid_threshold digit_multiplier : pynum)
  : result (outcome (option remaining)) :=
  try_except [TypeError; IndexError]
    (fus <- FuzzyScorer_init registrant PyNone digit_multiplier false ;;
     cs <- py_iter choices_r ;;
     valid <- quick_loop fus valid_threshold cs ;;
     rcr1 <- np_mask choices_r valid ;;
     rcf1 <- np_mask choices_f valid ;;
     rpos1 <- mask_select match_pos valid ;;
     fus <- FuzzyScorer_init fund PyNone digit_multiplier false ;;
     valid <- quick_loop fus valid_threshold rcf1 ;;
     rcr2 <- mask_select rcr1 valid ;;
     rcf2 <- mask_select rcf1 valid ;;
     rpos2 <- mask_select rpos1 valid ;;
     Ok (Continue (Some (mkRemaining rcr2 rcf2 rpos2)))).

(** The variables after REGISTRANT MATCHING. *)
Record after_registrant : Type := mkAfterRegistrant {
  ar_rem : remaining;
  ar_rrsc : list Z;
  ar_improvement : option (list bool);
  ar_half : option Z
}.

(** The block REGISTRANT MATCHING, lines 204-253. *)
Definition registrant_block (registrant : pyobj)
    (valid_threshold digit_multiplier : pynum) (order_irrelevance : bool)
    (vars : option remaining) : result (outcome after_registrant) :=
  try_except [TypeError]
    (fus <- FuzzyScorer_init registrant PyNone digit_multiplier false ;;
     rcr0 <- read_local vars rcr ;;
     rrsc <- score_loop fus rcr0 ;;
     '(rrsc, improvement, half) <-
       (if order_irrelevance then
          third <- py_truediv valid_threshold (PInt 3) ;;
          half_valid_threshold <- py_int third ;;
          '(best, improvement) <-
            token_rescore registrant digit_multiplier
              (Some half_valid_threshold) rcr0 rrsc ;;
          Ok (best, Some improvement, Some half_valid_threshold)
        else Ok (rrsc, None, None)) ;;
     let valid := map (fun e => int_ge e valid_threshold) rrsc in
     if negb (existsb (fun v => v) valid) then Ok (Return None)
     else
       rcr1 <- mask_select rcr0 valid ;;
       rcf0 <- read_local vars rcf ;;
       rcf1 <- mask_select rcf0 valid ;;
       rrsc1 <- mask_select rrsc valid ;;
       rpos0 <- read_local vars rpos ;;
       rpos1 <- mask_select rpos0 valid ;;
       improvement1 <-
         (if order_irrelevance then
            imp <- read_local improvement (fun i => i) ;;
            imp1 <- mask_select imp valid ;;
            Ok (Some imp1)
          else Ok improvement) ;;
       Ok (Continue (mkAfterRegistrant (mkRemaining rcr1 rcf1 rpos1)
                       rrsc1 improvement1 half))).

(** The variables after FUND MATCHING. *)
Record after_fund : Type := mkAfterFund {
  af_rem : remaining;
  af_rrsc : list Z;
  af_rfsc : list Z;
  af_improvement : option (list bool)
}.

(** The block FUND MATCHING, lines 259-306. *)
Definition fund_block (fund : pyobj)
    (valid_threshold digit_multiplier : pynum) (order_irrelevance : bool)
    (vars : after_registrant) : result (outcome after_fund) :=
  try_except [TypeError]
    (fus <- FuzzyScorer_init fund PyNone digit_multiplier false ;;
     let rcf0 := rcf (ar_rem vars) in
     rfsc <- score_loop fus rcf0 ;;
     '(rfsc, improvement) <-
       (if order_irrelevance then
          '(best, improved) <-
            token_rescore fund digit_multiplier (ar_half vars) rcf0 rfsc ;;
          imp <- read_local (ar_improvement vars) (fun i => i) ;;
          Ok (best, Some (np_or imp improved))
        else Ok (rfsc, ar_improvement vars)) ;;
     let valid := map (fun e => int_ge e valid_threshold) rfsc in
     if negb (existsb (fun v => v) valid) then Ok (Return None)
     else
       rcr1 <- mask_select (rcr (ar_rem vars)) valid ;;
       rcf1 <- mask_select rcf0 valid ;;
       rrsc1 <- mask_select (ar_rrsc vars) valid ;;
       rfsc1 <- mask_select rfsc valid ;;
       rpos1 <- mask_select (rpos (ar_rem vars)) valid ;;
       improvement1 <-
         (if order_irrelevance then
            imp <- read_local improvement (fun i => i) ;;
            imp1 <- mask_select imp valid ;;
            Ok (Some imp1)
          else Ok improvement) ;;
       Ok (Continue (mkAfterFund (mkRemaining rcr1 rcf1 rpos1)
                       rrsc1 rfsc1 improvement1))).

(** [np.floor(np.sqrt(rrsc*rfsc)).astype(int)] *)
Fixpoint weighted_scores (rrsc rfsc : list Z) : list Z :=
  match rrsc, rfsc with
  | p :: rrsc', s :: rfsc' =>
      np_floor_sqrt (wrap64 (p * s)) :: weighted_scores rrsc' rfsc'
  | _, _ => []
  end.

(** The position [kth] of [np.argpartition], counted from the end when
    negative; [ValueError] outside the array. *)
Definition normalize_kth (kth : Z) (n : nat) : result nat :=
  let k := if kth <? 0 then kth + Z.of_nat n else kth in
  if (0 <=? k) && (k <? Z.of_nat n) then Ok (Z.to_nat k)
  else Raise ValueError.

(** The positions of the top [top_n] scores, best first (lines 317-323). *)
Definition top_positions (top_n : option Z) (scores_weighted : list Z)
  : result (list nat) :=
  match top_n with
  | Some n =>
      if Z.of_nat (List.length scores_weighted) >? n then
        kth <- normalize_kth (- n) (List.length scores_weighted) ;;
        let pos_top := py_slice_from (- n) (argpartition scores_weighted kth) in
        top_scores <- take_idx scores_weighted pos_top ;;
        ordered <- take_idx pos_top (argsort top_scores) ;;
        Ok (rev ordered)
      else Ok (rev (argsort scores_weighted))
  | None => Ok (rev (argsort scores_weighted))
  end.

(** [f'{r} : {f}'] *)
Definition label (r f : string) : string := (r ++ " : " ++ f)%string.

Fixpoint zip_picks (picks : list string) (scores : list Z) (pos : list Z)
    (flags : list string) : list pick :=
  match picks, scores, pos, flags with
  | p :: picks', s :: scores', i :: pos', f :: flags' =>
      (p, s, i, f) :: zip_picks picks' scores' pos' flags'
  | _, _, _, _ => []
  end.

Fixpoint zip_with {A B C : Type} (f : A -> B -> C) (xs : list A) (ys : list B)
  : list C :=
  match xs, ys with
  | x :: xs', y :: ys' => f x y :: zip_with f xs' ys'
  | _, _ => []
  end.

(** The block FINALIZE, lines 312-338. *)
Definition finalize_block (top_n : option Z) (order_irrelevance : bool)
    (vars : after_fund) : result (list pick) :=
  let scores_weighted := weighted_scores (af_rrsc vars) (af_rfsc vars) in
  pos_top <- top_positions top_n scores_weighted ;;
  rcr1 <- take_idx (rcr (af_rem vars)) pos_top ;;
  rcf1 <- take_idx (rcf (af_rem vars)) pos_top ;;
  let picks := zip_with label rcr1 rcf1 in
  scores1 <- take_idx scores_weighted pos_top ;;
  rpos1 <- take_idx (rpos (af_rem vars)) pos_top ;;
  let flag_m := repeat EmptyString (List.length pos_top) in
  flag_m <-
    (if order_irrelevance then
       imp <- read_local (af_improvement vars) (fun i => i) ;;
       imp1 <- take_idx imp pos_top ;;
       Ok (zip_with (fun (fl : string) (i : bool) =>
                       if i then "OR"%string else fl) flag_m imp1)
     else Ok flag_m) ;;
  Ok (zip_picks picks scores1 rpos1 flag_m).

(** [find_cur_best(registrant, fund, choices_r, choices_f, match_pos,
     top_n, valid_threshold, digit_multiplier, quick_comparison,
     order_irrelevance)].  The variables [rcr], [rcf] and [rpos] are
    assigned in the quick comparison only. *)
Definition find_cur_best (registrant fund : pyobj)
    (choices_r choices_f : pyseq) (match_pos : list Z) (top_n : option Z)
    (valid_threshold digit_multiplier : pynum)
    (quick_comparison order_irrelevance : bool)
  : result (option (list pick)) :=
  o1 <- (if quick_comparison
         then quick_comparison_block registrant fund choices_r choices_f
                match_pos valid_threshold digit_multiplier
         else Ok (Continue None)) ;;
  match o1 with
  | Return r => Ok r
  | Continue vars =>
      o2 <- registrant_block registrant valid_threshold digit_multiplier
              order_irrelevance vars ;;
      match o2 with
      | Return r => Ok r
      | Continue vars =>
          o3 <- fund_block fund valid_threshold digit_multiplier
                  order_irrelevance vars ;;
          match o3 with
          | Return r => Ok r
          | Continue vars =>
              r <- finalize_block top_n order_irrelevance vars ;;
              Ok (Some r)
          end
      end
  end.

(** [wrapper_find_cur_best(...)]: the function of one query. *)
Definition wrapper_find_cur_best (choices_r choices_f : pyseq)
    (match_pos : list Z) (top_n : option Z)
    (valid_threshold digit_multiplier : pynum)
    (quick_comparison order_irrelevance : bool)
  : pyobj * pyobj -> result (option (list pick)) :=
  fun regfund =>
    find_cur_best (fst regfund) (snd regfund) choices_r choices_f match_pos
      top_n valid_threshold digit_multiplier quick_comparison
      order_irrelevance.

(* =============================================================== *)
(** * f1_preproc_strings.py: preproc_string *)

(** The argument [strings]: one string, or a sequence of strings. *)
Inductive pyinput : Type :=
| InStr (s : string)
| InSeq (l : list string).

(** [len(strings)] *)
Definition input_len (strings : pyinput) : nat :=
  match strings with
  | InStr s => str_len s
  | InSeq l => List.length l
  end.

(** [s.split(sep=':', maxsplit=1)], completed with [''] when there is no
    colon. *)
Fixpoint split_colon (s : string) : string * string :=
  match s with
  | EmptyString => (EmptyString, EmptyString)
  | String c rest =>
      if Ascii.eqb c ":" then (EmptyString, rest)
      else let '(r, f) := split_colon rest in (String c r, f)
  end.

(** [re.sub(r'[^a-zA-Z\d\s]+', '', e)], on characters below U+0100:
    there [\d] is the digits 0 to 9, and [\s] is [isspace]. *)
Fixpoint keep_alnum_space (s : string) : string :=
  match s with
  | EmptyString => EmptyString
  | String c rest =>
      if isletter c || ((48 <=? code c) && (code c <=? 57))%N || isspace c
      then String c (keep_alnum_space rest)
      else keep_alnum_space rest
  end.

(** The longest run of whitespace at the head of a string, and the rest. *)
Fixpoint span_space (s : list ascii) : list ascii * list ascii :=
  match s with
  | c :: rest =>
      if isspace c then let '(w, r) := span_space rest in (c :: w, r)
      else ([], s)
  | [] => ([], [])
  end.

(** [re.sub(r'\s*[& ]\s*', ' ', e)]: a run of whitespace followed by an
    ampersand is replaced together with the ampersand and the whitespace
    after it; a run that holds a blank is replaced as a whole; anything
    else stays. *)
Fixpoint collapse_spaces_from (fuel : nat) (s : list ascii) : list ascii :=
  match fuel with
  | O => s
  | S fuel' =>
      match s with
      | [] => []
      | c :: tail =>
          let '(w, rest) := span_space s in
          match rest with
          | "&"%char :: rest' =>
              " "%char :: collapse_spaces_from fuel' (snd (span_space rest'))
          | _ =>
              if existsb (Ascii.eqb " ") w
              then " "%char :: collapse_spaces_from fuel' rest
              else c :: collapse_spaces_from fuel' tail
          end
      end
  end.

Definition collapse_spaces (s : string) : string :=
  let l := list_ascii_of_string s in
  string_of_list_ascii (collapse_spaces_from (List.length l) l).

(** [e.strip()] *)
Fixpoint lstrip (s : list ascii) : list ascii :=
  match s with
  | c :: rest => if isspace c then lstrip rest else s
  | [] => []
  end.

Definition py_strip (s : string) : string :=
  string_of_list_ascii
    (rev (lstrip (rev (lstrip (list_ascii_of_string s))))).

(** [' '.join([word for word in f.split() if word not in r.split()])] *)
Definition remove_words (r f : string) : string :=
  py_join (filter (fun word => negb (existsb (String.eqb word) (py_split r)))
             (py_split f)).

(** The array [np.array(st)], or its only element. *)
Definition array_or_scalar (st : list string) : pyseq :=
  match st with
  | [s] => SScalar s
  | _ => SArray st
  end.

(** [preproc_string(strings, trim_words, regex_sub, rem_reg_from_fund)];
    [None] is Python's [None]. *)
Definition preproc_string (strings : pyinput)
    (trim_words : option (list string))
    (regex_sub : option (list (string * string)))
    (rem_reg_from_fund : bool) : option (pyseq * pyseq) :=
  if (input_len strings =? 0)%nat then None
  else
    let strings := match strings with
                   | InStr s => [s]
                   | InSeq l => l
                   end in
    let strings := map lower strings in
    let splits := map split_colon strings in
    let st_r := map fst splits in
    let st_f := map snd splits in
    let trim st :=
      match trim_words with
      | Some ws =>
          fold_left
            (fun st trim_word =>
               map (re_sub ("\b" ++ trim_word ++ "\b") " ") st)%string
            ws st
      | None => st
      end in
    let st_r := trim st_r in
    let st_f := trim st_f in
    let subst st :=
      match regex_sub with
      | Some rs =>
          fold_left (fun st '(reg, sub) => map (re_sub reg sub) st) rs st
      | None => st
      end in
    let st_r := subst st_r in
    let st_f := subst st_f in
    let st_r := map keep_alnum_space st_r in
    let st_f := map keep_alnum_space st_f in
    let st_r := map collapse_spaces st_r in
    let st_f := map collapse_spaces st_f in
    let st_f := if rem_reg_from_fund
                then zip_with remove_words st_r st_f
                else st_f in
    let st_r := map py_strip st_r in
    let st_f := map py_strip st_f in
    Some (array_or_scalar st_r, array_or_scalar st_f).

(* =============================================================== *)
(** * c1_fuzz_matcher.py: class FuzzyFundMatcher *)

Record FuzzyFundMatcher : Type := mkFuzzyFundMatcher {
  to_matches : pyinput;
  choices : pyinput;
  to_matches_r : pyseq;
  to_matches_f : pyseq;
  choices_r : pyseq;
  choices_f : pyseq;
  match_pos : list Z
}.

(** [FuzzyFundMatcher(to_matches, choices, match_pos)]; the index of a
    pandas series of choices is passed as [match_pos].  A [match_pos]
    that is given is an array of identifiers: a plain Python list cannot
    be indexed by the masks of [find_cur_best], and is not modelled. *)
Definition FuzzyFundMatcher_init (to_matches choices : pyinput)
    (match_pos : option (list Z)) : FuzzyFundMatcher :=
  {| to_matches := to_matches;
     choices := choices;
     to_matches_r := SNone; to_matches_f := SNone;
     choices_r := SNone; choices_f := SNone;
     match_pos :=
       match match_pos with
       | Some p => p
       | None => map Z.of_nat (py_range 0 (input_len choices))
       end |}.

(** [[e.replace(':', ' ') for e in names]] *)
Fixpoint replace_colon (s : string) : string :=
  match s with
  | EmptyString => EmptyString
  | String c rest =>
      String (if Ascii.eqb c ":" then " "%char else c) (replace_colon rest)
  end.

Definition combine_names (names : pyinput) : pyinput :=
  InSeq (map replace_colon
           match names with
           | InStr s => chars s
           | InSeq l => l
           end).

(** [preproc(trim_words, regex_sub, rem_reg_from_fund, combine_reg_fund)]:
    the matcher after the call.  Unpacking the [None] of an empty input
    raises the [TypeError] that ends the method. *)
Definition preproc (self : FuzzyFundMatcher)
    (trim_words : option (list string))
    (regex_sub : option (list (string * string)))
    (rem_reg_from_fund combine_reg_fund : bool) : result FuzzyFundMatcher :=
  match regex_sub with
  | None => Raise TypeError
  | Some _ =>
      let tm := if combine_reg_fund then combine_names (to_matches self)
                else to_matches self in
      let ch := if combine_reg_fund then combine_names (choices self)
                else choices self in
      let self1 :=
        {| to_matches := tm; choices := ch;
           to_matches_r := to_matches_r self;
           to_matches_f := to_matches_f self;
           choices_r := choices_r self; choices_f := choices_f self;
           match_pos := match_pos self |} in
      match preproc_string tm trim_words regex_sub rem_reg_from_fund with
      | None => Ok self1
      | Some (tr, tf) =>
          let self2 :=
            {| to_matches := tm; choices := ch;
               to_matches_r := tr; to_matches_f := tf;
               choices_r := choices_r self; choices_f := choices_f self;
               match_pos := match_pos self |} in
          match preproc_string ch trim_words regex_sub rem_reg_from_fund with
          | None => Ok self2
          | Some (cr, cf) =>
              Ok {| to_matches := tm; choices := ch;
                    to_matches_r := tr; to_matches_f := tf;
                    choices_r := cr; choices_f := cf;
                    match_pos := match_pos self |}
          end
      end
  end.

(** [pool.map(find_func, reg_funds)] of the process pool. *)
Variable pool_map :
  (pyobj * pyobj -> result (option (list pick))) ->
  list (pyobj * pyobj) -> result (list (option (list pick))).

(** One entry of the output of [find_best]: [Match(to_match, matches)],
    or [None]. *)
Definition match_entry : Type := option (string * list pick).

Fixpoint finish_output (matches : list (option (list pick)))
    (rs fs : list string) : list match_entry :=
  match matches, rs, fs with
  | mat :: matches', registrant :: rs', fund :: fs' =>
      match mat with
      | Some (p :: ps) => Some (label registrant fund, p :: ps)
      | _ => None
      end :: finish_output matches' rs' fs'
  | _, _, _ => []
  end.

(** [find_best(top_n, valid_threshold, digit_multiplier,
     multi_processing, quick_comparison, order_irrelevance)] *)
Definition find_best (self : FuzzyFundMatcher) (top_n : option Z)
    (valid_threshold digit_multiplier : pynum)
    (multi_processing quick_comparison order_irrelevance : bool)
  : result (list match_entry) :=
  let find_func :=
    wrapper_find_cur_best (choices_r self) (choices_f self) (match_pos self)
      top_n valid_threshold digit_multiplier quick_comparison
      order_irrelevance in
  rs <- py_iter (to_matches_r self) ;;
  fs <- py_iter (to_matches_f self) ;;
  let reg_funds := zip_with (fun reg fund => (PyStr reg, PyStr fund)) rs fs in
  matches <- (if multi_processing then pool_map find_func reg_funds
              else mapM find_func reg_funds) ;;
  Ok (finish_output matches rs fs).

(* =============================================================== *)
(** * The values of the scores *)

(** The value [compute_score] returns on two strings, 0 if it raises. *)
Definition score_value (digit_multiplier : pynum) (choice to_match : string)
  : Z :=
  match compute_score (scorer_on choice to_match digit_multiplier false) with
  | Ok s => s
  | Raise _ => 0
  end.

(** The value [real_quick_ratio] returns on two strings. *)
Definition quick_value (choice to_match : string) : Z :=
  match real_quick_ratio (scorer_on choice to_match (PInt 1) false) with
  | Ok s => s
  | Raise _ => 0
  end.

(** The score of the two strings with their words sorted. *)
Definition token_value (digit_multiplier : pynum) (choice to_match : string)
  : Z :=
  score_value digit_multiplier (sort_tokens choice) (sort_tokens to_match).

End Engine.

Arguments Continue {A} a.
Arguments Return {A} r.

(* ================================================================= *)
(** * The vocabulary of the proofs *)

(** ** Floats as real numbers *)

(** The power of two with an integer exponent. *)
Definition bpow (e : Z) : R := powerRZ 2 e.

(** [v] is [m * 2^e] when the location is exact, and strictly between
    [m * 2^e] and [(m+1) * 2^e] otherwise. *)
Definition located (v : R) (m e : Z) (l : location) : Prop :=
  match l with
  | loc_Exact => v = (IZR m * bpow e)%R
  | loc_Inexact _ => (IZR m * bpow e < v < (IZR m + 1) * bpow e)%R
  end.

Definition fexp64 (e : Z) : Z := fexp Binary64.prec Binary64.emax e.

(** A mantissa at exponent [e] is normal when it has 53 digits, unless [e]
    is the smallest exponent. *)
Definition normal (m e : Z) : Prop := -1074 < e -> 2 ^ 52 <= m.

(** A mantissa and an exponent of the format. *)
Definition grid (mc ec : Z) : Prop := 0 <= mc < 2 ^ 53 /\ -1074 <= ec.

(** The real value of a finite float. *)
Definition B2R (x : spec_float) : R :=
  match x with
  | S754_finite s m e =>
      if s then (- (IZR (Z.pos m) * bpow e))%R else (IZR (Z.pos m) * bpow e)%R
  | _ => 0%R
  end.

(** A float that is [+0] or positive and finite, its exponent between
    [elo] and [ehi]. *)
Definition fin_nonneg (x : spec_float) (elo ehi : Z) : Prop :=
  match x with
  | S754_zero false => True
  | S754_finite false _ e => elo <= e <= ehi
  | _ => False
  end.

(** ** The scorer on two strings *)

Definition total_len (bs : list block) : nat :=
  fold_right (fun b acc => (block_len b + acc)%nat) 0%nat bs.

(** The unmatched positions of the two strings. *)
Definition unmatched (get_matching_blocks : string -> string -> list block)
    (a b : string) : list nat * list nat :=
  unmatched_positions (get_matching_blocks a b) 0 0 [] [].

(** The penalty [compute_score] adds up, for an integer multiplier. *)
Definition penalty_value (get_matching_blocks : string -> string -> list block)
    (d : Z) (a b : string) : Z :=
  penalty_of d a (rev (fst (unmatched get_matching_blocks a b)))
  + penalty_of d b (rev (snd (unmatched get_matching_blocks a b))).

(** A scorer that holds the string [q] to match, whatever its choice. *)
Definition ready (fus : FuzzyScorer) (q : string) (dm : pynum) (st : bool)
  : Prop :=
  seq2 fus = PyStr q
  /\ (exists m1, seqmat fus = Some (m1, PyStr q))
  /\ digit_multiplier fus = dm
  /\ sorted_token fus = st.

(** A string of fewer than [2^31] characters. *)
Definition short (s : string) : Prop := Z.of_nat (str_len s) < 2 ^ 31.

(** ** The funnel on a pool of candidates *)

(** What the token loop appends for a candidate. *)
Definition token_entry (half raw tok : Z) : Z :=
  if raw =? 100 then 100 else if raw <? half then 0 else tok.

(** A candidate of the pool: registrant, fund and position. *)
Definition candidate : Type := (string * string * Z)%type.
Definition cand_r (c : candidate) : string := fst (fst c).
Definition cand_f (c : candidate) : string := snd (fst c).
Definition cand_pos (c : candidate) : Z := snd c.

(** The score of a stage: the raw score when it is 100 or below
    [half], the better of the raw and the tokenized score otherwise. *)
Definition stage_score (order_irrelevance : bool) (half raw tok : Z) : Z :=
  if order_irrelevance
  then (if (raw =? 100) || (raw <? half) then raw else Z.max raw tok)
  else raw.

(** Whether the tokenized score was computed and is the larger one. *)
Definition stage_improved (half raw tok : Z) : bool :=
  negb (raw =? 100) && negb (raw <? half) && (raw <? tok).

(** [int(valid_threshold/3)] for an integer threshold. *)
Definition third_of (t : Z) : result Z :=
  third <- py_truediv (PInt t) (PInt 3) ;;
  py_int third.

Definition rem_of (l : list candidate) : remaining :=
  mkRemaining (map cand_r l) (map cand_f l) (map cand_pos l).

Definition short_pool (pool : list candidate) : Prop :=
  Forall (fun c => short (cand_r c) /\ short (cand_f c)) pool.

(** The default candidate of an empty pool. *)
Definition no_candidate : candidate := (EmptyString, EmptyString, 0).

Section Pool.

Variable get_matching_blocks : string -> string -> list block.

(** The query [qr : qf], the threshold [t], the multiplier [d] and the
  switch [order_irrelevance]. *)
Variables (qr qf : string) (t d : Z) (oi : bool).

Definition raw_r (c : candidate) : Z :=
score_value get_matching_blocks (PInt d) (cand_r c) qr.
Definition tok_r (c : candidate) : Z :=
token_value get_matching_blocks (PInt d) (cand_r c) qr.
Definition raw_f (c : candidate) : Z :=
score_value get_matching_blocks (PInt d) (cand_f c) qf.
Definition tok_f (c : candidate) : Z :=
token_value get_matching_blocks (PInt d) (cand_f c) qf.

Definition primary_score (c : candidate) : Z :=
stage_score oi (t / 3) (raw_r c) (tok_r c).
Definition secondary_score (c : candidate) : Z :=
stage_score oi (t / 3) (raw_f c) (tok_f c).

Definition improved_r (c : candidate) : bool :=
stage_improved (t / 3) (raw_r c) (tok_r c).
Definition improved_f (c : candidate) : bool :=
stage_improved (t / 3) (raw_f c) (tok_f c).
Definition improved (c : candidate) : bool := improved_r c || improved_f c.

Definition quick_r (c : candidate) : bool := t <=? quick_value (cand_r c) qr.
Definition quick_f (c : candidate) : bool := t <=? quick_value (cand_f c) qf.
Definition keep_r (c : candidate) : bool := t <=? primary_score c.
Definition keep_f (c : candidate) : bool := t <=? secondary_score c.

(** The candidates that pass the four filters, in the order of the pool. *)
Definition survivors (pool : list candidate) : list candidate :=
filter keep_f (filter keep_r (filter quick_f (filter quick_r pool))).

(** The weighted score of a survivor, and the match emitted for it. *)
Definition weighted (c : candidate) : Z :=
np_floor_sqrt (wrap64 (primary_score c * secondary_score c)).

Definition emit (c : candidate) : pick :=
(label (cand_r c) (cand_f c), weighted c, cand_pos c,
 if oi && improved c then "OR"%string else EmptyString).

End Pool.

(** ** The positions of the best scores *)

(** What [top_positions] promises: distinct positions of the array, as
    many as asked for, their scores in descending order and no smaller
    than the scores left out. *)
Definition top_spec (top_n : option Z) (sw : list Z) (pos : list nat)
  : Prop :=
  NoDup pos
  /\ Forall (fun i => (i < List.length sw)%nat) pos
  /\ List.length pos
     = match top_n with
       | Some n => Nat.min (List.length sw) (Z.to_nat n)
       | None => List.length sw
       end
  /\ StronglySorted Z.ge (map (value_at sw) pos)
  /\ (forall i j, (i < List.length sw)%nat -> ~ In i pos -> In j pos ->
                  value_at sw i <= value_at sw j).

(** ** Blocks that follow each other *)

(** The blocks of [bs] follow each other from [(cur_a, cur_b)] on and end
    by [(hi_a, hi_b)]. *)
Fixpoint chained (cur_a cur_b hi_a hi_b : nat) (bs : list block) : Prop :=
  match bs with
  | [] => (cur_a <= hi_a)%nat /\ (cur_b <= hi_b)%nat
  | (i, j, k) :: rest =>
      (cur_a <= i)%nat /\ (cur_b <= j)%nat
      /\ chained (i + k) (j + k) hi_a hi_b rest
  end.

(** A block inside [a[alo:ahi]] and [b[blo:bhi]]. *)
Definition block_within (alo ahi blo bhi : nat) (bl : block) : Prop :=
  let '(i, j, k) := bl in
  (alo <= i)%nat /\ (blo <= j)%nat /\ (i + k <= ahi)%nat /\ (j + k <= bhi)%nat.

(* ================================================================= *)
(** * The statements of the specification, and the inputs of the examples *)

(** The positions of a string of length [n] that no block covers, on the
    side of [a] and on the side of [b]. *)
Definition covers_a (p : nat) (bl : block) : bool :=
  let '(i, _, k) := bl in ((i <=? p) && (p <? i + k))%nat.

Definition covers_b (p : nat) (bl : block) : bool :=
  let '(_, j, k) := bl in ((j <=? p) && (p <? j + k))%nat.

Definition uncovered (covers : nat -> block -> bool) (bs : list block)
    (n : nat) : list nat :=
  filter (fun p => negb (existsb (covers p) bs)) (seq 0 n).

(** The score as the specification states it: 100 for two empty strings,
    0 when one is empty, and otherwise [floor(100 * matches / (matches +
    penalty))], the penalty counting every uncovered position, a digit for
    [d] and any other character for 1. *)
Definition spec_compute_score
    (get_matching_blocks : string -> string -> list block)
    (d : Z) (a b : string) : Z :=
  if is_empty a && is_empty b then 100
  else if is_empty a || is_empty b then 0
  else
    let bs := get_matching_blocks a b in
    let matches := sum_lengths bs in
    let penalty :=
      penalty_of d a (uncovered covers_a bs (str_len a))
      + penalty_of d b (uncovered covers_b bs (str_len b)) in
    100 * matches / (matches + penalty).

(** The quick ratio as the specification states it. *)
Definition spec_quick_ratio (a b : string) : Z :=
  if is_empty a && is_empty b then 100
  else 100 * (2 * Z.of_nat (Nat.min (str_len a) (str_len b)))
       / Z.of_nat (str_len a + str_len b).

(** The blocks of [(a, b)] read as blocks of [(b, a)]. *)
Definition mirror (bs : list block) : list block :=
  map (fun bl : block => let '(i, j, k) := bl in (j, i, k)) bs.

(** [n] times the character [c]. *)
Definition chars_of (c : ascii) (n : nat) : string :=
  string_of_list_ascii (repeat c n).

(** The float [0.1]. *)
Definition tenth : spec_float :=
  Eval vm_compute in Binary64.div (Binary64.of_Z 1) (Binary64.of_Z 10).

(** A caller that supplies no regular expression: [re.sub] is never
    called, and any function stands for it. *)
Definition no_regex (pattern repl s : string) : string := s.

(** [pool.map] returns the results in the order of its inputs. *)
Definition ordered_pool_map
    (f : pyobj * pyobj -> result (option (list pick)))
    (l : list (pyobj * pyobj)) : result (list (option (list pick))) :=
  mapM f l.

(** A matcher after [preproc()] with no stop words and no regular
    expressions, and [find_best] on it with the aligner of the
    specification and the stable sort. *)
Definition prepared (to_matches choices : pyinput) : result FuzzyFundMatcher :=
  preproc no_regex (FuzzyFundMatcher_init to_matches choices None)
    None (Some []) false false.

Definition run_find_best (to_matches choices : pyinput) (top_n : option Z)
    (valid_threshold digit_multiplier : pynum)
    (multi_processing quick_comparison order_irrelevance : bool)
  : result (list match_entry) :=
  self <- prepared to_matches choices ;;
  find_best spec_matching_blocks stable_argsort sorting_argpartition
    ordered_pool_map self top_n valid_threshold digit_multiplier
    multi_processing quick_comparison order_irrelevance.

(** [find_cur_best] with the aligner of the specification and the stable
    sort. *)
Definition run_find_cur_best (registrant fund : pyobj)
    (pool : list candidate) (top_n : option Z)
    (valid_threshold digit_multiplier : pynum)
    (quick_comparison order_irrelevance : bool)
  : result (option (list pick)) :=
  find_cur_best spec_matching_blocks stable_argsort sorting_argpartition
    registrant fund (SArray (map cand_r pool)) (SArray (map cand_f pool))
    (map cand_pos pool) top_n valid_threshold digit_multiplier
    quick_comparison order_irrelevance.

(** The weighted score of an emitted match, and its flag. *)
Definition pick_score (p : pick) : Z := snd (fst (fst p)).
Definition pick_flag (p : pick) : string := snd p.
Definition pick_pos (p : pick) : Z := snd (fst p).

(** Whether a result is anything but the error [InvalidConfig]. *)
Definition no_config_error {A : Type} (r : result A) : bool :=
  match r with
  | Raise InvalidConfig => false
  | _ => true
  end.

(* ================================================================= *)
(** * Calls of the scorer and of the matcher, as a caller writes them *)

(** [FuzzyScorer(to_match, choice, digit_multiplier).compute_score()] *)
Definition score_of (get_matching_blocks : string -> string -> list block)
    (to_match choice : pyobj) (digit_multiplier : pynum) : result Z :=
  fus <- FuzzyScorer_init to_match choice digit_multiplier false ;;
  compute_score get_matching_blocks fus.

(** [FuzzyScorer(to_match, choice, digit_multiplier).real_quick_ratio()] *)
Definition quick_of (to_match choice : pyobj) (digit_multiplier : pynum)
  : result Z :=
  fus <- FuzzyScorer_init to_match choice digit_multiplier false ;;
  real_quick_ratio fus.

(** [FuzzyScorer(to_match, choice,
     digit_multiplier).compute_sorted_token_score()] *)
Definition token_score_of
    (get_matching_blocks : string -> string -> list block)
    (to_match choice : pyobj) (digit_multiplier : pynum) : result Z :=
  fus <- FuzzyScorer_init to_match choice digit_multiplier false ;;
  '(score, _) <- compute_sorted_token_score get_matching_blocks fus ;;
  Ok score.

(** The blocks of a string aligned with itself in one piece. *)
Definition one_block (s : string) : list block :=
  [(0, 0, str_len s); (str_len s, str_len s, 0)]%nat.

(** The strings an attribute of the matcher holds. *)
Definition pyseq_strings (xs : pyseq) : list string :=
  match xs with
  | SNone => []
  | SScalar s => [s]
  | SArray l => l
  end.

(** A field that is not a string: [None], or the NaN of a missing cell. *)
Definition not_a_string (o : pyobj) : bool :=
  match o with
  | PyStr _ => false
  | _ => true
  end.

(** A field that is a short string, or no string at all. *)
Definition short_field (o : pyobj) : Prop :=
  match o with
  | PyStr s => short s
  | _ => True
  end.

(** The candidates of the pool whose two raw scores reach the threshold. *)
Definition raw_matches (get_matching_blocks : string -> string -> list block)
    (qr qf : string) (t d : Z) (pool : list candidate) : list candidate :=
  filter (fun c => (t <=? raw_r get_matching_blocks qr d c)
                   && (t <=? raw_f get_matching_blocks qf d c)) pool.

(** The entry [find_best] writes for a query, from what [find_cur_best]
    gave for it: the name of the query with its matches, or [None] when
    there are none. *)
Definition query_entry (registrant fund : string)
    (found : result (option (list pick))) : match_entry :=
  match found with
  | Ok (Some (p :: ps)) => Some (label registrant fund, p :: ps)
  | _ => None
  end.

(** A block of [find_cur_best] that returns, returns [None]. *)
Definition returns_none {A : Type} (m : result (outcome A)) : Prop :=
  forall r, m = Ok (Return r) -> r = None.

(* ================================================================= *)
(** * Words and characters of a name *)

(** Every character of a string passes a test. *)
Fixpoint all_chars (p : ascii -> bool) (s : string) : bool :=
  match s with
  | EmptyString => true
  | String c rest => p c && all_chars p rest
  end.

Definition nonspace (c : ascii) : bool := negb (isspace c).

(** A word, as [split] makes them: not empty, and free of whitespace. *)
Definition is_word (w : string) : bool :=
  negb (is_empty w) && all_chars nonspace w.

(** The order of [sorted] on words: [a] is not after [b]. *)
Definition word_le (a b : string) : Prop := String.ltb b a = false.

(** The characters below U+0100 that the pattern [[a-zA-Z\d\s]] matches,
    which are those [preproc_string] keeps: ASCII letters, the digits 0 to
    9 (the only decimal digits below U+0100), and whitespace. *)
Definition name_char (c : ascii) : bool :=
  isletter c || ((48 <=? code c) && (code c <=? 57))%N || isspace c.

Definition head_space (l : list ascii) : bool :=
  match l with
  | c :: _ => isspace c
  | [] => false
  end.

(** No whitespace at either end. *)
Definition trimmed (s : string) : bool :=
  negb (head_space (list_ascii_of_string s))
  && negb (head_space (rev (list_ascii_of_string s))).

Definition clean (s : string) : bool := all_chars name_char s && trimmed s.

(** A word that is none of [words]. *)
Definition not_among (words : list string) (word : string) : bool :=
  negb (existsb (String.eqb word) words).

(** Candidates that are no array of names: [None], the single string
    [preproc_string] returns for one name, or an empty array. *)
Definition no_pool (xs : pyseq) : bool :=
  match xs with
  | SArray (_ :: _) => false
  | _ => true
  end.

(** No upper-case ASCII letter. *)
Definition not_upper (c : ascii) : bool :=
  negb ((65 <=? code c) && (code c <=? 90))%N.

(** A call of [preproc_string] with no stop word and no regular
    expression. *)
Definition no_substitution (trim_words : option (list string))
    (regex_sub : option (list (string * string))) : bool :=
  match trim_words, regex_sub with
  | (None | Some []), (None | Some []) => true
  | _, _ => false
  end.

(* ================================================================= *)
(** * Numbers of either kind as multiplier and as threshold *)

(** [v] with respect to the mantissa [m] at exponent [e], with the side of
    the midpoint: on [m * 2^e], below, on or above [(m + 1/2) * 2^e]. *)
Definition placed (v : R) (m e : Z) (l : location) : Prop :=
  match l with
  | loc_Exact => v = (IZR m * bpow e)%R
  | loc_Inexact Lt => (IZR m * bpow e < v < (IZR m + / 2) * bpow e)%R
  | loc_Inexact Eq => v = ((IZR m + / 2) * bpow e)%R
  | loc_Inexact Gt => ((IZR m + / 2) * bpow e < v < (IZR m + 1) * bpow e)%R
  end.

(** A float that is [+0], positive and finite with an exponent of the
    format, or [+inf]. *)
Definition nonneg_float (x : spec_float) : Prop :=
  match x with
  | S754_zero false => True
  | S754_finite false m e => -1074 <= e
  | S754_infinity false => True
  | _ => False
  end.

(** A float that is positive: finite with a mantissa and an exponent of
    the format, or [+inf]. *)
Definition pos_float (x : spec_float) : Prop :=
  match x with
  | S754_finite false m e => grid (Z.pos m) e
  | S754_infinity false => True
  | _ => False
  end.

(** A penalty after [n] unmatched characters, for a float multiplier: the
    [int] [n] as long as no digit was met, a positive float afterwards. *)
Definition penalty_inv (n : nat) (p : pynum) : Prop :=
  match p with
  | PInt k => k = Z.of_nat n
  | PFloat g => pos_float g
  end.

(** The number of characters of a list of words joined by one space,
    plus one. *)
Definition join_cost (ws : list string) : nat :=
  fold_right (fun w acc => (str_len w + 1 + acc)%nat) 0%nat ws.

(** [digit_multiplier > 0]: an [int] of at least 1, or a positive float
    of the format, [+inf] included. *)
Definition multiplier_ok (dm : pynum) : bool :=
  match dm with
  | PInt d => 1 <=? d
  | PFloat (S754_finite false m e) =>
      bounded Binary64.prec Binary64.emax m e
  | PFloat (S754_infinity false) => true
  | PFloat _ => false
  end.

(** [0 <= valid_threshold <= 100]: an [int] or a float of the format. *)
Definition threshold_ok (T : pynum) : bool :=
  match T with
  | PInt t => (0 <=? t) && (t <=? 100)
  | PFloat (S754_zero _) => true
  | PFloat (S754_finite false m e) =>
      bounded Binary64.prec Binary64.emax m e && int_ge 100 T
  | PFloat _ => false
  end.

(** [int(valid_threshold/3)], and its value, 0 if it raises. *)
Definition third_of_num (T : pynum) : result Z :=
  third <- py_truediv T (PInt 3) ;;
  py_int third.

Definition half_of (T : pynum) : Z :=
  match third_of_num T with
  | Ok h => h
  | Raise _ => 0
  end.

(** [t < z] for a number [t] and an [int] [z], compared exactly. *)
Definition num_lt (T : pynum) (z : Z) : bool :=
  match T with
  | PInt t => t <? z
  | PFloat f =>
      match Binary64.compare_Z z f with
      | Some Gt => true
      | _ => false
      end
  end.

(** [h] is the integer part of the third of [T]:
    [3 * h <= T < 3 * h + 3]. *)
Definition floor_third (T : pynum) (h : Z) : Prop :=
  num_lt T (3 * h) = false /\ num_lt T (3 * h + 3) = true.

(** The floats [2.5] and [92.5]. *)
Definition float_2_5 : spec_float :=
  Eval vm_compute in Binary64.div (Binary64.of_Z 5) (Binary64.of_Z 2).

Definition float_92_5 : spec_float :=
  Eval vm_compute in Binary64.div (Binary64.of_Z 185) (Binary64.of_Z 2).

(** ** The funnel on a pool, for any multiplier and threshold *)

Module Num.

Section Pool.

Variable get_matching_blocks : string -> string -> list block.

(** The query [qr : qf], the threshold [T], the multiplier [dm] and
    the switch [order_irrelevance]. *)
Variables (qr qf : string) (T dm : pynum) (oi : bool).

Definition raw_r (c : candidate) : Z :=
  score_value get_matching_blocks dm (cand_r c) qr.
Definition tok_r (c : candidate) : Z :=
  token_value get_matching_blocks dm (cand_r c) qr.
Definition raw_f (c : candidate) : Z :=
  score_value get_matching_blocks dm (cand_f c) qf.
Definition tok_f (c : candidate) : Z :=
  token_value get_matching_blocks dm (cand_f c) qf.

Definition primary_score (c : candidate) : Z :=
  stage_score oi (half_of T) (raw_r c) (tok_r c).
Definition secondary_score (c : candidate) : Z :=
  stage_score oi (half_of T) (raw_f c) (tok_f c).

Definition improved_r (c : candidate) : bool :=
  stage_improved (half_of T) (raw_r c) (tok_r c).
Definition improved_f (c : candidate) : bool :=
  stage_improved (half_of T) (raw_f c) (tok_f c).
Definition improved (c : candidate) : bool :=
  improved_r c || improved_f c.

Definition quick_r (c : candidate) : bool :=
  int_ge (quick_value (cand_r c) qr) T.
Definition quick_f (c : candidate) : bool :=
  int_ge (quick_value (cand_f c) qf) T.
Definition keep_r (c : candidate) : bool := int_ge (primary_score c) T.
Definition keep_f (c : candidate) : bool := int_ge (secondary_score c) T.

(** The candidates that pass the four filters, in the order of the
    pool. *)
Definition survivors (pool : list candidate) : list candidate :=
  filter keep_f (filter keep_r (filter quick_f (filter quick_r pool))).

(** The weighted score of a survivor, and the match emitted for it. *)
Definition weighted (c : candidate) : Z :=
  np_floor_sqrt (wrap64 (primary_score c * secondary_score c)).

Definition emit (c : candidate) : pick :=
  (label (cand_r c) (cand_f c), weighted c, cand_pos c,
   if oi && improved c then "OR"%string else EmptyString).

End Pool.

End Num.

(* ================================================================= *)
(** * Properties *)

(** * Rounding of binary64 operations *)

Lemma bpow_gt_0 (e : Z) : (0 < bpow e)%R.
Proof. apply powerRZ_lt; lra. Qed.

Lemma bpow_plus (a b : Z) : bpow (a + b) = (bpow a * bpow b)%R.
Proof. apply powerRZ_add; lra. Qed.

Lemma bpow_0 : bpow 0 = 1%R.
Proof. reflexivity. Qed.

Lemma bpow_1 : bpow 1 = 2%R.
Proof. unfold bpow; simpl; lra. Qed.

Lemma bpow_succ (e : Z) : bpow (e + 1) = (2 * bpow e)%R.
Proof. rewrite bpow_plus, bpow_1; lra. Qed.

Lemma bpow_IZR (k : Z) : 0 <= k -> bpow k = IZR (2 ^ k).
Proof.
  intros Hk. unfold bpow.
  rewrite <- (Z2Nat.id k) by assumption.
  rewrite <- pow_powerRZ, <- pow_IZR. reflexivity.
Qed.

Lemma bpow_le (a b : Z) : a <= b -> (bpow a <= bpow b)%R.
Proof.
  intros H. replace b with (a + (b - a)) by lia.
  rewrite bpow_plus, (bpow_IZR (b - a)) by lia.
  assert (1 <= 2 ^ (b - a)) by (apply Z.pow_le_mono_r with (b := 0) (c := b - a); lia).
  apply IZR_le in H0. pose proof (bpow_gt_0 a). nra.
Qed.

Lemma bpow_lt (a b : Z) : a < b -> (bpow a < bpow b)%R.
Proof.
  intros H. replace b with (a + 1 + (b - a - 1)) by lia.
  rewrite bpow_plus, bpow_succ.
  pose proof (bpow_le 0 (b - a - 1) ltac:(lia)) as H1. rewrite bpow_0 in H1.
  pose proof (bpow_gt_0 a). nra.
Qed.

(** ** Number of binary digits *)

Lemma digits2_pos_bounds (p : positive) :
  2 ^ (Z.pos (digits2_pos p) - 1) <= Z.pos p < 2 ^ Z.pos (digits2_pos p).
Proof.
  induction p as [p IH | p IH |]; simpl digits2_pos.
  - rewrite Pos2Z.inj_succ.
    replace (Z.succ (Z.pos (digits2_pos p)) - 1)
      with (Z.succ (Z.pos (digits2_pos p) - 1)) by lia.
    rewrite !Z.pow_succ_r by lia. lia.
  - rewrite Pos2Z.inj_succ.
    replace (Z.succ (Z.pos (digits2_pos p)) - 1)
      with (Z.succ (Z.pos (digits2_pos p) - 1)) by lia.
    rewrite !Z.pow_succ_r by lia. lia.
  - simpl. lia.
Qed.

Lemma Zdigits2_nonneg (m : Z) : 0 <= Zdigits2 m.
Proof. destruct m; simpl; lia. Qed.

Lemma Zdigits2_bounds (m : Z) :
  0 < m -> 2 ^ (Zdigits2 m - 1) <= m < 2 ^ Zdigits2 m.
Proof.
  destruct m as [| p | p]; try lia. intros _. apply digits2_pos_bounds.
Qed.

Lemma Zdigits2_unique (m d : Z) :
  2 ^ (d - 1) <= m < 2 ^ d -> 0 < m -> Zdigits2 m = d.
Proof.
  intros [Hlo Hhi] Hm.
  destruct (Zdigits2_bounds m Hm) as [Hlo' Hhi'].
  pose proof (Zdigits2_nonneg m) as Hn.
  assert (Hd : 0 <= d).
  { destruct (Z_lt_le_dec d 0) as [Hneg | ]; [| assumption].
    rewrite (Z.pow_neg_r 2 d) in Hhi by assumption. lia. }
  destruct (Z.lt_trichotomy (Zdigits2 m) d) as [Hlt | [Heq | Hgt]]; [| assumption |].
  - assert (2 ^ Zdigits2 m <= 2 ^ (d - 1)) by (apply Z.pow_le_mono_r; lia). lia.
  - assert (2 ^ d <= 2 ^ (Zdigits2 m - 1)) by (apply Z.pow_le_mono_r; lia). lia.
Qed.

Lemma Zdigits2_ge (m d : Z) : 0 <= d -> 2 ^ d <= m -> d + 1 <= Zdigits2 m.
Proof.
  intros Hd Hm.
  assert (0 < m) by (pose proof (Z.pow_pos_nonneg 2 d); lia).
  destruct (Zdigits2_bounds m H) as [_ Hhi].
  destruct (Z_lt_le_dec d (Zdigits2 m)); [lia |].
  assert (2 ^ Zdigits2 m <= 2 ^ d) by (apply Z.pow_le_mono_r; lia). lia.
Qed.

Lemma Zdigits2_div_pow2 (m k : Z) :
  0 < m -> 0 <= k -> k < Zdigits2 m -> Zdigits2 (m / 2 ^ k) = Zdigits2 m - k.
Proof.
  intros Hm Hk Hlt.
  destruct (Zdigits2_bounds m Hm) as [Hlo Hhi].
  assert (Hp : 0 < 2 ^ k) by (apply Z.pow_pos_nonneg; lia).
  assert (H1 : 2 ^ (Zdigits2 m - 1) = 2 ^ (Zdigits2 m - k - 1) * 2 ^ k).
  { rewrite <- Z.pow_add_r by lia. f_equal. lia. }
  assert (H2 : 2 ^ Zdigits2 m = 2 ^ (Zdigits2 m - k) * 2 ^ k).
  { rewrite <- Z.pow_add_r by lia. f_equal. lia. }
  assert (Hq1 : 2 ^ (Zdigits2 m - k - 1) <= m / 2 ^ k).
  { apply Z.div_le_lower_bound; lia. }
  assert (Hq2 : m / 2 ^ k < 2 ^ (Zdigits2 m - k)).
  { apply Z.div_lt_upper_bound; lia. }
  apply Zdigits2_unique.
  - split; [exact Hq1 | exact Hq2].
  - pose proof (Z.pow_pos_nonneg 2 (Zdigits2 m - k - 1)). lia.
Qed.

Lemma Zdigits2_div_pow2_zero (m k : Z) :
  0 <= m -> Zdigits2 m <= k -> m / 2 ^ k = 0.
Proof.
  intros Hm Hk.
  destruct (Z.eq_dec m 0) as [-> | Hne]; [apply Z.div_0_l; pose proof (Z.pow_pos_nonneg 2 k); pose proof (Zdigits2_nonneg 0); simpl in *; lia |].
  assert (Hpos : 0 < m) by lia.
  destruct (Zdigits2_bounds m Hpos) as [_ Hhi].
  pose proof (Zdigits2_nonneg m).
  assert (2 ^ Zdigits2 m <= 2 ^ k) by (apply Z.pow_le_mono_r; lia).
  apply Z.div_small. lia.
Qed.

(** ** Where a real number lies with respect to a mantissa *)

Lemma IZR_xO (p : positive) : IZR (Z.pos p~0) = (2 * IZR (Z.pos p))%R.
Proof. rewrite Pos2Z.inj_xO, mult_IZR. reflexivity. Qed.

Lemma IZR_xI (p : positive) : IZR (Z.pos p~1) = (2 * IZR (Z.pos p) + 1)%R.
Proof. rewrite Pos2Z.inj_xI, plus_IZR, mult_IZR. reflexivity. Qed.

Lemma shr_1_located (v : R) (mrs : shr_record) (e : Z) :
  0 <= shr_m mrs ->
  located v (shr_m mrs) e (loc_of_shr_record mrs) ->
  0 <= shr_m (shr_1 mrs)
  /\ shr_m (shr_1 mrs) = shr_m mrs / 2
  /\ located v (shr_m (shr_1 mrs)) (e + 1) (loc_of_shr_record (shr_1 mrs)).
Proof.
  destruct mrs as [m r s]. simpl shr_m. intros Hm Hloc.
  pose proof (bpow_gt_0 e) as Hb.
  destruct m as [| p | p]; [| | lia].
  - (* m = 0 *)
    split; [simpl; lia |]. split; [reflexivity |].
    destruct r, s; simpl in *; rewrite ?bpow_succ in *; lra.
  - destruct p as [p | p |].
    + split; [simpl; lia |]. split.
      * simpl shr_m. rewrite Pos2Z.inj_xI.
        apply Z.div_unique with (r := 1); lia.
      * destruct r, s; simpl in *;
          rewrite ?bpow_succ, ?(IZR_xI p) in *; lra.
    + split; [simpl; lia |]. split.
      * simpl shr_m. rewrite Pos2Z.inj_xO.
        apply Z.div_unique with (r := 0); lia.
      * destruct r, s; simpl in *;
          rewrite ?bpow_succ, ?(IZR_xO p) in *; lra.
    + split; [simpl; lia |]. split; [reflexivity |].
      destruct r, s; simpl in *;
        rewrite ?bpow_succ in *; lra.
Qed.

Lemma iter_pos_nat {A : Type} (f : A -> A) (p : positive) (x : A) :
  iter_pos f p x = Nat.iter (Pos.to_nat p) f x.
Proof.
  revert x. induction p as [p IH | p IH |]; intros x; simpl iter_pos.
  - rewrite !IH, Pos2Nat.inj_xI.
    replace (S (2 * Pos.to_nat p)) with (Pos.to_nat p + (Pos.to_nat p + 1))%nat by lia.
    rewrite !Nat.iter_add. simpl. reflexivity.
  - rewrite !IH, Pos2Nat.inj_xO.
    replace (2 * Pos.to_nat p)%nat with (Pos.to_nat p + Pos.to_nat p)%nat by lia.
    rewrite Nat.iter_add. reflexivity.
  - reflexivity.
Qed.

Lemma shr_iter_located (v : R) (mrs : shr_record) (e : Z) (n : nat) :
  0 <= shr_m mrs ->
  located v (shr_m mrs) e (loc_of_shr_record mrs) ->
  let mrs' := Nat.iter n shr_1 mrs in
  0 <= shr_m mrs'
  /\ shr_m mrs' = shr_m mrs / 2 ^ Z.of_nat n
  /\ located v (shr_m mrs') (e + Z.of_nat n) (loc_of_shr_record mrs').
Proof.
  intros Hm Hloc. induction n as [| n IH].
  - simpl. rewrite Z.div_1_r, Z.add_0_r. auto.
  - destruct IH as (H0 & Hdiv & Hl).
    cbn zeta. rewrite Nat.iter_succ.
    destruct (shr_1_located v _ _ H0 Hl) as (H0' & Hdiv' & Hl').
    split; [exact H0' |]. split.
    + rewrite Hdiv', Hdiv, Nat2Z.inj_succ, Z.pow_succ_r by lia.
      rewrite Z.div_div by (try apply Z.pow_pos_nonneg; lia).
      f_equal. lia.
    + rewrite Nat2Z.inj_succ.
      replace (e + Z.succ (Z.of_nat n)) with (e + Z.of_nat n + 1) by lia.
      exact Hl'.
Qed.

Lemma loc_of_shr_record_of_loc (v : R) (m e : Z) (l : location) :
  located v m e l ->
  located v m e (loc_of_shr_record (shr_record_of_loc m l)).
Proof. destruct l as [| []]; simpl; auto. Qed.

Lemma shr_m_record_of_loc (m : Z) (l : location) :
  shr_m (shr_record_of_loc m l) = m.
Proof. destruct l as [| []]; reflexivity. Qed.

Lemma loc_of_record_of_loc_exact (m : Z) (l : location) :
  loc_of_shr_record (shr_record_of_loc m l) = loc_Exact -> l = loc_Exact.
Proof. destruct l as [| []]; simpl; congruence. Qed.

(** ** The format *)

Lemma fexp64_eq (e : Z) : fexp64 e = Z.max (e - 53) (-1074).
Proof. reflexivity. Qed.

(** The shift to the exponent of the format keeps the location, and leaves
    a normal mantissa whenever it moves. *)
Lemma shr_fexp_located (v : R) (m e : Z) (l : location) :
  0 <= m ->
  located v m e l ->
  l = loc_Exact \/ e <= fexp64 (Zdigits2 m + e) ->
  let '(mrs, e') := shr_fexp Binary64.prec Binary64.emax m e l in
  0 <= shr_m mrs
  /\ shr_m mrs < 2 ^ 53
  /\ located v (shr_m mrs) e' (loc_of_shr_record mrs)
  /\ (loc_of_shr_record mrs = loc_Exact \/ normal (shr_m mrs) e')
  /\ (e' = e \/ normal (shr_m mrs) e')
  /\ e <= e'.
Proof.
  intros Hm Hloc Hpre.
  unfold shr_fexp, shr. fold (fexp64 (Zdigits2 m + e)).
  pose proof (fexp64_eq (Zdigits2 m + e)) as Hfe.
  pose proof (Zdigits2_nonneg m) as Hd0.
  destruct (fexp64 (Zdigits2 m + e) - e) as [| p | p] eqn:Hn.
  - (* no shift, canonical already *)
    rewrite shr_m_record_of_loc.
    assert (Hlt : m < 2 ^ 53).
    { destruct (Z.eq_dec m 0) as [-> | Hne]; [reflexivity |].
      destruct (Zdigits2_bounds m ltac:(lia)) as [_ Hhi].
      assert (2 ^ Zdigits2 m <= 2 ^ 53) by (apply Z.pow_le_mono_r; lia). lia. }
    assert (Hnorm : normal m e).
    { intros He.
      destruct (Z.eq_dec m 0) as [-> | Hne]; [simpl in *; lia |].
      destruct (Zdigits2_bounds m ltac:(lia)) as [Hlo _].
      assert (Zdigits2 m = 53) by lia.
      rewrite H in Hlo. exact Hlo. }
    repeat split; auto using loc_of_shr_record_of_loc; try lia.
  - (* shift by p *)
    rewrite iter_pos_nat.
    destruct (shr_iter_located v (shr_record_of_loc m l) e (Pos.to_nat p))
      as (H0 & Hdiv & Hl).
    { rewrite shr_m_record_of_loc; assumption. }
    { rewrite shr_m_record_of_loc. apply loc_of_shr_record_of_loc; assumption. }
    rewrite positive_nat_Z in Hdiv, Hl. rewrite shr_m_record_of_loc in Hdiv.
    set (mrs := Nat.iter (Pos.to_nat p) shr_1 (shr_record_of_loc m l)) in *.
    assert (Hlt : shr_m mrs < 2 ^ 53 /\ normal (shr_m mrs) (e + Z.pos p)).
    { rewrite Hdiv.
      destruct (Z_lt_le_dec (Z.pos p) (Zdigits2 m)) as [Hk | Hk].
      - assert (Hmpos : 0 < m).
        { destruct (Z.eq_dec m 0) as [-> | ]; [simpl in Hk; lia | lia]. }
        pose proof (Zdigits2_div_pow2 m (Z.pos p) Hmpos ltac:(lia) Hk) as Hdd.
        assert (Hqpos : 0 < m / 2 ^ Z.pos p).
        { destruct (Zdigits2_bounds m Hmpos) as [Hlo _].
          assert (2 ^ Z.pos p <= 2 ^ (Zdigits2 m - 1)) by (apply Z.pow_le_mono_r; lia).
          assert (0 < 2 ^ Z.pos p) by (apply Z.pow_pos_nonneg; lia).
          assert (1 <= m / 2 ^ Z.pos p) by (apply Z.div_le_lower_bound; lia). lia. }
        destruct (Zdigits2_bounds _ Hqpos) as [Hlo Hhi]. rewrite Hdd in Hlo, Hhi.
        split.
        + assert (2 ^ (Zdigits2 m - Z.pos p) <= 2 ^ 53) by (apply Z.pow_le_mono_r; lia). lia.
        + intros He. assert (Zdigits2 m - Z.pos p = 53) by lia.
          rewrite H in Hlo. exact Hlo.
      - rewrite (Zdigits2_div_pow2_zero m (Z.pos p)) by lia.
        split; [reflexivity |]. intros He. lia. }
    destruct Hlt as [Hlt Hnorm].
    repeat split; auto; try lia.
  - (* the exponent is already larger than the format asks for *)
    rewrite shr_m_record_of_loc.
    assert (Hex : l = loc_Exact) by (destruct Hpre; [assumption | lia]).
    assert (Hlt : m < 2 ^ 53).
    { destruct (Z.eq_dec m 0) as [-> | Hne]; [reflexivity |].
      destruct (Zdigits2_bounds m ltac:(lia)) as [_ Hhi].
      assert (2 ^ Zdigits2 m <= 2 ^ 53) by (apply Z.pow_le_mono_r; lia). lia. }
    subst l. repeat split; auto; try lia.
Qed.

(** ** Floats as anchors of a rounding *)

Lemma bpow_split (a b : Z) : a <= b -> bpow b = (bpow a * IZR (2 ^ (b - a)))%R.
Proof.
  intros H. rewrite <- bpow_IZR by lia. rewrite <- bpow_plus. f_equal. lia.
Qed.

(** Above a normal mantissa, the next float is the next mantissa. *)
Lemma grid_above (m e mc ec : Z) :
  0 <= m -> normal m e -> grid mc ec ->
  (IZR m * bpow e < IZR mc * bpow ec)%R ->
  ((IZR m + 1) * bpow e <= IZR mc * bpow ec)%R.
Proof.
  intros Hm Hn [[Hc0 Hc1] Hec] Hlt.
  pose proof (bpow_gt_0 e) as Hbe. pose proof (bpow_gt_0 ec) as Hbc.
  destruct (Z_le_gt_dec e ec) as [Hle | Hgt].
  - rewrite (bpow_split e ec Hle) in *.
    set (k := 2 ^ (ec - e)) in *.
    assert (Hk : m < mc * k).
    { apply lt_IZR. rewrite mult_IZR. nra. }
    assert (Hk' : m + 1 <= mc * k) by lia.
    apply IZR_le in Hk'. rewrite plus_IZR, mult_IZR in Hk'. nra.
  - exfalso. assert (He : -1074 < e) by lia. specialize (Hn He).
    rewrite (bpow_split ec e ltac:(lia)) in *.
    assert (Hk : 2 <= 2 ^ (e - ec)).
    { change 2 with (2 ^ 1) at 1. apply Z.pow_le_mono_r; lia. }
    set (k := 2 ^ (e - ec)) in *.
    assert (Hmk : mc < m * k) by nia.
    apply IZR_lt in Hmk. rewrite mult_IZR in Hmk. nra.
Qed.

(** Below the successor of a normal mantissa, the largest float is the
    mantissa. *)
Lemma grid_below (m e mc ec : Z) :
  0 <= m -> normal m e -> grid mc ec ->
  (IZR mc * bpow ec < (IZR m + 1) * bpow e)%R ->
  (IZR mc * bpow ec <= IZR m * bpow e)%R.
Proof.
  intros Hm Hn [[Hc0 Hc1] Hec] Hlt.
  pose proof (bpow_gt_0 e) as Hbe. pose proof (bpow_gt_0 ec) as Hbc.
  destruct (Z_le_gt_dec e ec) as [Hle | Hgt].
  - rewrite (bpow_split e ec Hle) in *.
    set (k := 2 ^ (ec - e)) in *.
    assert (Hk : mc * k < m + 1).
    { apply lt_IZR. rewrite plus_IZR, mult_IZR. nra. }
    assert (Hk' : mc * k <= m) by lia.
    apply IZR_le in Hk'. rewrite mult_IZR in Hk'. nra.
  - assert (He : -1074 < e) by lia. specialize (Hn He).
    rewrite (bpow_split ec e ltac:(lia)) in *.
    assert (Hk : 2 <= 2 ^ (e - ec)).
    { change 2 with (2 ^ 1) at 1. apply Z.pow_le_mono_r; lia. }
    set (k := 2 ^ (e - ec)) in *.
    assert (Hmk : mc <= m * k) by nia.
    apply IZR_le in Hmk. rewrite mult_IZR in Hmk. nra.
Qed.

(** The exponent of a normal mantissa below a float is at most the
    exponent of that float. *)
Lemma normal_exponent_le (m e mc ec : Z) :
  0 <= m -> normal m e -> grid mc ec ->
  (IZR m * bpow e <= IZR mc * bpow ec)%R -> e <= ec.
Proof.
  intros Hm Hn [[Hc0 Hc1] Hec] Hle.
  destruct (Z_le_gt_dec e ec) as [| Hgt]; [assumption | exfalso].
  assert (He : -1074 < e) by lia. specialize (Hn He).
  pose proof (bpow_gt_0 ec) as Hbc.
  rewrite (bpow_split ec e ltac:(lia)) in *.
  assert (Hk : 2 <= 2 ^ (e - ec)).
  { change 2 with (2 ^ 1) at 1. apply Z.pow_le_mono_r; lia. }
  set (k := 2 ^ (e - ec)) in *.
  assert (Hmk : mc < m * k) by nia.
  apply IZR_lt in Hmk. rewrite mult_IZR in Hmk. nra.
Qed.

Lemma round_nearest_even_bounds (m : Z) (l : location) :
  m <= round_nearest_even m l <= m + 1
  /\ (l = loc_Exact -> round_nearest_even m l = m).
Proof.
  destruct l as [| []]; simpl; try destruct (Z.even m); split; intros;
    try lia; try congruence; try reflexivity.
Qed.

(** A rounding stays between any two floats that enclose the value it
    rounds. *)
Lemma binary_round_aux_anchor (v : R) (mx ex : Z) (lx : location)
    (lo elo hi ehi : Z) :
  0 <= mx ->
  located v mx ex lx ->
  lx = loc_Exact \/ ex <= fexp64 (Zdigits2 mx + ex) ->
  grid lo elo -> grid hi ehi -> ehi <= 971 -> ex <= 971 ->
  (IZR lo * bpow elo <= v <= IZR hi * bpow ehi)%R ->
  let r := binary_round_aux Binary64.prec Binary64.emax false mx ex lx in
  fin_nonneg r ex (Z.max ex ehi)
  /\ (IZR lo * bpow elo <= B2R r <= IZR hi * bpow ehi)%R.
Proof.
  intros Hmx Hloc Hpre Hlo Hhi Hehi Hex [Hv1 Hv2].
  unfold binary_round_aux.
  pose proof (shr_fexp_located v mx ex lx Hmx Hloc Hpre) as H1.
  destruct (shr_fexp Binary64.prec Binary64.emax mx ex lx) as [mrs1 e1].
  destruct H1 as (Hm1 & Hm1lt & Hloc1 & Hex1 & Hsh1 & He1).
  set (m1 := shr_m mrs1) in *. set (l1 := loc_of_shr_record mrs1) in *.
  destruct (round_nearest_even_bounds m1 l1) as [Hr Hrex].
  set (m2 := round_nearest_even m1 l1) in *.
  pose proof (bpow_gt_0 e1) as Hb1.
  (* the rounded value lies between the anchors *)
  assert (Hv' : (IZR lo * bpow elo <= IZR m2 * bpow e1 <= IZR hi * bpow ehi)%R).
  { destruct l1 as [| c] eqn:El1.
    - rewrite (Hrex eq_refl). simpl in Hloc1. rewrite <- Hloc1. lra.
    - destruct Hex1 as [Hex1 | Hn1]; [discriminate |].
      simpl in Hloc1.
      assert (Hm2 : (IZR m1 <= IZR m2 <= IZR m1 + 1)%R).
      { split; [apply IZR_le; lia |].
        rewrite <- plus_IZR. apply IZR_le; lia. }
      split.
      + destruct (Rlt_le_dec (IZR lo * bpow elo) ((IZR m1 + 1) * bpow e1))
          as [Hlt | Hge].
        * pose proof (grid_below m1 e1 lo elo Hm1 Hn1 Hlo Hlt). nra.
        * lra.
      + assert (Hlt : (IZR m1 * bpow e1 < IZR hi * bpow ehi)%R) by lra.
        pose proof (grid_above m1 e1 hi ehi Hm1 Hn1 Hhi Hlt). nra. }
  assert (Hm2 : 0 <= m2) by lia.
  assert (Hloc2 : located (IZR m2 * bpow e1) m2 e1 loc_Exact) by reflexivity.
  pose proof (shr_fexp_located _ m2 e1 loc_Exact Hm2 Hloc2 (or_introl eq_refl))
    as H3.
  destruct (shr_fexp Binary64.prec Binary64.emax m2 e1 loc_Exact) as [mrs3 e3].
  destruct H3 as (Hm3 & Hm3lt & Hloc3 & Hex3 & Hsh3 & He3).
  set (m3 := shr_m mrs3) in *. set (l3 := loc_of_shr_record mrs3) in *.
  pose proof (bpow_gt_0 e3) as Hb3.
  assert (Hv3 : (IZR lo * bpow elo <= IZR m3 * bpow e3 <= IZR hi * bpow ehi)%R).
  { destruct l3 as [| c].
    - simpl in Hloc3. rewrite <- Hloc3. exact Hv'.
    - destruct Hex3 as [Hex3 | Hn3]; [discriminate |].
      simpl in Hloc3. split; [| lra].
      destruct (Rlt_le_dec (IZR lo * bpow elo) ((IZR m3 + 1) * bpow e3))
        as [Hlt | Hge].
      + exact (grid_below m3 e3 lo elo Hm3 Hn3 Hlo Hlt).
      + lra. }
  (* the exponent *)
  assert (Hm1v : (IZR m1 * bpow e1 <= IZR hi * bpow ehi)%R).
  { destruct l1 as [| c]; simpl in Hloc1; lra. }
  assert (He3' : e3 <= Z.max ex ehi).
  { destruct Hsh3 as [-> | Hn3].
    - destruct Hsh1 as [-> | Hn1]; [lia |].
      pose proof (normal_exponent_le m1 e1 hi ehi Hm1 Hn1 Hhi Hm1v). lia.
    - pose proof (normal_exponent_le m3 e3 hi ehi Hm3 Hn3 Hhi (proj2 Hv3)). lia. }
  destruct m3 as [| p3 | p3] eqn:Em3; [| | lia].
  - simpl. split; [exact I |]. simpl in Hv3. lra.
  - replace (e3 <=? Binary64.emax - Binary64.prec) with true.
    + simpl. split; [lia | exact Hv3].
    + symmetry. apply Z.leb_le. change (Binary64.emax - Binary64.prec) with 971. lia.
Qed.

(** ** The operations *)

Lemma fin_nonneg_B2R_nonneg (x : spec_float) (elo ehi : Z) :
  fin_nonneg x elo ehi -> (0 <= B2R x)%R.
Proof.
  destruct x as [[] | | | [] m e]; simpl; try tauto; intros _; try lra.
  pose proof (bpow_gt_0 e). pose proof (IZR_lt 0 (Z.pos m) ltac:(lia)). nra.
Qed.

(** Multiplication. *)
Lemma mul_anchor (x y : spec_float) (exl exh eyl eyh lo elo hi ehi : Z) :
  fin_nonneg x exl exh -> fin_nonneg y eyl eyh ->
  exh + eyh <= 971 ->
  grid lo elo -> grid hi ehi -> ehi <= 971 ->
  (IZR lo * bpow elo <= B2R x * B2R y <= IZR hi * bpow ehi)%R ->
  fin_nonneg (Binary64.mul x y) (exl + eyl) (Z.max (exh + eyh) ehi)
  /\ (IZR lo * bpow elo <= B2R (Binary64.mul x y) <= IZR hi * bpow ehi)%R.
Proof.
  intros Hx Hy He Hlo Hhi Hehi Hv.
  destruct x as [[] | | | [] mx ex]; simpl in Hx; try tauto;
    destruct y as [[] | | | [] my ey]; simpl in Hy; try tauto;
    simpl in Hv; simpl; try (split; [exact I | lra]).
  pose proof (binary_round_aux_anchor (IZR (Z.pos mx) * bpow ex * (IZR (Z.pos my) * bpow ey))
                (Z.pos (mx * my)) (ex + ey) loc_Exact lo elo hi ehi) as H.
  cbv zeta in H.
  destruct H as [Hf Hb]; try assumption; try lia.
  - simpl. rewrite Pos2Z.inj_mul, mult_IZR, bpow_plus. ring.
  - left; reflexivity.
  - split; [| exact Hb].
    destruct (binary_round_aux Binary64.prec Binary64.emax false
                (Z.pos (mx * my)) (ex + ey) loc_Exact) as [[] | | | [] m e];
      simpl in *; try tauto. lia.
Qed.

Lemma shift_mantissa (m s : Z) :
  0 <= s ->
  match s with
  | 0 => m
  | Z.pos _ => Z.shiftl m s
  | Z.neg _ => 0
  end = m * 2 ^ s.
Proof.
  intros Hs. destruct s as [| p | p]; [simpl; lia | | lia].
  apply Z.shiftl_mul_pow2. lia.
Qed.

(** Division: the quotient mantissa, with where the exact quotient lies. *)
Lemma div_core_located (mx my : positive) (ex ey : Z) :
  let '(q, e', l) :=
    SFdiv_core_binary Binary64.prec Binary64.emax (Z.pos mx) ex (Z.pos my) ey in
  0 <= q
  /\ located (IZR (Z.pos mx) * bpow ex / (IZR (Z.pos my) * bpow ey)) q e' l
  /\ e' <= fexp64 (Zdigits2 q + e')
  /\ Z.min (-1074) (ex - ey) <= e' <= ex - ey.
Proof.
  unfold SFdiv_core_binary.
  set (d1 := Zdigits2 (Z.pos mx)). set (d2 := Zdigits2 (Z.pos my)).
  fold (fexp64 (d1 + ex - (d2 + ey))).
  set (e' := Z.min (fexp64 (d1 + ex - (d2 + ey))) (ex - ey)).
  set (s := ex - ey - e').
  assert (Hs : 0 <= s) by (unfold s, e'; lia).
  rewrite (shift_mantissa (Z.pos mx) s Hs).
  set (m' := Z.pos mx * 2 ^ s).
  assert (Hm' : m' = Z.pos mx * 2 ^ s) by reflexivity.
  clearbody m'.
  pose proof (Z_div_mod m' (Z.pos my) ltac:(lia)) as Hdm.
  destruct (Z.div_eucl m' (Z.pos my)) as [q r] eqn:Edm.
  destruct Hdm as [Heq Hr].
  assert (H2s : 0 < 2 ^ s) by (apply Z.pow_pos_nonneg; lia).
  assert (Hq : 0 <= q) by nia.
  pose proof (bpow_gt_0 e') as Hbe. pose proof (bpow_gt_0 ey) as Hbey.
  assert (Hmy : (0 < IZR (Z.pos my))%R) by (apply IZR_lt; lia).
  assert (Hv : (IZR (Z.pos mx) * bpow ex / (IZR (Z.pos my) * bpow ey)
               = (IZR q + IZR r / IZR (Z.pos my)) * bpow e')%R).
  { replace ex with (s + e' + ey) by (unfold s; lia).
    rewrite !bpow_plus, (bpow_IZR s Hs).
    assert (Hm : (IZR (Z.pos mx) * IZR (2 ^ s) = IZR (Z.pos my) * IZR q + IZR r)%R).
    { rewrite <- !mult_IZR, <- plus_IZR. f_equal. lia. }
    field_simplify; try lra.
    replace (IZR (Z.pos mx) * IZR (2 ^ s) * bpow e')%R
      with ((IZR (Z.pos my) * IZR q + IZR r) * bpow e')%R
      by (rewrite <- Hm; ring).
    field. lra. }
  split; [exact Hq |]. split; [| split].
  - rewrite Hv.
    assert (Hloc : new_location (Z.pos my) r = loc_Exact /\ r = 0
                   \/ (exists c, new_location (Z.pos my) r = loc_Inexact c) /\ 0 < r).
    { unfold new_location, new_location_even, new_location_odd.
      assert (Hcase : (r =? 0) = true /\ r = 0 \/ (r =? 0) = false /\ 0 < r).
      { destruct (Z.eqb_spec r 0); [left | right]; split; auto; lia. }
      destruct Hcase as [[Eb Hr0] | [Eb Hr0]]; [left | right];
        (split; [| exact Hr0]);
        destruct (IntDef.Z.even (Z.pos my));
        change (IntDef.Z.eqb r 0) with (r =? 0); rewrite Eb;
        try reflexivity; eexists; reflexivity. }
    destruct Hloc as [[-> ->] | [[c ->] Hrpos]]; simpl.
    + unfold Rdiv. ring.
    + assert (Hr1 : (0 < IZR r / IZR (Z.pos my) < 1)%R).
      { assert (Hr0 : (0 < IZR r)%R) by (apply IZR_lt; lia).
        assert (Hr2 : (IZR r < IZR (Z.pos my))%R) by (apply IZR_lt; lia).
        split.
        - apply Rdiv_lt_0_compat; assumption.
        - apply Rmult_lt_reg_r with (IZR (Z.pos my)); [assumption |].
          unfold Rdiv. rewrite Rmult_assoc, Rinv_l by lra. lra. }
      nra.
  - assert (Hdq : d1 + s - d2 <= Zdigits2 q).
    { pose proof (Zdigits2_nonneg q) as Hq0.
      destruct (Z_le_gt_dec (d1 + s - d2) 0) as [| Hpos]; [lia |].
      destruct (Zdigits2_bounds (Z.pos mx) ltac:(lia)) as [Hlo1 _].
      destruct (Zdigits2_bounds (Z.pos my) ltac:(lia)) as [_ Hhi2].
      fold d1 in Hlo1. fold d2 in Hhi2.
      assert (Hd2 : 0 < d2) by (unfold d2; simpl; lia).
      assert (Hd1 : 0 < d1) by (unfold d1; simpl; lia).
      set (j := d1 - 1 + s - d2).
      assert (Hj : 0 <= j) by (unfold j; lia).
      assert (Hpow : 2 ^ (d1 - 1) * 2 ^ s = 2 ^ j * 2 ^ d2).
      { rewrite <- !Z.pow_add_r by lia. f_equal. unfold j. lia. }
      assert (H2j : 0 < 2 ^ j) by (apply Z.pow_pos_nonneg; lia).
      assert (Hge : 2 ^ j <= q).
      { assert (Hqq : 2 ^ j <= m' / Z.pos my).
        { apply Z.div_le_lower_bound; [lia |]. nia. }
        pose proof (Z.div_unique_pos m' (Z.pos my) q r ltac:(lia) Heq) as Hu.
        lia. }
      pose proof (Zdigits2_ge q j Hj Hge). unfold j in *. lia. }
    unfold e'. rewrite !fexp64_eq. unfold s, e' in Hdq.
    rewrite fexp64_eq in Hdq. lia.
  - unfold e'. rewrite fexp64_eq. lia.
Qed.

Lemma div_anchor (x : spec_float) (my : positive) (ey exl exh lo elo hi ehi : Z) :
  fin_nonneg x exl exh ->
  exh - ey <= 971 ->
  grid lo elo -> grid hi ehi -> ehi <= 971 ->
  (IZR lo * bpow elo <= B2R x / (IZR (Z.pos my) * bpow ey)
   <= IZR hi * bpow ehi)%R ->
  let r := Binary64.div x (S754_finite false my ey) in
  fin_nonneg r (Z.min (-1074) (exl - ey)) (Z.max (exh - ey) ehi)
  /\ (IZR lo * bpow elo <= B2R r <= IZR hi * bpow ehi)%R.
Proof.
  intros Hx He Hlo Hhi Hehi Hv.
  destruct x as [[] | | | [] mx ex]; simpl in Hx; try tauto.
  - simpl. split; [exact I |]. simpl in Hv. unfold Rdiv in Hv.
    rewrite Rmult_0_l in Hv. exact Hv.
  - cbv zeta. unfold Binary64.div, SFdiv.
    pose proof (div_core_located mx my ex ey) as Hc.
    destruct (SFdiv_core_binary Binary64.prec Binary64.emax (Z.pos mx) ex
                (Z.pos my) ey) as [[q e'] l].
    destruct Hc as (Hq & Hloc & Hfe & He').
    simpl in Hv.
    pose proof (binary_round_aux_anchor _ q e' l lo elo hi ehi Hq Hloc
                  (or_intror Hfe) Hlo Hhi Hehi ltac:(lia) Hv) as H.
    cbv zeta in H. destruct H as [Hf Hb]. simpl xorb.
    split; [| exact Hb].
    destruct (binary_round_aux Binary64.prec Binary64.emax false q e' l)
      as [[] | | | [] m e]; simpl in *; try tauto. lia.
Qed.

(** Conversion of an integer below [2^53]: exact. *)
Lemma pos_iter_xO (m d : positive) :
  Z.pos (Pos.iter xO m d) = Z.pos m * 2 ^ Z.pos d.
Proof.
  induction d as [| d IH] using Pos.peano_ind.
  - simpl. lia.
  - rewrite Pos.iter_succ, Pos2Z.inj_xO, IH, Pos2Z.inj_succ, Z.pow_succ_r by lia.
    lia.
Qed.

Lemma of_Z_exact (k : Z) :
  0 <= k < 2 ^ 53 ->
  fin_nonneg (Binary64.of_Z k) (-52) 0 /\ B2R (Binary64.of_Z k) = IZR k.
Proof.
  intros [Hk0 Hk1].
  destruct k as [| p | p]; [simpl; auto | | lia].
  unfold Binary64.of_Z, binary_normalize, binary_round.
  destruct (digits2_pos_bounds p) as [Hd1 Hd2].
  set (d := Z.pos (digits2_pos p)) in *.
  assert (Hd : 1 <= d <= 53).
  { split; [unfold d; lia |].
    destruct (Z_le_gt_dec d 53); [assumption | exfalso].
    assert (2 ^ 53 <= 2 ^ (d - 1)) by (apply Z.pow_le_mono_r; lia). lia. }
  fold (fexp64 (d + 0)).
  assert (Hfe : fexp64 (d + 0) = d - 53) by (rewrite fexp64_eq; lia).
  rewrite Hfe.
  assert (Hal : exists mz ez,
             shl_align p 0 (d - 53) = (mz, ez)
             /\ -52 <= ez <= 0
             /\ (IZR (Z.pos mz) * bpow ez = IZR (Z.pos p))%R).
  { unfold shl_align.
    destruct (d - 53 - 0) as [| q | q] eqn:Eq; try lia.
    - exists p, 0. repeat split; try lia. rewrite bpow_0. ring.
    - exists (Pos.iter xO p q), (d - 53). repeat split; try lia.
      rewrite pos_iter_xO, mult_IZR, <- bpow_IZR by lia.
      rewrite Rmult_assoc, <- bpow_plus.
      replace (Z.pos q + (d - 53)) with 0 by lia. rewrite bpow_0. ring. }
  destruct Hal as (mz & ez & -> & Hez & Hval).
  pose proof (binary_round_aux_anchor (IZR (Z.pos p)) (Z.pos mz) ez loc_Exact
                (Z.pos p) 0 (Z.pos p) 0) as H.
  cbv zeta in H. rewrite bpow_0, Rmult_1_r in H.
  destruct H as [Hf Hb]; try lia; try (split; lia); try lra.
  - simpl. rewrite Hval. reflexivity.
  - left; reflexivity.
  - split; [| lra].
    destruct (binary_round_aux Binary64.prec Binary64.emax false (Z.pos mz) ez
                loc_Exact) as [[] | | | [] m e]; simpl in *; try tauto. lia.
Qed.

(** The integer part of a non-negative finite float. *)
Lemma trunc_fin_nonneg (r : spec_float) (elo ehi : Z) :
  fin_nonneg r elo ehi ->
  exists z, Binary64.trunc r = Some z /\ 0 <= z
            /\ (IZR z <= B2R r < IZR z + 1)%R.
Proof.
  destruct r as [[] | | | [] m e]; simpl; try tauto; intros _.
  - exists 0. repeat split; try lia; lra.
  - destruct e as [| p | p].
    + exists (Z.pos m). rewrite bpow_0.
      split; [f_equal; change (Z.pos m * 2 ^ 0 = Z.pos m); lia |].
      split; [lia | lra].
    + exists (Z.pos m * 2 ^ Z.pos p).
      assert (0 < 2 ^ Z.pos p) by (apply Z.pow_pos_nonneg; lia).
      rewrite mult_IZR, <- bpow_IZR by lia.
      repeat split; try nia; lra.
    + exists (Z.pos m / 2 ^ Z.pos p).
      assert (H2 : 0 < 2 ^ Z.pos p) by (apply Z.pow_pos_nonneg; lia).
      pose proof (Z.div_pos (Z.pos m) (2 ^ Z.pos p) ltac:(lia) H2) as Hq0.
      pose proof (Z_div_mod_eq_full (Z.pos m) (2 ^ Z.pos p)) as Hdm.
      pose proof (Z.mod_pos_bound (Z.pos m) (2 ^ Z.pos p) H2) as Hmod.
      set (q := Z.pos m / 2 ^ Z.pos p) in *.
      set (r := Z.pos m mod 2 ^ Z.pos p) in *.
      assert (Hb : (bpow (Z.neg p) * IZR (2 ^ Z.pos p) = 1)%R).
      { rewrite <- bpow_IZR by lia. rewrite <- bpow_plus.
        replace (Z.neg p + Z.pos p) with 0 by lia. apply bpow_0. }
      pose proof (bpow_gt_0 (Z.neg p)) as Hbp.
      assert (Hm : IZR (Z.pos m) = (IZR (2 ^ Z.pos p) * IZR q + IZR r)%R).
      { rewrite <- mult_IZR, <- plus_IZR. f_equal. exact Hdm. }
      assert (Hr0 : (0 <= IZR r)%R) by (apply IZR_le; lia).
      assert (Hr1 : (IZR r < IZR (2 ^ Z.pos p))%R) by (apply IZR_lt; lia).
      set (b := bpow (Z.neg p)) in *. set (P := IZR (2 ^ Z.pos p)) in *.
      assert (Hrb0 : (0 <= IZR r * b)%R) by nra.
      assert (Hrb1 : (IZR r * b < P * b)%R) by nra.
      assert (Hval : ((P * IZR q + IZR r) * b = IZR q * (b * P) + IZR r * b)%R)
        by ring.
      split; [reflexivity |]. split; [lia |].
      rewrite Hm, Hval, Hb. lra.
Qed.

(** * The two percentages *)

Lemma fin_nonneg_not_infinity (x : spec_float) (elo ehi : Z) :
  fin_nonneg x elo ehi -> Binary64.is_infinity x = false.
Proof. destruct x as [[] | | | [] m e]; simpl; tauto || reflexivity. Qed.

Lemma raw_of_Z_fin (m : Z) :
  0 <= m -> fin_nonneg (Binary64.raw_of_Z m) 0 0 /\ B2R (Binary64.raw_of_Z m) = IZR m.
Proof.
  destruct m as [| p | p]; intros H; try lia.
  - simpl. auto.
  - split; [simpl; lia |]. unfold Binary64.raw_of_Z, B2R. rewrite bpow_0. ring.
Qed.

Lemma float_100 :
  as_float (PInt 100) = Ok (Binary64.of_Z 100).
Proof. reflexivity. Qed.

(** With floats [Yl * 2^-51] below and [Y * 2^-51] above [m/t], an integer
    [Ml] below [100 * Yl * 2^-51] and a float [M * 2^-44] above
    [100 * Y * 2^-51], the percentage is between [Ml] and [M * 2^-44]. *)
Lemma ratio_percent_between (m t Yl Y Ml M : Z) :
  0 <= m -> 0 < t ->
  0 <= Yl -> Yl * t <= m * 2 ^ 51 ->
  0 <= Y < 2 ^ 53 -> m * 2 ^ 51 <= Y * t ->
  0 <= Ml -> Ml * 2 ^ 51 <= 100 * Yl ->
  0 <= M < 2 ^ 53 -> 100 * Y <= M * 2 ^ 7 ->
  exists s, ratio_percent m (PInt (t - m)) = Ok s
            /\ 0 <= s /\ Ml <= s /\ s * 2 ^ 44 <= M.
Proof.
  intros Hm Ht HYl HYlt HY HYt HMl HMlY HM HYM.
  assert (HYlY : Yl <= Y) by nia.
  assert (HMl400 : Ml < 400) by nia.
  unfold ratio_percent. simpl py_add. cbv beta iota delta [bind].
  replace (m + (t - m)) with t by lia.
  unfold py_truediv.
  destruct (Z.eqb_spec t 0) as [| _]; [lia |].
  destruct (raw_of_Z_fin m Hm) as [Hfm Hvm].
  destruct t as [| tp | tp]; try lia. simpl (Binary64.raw_of_Z (Z.pos tp)).
  assert (Htp : (0 < IZR (Z.pos tp))%R) by (apply IZR_lt; lia).
  assert (HgYl : grid Yl (-51)) by (split; lia).
  assert (HgY : grid Y (-51)) by (split; lia).
  assert (HgMl : grid Ml 0) by (split; lia).
  assert (HgM : grid M (-44)) by (split; lia).
  assert (Hb51 : (bpow (-51) * IZR (2 ^ 51) = 1)%R).
  { rewrite <- bpow_IZR by lia. rewrite <- bpow_plus. apply bpow_0. }
  pose proof (bpow_gt_0 (-51)) as Hb51p.
  assert (Hx : (IZR m = IZR m * IZR (2 ^ 51) * bpow (-51))%R).
  { rewrite Rmult_assoc, (Rmult_comm (IZR (2 ^ 51))), Hb51. ring. }
  assert (Hbd : (IZR Yl * bpow (-51)
                 <= B2R (Binary64.raw_of_Z m) / (IZR (Z.pos tp) * bpow 0)
                 <= IZR Y * bpow (-51))%R).
  { rewrite Hvm, bpow_0, !Rmult_1_r.
    split.
    - apply Rmult_le_reg_r with (IZR (Z.pos tp)); [assumption |].
      unfold Rdiv. rewrite (Rmult_assoc (IZR m)), Rinv_l, Rmult_1_r by lra.
      apply IZR_le in HYlt. rewrite !mult_IZR in HYlt.
      rewrite Hx.
      replace (IZR Yl * bpow (-51) * IZR (Z.pos tp))%R
        with (IZR Yl * IZR (Z.pos tp) * bpow (-51))%R by ring.
      apply Rmult_le_compat_r; lra.
    - apply Rmult_le_reg_r with (IZR (Z.pos tp)); [assumption |].
      unfold Rdiv. rewrite Rmult_assoc, Rinv_l, Rmult_1_r by lra.
      apply IZR_le in HYt. rewrite !mult_IZR in HYt.
      rewrite Hx.
      replace (IZR Y * bpow (-51) * IZR (Z.pos tp))%R
        with (IZR Y * IZR (Z.pos tp) * bpow (-51))%R by ring.
      apply Rmult_le_compat_r; lra. }
  destruct (div_anchor (Binary64.raw_of_Z m) tp 0 0 0 Yl (-51) Y (-51)
              Hfm ltac:(lia) HgYl HgY ltac:(lia) Hbd) as [Hfq Hbq].
  set (q := Binary64.div (Binary64.raw_of_Z m) (S754_finite false tp 0)) in *.
  rewrite (fin_nonneg_not_infinity _ _ _ Hfq).
  unfold py_mul. rewrite float_100. cbv beta iota delta [bind as_float].
  destruct (of_Z_exact 100 ltac:(lia)) as [Hf100 Hv100].
  assert (Hbm : (IZR Ml * bpow 0 <= B2R (Binary64.of_Z 100) * B2R q
                 <= IZR M * bpow (-44))%R).
  { rewrite Hv100, bpow_0, Rmult_1_r. split.
    - apply IZR_le in HMlY. rewrite !mult_IZR in HMlY.
      assert (Hq0 : (100 * (IZR Yl * bpow (-51)) <= 100 * B2R q)%R) by lra.
      apply Rle_trans with (2 := Hq0).
      assert (Hml : (IZR Ml = IZR Ml * IZR (2 ^ 51) * bpow (-51))%R).
      { rewrite Rmult_assoc, (Rmult_comm (IZR (2 ^ 51))), Hb51. ring. }
      rewrite Hml.
      replace (100 * (IZR Yl * bpow (-51)))%R
        with (100 * IZR Yl * bpow (-51))%R by ring.
      apply Rmult_le_compat_r; lra.
    - apply IZR_le in HYM. rewrite !mult_IZR in HYM.
      assert (Hb : (bpow (-51) = bpow (-44) * / IZR (2 ^ 7))%R).
      { replace (-51) with (-44 + -7) by lia. rewrite bpow_plus. f_equal.
        apply Rmult_eq_reg_r with (IZR (2 ^ 7)); [| apply eq_IZR_contrapositive; lia].
        rewrite Rinv_l by (apply eq_IZR_contrapositive; lia).
        rewrite <- bpow_IZR by lia. rewrite <- bpow_plus. apply bpow_0. }
      pose proof (bpow_gt_0 (-44)) as Hb44.
      assert (H7 : (0 < IZR (2 ^ 7))%R) by (apply IZR_lt; lia).
      assert (Hq1 : (100 * B2R q <= 100 * (IZR Y * bpow (-51)))%R) by lra.
      apply Rle_trans with (1 := Hq1). rewrite Hb.
      replace (100 * (IZR Y * (bpow (-44) * / IZR (2 ^ 7))))%R
        with ((100 * IZR Y) * / IZR (2 ^ 7) * bpow (-44))%R by ring.
      apply Rmult_le_compat_r; [lra |].
      apply Rmult_le_reg_r with (IZR (2 ^ 7)); [assumption |].
      rewrite Rmult_assoc, Rinv_l, Rmult_1_r by lra. exact HYM. }
  destruct (mul_anchor (Binary64.of_Z 100) q (-52) 0 _ _ Ml 0 M (-44)
              Hf100 Hfq ltac:(lia) HgMl HgM ltac:(lia) Hbm) as [Hfy Hby].
  set (y := Binary64.mul (Binary64.of_Z 100) q) in *.
  destruct (trunc_fin_nonneg y _ _ Hfy) as (s & Hs & Hs0 & Hsv).
  exists s. unfold py_int. rewrite Hs. split; [reflexivity |].
  split; [exact Hs0 |]. split.
  - rewrite bpow_0, Rmult_1_r in Hby.
    assert (Hlo : (IZR Ml < IZR s + 1)%R) by lra.
    rewrite <- plus_IZR in Hlo. apply lt_IZR in Hlo. lia.
  - assert (Hlt : (IZR s * IZR (2 ^ 44) <= IZR M)%R).
    { assert (Hb : (bpow (-44) * IZR (2 ^ 44) = 1)%R).
      { rewrite <- bpow_IZR by lia. rewrite <- bpow_plus. apply bpow_0. }
      assert (H44 : (0 < IZR (2 ^ 44))%R) by (apply IZR_lt; lia).
      assert (Hs1 : (IZR s <= IZR M * bpow (-44))%R) by lra.
      apply Rmult_le_compat_r with (r := IZR (2 ^ 44)) in Hs1; [| lra].
      rewrite Rmult_assoc, Hb, Rmult_1_r in Hs1. exact Hs1. }
    rewrite <- mult_IZR in Hlt. apply le_IZR in Hlt. exact Hlt.
Qed.

(** With a float [Y * 2^-51] above [m/t] and a float [M * 2^-44] above
    [100 * Y * 2^-51], the percentage is at most [M * 2^-44]. *)
Lemma ratio_percent_int (m t Y M : Z) :
  0 <= m -> 0 < t ->
  0 <= Y < 2 ^ 53 -> m * 2 ^ 51 <= Y * t ->
  0 <= M < 2 ^ 53 -> 100 * Y <= M * 2 ^ 7 ->
  exists s, ratio_percent m (PInt (t - m)) = Ok s /\ 0 <= s /\ s * 2 ^ 44 <= M.
Proof.
  intros Hm Ht HY HYt HM HYM.
  destruct (ratio_percent_between m t 0 Y 0 M) as (s & Hs & Hs0 & _ & Hs1);
    try lia.
  exists s. auto.
Qed.

(** The percentage of [m] matches out of [t] is between 0 and 100. *)
Lemma ratio_percent_range (m t : Z) :
  0 <= m <= t -> 0 < t ->
  exists s, ratio_percent m (PInt (t - m)) = Ok s /\ 0 <= s <= 100.
Proof.
  intros Hm Ht.
  destruct (ratio_percent_int m t (2 ^ 51) (100 * 2 ^ 44))
    as (s & Hs & Hs0 & Hs1); try lia.
  exists s. split; [exact Hs |]. lia.
Qed.

(** The percentage does not reach an integer [N] above the exact ratio,
    as long as the denominator is below [2^32]. *)
Lemma ratio_percent_below (m n t N : Z) :
  0 <= m -> 0 < n <= t -> n <= 2 ^ 32 -> 1 <= N <= 201 ->
  100 * m + 1 <= N * n ->
  exists s, ratio_percent m (PInt (t - m)) = Ok s /\ 0 <= s <= N - 1.
Proof.
  intros Hm Hn Hn32 HN Hlt.
  set (Y := ((N * 2 ^ 44 - 1) * 2 ^ 7) / 100).
  assert (HY1 : 100 * Y <= (N * 2 ^ 44 - 1) * 2 ^ 7)
    by (unfold Y; apply Z.mul_div_le; lia).
  assert (HY2 : (N * 2 ^ 44 - 1) * 2 ^ 7 < 100 * Y + 100).
  { unfold Y.
    pose proof (Z.mul_succ_div_gt ((N * 2 ^ 44 - 1) * 2 ^ 7) 100 ltac:(lia)). lia. }
  assert (HY0 : 0 <= Y) by (unfold Y; apply Z.div_pos; lia).
  destruct (ratio_percent_int m t Y (N * 2 ^ 44 - 1))
    as (s & Hs & Hs0 & Hs1); try lia.
  - assert (H1 : 100 * (Y * n) >= 100 * (m * 2 ^ 51)) by nia.
    nia.
  - exists s. split; [exact Hs |]. lia.
Qed.

(** The percentage is the integer part of the exact ratio, or one less,
    as long as the denominator is below [2^32]. *)
Lemma ratio_percent_near (m t : Z) :
  0 <= m <= t -> 0 < t <= 2 ^ 32 ->
  exists s, ratio_percent m (PInt (t - m)) = Ok s
            /\ 100 * m / t - 1 <= s <= 100 * m / t.
Proof.
  intros Hm Ht.
  set (N := 100 * m / t).
  assert (HN0 : 0 <= N) by (unfold N; apply Z.div_pos; lia).
  assert (HN1 : t * N <= 100 * m) by (unfold N; apply Z.mul_div_le; lia).
  assert (HN2 : 100 * m < t * N + t).
  { unfold N. pose proof (Z.mul_succ_div_gt (100 * m) t ltac:(lia)). lia. }
  assert (HN100 : N <= 100) by nia.
  destruct (ratio_percent_below m t t (N + 1)) as (s & Hs & Hs0 & Hs1);
    try lia.
  exists s. split; [exact Hs |]. split; [| lia].
  destruct (Z.eq_dec N 0) as [-> | HNpos]; [lia |].
  set (Yl := ((N - 1) * 2 ^ 51 + 99) / 100).
  assert (HYl1 : 100 * Yl <= (N - 1) * 2 ^ 51 + 99)
    by (unfold Yl; apply Z.mul_div_le; lia).
  assert (HYl2 : (N - 1) * 2 ^ 51 + 99 < 100 * Yl + 100).
  { unfold Yl.
    pose proof (Z.mul_succ_div_gt ((N - 1) * 2 ^ 51 + 99) 100 ltac:(lia)).
    lia. }
  assert (HYl0 : 0 <= Yl) by (unfold Yl; apply Z.div_pos; lia).
  destruct (ratio_percent_between m t Yl (2 ^ 51) (N - 1) (100 * 2 ^ 44))
    as (s' & Hs' & _ & Hlow & _); try lia.
  - assert (H1 : 100 * (Yl * t) <= ((N - 1) * 2 ^ 51 + 99) * t) by nia.
    assert (H2 : ((N - 1) * 2 ^ 51 + 99) * t <= 100 * (m * 2 ^ 51)) by nia.
    apply Z.mul_le_mono_pos_l with (p := 100); [lia |].
    eapply Z.le_trans; [exact H1 | exact H2].
  - rewrite Hs in Hs'. injection Hs' as <-. exact Hlow.
Qed.

Lemma float_200 :
  py_mul (PInt 100) (PFloat float_two) = Ok (PFloat (Binary64.of_Z 200)).
Proof. vm_compute. reflexivity. Qed.

Lemma float_of_int_exact (k : Z) :
  0 <= k < 2 ^ 53 ->
  float_of_int k = Ok (Binary64.of_Z k)
  /\ fin_nonneg (Binary64.of_Z k) (-52) 0 /\ B2R (Binary64.of_Z k) = IZR k.
Proof.
  intros Hk. destruct (of_Z_exact k Hk) as [Hf Hv].
  unfold float_of_int. rewrite (fin_nonneg_not_infinity _ _ _ Hf). auto.
Qed.

Lemma fin_pos_finite (x : spec_float) (elo ehi : Z) :
  fin_nonneg x elo ehi -> (0 < B2R x)%R ->
  exists m e, x = S754_finite false m e /\ elo <= e <= ehi.
Proof.
  destruct x as [[] | | | [] m e]; simpl; try tauto; intros H Hp; try lra.
  exists m, e. auto.
Qed.

(** The quick percentage is the integer part of the exact ratio. *)
Lemma quick_percent_exact (len1 len2 : nat) :
  (0 < len1 + len2)%nat -> Z.of_nat (len1 + len2) <= 2 ^ 32 ->
  quick_percent len1 len2
  = Ok (200 * Z.of_nat (Nat.min len1 len2) / Z.of_nat (len1 + len2)).
Proof.
  intros Hpos Hbound.
  set (k := Z.of_nat (Nat.min len1 len2)).
  set (L := Z.of_nat (len1 + len2)).
  assert (Hk : 0 <= k <= L) by (unfold k, L; lia).
  assert (HL : 0 < L) by (unfold L; lia).
  unfold quick_percent. rewrite float_200. cbv beta iota delta [bind].
  fold k L.
  destruct (float_of_int_exact k ltac:(lia)) as (Ek & Hfk & Hvk).
  destruct (float_of_int_exact L ltac:(lia)) as (EL & HfL & HvL).
  destruct (of_Z_exact 200 ltac:(lia)) as [Hf200 Hv200].
  unfold py_mul, as_float. rewrite Ek. cbv beta iota delta [bind].
  assert (Hg : grid (200 * k) 0) by (split; lia).
  assert (Hb1 : (IZR (200 * k) * bpow 0
                 <= B2R (Binary64.of_Z 200) * B2R (Binary64.of_Z k)
                 <= IZR (200 * k) * bpow 0)%R).
  { rewrite Hv200, Hvk, bpow_0, mult_IZR. lra. }
  destruct (mul_anchor _ _ _ _ _ _ _ _ _ _ Hf200 Hfk ltac:(lia) Hg Hg
              ltac:(lia) Hb1) as [Hfx Hbx].
  set (x := Binary64.mul (Binary64.of_Z 200) (Binary64.of_Z k)) in *.
  rewrite bpow_0, Rmult_1_r in Hbx.
  assert (Hvx : B2R x = IZR (200 * k)) by lra.
  unfold py_truediv, as_float. rewrite EL. cbv beta iota delta [bind].
  destruct (fin_pos_finite _ _ _ HfL) as (mL & eL & EqL & HeL).
  { rewrite HvL. apply IZR_lt. lia. }
  rewrite EqL in *. simpl Binary64.is_zero. cbv iota.
  set (q := 200 * k / L).
  assert (Hq : 0 <= q <= 200).
  { unfold q. split; [apply Z.div_pos; lia |].
    apply Z.div_le_upper_bound; lia. }
  assert (Hq1 : L * q <= 200 * k) by (unfold q; apply Z.mul_div_le; lia).
  assert (Hq2 : 200 * k < L * q + L).
  { unfold q. pose proof (Z.mul_succ_div_gt (200 * k) L HL). lia. }
  assert (Hglo : grid q 0) by (split; lia).
  assert (Hghi : grid ((q + 1) * 2 ^ 44 - 1) (-44)) by (split; lia).
  assert (HLr : (0 < IZR L)%R) by (apply IZR_lt; lia).
  assert (Hb44 : (bpow (-44) * IZR (2 ^ 44) = 1)%R).
  { rewrite <- bpow_IZR by lia. rewrite <- bpow_plus. apply bpow_0. }
  pose proof (bpow_gt_0 (-44)) as Hb44p.
  assert (H44 : (0 < IZR (2 ^ 44))%R) by (apply IZR_lt; lia).
  assert (Hb2 : (IZR q * bpow 0 <= B2R x / (IZR (Z.pos mL) * bpow eL)
                 <= IZR ((q + 1) * 2 ^ 44 - 1) * bpow (-44))%R).
  { simpl in HvL. rewrite HvL, Hvx, bpow_0, Rmult_1_r. split.
    - apply Rmult_le_reg_r with (IZR L); [assumption |].
      unfold Rdiv. rewrite Rmult_assoc, Rinv_l, Rmult_1_r by lra.
      rewrite <- mult_IZR. apply IZR_le. lia.
    - apply Rmult_le_reg_r with (IZR L); [assumption |].
      unfold Rdiv. rewrite Rmult_assoc, Rinv_l, Rmult_1_r by lra.
      apply Rmult_le_reg_r with (IZR (2 ^ 44)); [assumption |].
      replace (IZR ((q + 1) * 2 ^ 44 - 1) * bpow (-44) * IZR L * IZR (2 ^ 44))%R
        with (IZR ((q + 1) * 2 ^ 44 - 1) * IZR L * (bpow (-44) * IZR (2 ^ 44)))%R
        by ring.
      rewrite Hb44, Rmult_1_r, <- !mult_IZR. apply IZR_le. nia. }
  destruct (div_anchor x mL eL _ _ _ _ _ _ Hfx ltac:(lia) Hglo Hghi
              ltac:(lia) Hb2) as [Hfz Hbz].
  set (z := Binary64.div x (S754_finite false mL eL)) in *.
  destruct (trunc_fin_nonneg z _ _ Hfz) as (s & Hs & Hs0 & Hsv).
  unfold py_int. rewrite Hs. f_equal.
  rewrite bpow_0, Rmult_1_r in Hbz.
  assert (Hlo : (IZR q < IZR s + 1)%R) by lra.
  assert (Hhi : (IZR s * IZR (2 ^ 44) <= IZR ((q + 1) * 2 ^ 44 - 1))%R).
  { assert (Hs1 : (IZR s <= IZR ((q + 1) * 2 ^ 44 - 1) * bpow (-44))%R) by lra.
    apply Rmult_le_compat_r with (r := IZR (2 ^ 44)) in Hs1; [| lra].
    rewrite Rmult_assoc, Hb44, Rmult_1_r in Hs1. exact Hs1. }
  rewrite <- plus_IZR in Hlo. apply lt_IZR in Hlo.
  rewrite <- mult_IZR in Hhi. apply le_IZR in Hhi. lia.
Qed.

(** * The scorer *)

Lemma bind_Ok {A B : Type} (a : A) (k : A -> result B) : bind (Ok a) k = k a.
Proof. reflexivity. Qed.

(** ** Unmatched positions *)

Lemma sum_lengths_from (bs : list block) (acc : Z) :
  fold_left (fun acc b => acc + Z.of_nat (block_len b)) bs acc
  = acc + Z.of_nat (total_len bs).
Proof.
  revert acc. induction bs as [| b bs IH]; intros acc; simpl.
  - lia.
  - rewrite IH. lia.
Qed.

Lemma sum_lengths_total (bs : list block) :
  sum_lengths bs = Z.of_nat (total_len bs).
Proof. unfold sum_lengths. rewrite sum_lengths_from. lia. Qed.

Lemma blocks_ok_bounds (bs : list block) (ca cb la lb : nat) :
  blocks_ok ca cb la lb bs = true -> (ca <= la /\ cb <= lb)%nat.
Proof.
  revert ca cb. induction bs as [| [[i j] n] rest IH]; intros ca cb H.
  - discriminate.
  - simpl in H. destruct rest as [| b' rest'].
    + repeat (apply andb_prop in H; destruct H as [H ?]).
      apply Nat.leb_le in H0, H1. lia.
    + apply andb_prop in H. destruct H as [H1 H2].
      apply andb_prop in H1. destruct H1 as [Ha Hb].
      apply Nat.leb_le in Ha, Hb.
      destruct (IH _ _ H2). lia.
Qed.

Lemma unmatched_positions_app (bs : list block) (ca cb : nat)
    (da db : list nat) :
  unmatched_positions bs ca cb da db
  = (da ++ fst (unmatched_positions bs ca cb [] []),
     db ++ snd (unmatched_positions bs ca cb [] [])).
Proof.
  revert ca cb da db. induction bs as [| [[i j] n] rest IH]; intros; simpl.
  - rewrite !app_nil_r. reflexivity.
  - rewrite IH. rewrite (IH _ _ (py_range ca i) (py_range cb j)).
    simpl. rewrite <- !app_assoc. reflexivity.
Qed.

(** Under the contract, the unmatched positions lie inside the strings and,
    with the matched ones, count every position once. *)
Lemma unmatched_positions_count (bs : list block) (ca cb la lb : nat) :
  blocks_ok ca cb la lb bs = true ->
  let '(da, db) := unmatched_positions bs ca cb [] [] in
  Forall (fun p => (p < la)%nat) da
  /\ Forall (fun p => (p < lb)%nat) db
  /\ (List.length da + total_len bs + ca = la)%nat
  /\ (List.length db + total_len bs + cb = lb)%nat.
Proof.
  revert ca cb. induction bs as [| [[i j] n] rest IH]; intros ca cb H.
  - discriminate.
  - simpl unmatched_positions. rewrite unmatched_positions_app.
    simpl in H. destruct rest as [| b' rest'].
    + repeat (apply andb_prop in H; destruct H as [H ?]).
      apply Nat.eqb_eq in H, H3, H2. apply Nat.leb_le in H0, H1. subst.
      simpl. rewrite !app_nil_r. unfold py_range, block_len. simpl.
      repeat split.
      * apply Forall_forall. intros p Hp. apply in_seq in Hp. lia.
      * apply Forall_forall. intros p Hp. apply in_seq in Hp. lia.
      * rewrite length_seq. lia.
      * rewrite length_seq. lia.
    + apply andb_prop in H. destruct H as [H1 H2].
      apply andb_prop in H1. destruct H1 as [Ha Hb].
      apply Nat.leb_le in Ha, Hb.
      pose proof (blocks_ok_bounds _ _ _ _ _ H2) as [Hba Hbb].
      specialize (IH _ _ H2).
      destruct (unmatched_positions (b' :: rest') (i + n) (j + n) [] [])
        as [da db].
      destruct IH as (Fa & Fb & La & Lb).
      cbn [fst snd]. change (total_len (((i, j), n) :: b' :: rest'))
        with (n + total_len (b' :: rest'))%nat.
      repeat split.
      * apply Forall_app. split; [| exact Fa].
        apply Forall_forall. intros p Hp. apply in_seq in Hp. lia.
      * apply Forall_app. split; [| exact Fb].
        apply Forall_forall. intros p Hp. apply in_seq in Hp. lia.
      * rewrite length_app. unfold py_range. rewrite length_seq. lia.
      * rewrite length_app. unfold py_range. rewrite length_seq. lia.
Qed.

(** ** The penalty loops, for an integer multiplier *)

Lemma str_get_some (s : string) (i : nat) :
  (i < str_len s)%nat -> exists c, String.get i s = Some c.
Proof.
  revert i. induction s as [| c s IH]; intros i H; simpl in *; [lia |].
  destruct i as [| i]; [eauto |]. apply IH. lia.
Qed.

Lemma foldM_add_penalty (s : string) (d : Z) (positions : list nat) (p0 : Z) :
  Forall (fun p => (p < str_len s)%nat) positions ->
  foldM (add_penalty (PyStr s) (PInt d)) positions (PInt p0)
  = Ok (PInt (p0 + penalty_of d s (rev positions))).
Proof.
  revert p0. induction positions as [| i rest IH]; intros p0 HF.
  - simpl. rewrite Z.add_0_r. reflexivity.
  - inversion HF as [| ? ? Hi HF']; subst.
    destruct (str_get_some s i Hi) as [c Hc].
    simpl foldM. unfold add_penalty at 1. simpl py_getitem.
    unfold str_get. rewrite Hc. rewrite bind_Ok.
    assert (Hstep : (if isdigit c then py_add (PInt p0) (PInt d)
                     else py_add (PInt p0) (PInt 1))
                    = Ok (PInt (p0 + char_weight d c))).
    { unfold char_weight. destruct (isdigit c); reflexivity. }
    rewrite Hstep, bind_Ok, IH by assumption. f_equal. f_equal.
    simpl rev. unfold penalty_of at 2. rewrite fold_right_app. simpl.
    rewrite Hc.
    assert (Hgen : forall l acc,
               fold_right
                 (fun i acc => match String.get i s with
                               | Some c => char_weight d c + acc
                               | None => acc
                               end) acc l
               = acc + penalty_of d s l).
    { induction l as [| x l IHl]; intros acc; simpl; [lia |].
      rewrite IHl. destruct (String.get x s); lia. }
    rewrite Hgen. lia.
Qed.

Lemma penalty_of_ge (d : Z) (s : string) (positions : list nat) :
  1 <= d ->
  Forall (fun p => (p < str_len s)%nat) positions ->
  Z.of_nat (List.length positions) <= penalty_of d s positions.
Proof.
  intros Hd HF. induction HF as [| i rest Hi HF IH]; simpl; [lia |].
  destruct (str_get_some s i Hi) as [c ->].
  unfold char_weight. destruct (isdigit c); lia.
Qed.

(** ** compute_score and real_quick_ratio on two strings *)

Lemma str_len_0 (s : string) : (str_len s =? 0)%nat = is_empty s.
Proof. destruct s; reflexivity. Qed.

(** [compute_score] on two strings whose blocks keep the contract, for an
    integer multiplier. *)
Lemma compute_score_at (get_matching_blocks : string -> string -> list block)
    (a b : string) (d : Z) (st : bool) :
  blocks_ok 0 0 (str_len a) (str_len b) (get_matching_blocks a b) = true ->
  compute_score get_matching_blocks (scorer_on a b (PInt d) st)
  = if is_empty a && is_empty b then Ok 100
    else if is_empty a || is_empty b then Ok 0
    else ratio_percent (sum_lengths (get_matching_blocks a b))
           (PInt (penalty_value get_matching_blocks d a b)).
Proof.
  intros Hok.
  unfold compute_score, scorer_on. cbn [seq1 seq2 seqmat digit_multiplier].
  cbn [py_len]. rewrite !bind_Ok, !str_len_0.
  destruct (is_empty a && is_empty b); [reflexivity |].
  destruct (is_empty a || is_empty b); [reflexivity |].
  cbn [seqmat_blocks]. rewrite bind_Ok.
  pose proof (unmatched_positions_count _ _ _ _ _ Hok) as Hc.
  unfold penalty_value, unmatched.
  destruct (unmatched_positions (get_matching_blocks a b) 0 0 [] [])
    as [da db].
  destruct Hc as (Fa & Fb & _ & _).
  rewrite (foldM_add_penalty a d da 0 Fa), bind_Ok.
  rewrite (foldM_add_penalty b d db _ Fb), bind_Ok.
  cbn [fst snd]. rewrite Z.add_0_l. reflexivity.
Qed.



Lemma unmatched_positions_mirror (bs : list block) (ca cb : nat)
    (da db : list nat) :
  unmatched_positions (mirror bs) cb ca db da
  = (snd (unmatched_positions bs ca cb da db),
     fst (unmatched_positions bs ca cb da db)).
Proof.
  revert ca cb da db. induction bs as [| [[i j] k] bs IH]; intros; simpl.
  - reflexivity.
  - apply IH.
Qed.

Lemma sum_lengths_mirror (bs : list block) :
  sum_lengths (mirror bs) = sum_lengths bs.
Proof.
  rewrite !sum_lengths_total. f_equal.
  induction bs as [| [[i j] k] bs IH]; simpl; [| rewrite IH]; reflexivity.
Qed.

Lemma blocks_ok_mirror (bs : list block) (ca cb la lb : nat) :
  blocks_ok ca cb la lb bs = true -> blocks_ok cb ca lb la (mirror bs) = true.
Proof.
  revert ca cb. induction bs as [| [[i j] k] bs IH]; intros ca cb H.
  - discriminate.
  - cbn [mirror map blocks_ok] in *. fold (mirror bs).
    destruct bs as [| b' bs'].
    + cbn [mirror map].
      repeat (apply andb_prop in H; destruct H as [H ?]).
      rewrite H, H0, H1, H2, H3. reflexivity.
    + change (mirror (b' :: bs')) with (map (fun bl : block =>
                let '(i, j, k) := bl in (j, i, k)) (b' :: bs')) in *.
      cbn [map] in *.
      apply andb_prop in H. destruct H as [H1 H2].
      apply andb_prop in H1. destruct H1 as [Ha Hb].
      rewrite Ha, Hb. cbn [andb]. apply (IH _ _ H2).
Qed.

(** ** The unmatched positions are the positions no block covers *)

Lemma filter_all {A : Type} (f : A -> bool) (l : list A) :
  (forall x, In x l -> f x = true) -> filter f l = l.
Proof.
  induction l as [| x l IH]; intros H; simpl; [reflexivity |].
  rewrite (H x (or_introl eq_refl)). f_equal. apply IH.
  intros y Hy. apply H. right. exact Hy.
Qed.

Lemma filter_none {A : Type} (f : A -> bool) (l : list A) :
  (forall x, In x l -> f x = false) -> filter f l = [].
Proof.
  induction l as [| x l IH]; intros H; simpl; [reflexivity |].
  rewrite (H x (or_introl eq_refl)). apply IH.
  intros y Hy. apply H. right. exact Hy.
Qed.

Lemma not_covered_before (bs : list block) (ca cb la lb p : nat) :
  blocks_ok ca cb la lb bs = true -> (p < ca)%nat ->
  existsb (covers_a p) bs = false.
Proof.
  revert ca cb. induction bs as [| [[i j] n] rest IH]; intros ca cb H Hp.
  - reflexivity.
  - cbn [existsb covers_a]. simpl in H. destruct rest as [| b' rest'].
    + repeat (apply andb_prop in H; destruct H as [H ?]).
      apply Nat.eqb_eq in H. apply Nat.leb_le in H1. subst i.
      destruct (Nat.leb_spec la p); [lia | reflexivity].
    + apply andb_prop in H. destruct H as [H1 H2].
      apply andb_prop in H1. destruct H1 as [Ha Hb].
      apply Nat.leb_le in Ha.
      rewrite (IH _ _ H2) by lia.
      destruct (Nat.leb_spec i p); [lia | reflexivity].
Qed.

Lemma unmatched_a_uncovered (bs : list block) (ca cb la lb : nat) :
  blocks_ok ca cb la lb bs = true ->
  fst (unmatched_positions bs ca cb [] [])
  = filter (fun p => negb (existsb (covers_a p) bs)) (seq ca (la - ca)).
Proof.
  revert ca cb. induction bs as [| [[i j] n] rest IH]; intros ca cb H.
  - discriminate.
  - simpl unmatched_positions. rewrite unmatched_positions_app. cbn [fst].
    simpl in H. destruct rest as [| b' rest'].
    + repeat (apply andb_prop in H; destruct H as [H ?]).
      apply Nat.eqb_eq in H, H3, H2. apply Nat.leb_le in H1. subst.
      cbn [unmatched_positions fst]. rewrite app_nil_r. unfold py_range.
      symmetry. apply filter_all. intros p Hp. cbn [existsb covers_a].
      destruct (Nat.leb_spec la p); [| reflexivity].
      destruct (Nat.ltb_spec p (la + 0)); [lia | reflexivity].
    + apply andb_prop in H. destruct H as [H1 H2].
      apply andb_prop in H1. destruct H1 as [Ha Hb].
      apply Nat.leb_le in Ha.
      pose proof (blocks_ok_bounds _ _ _ _ _ H2) as [Hba _].
      rewrite (IH _ _ H2).
      replace (la - ca)%nat with ((i - ca) + (n + (la - (i + n))))%nat by lia.
      rewrite !seq_app, !filter_app.
      replace (ca + (i - ca))%nat with i by lia.
      set (rest := b' :: rest') in *.
      match goal with
      | |- _ = filter ?f _ ++ _ => set (F := f)
      end.
      assert (E1 : filter F (seq ca (i - ca)) = py_range ca i).
      { unfold py_range. apply filter_all. intros p Hp. apply in_seq in Hp.
        unfold F. cbn [existsb covers_a].
        rewrite (not_covered_before _ _ _ _ _ p H2) by lia.
        destruct (Nat.leb_spec i p); [lia | reflexivity]. }
      assert (E2 : filter F (seq i n) = []).
      { apply filter_none. intros p Hp. apply in_seq in Hp.
        unfold F. cbn [existsb covers_a].
        destruct (Nat.leb_spec i p); [| lia].
        destruct (Nat.ltb_spec p (i + n)); [reflexivity | lia]. }
      assert (E3 : filter F (seq (i + n) (la - (i + n)))
                   = filter (fun p => negb (existsb (covers_a p) rest))
                       (seq (i + n) (la - (i + n)))).
      { apply filter_ext_in. intros p Hp. apply in_seq in Hp.
        unfold F. cbn [existsb covers_a].
        destruct (Nat.ltb_spec p (i + n)); [lia |].
        rewrite andb_false_r. reflexivity. }
      rewrite E1, E2, E3. reflexivity.
Qed.

Lemma covers_mirror (p : nat) (bs : list block) :
  existsb (covers_a p) (mirror bs) = existsb (covers_b p) bs.
Proof.
  induction bs as [| [[i j] n] bs IH]; simpl; [| rewrite IH]; reflexivity.
Qed.

Lemma unmatched_b_uncovered (bs : list block) (ca cb la lb : nat) :
  blocks_ok ca cb la lb bs = true ->
  snd (unmatched_positions bs ca cb [] [])
  = filter (fun p => negb (existsb (covers_b p) bs)) (seq cb (lb - cb)).
Proof.
  intros H. pose proof (blocks_ok_mirror _ _ _ _ _ H) as Hm.
  pose proof (unmatched_a_uncovered _ _ _ _ _ Hm) as Hu.
  rewrite unmatched_positions_mirror in Hu. cbn [fst] in Hu. rewrite Hu.
  apply filter_ext. intros p. rewrite covers_mirror. reflexivity.
Qed.

Lemma penalty_of_app (d : Z) (s : string) (l1 l2 : list nat) :
  penalty_of d s (l1 ++ l2) = penalty_of d s l1 + penalty_of d s l2.
Proof.
  induction l1 as [| i l1 IH]; simpl; [reflexivity |].
  rewrite IH. destruct (String.get i s); lia.
Qed.

Lemma penalty_of_rev (d : Z) (s : string) (l : list nat) :
  penalty_of d s (rev l) = penalty_of d s l.
Proof.
  induction l as [| i l IH]; simpl; [reflexivity |].
  rewrite penalty_of_app, IH. simpl. destruct (String.get i s); lia.
Qed.

Lemma penalty_of_le (d : Z) (s : string) (positions : list nat) :
  1 <= d ->
  penalty_of d s positions <= d * Z.of_nat (List.length positions).
Proof.
  intros Hd. induction positions as [| i rest IH]; [simpl; lia |].
  cbn [penalty_of fold_right List.length]. fold (penalty_of d s rest).
  destruct (String.get i s) as [c |]; unfold char_weight;
    try destruct (isdigit c); lia.
Qed.

(** The penalty of the code is the penalty the specification describes. *)
Lemma penalty_value_uncovered
    (get_matching_blocks : string -> string -> list block)
    (a b : string) (d : Z) :
  blocks_ok 0 0 (str_len a) (str_len b) (get_matching_blocks a b) = true ->
  penalty_value get_matching_blocks d a b
  = penalty_of d a
      (uncovered covers_a (get_matching_blocks a b) (str_len a))
    + penalty_of d b
        (uncovered covers_b (get_matching_blocks a b) (str_len b)).
Proof.
  intros Hok. unfold penalty_value, unmatched, uncovered.
  rewrite !penalty_of_rev.
  rewrite (unmatched_a_uncovered _ _ _ _ _ Hok).
  rewrite (unmatched_b_uncovered _ _ _ _ _ Hok).
  rewrite !Nat.sub_0_r. reflexivity.
Qed.

(** Matched and unmatched characters, counted. *)
Lemma penalty_value_bounds
    (get_matching_blocks : string -> string -> list block)
    (a b : string) (d : Z) :
  blocks_ok 0 0 (str_len a) (str_len b) (get_matching_blocks a b) = true ->
  1 <= d ->
  let m := sum_lengths (get_matching_blocks a b) in
  let free := Z.of_nat (str_len a) + Z.of_nat (str_len b) - 2 * m in
  0 <= m
  /\ m <= Z.of_nat (str_len a) /\ m <= Z.of_nat (str_len b)
  /\ free <= penalty_value get_matching_blocks d a b <= d * free.
Proof.
  intros Hok Hd. cbv zeta. rewrite sum_lengths_total.
  pose proof (unmatched_positions_count _ _ _ _ _ Hok) as Hc.
  unfold penalty_value, unmatched.
  destruct (unmatched_positions (get_matching_blocks a b) 0 0 [] [])
    as [da db].
  destruct Hc as (Fa & Fb & La & Lb). cbn [fst snd].
  assert (Fa' : Forall (fun p => (p < str_len a)%nat) (rev da)).
  { apply Forall_forall. intros p Hp. apply in_rev in Hp.
    revert p Hp. apply Forall_forall. exact Fa. }
  assert (Fb' : Forall (fun p => (p < str_len b)%nat) (rev db)).
  { apply Forall_forall. intros p Hp. apply in_rev in Hp.
    revert p Hp. apply Forall_forall. exact Fb. }
  pose proof (penalty_of_ge d a (rev da) Hd Fa') as Pa.
  pose proof (penalty_of_ge d b (rev db) Hd Fb') as Pb.
  pose proof (penalty_of_le d a (rev da) Hd) as Qa.
  pose proof (penalty_of_le d b (rev db) Hd) as Qb.
  rewrite length_rev in Pa, Pb, Qa, Qb.
  repeat split; lia.
Qed.

Lemma is_empty_len (s : string) : is_empty s = false -> (0 < str_len s)%nat.
Proof. destruct s; simpl; [discriminate | lia]. Qed.

(** For an integer multiplier of at least 1, [compute_score] returns the
    score of the specification or one less. *)
Lemma compute_score_within_one
    (get_matching_blocks : string -> string -> list block)
    (a b : string) (d : Z) (st : bool) :
  blocks_ok 0 0 (str_len a) (str_len b) (get_matching_blocks a b) = true ->
  1 <= d -> d * Z.of_nat (str_len a + str_len b) <= 2 ^ 32 ->
  exists s,
    compute_score get_matching_blocks (scorer_on a b (PInt d) st) = Ok s
    /\ spec_compute_score get_matching_blocks d a b - 1 <= s
       <= spec_compute_score get_matching_blocks d a b.
Proof.
  intros Hok Hd Hlen. rewrite (compute_score_at _ a b d st Hok).
  unfold spec_compute_score.
  destruct (is_empty a) eqn:Ea; destruct (is_empty b) eqn:Eb; cbn [andb orb];
    try (eexists; split; [reflexivity | lia]).
  apply is_empty_len in Ea, Eb.
  rewrite <- (penalty_value_uncovered _ a b d Hok).
  destruct (penalty_value_bounds _ a b d Hok Hd) as (Hm0 & Hma & Hmb & Hp).
  set (m := sum_lengths (get_matching_blocks a b)) in *.
  set (pen := penalty_value get_matching_blocks d a b) in *.
  destruct (ratio_percent_near m (m + pen)) as (s & Hs & Hnear);
    [nia | nia |].
  replace (m + pen - m) with pen in Hs by lia.
  exists s. split; [exact Hs | exact Hnear].
Qed.

Section WithBlocks.

Variable get_matching_blocks : string -> string -> list block.
Hypothesis blocks_spec : matching_blocks_spec get_matching_blocks.

Local Abbreviation unmatched := (unmatched get_matching_blocks).
Local Abbreviation penalty_value := (penalty_value get_matching_blocks).

Lemma compute_score_int (a b : string) (d : Z) (st : bool) :
  compute_score get_matching_blocks (scorer_on a b (PInt d) st)
  = if is_empty a && is_empty b then Ok 100
    else if is_empty a || is_empty b then Ok 0
    else ratio_percent (sum_lengths (get_matching_blocks a b))
           (PInt (penalty_value d a b)).
Proof. apply compute_score_at, blocks_spec. Qed.

(** Matched and unmatched characters, counted. *)
Lemma penalty_value_ge (a b : string) (d : Z) :
  1 <= d ->
  let m := sum_lengths (get_matching_blocks a b) in
  0 <= m
  /\ m <= Z.of_nat (str_len a) /\ m <= Z.of_nat (str_len b)
  /\ Z.of_nat (str_len a) + Z.of_nat (str_len b) - 2 * m
     <= penalty_value d a b.
Proof.
  intros Hd. cbv zeta. rewrite sum_lengths_total.
  pose proof (unmatched_positions_count _ _ _ _ _ (blocks_spec a b)) as Hc.
  unfold penalty_value, unmatched.
  destruct (unmatched_positions (get_matching_blocks a b) 0 0 [] [])
    as [da db].
  destruct Hc as (Fa & Fb & La & Lb). cbn [fst snd].
  assert (Fa' : Forall (fun p => (p < str_len a)%nat) (rev da)).
  { apply Forall_forall. intros p Hp. apply in_rev in Hp.
    revert p Hp. apply Forall_forall. exact Fa. }
  assert (Fb' : Forall (fun p => (p < str_len b)%nat) (rev db)).
  { apply Forall_forall. intros p Hp. apply in_rev in Hp.
    revert p Hp. apply Forall_forall. exact Fb. }
  pose proof (penalty_of_ge d a (rev da) Hd Fa') as Pa.
  pose proof (penalty_of_ge d b (rev db) Hd Fb') as Pb.
  rewrite length_rev in Pa, Pb. lia.
Qed.

(** With an integer multiplier of at least 1, [compute_score] returns a
    score between 0 and 100. *)
Lemma compute_score_range (a b : string) (d : Z) (st : bool) :
  1 <= d ->
  exists s,
    compute_score get_matching_blocks (scorer_on a b (PInt d) st) = Ok s
    /\ 0 <= s <= 100.
Proof.
  intros Hd. rewrite compute_score_int.
  destruct (is_empty a) eqn:Ea; destruct (is_empty b) eqn:Eb; simpl;
    try (eexists; split; [reflexivity | lia]).
  apply is_empty_len in Ea, Eb.
  destruct (penalty_value_ge a b d Hd) as (Hm0 & Hma & Hmb & Hp).
  set (m := sum_lengths (get_matching_blocks a b)) in *.
  replace (penalty_value d a b) with (m + penalty_value d a b - m) by lia.
  apply ratio_percent_range; lia.
Qed.

Lemma real_quick_ratio_eq (a b : string) (dm : pynum) (st : bool) :
  real_quick_ratio (scorer_on a b dm st)
  = if is_empty a && is_empty b then Ok 100
    else quick_percent (str_len a) (str_len b).
Proof.
  unfold real_quick_ratio, scorer_on. cbn [seq1 seq2 py_len].
  rewrite !bind_Ok, !str_len_0. reflexivity.
Qed.

(** The quick ratio is the integer part of [200 * min / (len1 + len2)],
    for strings of fewer than [2^31] characters. *)
Lemma real_quick_ratio_exact (a b : string) (dm : pynum) (st : bool) :
  Z.of_nat (str_len a) < 2 ^ 31 -> Z.of_nat (str_len b) < 2 ^ 31 ->
  real_quick_ratio (scorer_on a b dm st)
  = Ok (if is_empty a && is_empty b then 100
        else 200 * Z.of_nat (Nat.min (str_len a) (str_len b))
             / Z.of_nat (str_len a + str_len b)).
Proof.
  intros Ha Hb. rewrite real_quick_ratio_eq.
  destruct (is_empty a) eqn:Ea; destruct (is_empty b) eqn:Eb; simpl;
    try reflexivity;
    try apply is_empty_len in Ea; try apply is_empty_len in Eb;
    apply quick_percent_exact; lia.
Qed.

(** The quick ratio is an upper bound of the score, for an integer
    multiplier of at least 1. *)
Lemma compute_score_le_quick (a b : string) (d : Z) (st : bool) :
  1 <= d ->
  Z.of_nat (str_len a) < 2 ^ 31 -> Z.of_nat (str_len b) < 2 ^ 31 ->
  exists s q,
    compute_score get_matching_blocks (scorer_on a b (PInt d) st) = Ok s
    /\ real_quick_ratio (scorer_on a b (PInt d) st) = Ok q
    /\ 0 <= s <= q.
Proof.
  intros Hd Ha Hb.
  rewrite (real_quick_ratio_exact a b _ _ Ha Hb), compute_score_int.
  destruct (is_empty a) eqn:Ea; destruct (is_empty b) eqn:Eb;
    cbn [andb orb].
  - exists 100, 100. repeat split; lia.
  - apply is_empty_len in Eb. destruct a; [| discriminate].
    eexists 0, _. repeat split; try lia.
    change (str_len EmptyString) with 0%nat in *; rewrite ?Nat.min_0_r, ?Nat.min_0_l, ?Nat.add_0_r; apply Z.div_pos; lia.
  - apply is_empty_len in Ea. destruct b; [| discriminate].
    eexists 0, _. repeat split; try lia.
    change (str_len EmptyString) with 0%nat in *; rewrite ?Nat.min_0_r, ?Nat.min_0_l, ?Nat.add_0_r; apply Z.div_pos; lia.
  - apply is_empty_len in Ea, Eb.
    destruct (penalty_value_ge a b d Hd) as (Hm0 & Hma & Hmb & Hp).
    set (m := sum_lengths (get_matching_blocks a b)) in *.
    set (la := Z.of_nat (str_len a)) in *.
    set (lb := Z.of_nat (str_len b)) in *.
    set (k := Z.of_nat (Nat.min (str_len a) (str_len b))).
    set (L := Z.of_nat (str_len a + str_len b)).
    assert (Hk : k = Z.min la lb) by (unfold k, la, lb; lia).
    assert (HL : L = la + lb) by (unfold L, la, lb; lia).
    set (q := 200 * k / L).
    assert (HLpos : 0 < L) by lia.
    assert (Hq0 : 0 <= q) by (unfold q; apply Z.div_pos; lia).
    assert (Hq200 : q <= 200).
    { unfold q. apply Z.div_le_upper_bound; lia. }
    assert (Hq2 : 200 * k < L * q + L).
    { unfold q. pose proof (Z.mul_succ_div_gt (200 * k) L HLpos). lia. }
    replace (penalty_value d a b) with (m + penalty_value d a b - m) by lia.
    destruct (ratio_percent_below m (L - m) (m + penalty_value d a b) (q + 1))
      as (s & Hs & Hs0); try lia.
    + assert (H1 : 100 * m * L <= 200 * k * (L - m)) by nia.
      assert (H2 : 200 * k * (L - m) < (q + 1) * L * (L - m)) by nia.
      assert (H3 : 100 * m * L < (q + 1) * (L - m) * L) by lia.
      assert (H4 : 100 * m < (q + 1) * (L - m)) by nia.
      lia.
    + exists s, q. repeat split; try assumption; lia.
Qed.

End WithBlocks.

(** * The funnel *)

(** ** The scorer between two calls *)

Lemma scorer_on_ready (c q : string) (dm : pynum) (st : bool) :
  ready (scorer_on c q dm st) q dm st.
Proof. unfold ready, scorer_on; simpl; eauto 6. Qed.

Lemma init_ready (q : string) (dm : pynum) :
  exists fus, FuzzyScorer_init (PyStr q) PyNone dm false = Ok fus
              /\ ready fus q dm false.
Proof. eexists. split; [reflexivity |]. unfold ready; simpl; eauto 6. Qed.

Lemma init_token_ready (q : string) (dm : pynum) :
  exists fus, FuzzyScorer_init (PyStr q) PyNone dm true = Ok fus
              /\ ready fus (sort_tokens q) dm true.
Proof. eexists. split; [reflexivity |]. unfold ready; simpl; eauto 6. Qed.

Lemma set_choice_ready (fus : FuzzyScorer) (q c : string) (dm : pynum)
    (st : bool) :
  ready fus q dm st ->
  set_choice fus (PyStr c)
  = Ok (scorer_on (if st then sort_tokens c else c) q dm st).
Proof.
  intros (H2 & [m1 Hm] & Hd & Hs).
  unfold set_choice. rewrite Hs, Hm, H2, Hd.
  destruct st; reflexivity.
Qed.

(** ** Masks *)

Lemma mask_filter_map {A B : Type} (f : A -> B) (keep : A -> bool)
    (l : list A) :
  mask_filter (map f l) (map keep l) = map f (filter keep l).
Proof.
  induction l as [| x l IH]; simpl; [reflexivity |].
  destruct (keep x); simpl; rewrite IH; reflexivity.
Qed.

Lemma mask_select_map {A B : Type} (f : A -> B) (keep : A -> bool)
    (l : list A) :
  l <> [] ->
  mask_select (map f l) (map keep l) = Ok (map f (filter keep l)).
Proof.
  intros Hne. unfold mask_select.
  destruct l as [| x l]; [congruence |].
  cbn [map]. rewrite <- !map_cons, !length_map, Nat.eqb_refl.
  rewrite mask_filter_map. reflexivity.
Qed.

Lemma existsb_map_id {A : Type} (keep : A -> bool) (l : list A) :
  existsb (fun v => v) (map keep l) = existsb keep l.
Proof. induction l as [| x l IH]; simpl; [| rewrite IH]; reflexivity. Qed.

Lemma existsb_filter_nil {A : Type} (keep : A -> bool) (l : list A) :
  existsb keep l = false <-> filter keep l = [].
Proof.
  induction l as [| x l IH]; simpl; [tauto |].
  destruct (keep x); simpl; [split; discriminate | exact IH].
Qed.

Lemma np_maximum_map {A : Type} (f g : A -> Z) (l : list A) :
  np_maximum (map f l) (map g l) = map (fun x => Z.max (f x) (g x)) l.
Proof. induction l as [| x l IH]; simpl; [| rewrite IH]; reflexivity. Qed.

Lemma np_gt_map {A : Type} (f g : A -> Z) (l : list A) :
  np_gt (map f l) (map g l) = map (fun x => g x <? f x) l.
Proof. induction l as [| x l IH]; simpl; [| rewrite IH]; reflexivity. Qed.

Lemma np_or_map {A : Type} (f g : A -> bool) (l : list A) :
  np_or (map f l) (map g l) = map (fun x => f x || g x) l.
Proof. induction l as [| x l IH]; simpl; [| rewrite IH]; reflexivity. Qed.

Lemma map_filter_comm {A B : Type} (f : A -> B) (keep : A -> bool)
    (l : list A) (g : A -> B) :
  (forall x, In x l -> f x = g x) -> map f (filter keep l) = map g (filter keep l).
Proof.
  intros H. apply map_ext_in. intros x Hx. apply filter_In in Hx.
  apply H. tauto.
Qed.

(** ** The loops *)

Section Loops.

Variable get_matching_blocks : string -> string -> list block.
Hypothesis blocks_spec : matching_blocks_spec get_matching_blocks.

Lemma quick_value_eq (c q : string) (dm : pynum) (st : bool) :
  short c -> short q ->
  real_quick_ratio (scorer_on c q dm st) = Ok (quick_value c q).
Proof.
  intros Hc Hq. unfold quick_value.
  rewrite !(real_quick_ratio_exact c q _ _ Hc Hq). reflexivity.
Qed.

Lemma quick_loop_map (fus : FuzzyScorer) (q : string) (dm T : pynum)
    (rc : list string) :
  ready fus q dm false -> short q -> Forall short rc ->
  quick_loop fus T rc = Ok (map (fun c => int_ge (quick_value c q) T) rc).
Proof.
  intros Hr Hq HF. revert fus Hr.
  induction HF as [| c rc Hc HF IH]; intros fus Hr; [reflexivity |].
  cbn [quick_loop]. rewrite (set_choice_ready _ _ c _ _ Hr), bind_Ok.
  rewrite (quick_value_eq c q dm false Hc Hq), bind_Ok.
  rewrite (IH _ (scorer_on_ready c q dm false)), bind_Ok. reflexivity.
Qed.

Lemma score_value_eq (c q : string) (d : Z) (st : bool) :
  1 <= d ->
  compute_score get_matching_blocks (scorer_on c q (PInt d) st)
  = Ok (score_value get_matching_blocks (PInt d) c q)
  /\ 0 <= score_value get_matching_blocks (PInt d) c q <= 100.
Proof.
  intros Hd. unfold score_value.
  destruct (compute_score_range get_matching_blocks blocks_spec c q d false Hd)
    as (s & Hs & Hrange).
  rewrite (compute_score_int get_matching_blocks blocks_spec) in Hs.
  rewrite !(compute_score_int get_matching_blocks blocks_spec).
  rewrite Hs. auto.
Qed.

Lemma score_loop_map (fus : FuzzyScorer) (q : string) (d : Z)
    (rc : list string) :
  ready fus q (PInt d) false -> 1 <= d ->
  score_loop get_matching_blocks fus rc
  = Ok (map (fun c => score_value get_matching_blocks (PInt d) c q) rc).
Proof.
  intros Hr Hd. revert fus Hr.
  induction rc as [| c rc IH]; intros fus Hr; [reflexivity |].
  cbn [score_loop]. rewrite (set_choice_ready _ _ c _ _ Hr), bind_Ok.
  destruct (score_value_eq c q d false Hd) as [-> _]. rewrite bind_Ok.
  rewrite (IH _ (scorer_on_ready c q (PInt d) false)), bind_Ok. reflexivity.
Qed.

Lemma token_loop_map {A : Type} (fus : FuzzyScorer) (q : string) (d half : Z)
    (name : A -> string) (raw : A -> Z) (l : list A) :
  ready fus (sort_tokens q) (PInt d) true -> 1 <= d ->
  token_loop get_matching_blocks fus half (map name l) (map raw l)
  = Ok (map (fun x => token_entry half (raw x)
                        (token_value get_matching_blocks (PInt d) (name x) q))
          l).
Proof.
  intros Hr Hd. revert fus Hr.
  induction l as [| x l IH]; intros fus Hr; [reflexivity |].
  cbn [map token_loop]. unfold token_entry at 1.
  destruct (raw x =? 100).
  - rewrite (IH _ Hr), bind_Ok. reflexivity.
  - destruct (raw x <? half).
    + rewrite (IH _ Hr), bind_Ok. reflexivity.
    + rewrite (set_choice_ready _ _ (name x) _ _ Hr), bind_Ok.
      unfold token_value.
      destruct (score_value_eq (sort_tokens (name x)) (sort_tokens q) d true Hd)
        as [-> _]. rewrite bind_Ok.
      rewrite (IH _ (scorer_on_ready _ _ _ _)), bind_Ok. reflexivity.
Qed.

End Loops.

(** ** The blocks of find_cur_best *)


Lemma max_token_entry (half raw tok : Z) :
  0 <= raw <= 100 ->
  Z.max raw (token_entry half raw tok) = stage_score true half raw tok.
Proof.
  intros H. unfold token_entry, stage_score.
  destruct (Z.eqb_spec raw 100); simpl; [lia |].
  destruct (Z.ltb_spec raw half); lia.
Qed.

Lemma gt_token_entry (half raw tok : Z) :
  0 <= raw <= 100 ->
  (raw <? token_entry half raw tok) = stage_improved half raw tok.
Proof.
  intros H. unfold token_entry, stage_improved.
  destruct (Z.eqb_spec raw 100); simpl; [apply Z.ltb_ge; lia |].
  destruct (Z.ltb_spec raw half); simpl; [apply Z.ltb_ge; lia | reflexivity].
Qed.

Lemma third_of_table :
  forallb (fun n => match third_of (Z.of_nat n) with
                    | Ok z => z =? Z.of_nat n / 3
                    | Raise _ => false
                    end) (seq 0 101) = true.
Proof. vm_compute. reflexivity. Qed.

Lemma third_of_exact (t : Z) : 0 <= t <= 100 -> third_of t = Ok (t / 3).
Proof.
  intros Ht. pose proof third_of_table as H.
  rewrite forallb_forall in H. specialize (H (Z.to_nat t)).
  rewrite Z2Nat.id in H by lia.
  assert (Hin : In (Z.to_nat t) (seq 0 101)) by (apply in_seq; lia).
  specialize (H Hin). destruct (third_of t) as [z | e]; [| discriminate].
  apply Z.eqb_eq in H. congruence.
Qed.

Section Blocks.

Variable get_matching_blocks : string -> string -> list block.
Hypothesis blocks_spec : matching_blocks_spec get_matching_blocks.

Variables (qr qf : string) (t d : Z) (oi : bool).
Hypothesis d_pos : 1 <= d.
Hypothesis qr_short : short qr.
Hypothesis qf_short : short qf.
Hypothesis t_range : 0 <= t <= 100.

Let T := PInt t.
Let dm := PInt d.
Let half := t / 3.

Local Abbreviation raw_r := (raw_r get_matching_blocks qr d).
Local Abbreviation tok_r := (tok_r get_matching_blocks qr d).
Local Abbreviation raw_f := (raw_f get_matching_blocks qf d).
Local Abbreviation tok_f := (tok_f get_matching_blocks qf d).
Local Abbreviation primary_score := (primary_score get_matching_blocks qr t d oi).
Local Abbreviation secondary_score :=
  (secondary_score get_matching_blocks qf t d oi).
Local Abbreviation improved_r := (improved_r get_matching_blocks qr t d).
Local Abbreviation improved_f := (improved_f get_matching_blocks qf t d).
Local Abbreviation improved := (improved get_matching_blocks qr qf t d).
Local Abbreviation quick_r := (quick_r qr t).
Local Abbreviation quick_f := (quick_f qf t).
Local Abbreviation keep_r := (keep_r get_matching_blocks qr t d oi).
Local Abbreviation keep_f := (keep_f get_matching_blocks qf t d oi).

Lemma short_pool_filter (keep : candidate -> bool) (pool : list candidate) :
  short_pool pool -> short_pool (filter keep pool).
Proof.
  unfold short_pool. rewrite !Forall_forall. intros H c Hc.
  apply filter_In in Hc. apply H. tauto.
Qed.

Lemma short_pool_r (pool : list candidate) :
  short_pool pool -> Forall short (map cand_r pool).
Proof.
  unfold short_pool. rewrite !Forall_forall. intros H s Hs.
  apply in_map_iff in Hs. destruct Hs as (c & <- & Hc). apply H, Hc.
Qed.

Lemma short_pool_f (pool : list candidate) :
  short_pool pool -> Forall short (map cand_f pool).
Proof.
  unfold short_pool. rewrite !Forall_forall. intros H s Hs.
  apply in_map_iff in Hs. destruct Hs as (c & <- & Hc). apply H, Hc.
Qed.

Lemma quick_comparison_block_pool (pool : list candidate) :
  short_pool pool ->
  quick_comparison_block (PyStr qr) (PyStr qf)
    (SArray (map cand_r pool)) (SArray (map cand_f pool))
    (map cand_pos pool) T dm
  = Ok (match filter quick_r pool with
        | [] => Return None
        | _ :: _ =>
            Continue (Some (rem_of (filter quick_f (filter quick_r pool))))
        end).
Proof.
  intros Hshort. unfold quick_comparison_block.
  destruct (init_ready qr dm) as (fus1 & -> & Hr1). rewrite bind_Ok.
  cbn [py_iter]. rewrite bind_Ok.
  rewrite (quick_loop_map fus1 qr dm T _ Hr1 qr_short (short_pool_r _ Hshort)).
  rewrite bind_Ok, map_map. fold quick_r.
  change (fun x : candidate => int_ge (quick_value (cand_r x) qr) T)
    with quick_r.
  destruct pool as [| c0 pool']; [reflexivity |].
  assert (Hne : c0 :: pool' <> []) by discriminate.
  cbn [np_mask]. rewrite !(mask_select_map _ quick_r _ Hne), !bind_Ok.
  destruct (init_ready qf dm) as (fus2 & -> & Hr2). rewrite bind_Ok.
  assert (Hs1 : short_pool (filter quick_r (c0 :: pool')))
    by (apply short_pool_filter; assumption).
  rewrite (quick_loop_map fus2 qf dm T _ Hr2 qf_short (short_pool_f _ Hs1)).
  rewrite bind_Ok, map_map.
  change (fun x : candidate => int_ge (quick_value (cand_f x) qf) T)
    with quick_f.
  destruct (filter quick_r (c0 :: pool')) as [| c1 S1']; [reflexivity |].
  assert (Hne1 : c1 :: S1' <> []) by discriminate.
  rewrite !(mask_select_map _ quick_f _ Hne1), !bind_Ok.
  reflexivity.
Qed.

Lemma raw_r_range (c : candidate) : 0 <= raw_r c <= 100.
Proof. apply (score_value_eq _ blocks_spec _ _ _ false d_pos). Qed.

Lemma raw_f_range (c : candidate) : 0 <= raw_f c <= 100.
Proof. apply (score_value_eq _ blocks_spec _ _ _ false d_pos). Qed.

Lemma tok_r_range (c : candidate) : 0 <= tok_r c <= 100.
Proof. apply (score_value_eq _ blocks_spec _ _ _ false d_pos). Qed.

Lemma tok_f_range (c : candidate) : 0 <= tok_f c <= 100.
Proof. apply (score_value_eq _ blocks_spec _ _ _ false d_pos). Qed.

(** The scores of a stage, before the filter. *)
Lemma token_rescore_pool (q : string) (name : candidate -> string)
    (l : list candidate) :
  token_rescore get_matching_blocks (PyStr q) dm (Some half)
    (map name l)
    (map (fun c => score_value get_matching_blocks dm (name c) q) l)
  = Ok (map (fun c =>
               stage_score true half
                 (score_value get_matching_blocks dm (name c) q)
                 (token_value get_matching_blocks dm (name c) q)) l,
        map (fun c =>
               stage_improved half
                 (score_value get_matching_blocks dm (name c) q)
                 (token_value get_matching_blocks dm (name c) q)) l).
Proof.
  unfold token_rescore.
  destruct (init_token_ready q dm) as (fus & -> & Hr). rewrite bind_Ok.
  cbn [read_local]. rewrite bind_Ok.
  rewrite (token_loop_map _ blocks_spec fus q d half name _ l Hr d_pos).
  rewrite bind_Ok, np_maximum_map, np_gt_map. f_equal. f_equal.
  - apply map_ext. intros c. apply max_token_entry.
    apply (score_value_eq _ blocks_spec _ _ _ false d_pos).
  - apply map_ext. intros c. apply gt_token_entry.
    apply (score_value_eq _ blocks_spec _ _ _ false d_pos).
Qed.

Lemma registrant_block_pool (S : list candidate) :
  registrant_block get_matching_blocks (PyStr qr) T dm oi (Some (rem_of S))
  = Ok (match filter keep_r S with
        | [] => Return None
        | _ :: _ =>
            Continue
              (mkAfterRegistrant (rem_of (filter keep_r S))
                 (map primary_score (filter keep_r S))
                 (if oi then Some (map improved_r (filter keep_r S))
                  else None)
                 (if oi then Some half else None))
        end).
Proof.
  unfold registrant_block.
  destruct (init_ready qr dm) as (fus & -> & Hr). rewrite bind_Ok.
  cbn [read_local rem_of rcr rcf rpos]. rewrite bind_Ok.
  rewrite (score_loop_map _ blocks_spec fus qr d _ Hr d_pos).
  rewrite bind_Ok, map_map. fold dm.
  change (fun x : candidate =>
            score_value get_matching_blocks dm (cand_r x) qr) with raw_r.
  assert (Hscores :
    (if oi
     then third <- py_truediv T (PInt 3) ;;
          half_valid_threshold <- py_int third ;;
          ' (best, improvement) <-
            token_rescore get_matching_blocks (PyStr qr) dm
              (Some half_valid_threshold) (map cand_r S) (map raw_r S) ;;
          Ok (best, Some improvement, Some half_valid_threshold)
     else Ok (map raw_r S, None, None))
    = Ok (map primary_score S,
          (if oi then Some (map improved_r S) else None),
          (if oi then Some half else None))).
  { unfold primary_score, stage_score. destruct oi; [| reflexivity].
    pose proof (third_of_exact t t_range) as Hthird.
    unfold third_of in Hthird. fold T in Hthird.
    destruct (py_truediv T (PInt 3)) as [third |]; [| discriminate].
    cbn [bind] in Hthird. rewrite bind_Ok, Hthird, bind_Ok.
    fold half.
    pose proof (token_rescore_pool qr cand_r S) as Htr.
    change (map (fun c : candidate =>
                   score_value get_matching_blocks dm (cand_r c) qr) S)
      with (map raw_r S) in Htr.
    rewrite Htr, bind_Ok. reflexivity. }
  rewrite Hscores, bind_Ok. clear Hscores.
  rewrite map_map.
  change (fun x : candidate => int_ge (primary_score x) T) with keep_r.
  rewrite existsb_map_id.
  destruct (filter keep_r S) as [| c0 S'] eqn:Ef.
  - apply existsb_filter_nil in Ef. rewrite Ef. reflexivity.
  - assert (Hex : existsb keep_r S = true).
    { destruct (existsb keep_r S) eqn:E; [reflexivity |].
      apply existsb_filter_nil in E. congruence. }
    rewrite Hex. cbn [negb].
    assert (Hne : S <> []) by (intros ->; discriminate).
    revert Ef. destruct oi; intros Ef; cbn [read_local];
      repeat (rewrite (mask_select_map _ _ S Hne) || rewrite bind_Ok);
      rewrite Ef; reflexivity.
Qed.

Lemma fund_block_pool (S : list candidate) :
  fund_block get_matching_blocks (PyStr qf) T dm oi
    (mkAfterRegistrant (rem_of S) (map primary_score S)
       (if oi then Some (map improved_r S) else None)
       (if oi then Some half else None))
  = Ok (match filter keep_f S with
        | [] => Return None
        | _ :: _ =>
            Continue
              (mkAfterFund (rem_of (filter keep_f S))
                 (map primary_score (filter keep_f S))
                 (map secondary_score (filter keep_f S))
                 (if oi then Some (map improved (filter keep_f S))
                  else None))
        end).
Proof.
  unfold fund_block.
  destruct (init_ready qf dm) as (fus & -> & Hr). rewrite bind_Ok.
  cbn [ar_rem ar_rrsc ar_improvement ar_half rem_of rcr rcf rpos].
  rewrite (score_loop_map _ blocks_spec fus qf d _ Hr d_pos).
  rewrite bind_Ok, map_map. fold dm.
  change (fun x : candidate =>
            score_value get_matching_blocks dm (cand_f x) qf) with raw_f.
  assert (Hscores :
    (if oi
     then ' (best, improved0) <-
            token_rescore get_matching_blocks (PyStr qf) dm
              (if oi then Some half else None)
              (map cand_f S) (map raw_f S) ;;
          imp <- read_local (if oi then Some (map improved_r S) else None)
                   (fun i => i) ;;
          Ok (best, Some (np_or imp improved0))
     else Ok (map raw_f S, if oi then Some (map improved_r S) else None))
    = Ok (map secondary_score S,
          (if oi then Some (map improved S) else None))).
  { unfold secondary_score, stage_score. destruct oi; [| reflexivity].
    pose proof (token_rescore_pool qf cand_f S) as Htr.
    change (map (fun c : candidate =>
                   score_value get_matching_blocks dm (cand_f c) qf) S)
      with (map raw_f S) in Htr.
    rewrite Htr, bind_Ok. cbn [read_local]. rewrite bind_Ok.
    rewrite np_or_map. reflexivity. }
  rewrite Hscores, bind_Ok. clear Hscores.
  rewrite map_map.
  change (fun x : candidate => int_ge (secondary_score x) T) with keep_f.
  rewrite existsb_map_id.
  destruct (filter keep_f S) as [| c0 S'] eqn:Ef.
  - apply existsb_filter_nil in Ef. rewrite Ef. reflexivity.
  - assert (Hex : existsb keep_f S = true).
    { destruct (existsb keep_f S) eqn:E; [reflexivity |].
      apply existsb_filter_nil in E. congruence. }
    rewrite Hex. cbn [negb].
    assert (Hne : S <> []) by (intros ->; discriminate).
    revert Ef. destruct oi; intros Ef; cbn [read_local];
      repeat (rewrite (mask_select_map _ _ S Hne) || rewrite bind_Ok);
      rewrite Ef; reflexivity.
Qed.

End Blocks.

(** * The positions of the best scores *)

Lemma take_idx_nth {A : Type} (l : list A) (idx : list nat) (d : A) :
  Forall (fun i => (i < List.length l)%nat) idx ->
  take_idx l idx = Ok (map (fun i => nth i l d) idx).
Proof.
  intros HF. unfold take_idx.
  induction HF as [| i idx Hi HF IH]; [reflexivity |].
  cbn [mapM map]. rewrite (nth_error_nth' l d Hi), bind_Ok.
  rewrite IH, bind_Ok. reflexivity.
Qed.

Lemma perm_seq_bounds (l : list nat) (n : nat) :
  Permutation l (seq 0 n) ->
  NoDup l /\ Forall (fun i => (i < n)%nat) l /\ List.length l = n.
Proof.
  intros HP. split; [| split].
  - apply (Permutation_NoDup (Permutation_sym HP)), seq_NoDup.
  - apply Forall_forall. intros i Hi.
    apply (Permutation_in _ HP), in_seq in Hi. lia.
  - rewrite (Permutation_length HP), length_seq. reflexivity.
Qed.

Lemma sorted_rev_ge (l : list Z) :
  StronglySorted Z.le l -> StronglySorted Z.ge (rev l).
Proof.
  induction 1 as [| x l HS IH HF]; simpl; [constructor |].
  assert (Happ : forall l1 : list Z,
             StronglySorted Z.ge l1 -> Forall (fun y => y >= x) l1 ->
             StronglySorted Z.ge (l1 ++ [x])).
  { induction l1 as [| y l1 IH1]; intros Hs Hf; simpl.
    - repeat constructor.
    - inversion Hs; subst. inversion Hf; subst. constructor.
      + apply IH1; assumption.
      + apply Forall_app. split; [assumption |]. repeat constructor. lia. }
  apply Happ; [exact IH |].
  apply Forall_forall. intros y Hy. apply in_rev in Hy.
  rewrite Forall_forall in HF. specialize (HF y Hy). lia.
Qed.

Section Top.

Variable argsort : list Z -> list nat.
Variable argpartition : list Z -> nat -> list nat.
Hypothesis argsort_ok : argsort_spec argsort.
Hypothesis argpartition_ok : argpartition_spec argpartition.

Lemma top_all (top_n : option Z) (sw : list Z) :
  match top_n with
  | Some n => Z.of_nat (List.length sw) <= n
  | None => True
  end ->
  top_spec top_n sw (rev (argsort sw)).
Proof.
  intros Hn. destruct (argsort_ok sw) as [HP HS].
  destruct (perm_seq_bounds _ _ HP) as (Hnd & Hf & Hl).
  unfold top_spec. repeat split.
  - apply NoDup_rev. exact Hnd.
  - apply Forall_forall. intros i Hi. apply in_rev in Hi.
    rewrite Forall_forall in Hf. auto.
  - rewrite length_rev, Hl. destruct top_n as [n |]; lia.
  - rewrite map_rev. apply sorted_rev_ge. exact HS.
  - intros i j Hi Hni Hj. exfalso. apply Hni. apply -> in_rev.
    apply (Permutation_in _ (Permutation_sym HP)). apply in_seq. lia.
Qed.

Lemma top_positions_spec (top_n : option Z) (sw : list Z) :
  match top_n with
  | Some n => 1 <= n
  | None => True
  end ->
  exists pos,
    top_positions argsort argpartition top_n sw = Ok pos
    /\ top_spec top_n sw pos.
Proof.
  intros Hn. unfold top_positions.
  destruct top_n as [n |]; [| eexists; split; [reflexivity | apply top_all; exact I]].
  destruct (Z.gtb_spec (Z.of_nat (List.length sw)) n) as [Hgt | Hle];
    [| eexists; split; [reflexivity | apply top_all; lia]].
  set (len := List.length sw) in *.
  set (kth := (len - Z.to_nat n)%nat).
  assert (Hkth : normalize_kth (- n) len = Ok kth).
  { unfold normalize_kth.
    destruct (Z.ltb_spec (- n) 0); [| lia].
    destruct (Z.leb_spec 0 (- n + Z.of_nat len)); [| lia].
    destruct (Z.ltb_spec (- n + Z.of_nat len) (Z.of_nat len)); [| lia].
    cbn [andb]. f_equal. unfold kth. lia. }
  rewrite Hkth, bind_Ok.
  assert (Hk : (kth < len)%nat) by (unfold kth; lia).
  destruct (argpartition_ok sw kth Hk) as [HPp Hpart].
  set (part := argpartition sw kth) in *.
  destruct (perm_seq_bounds _ _ HPp) as (Hnd & Hf & Hl).
  assert (Hslice : py_slice_from (- n) part = skipn kth part).
  { unfold py_slice_from. rewrite Hl. fold len.
    destruct (Z.ltb_spec (- n) 0); [| lia]. f_equal. unfold kth. lia. }
  rewrite Hslice.
  set (pos_top := skipn kth part).
  assert (Hsplit : part = firstn kth part ++ pos_top)
    by (symmetry; apply firstn_skipn).
  assert (Hlp : List.length pos_top = Z.to_nat n).
  { unfold pos_top. rewrite length_skipn, Hl. unfold kth. fold len. lia. }
  assert (Hfp : Forall (fun i => (i < len)%nat) pos_top).
  { apply Forall_forall. intros i Hi. rewrite Forall_forall in Hf.
    apply Hf. rewrite Hsplit. apply in_or_app. right. exact Hi. }
  assert (Hndp : NoDup pos_top).
  { rewrite Hsplit in Hnd. apply NoDup_app_remove_l in Hnd. exact Hnd. }
  rewrite (take_idx_nth sw pos_top 0 Hfp), bind_Ok.
  change (map (fun i : nat => nth i sw 0) pos_top)
    with (map (value_at sw) pos_top).
  set (top_scores := map (value_at sw) pos_top).
  destruct (argsort_ok top_scores) as [HPs HSs].
  destruct (perm_seq_bounds _ _ HPs) as (Hnds & Hfs & Hls).
  assert (Hlts : List.length top_scores = List.length pos_top)
    by (unfold top_scores; apply length_map).
  rewrite Hlts in Hfs, Hls, HPs.
  rewrite (take_idx_nth pos_top (argsort top_scores) O Hfs), bind_Ok.
  set (ordered := map (fun i => nth i pos_top O) (argsort top_scores)).
  assert (HPo : Permutation ordered pos_top).
  { unfold ordered.
    rewrite (Permutation_map (fun i => nth i pos_top O) HPs).
    clear. induction pos_top as [| x l IH]; [reflexivity |].
    cbn [List.length seq map nth]. constructor.
    rewrite <- seq_shift, map_map. exact IH. }
  eexists. split; [reflexivity |].
  unfold top_spec. repeat split.
  - apply NoDup_rev. apply (Permutation_NoDup (Permutation_sym HPo) Hndp).
  - apply Forall_forall. intros i Hi. apply in_rev in Hi.
    apply (Permutation_in _ HPo) in Hi.
    rewrite Forall_forall in Hfp. fold len. auto.
  - rewrite length_rev, (Permutation_length HPo), Hlp. fold len. lia.
  - rewrite map_rev. apply sorted_rev_ge.
    assert (Hmap : map (value_at sw) ordered
                   = map (value_at top_scores) (argsort top_scores)).
    { unfold ordered. rewrite map_map. apply map_ext_in.
      intros i Hi. rewrite Forall_forall in Hfs. specialize (Hfs i Hi).
      change (value_at top_scores i)
        with (nth i (map (value_at sw) pos_top) 0).
      rewrite (nth_indep (map (value_at sw) pos_top) 0 (value_at sw O))
        by (rewrite length_map; exact Hfs).
      rewrite (map_nth (value_at sw)). reflexivity. }
    rewrite Hmap. exact HSs.
  - intros i j Hi Hni Hj.
    apply in_rev in Hj. apply (Permutation_in _ HPo) in Hj.
    assert (Hni' : ~ In i pos_top).
    { intros H. apply Hni. apply -> in_rev.
      apply (Permutation_in _ (Permutation_sym HPo)). exact H. }
    assert (Hi_part : In i part).
    { apply (Permutation_in _ (Permutation_sym HPp)). apply in_seq. lia. }
    rewrite Hsplit in Hi_part. apply in_app_or in Hi_part.
    destruct Hi_part as [Hi1 | Hi2]; [| contradiction].
    apply (In_nth _ _ O) in Hi1. destruct Hi1 as (a & Ha & Hnth).
    rewrite length_firstn, Hl in Ha.
    apply (In_nth _ _ O) in Hj. destruct Hj as (b & Hb & Hnthb).
    assert (Ha' : nth a part O = i).
    { rewrite <- Hnth. rewrite Hsplit at 1. rewrite app_nth1; [reflexivity |].
      rewrite length_firstn, Hl. lia. }
    assert (Hb' : nth (kth + b) part O = j).
    { rewrite <- Hnthb. unfold pos_top. rewrite nth_skipn. reflexivity. }
    rewrite <- Ha', <- Hb'. apply Hpart; fold len; lia.
Qed.

End Top.

(** ** The last block and the whole of find_cur_best *)

Lemma np_floor_sqrt_table :
  forallb (fun n => np_floor_sqrt (wrap64 (Z.of_nat n)) =? Z.sqrt (Z.of_nat n))
    (seq 0 (Z.to_nat 10001)) = true.
Proof. vm_compute. reflexivity. Qed.

(** On the product of two scores the float square root is the integer one. *)
Lemma np_floor_sqrt_exact (p s : Z) :
  0 <= p <= 100 -> 0 <= s <= 100 ->
  np_floor_sqrt (wrap64 (p * s)) = Z.sqrt (p * s).
Proof.
  intros Hp Hs. pose proof np_floor_sqrt_table as H.
  rewrite forallb_forall in H. specialize (H (Z.to_nat (p * s))).
  assert (Hps : 0 <= p * s <= 10000) by nia.
  rewrite Z2Nat.id in H by lia. apply Z.eqb_eq, H, in_seq. lia.
Qed.

Lemma weighted_scores_map {A : Type} (f g : A -> Z) (l : list A) :
  weighted_scores (map f l) (map g l)
  = map (fun x => np_floor_sqrt (wrap64 (f x * g x))) l.
Proof. induction l as [| x l IH]; simpl; [| rewrite IH]; reflexivity. Qed.

Lemma take_idx_map {A B : Type} (f : A -> B) (l : list A) (d : A)
    (pos : list nat) :
  Forall (fun i => (i < List.length l)%nat) pos ->
  take_idx (map f l) pos = Ok (map (fun k => f (nth k l d)) pos).
Proof.
  intros HF. rewrite (take_idx_nth (map f l) pos (f d)).
  - f_equal. apply map_ext. intros k. apply map_nth.
  - rewrite length_map. exact HF.
Qed.

Lemma zip_with_map {A B C D : Type} (f : B -> C -> D) (g : A -> B)
    (h : A -> C) (l : list A) :
  zip_with f (map g l) (map h l) = map (fun x => f (g x) (h x)) l.
Proof. induction l as [| x l IH]; simpl; [| rewrite IH]; reflexivity. Qed.

Lemma zip_picks_map {A : Type} (p : A -> string) (s i : A -> Z)
    (f : A -> string) (l : list A) :
  zip_picks (map p l) (map s l) (map i l) (map f l)
  = map (fun x => (p x, s x, i x, f x)) l.
Proof. induction l as [| x l IH]; simpl; [| rewrite IH]; reflexivity. Qed.

Lemma repeat_map {A B : Type} (b : B) (l : list A) :
  repeat b (List.length l) = map (fun _ => b) l.
Proof. induction l as [| x l IH]; simpl; [| rewrite IH]; reflexivity. Qed.

Lemma stage_score_range (oi : bool) (half raw tok : Z) :
  0 <= raw <= 100 -> 0 <= tok <= 100 ->
  0 <= stage_score oi half raw tok <= 100.
Proof.
  intros Hr Ht. unfold stage_score. destruct oi; [| exact Hr].
  destruct ((raw =? 100) || (raw <? half)); lia.
Qed.

Lemma survivors_unfold (get_matching_blocks : string -> string -> list block)
    (qr qf : string) (t d : Z) (oi : bool) (pool : list candidate) :
  survivors get_matching_blocks qr qf t d oi pool
  = filter (keep_f get_matching_blocks qf t d oi)
      (filter (keep_r get_matching_blocks qr t d oi)
         (filter (quick_f qf t) (filter (quick_r qr t) pool))).
Proof. reflexivity. Qed.

Section FindCurBest.

Variable get_matching_blocks : string -> string -> list block.
Variable argsort : list Z -> list nat.
Variable argpartition : list Z -> nat -> list nat.
Hypothesis blocks_spec : matching_blocks_spec get_matching_blocks.
Hypothesis argsort_ok : argsort_spec argsort.
Hypothesis argpartition_ok : argpartition_spec argpartition.

Variables (qr qf : string) (t d : Z) (oi : bool) (top_n : option Z).
Hypothesis d_pos : 1 <= d.
Hypothesis qr_short : short qr.
Hypothesis qf_short : short qf.
Hypothesis t_range : 0 <= t <= 100.
Hypothesis top_n_pos : match top_n with Some n => 1 <= n | None => True end.

Local Abbreviation primary_score :=
  (primary_score get_matching_blocks qr t d oi).
Local Abbreviation secondary_score :=
  (secondary_score get_matching_blocks qf t d oi).
Local Abbreviation improved := (improved get_matching_blocks qr qf t d).
Local Abbreviation weighted := (weighted get_matching_blocks qr qf t d oi).
Local Abbreviation emit := (emit get_matching_blocks qr qf t d oi).
Local Abbreviation survivors :=
  (survivors get_matching_blocks qr qf t d oi).

Lemma primary_score_range (c : candidate) : 0 <= primary_score c <= 100.
Proof.
  apply stage_score_range;
    [apply (raw_r_range _ blocks_spec _ _ d_pos)
    | apply (tok_r_range _ blocks_spec _ _ d_pos)].
Qed.

Lemma secondary_score_range (c : candidate) : 0 <= secondary_score c <= 100.
Proof.
  apply stage_score_range;
    [apply (raw_f_range _ blocks_spec _ _ d_pos)
    | apply (tok_f_range _ blocks_spec _ _ d_pos)].
Qed.

(** The weighted score is the integer square root of the product. *)
Lemma weighted_exact (c : candidate) :
  weighted c = Z.sqrt (primary_score c * secondary_score c).
Proof.
  apply np_floor_sqrt_exact;
    [apply primary_score_range | apply secondary_score_range].
Qed.

Lemma finalize_block_pool (S : list candidate) :
  exists pos,
    finalize_block argsort argpartition top_n oi
      (mkAfterFund (rem_of S) (map primary_score S) (map secondary_score S)
         (if oi then Some (map improved S) else None))
    = Ok (map (fun k => emit (nth k S no_candidate)) pos)
    /\ top_spec top_n (map weighted S) pos.
Proof.
  unfold finalize_block.
  cbn [af_rem af_rrsc af_rfsc af_improvement rem_of rcr rcf rpos].
  rewrite weighted_scores_map.
  change (map (fun x : candidate =>
                 np_floor_sqrt (wrap64 (primary_score x * secondary_score x))) S)
    with (map weighted S).
  destruct (top_positions_spec argsort argpartition argsort_ok
              argpartition_ok top_n (map weighted S) top_n_pos)
    as (pos & Hpos & Hspec).
  exists pos. split; [| exact Hspec].
  rewrite Hpos, bind_Ok.
  assert (HF : Forall (fun i => (i < List.length S)%nat) pos).
  { destruct Hspec as (_ & HF & _). rewrite length_map in HF. exact HF. }
  rewrite !(take_idx_map _ S no_candidate pos HF), !bind_Ok.
  rewrite zip_with_map.
  assert (Hflags :
    (if oi
     then imp <- read_local (if oi then Some (map improved S) else None)
                   (fun i => i) ;;
          imp1 <- take_idx imp pos ;;
          Ok (zip_with (fun (fl : string) (i : bool) =>
                          if i then "OR"%string else fl)
                (repeat EmptyString (List.length pos)) imp1)
     else Ok (repeat EmptyString (List.length pos)))
    = Ok (map (fun k => if oi && improved (nth k S no_candidate)
                        then "OR"%string else EmptyString) pos)).
  { destruct oi.
    - cbn [read_local andb]. rewrite bind_Ok.
      rewrite (take_idx_map _ S no_candidate pos HF), bind_Ok.
      rewrite repeat_map, zip_with_map. reflexivity.
    - cbn [andb]. rewrite repeat_map. reflexivity. }
  rewrite Hflags, bind_Ok, zip_picks_map. reflexivity.
Qed.

(** [find_cur_best] with the quick comparison: the survivors of the four
    filters at the positions of the best weighted scores, or [None] when
    nothing survives. *)
Lemma find_cur_best_pool (pool : list candidate) :
  short_pool pool ->
  exists pos,
    find_cur_best get_matching_blocks argsort argpartition
      (PyStr qr) (PyStr qf)
      (SArray (map cand_r pool)) (SArray (map cand_f pool))
      (map cand_pos pool) top_n (PInt t) (PInt d) true oi
    = Ok (match survivors pool with
          | [] => None
          | _ :: _ =>
              Some (map (fun k => emit (nth k (survivors pool) no_candidate))
                      pos)
          end)
    /\ top_spec top_n (map weighted (survivors pool)) pos.
Proof.
  intros Hshort.
  destruct (finalize_block_pool (survivors pool)) as (pos & Hfin & Hspec).
  exists pos. split; [| exact Hspec].
  unfold find_cur_best.
  rewrite (quick_comparison_block_pool qr qf t d qr_short qf_short t_range
             pool Hshort).
  rewrite bind_Ok. rewrite survivors_unfold in Hfin |- *.
  destruct (filter (quick_r qr t) pool) as [| c0 S0] eqn:E0; [reflexivity |].
  set (S1 := filter (quick_f qf t) (c0 :: S0)) in *.
  rewrite (registrant_block_pool _ blocks_spec qr t d oi d_pos t_range S1).
  rewrite bind_Ok.
  destruct (filter (keep_r get_matching_blocks qr t d oi) S1)
    as [| c2 S2'] eqn:E2; [reflexivity |].
  set (S2 := c2 :: S2') in *.
  rewrite (fund_block_pool _ blocks_spec qr qf t d oi d_pos S2).
  rewrite bind_Ok.
  destruct (filter (keep_f get_matching_blocks qf t d oi) S2)
    as [| c3 S3'] eqn:E3; [reflexivity |].
  rewrite Hfin, bind_Ok. reflexivity.
Qed.

End FindCurBest.

(** Without the quick comparison nothing assigns [rcr]: the registrant
    block reads it and the function raises, whatever it is given. *)
Lemma FuzzyScorer_init_plain (to_match choice : pyobj) (dm : pynum) :
  FuzzyScorer_init to_match choice dm false
  = Ok {| seq1 := choice; seq2 := to_match; seqmat := Some (choice, to_match);
          digit_multiplier := dm; sorted_token := false |}.
Proof. reflexivity. Qed.

Lemma find_cur_best_unbound
    (get_matching_blocks : string -> string -> list block)
    (argsort : list Z -> list nat) (argpartition : list Z -> nat -> list nat)
    (registrant fund : pyobj) (choices_r choices_f : pyseq)
    (match_pos : list Z) (top_n : option Z) (valid_threshold dm : pynum)
    (order_irrelevance : bool) :
  find_cur_best get_matching_blocks argsort argpartition registrant fund
    choices_r choices_f match_pos top_n valid_threshold dm false
    order_irrelevance
  = Raise UnboundLocalError.
Proof. reflexivity. Qed.

(** * The aligner of the specification and the sorts keep the contracts *)

Lemma chained_app (l1 l2 : list block) (ca cb i j k ha hb : nat) :
  chained ca cb i j l1 -> chained (i + k) (j + k) ha hb l2 ->
  chained ca cb ha hb (l1 ++ (i, j, k) :: l2).
Proof.
  revert ca cb. induction l1 as [| [[i1 j1] k1] l1 IH]; intros ca cb H1 H2.
  - simpl in *. tauto.
  - simpl in *. destruct H1 as (Ha & Hb & Hrest).
    split; [exact Ha |]. split; [exact Hb |]. apply IH; assumption.
Qed.

Lemma common_prefix_le (a b : list ascii) :
  (common_prefix a b <= List.length a)%nat
  /\ (common_prefix a b <= List.length b)%nat.
Proof.
  revert b. induction a as [| x a IH]; intros [| y b]; simpl; try lia.
  destruct (Ascii.eqb x y); [| lia]. specialize (IH b). lia.
Qed.

Lemma slice_length {A : Type} (l : list A) (lo hi : nat) :
  (List.length (slice l lo hi) <= hi - lo)%nat.
Proof. unfold slice. rewrite length_firstn. lia. Qed.

Lemma fold_left_invariant {A B : Type} (P : A -> Prop) (f : A -> B -> A)
    (l : list B) (init : A) :
  (forall acc x, In x l -> P acc -> P (f acc x)) ->
  P init -> P (fold_left f l init).
Proof.
  revert init. induction l as [| x l IH]; intros init Hf Hi; simpl.
  - exact Hi.
  - apply IH.
    + intros acc y Hy. apply Hf. right. exact Hy.
    + apply Hf; [left; reflexivity | exact Hi].
Qed.

Lemma find_longest_match_within (a b : list ascii) (alo ahi blo bhi : nat) :
  (alo <= ahi)%nat -> (blo <= bhi)%nat ->
  block_within alo ahi blo bhi (find_longest_match a b alo ahi blo bhi).
Proof.
  intros Ha Hb. unfold find_longest_match.
  apply fold_left_invariant; [| simpl; lia].
  intros best i Hi Hbest. apply in_seq in Hi.
  apply fold_left_invariant; [| exact Hbest].
  intros best' j Hj Hbest'. apply in_seq in Hj.
  unfold better.
  destruct (block_len best' <? _)%nat; [| exact Hbest'].
  pose proof (common_prefix_le (slice a i ahi) (slice b j bhi)) as [H1 H2].
  pose proof (slice_length a i ahi). pose proof (slice_length b j bhi).
  simpl. lia.
Qed.

Lemma align_range_chained (a b : list ascii) (fuel alo ahi blo bhi : nat) :
  (alo <= ahi)%nat -> (blo <= bhi)%nat ->
  chained alo blo ahi bhi (align_range fuel a b alo ahi blo bhi).
Proof.
  revert alo ahi blo bhi.
  induction fuel as [| fuel IH]; intros alo ahi blo bhi Ha Hb;
    [simpl; lia |].
  cbn [align_range].
  pose proof (find_longest_match_within a b alo ahi blo bhi Ha Hb) as Hw.
  destruct (find_longest_match a b alo ahi blo bhi) as [[i j] k].
  simpl in Hw. destruct k as [| k]; [simpl; lia |].
  apply chained_app; apply IH; lia.
Qed.

Lemma chained_blocks_ok (bs : list block) (ca cb la lb : nat) :
  chained ca cb la lb bs ->
  blocks_ok ca cb la lb (bs ++ [(la, lb, 0%nat)]) = true.
Proof.
  revert ca cb. induction bs as [| [[i j] k] bs IH]; intros ca cb H.
  - simpl in *. rewrite !Nat.eqb_refl. simpl.
    destruct H as [H1 H2].
    apply Nat.leb_le in H1. apply Nat.leb_le in H2. rewrite H1, H2.
    reflexivity.
  - simpl in H. destruct H as (H1 & H2 & Hrest).
    specialize (IH _ _ Hrest).
    change (((i, j, k) :: bs) ++ [(la, lb, 0%nat)])
      with ((i, j, k) :: (bs ++ [(la, lb, 0%nat)])).
    cbn [blocks_ok].
    destruct (bs ++ [(la, lb, 0%nat)]) as [| b0 rest] eqn:E.
    + destruct bs; discriminate.
    + rewrite IH. apply Nat.leb_le in H1. apply Nat.leb_le in H2.
      rewrite H1, H2. reflexivity.
Qed.

Lemma str_len_list (s : string) :
  str_len s = List.length (list_ascii_of_string s).
Proof. induction s as [| c s IH]; simpl; [| rewrite <- IH]; reflexivity. Qed.

(** The aligner of the specification keeps the contract of the library. *)
Lemma spec_matching_blocks_ok : matching_blocks_spec spec_matching_blocks.
Proof.
  intros a b. unfold spec_matching_blocks. apply chained_blocks_ok.
  unfold align. rewrite !str_len_list. apply align_range_chained; lia.
Qed.

(** ** The insertion sort of the positions *)

Lemma insert_pos_perm (xs : list Z) (i : nat) (l : list nat) :
  Permutation (insert_pos xs i l) (i :: l).
Proof.
  induction l as [| j l IH]; simpl; [reflexivity |].
  destruct (value_at xs i <? value_at xs j); [reflexivity |].
  rewrite IH. apply perm_swap.
Qed.

Lemma insert_pos_sorted (xs : list Z) (i : nat) (l : list nat) :
  Sorted Z.le (map (value_at xs) l) ->
  Sorted Z.le (map (value_at xs) (insert_pos xs i l)).
Proof.
  induction l as [| j l IH]; intros Hs; simpl.
  - repeat constructor.
  - destruct (Z.ltb_spec (value_at xs i) (value_at xs j)) as [Hlt | Hge].
    + simpl. constructor; [exact Hs |]. constructor. lia.
    + simpl in Hs. inversion Hs as [| ? ? Hs' Hhd]; subst.
      simpl. constructor; [apply IH; exact Hs' |].
      destruct l as [| j' l]; simpl.
      * constructor. exact Hge.
      * destruct (value_at xs i <? value_at xs j'); simpl.
        -- constructor. exact Hge.
        -- inversion Hhd; subst. constructor. assumption.
Qed.

Lemma fold_insert_pos (xs : list Z) (l acc : list nat) :
  Sorted Z.le (map (value_at xs) acc) ->
  Permutation (fold_left (fun acc i => insert_pos xs i acc) l acc) (l ++ acc)
  /\ Sorted Z.le
       (map (value_at xs) (fold_left (fun acc i => insert_pos xs i acc) l acc)).
Proof.
  revert acc. induction l as [| i l IH]; intros acc Hs; simpl.
  - split; [reflexivity | exact Hs].
  - destruct (IH (insert_pos xs i acc) (insert_pos_sorted xs i acc Hs))
      as [HP HS].
    split; [| exact HS].
    rewrite HP. rewrite (insert_pos_perm xs i acc).
    symmetry. apply Permutation_middle.
Qed.

Lemma stable_argsort_ok : argsort_spec stable_argsort.
Proof.
  intros xs. unfold stable_argsort.
  destruct (fold_insert_pos xs (seq 0 (List.length xs)) []) as [HP HS];
    [constructor |].
  rewrite app_nil_r in HP. split; [exact HP |].
  apply Sorted_StronglySorted; [| exact HS].
  intros x y z. apply Z.le_trans.
Qed.

Lemma strongly_sorted_nth (l : list Z) (i j : nat) :
  StronglySorted Z.le l -> (i <= j)%nat -> (j < List.length l)%nat ->
  nth i l 0 <= nth j l 0.
Proof.
  intros Hs. revert i j. induction Hs as [| x l Hs IH HF]; intros i j Hij Hj.
  - simpl in Hj. lia.
  - destruct j as [| j]; [replace i with O by lia; lia |].
    simpl in Hj. destruct i as [| i].
    + simpl. rewrite Forall_forall in HF. apply HF. apply nth_In. lia.
    + simpl. apply IH; lia.
Qed.

Lemma sorting_argpartition_ok : argpartition_spec sorting_argpartition.
Proof.
  intros xs kth Hk. unfold sorting_argpartition.
  destruct (stable_argsort_ok xs) as [HP HS]. split; [exact HP |].
  intros i j Hi Hj Hlen.
  assert (Hl : List.length (stable_argsort xs) = List.length xs)
    by (rewrite (Permutation_length HP); apply length_seq).
  pose proof (strongly_sorted_nth _ i j HS ltac:(lia)
                ltac:(rewrite length_map; lia)) as H.
  rewrite !(nth_indep _ 0 (value_at xs O)) in H
    by (rewrite length_map; lia).
  rewrite !(map_nth (value_at xs)) in H. exact H.
Qed.

(** * No function of the scorer or of the funnel rejects a configuration *)

Create HintDb config.

Lemma quiet_bind {A B : Type} (m : result A) (k : A -> result B) :
  no_config_error m = true -> (forall a, no_config_error (k a) = true) ->
  no_config_error (bind m k) = true.
Proof. destruct m as [a | e]; simpl; auto. Qed.

Ltac quiet_step :=
  match goal with
  | |- no_config_error (bind _ _) = true => apply quiet_bind; [| intros]
  | |- no_config_error (Ok _) = true => reflexivity
  | |- no_config_error (Raise _) = true => reflexivity
  | |- no_config_error (if ?b then _ else _) = true => destruct b
  | |- no_config_error (match ?x with _ => _ end) = true => destruct x
  end.

Ltac quiet := repeat quiet_step; auto with config.

Lemma quiet_float_of_int (z : Z) : no_config_error (float_of_int z) = true.
Proof. unfold float_of_int. quiet. Qed.
#[local] Hint Resolve quiet_float_of_int : config.

Lemma quiet_as_float (x : pynum) : no_config_error (as_float x) = true.
Proof. unfold as_float. quiet. Qed.
#[local] Hint Resolve quiet_as_float : config.

Lemma quiet_py_add (x y : pynum) : no_config_error (py_add x y) = true.
Proof. unfold py_add. quiet. Qed.
#[local] Hint Resolve quiet_py_add : config.

Lemma quiet_py_mul (x y : pynum) : no_config_error (py_mul x y) = true.
Proof. unfold py_mul. quiet. Qed.
#[local] Hint Resolve quiet_py_mul : config.

Lemma quiet_py_truediv (x y : pynum) : no_config_error (py_truediv x y) = true.
Proof. unfold py_truediv. quiet. Qed.
#[local] Hint Resolve quiet_py_truediv : config.

Lemma quiet_py_int (x : pynum) : no_config_error (py_int x) = true.
Proof. unfold py_int. quiet. Qed.
#[local] Hint Resolve quiet_py_int : config.

Lemma quiet_py_len (o : pyobj) : no_config_error (py_len o) = true.
Proof. unfold py_len. quiet. Qed.
#[local] Hint Resolve quiet_py_len : config.

Lemma quiet_py_getitem (seq : pyobj) (i : nat) :
  no_config_error (py_getitem seq i) = true.
Proof. unfold py_getitem, str_get. quiet. Qed.
#[local] Hint Resolve quiet_py_getitem : config.

Lemma quiet_sort_and_token (seq : pyobj) :
  no_config_error (sort_and_token seq) = true.
Proof. unfold sort_and_token. quiet. Qed.
#[local] Hint Resolve quiet_sort_and_token : config.

Lemma quiet_FuzzyScorer_init (to_match choice : pyobj) (dm : pynum)
    (st : bool) :
  no_config_error (FuzzyScorer_init to_match choice dm st) = true.
Proof. unfold FuzzyScorer_init. quiet. Qed.
#[local] Hint Resolve quiet_FuzzyScorer_init : config.

Lemma quiet_set_choice (self : FuzzyScorer) (choice : pyobj) :
  no_config_error (set_choice self choice) = true.
Proof. unfold set_choice. quiet. Qed.
#[local] Hint Resolve quiet_set_choice : config.

Lemma quiet_add_penalty (seq : pyobj) (dm penalty : pynum) (i : nat) :
  no_config_error (add_penalty seq dm penalty i) = true.
Proof. unfold add_penalty. quiet. Qed.
#[local] Hint Resolve quiet_add_penalty : config.

Lemma quiet_foldM {A B : Type} (f : B -> A -> result B) (xs : list A)
    (acc : B) :
  (forall acc x, no_config_error (f acc x) = true) ->
  no_config_error (foldM f xs acc) = true.
Proof.
  intros Hf. revert acc. induction xs as [| x xs IH]; intros acc; simpl.
  - reflexivity.
  - apply quiet_bind; [apply Hf | exact IH].
Qed.

Lemma quiet_mapM {A B : Type} (f : A -> result B) (xs : list A) :
  (forall x, no_config_error (f x) = true) ->
  no_config_error (mapM f xs) = true.
Proof.
  intros Hf. induction xs as [| x xs IH]; simpl.
  - reflexivity.
  - apply quiet_bind; [apply Hf | intros y].
    apply quiet_bind; [exact IH | reflexivity].
Qed.

Lemma quiet_ratio_percent (matches : Z) (penalty : pynum) :
  no_config_error (ratio_percent matches penalty) = true.
Proof. unfold ratio_percent. quiet. Qed.
#[local] Hint Resolve quiet_ratio_percent : config.

Lemma quiet_quick_percent (len1 len2 : nat) :
  no_config_error (quick_percent len1 len2) = true.
Proof. unfold quick_percent. quiet. Qed.
#[local] Hint Resolve quiet_quick_percent : config.

Lemma quiet_real_quick_ratio (self : FuzzyScorer) :
  no_config_error (real_quick_ratio self) = true.
Proof. unfold real_quick_ratio. quiet. Qed.
#[local] Hint Resolve quiet_real_quick_ratio : config.

Lemma quiet_mask_select {A : Type} (l : list A) (valid : list bool) :
  no_config_error (mask_select l valid) = true.
Proof. unfold mask_select. quiet. Qed.
#[local] Hint Resolve quiet_mask_select : config.

Lemma quiet_take_idx {A : Type} (l : list A) (idx : list nat) :
  no_config_error (take_idx l idx) = true.
Proof. unfold take_idx. apply quiet_mapM. intros i. quiet. Qed.
#[local] Hint Resolve quiet_take_idx : config.

Lemma quiet_py_iter (xs : pyseq) : no_config_error (py_iter xs) = true.
Proof. unfold py_iter. quiet. Qed.
#[local] Hint Resolve quiet_py_iter : config.

Lemma quiet_np_mask (xs : pyseq) (valid : list bool) :
  no_config_error (np_mask xs valid) = true.
Proof. unfold np_mask. quiet. Qed.
#[local] Hint Resolve quiet_np_mask : config.

Lemma quiet_read_local {A B : Type} (v : option A) (field : A -> B) :
  no_config_error (read_local v field) = true.
Proof. unfold read_local. quiet. Qed.
#[local] Hint Resolve quiet_read_local : config.

Lemma quiet_try_except {A : Type} (handled : list exn)
    (body : result (outcome A)) :
  no_config_error body = true ->
  no_config_error (try_except handled body) = true.
Proof.
  unfold try_except. destruct body as [o | e]; [reflexivity |].
  intros H. destruct (existsb (exn_eqb e) handled); [reflexivity | exact H].
Qed.

Lemma quiet_normalize_kth (kth : Z) (n : nat) :
  no_config_error (normalize_kth kth n) = true.
Proof. unfold normalize_kth. quiet. Qed.
#[local] Hint Resolve quiet_normalize_kth : config.

Lemma quiet_quick_loop (fus : FuzzyScorer) (T : pynum) (rc : list string) :
  no_config_error (quick_loop fus T rc) = true.
Proof.
  revert fus. induction rc as [| c rc IH]; intros fus; simpl; quiet.
Qed.
#[local] Hint Resolve quiet_quick_loop : config.

Section Quiet.

Variable get_matching_blocks : string -> string -> list block.
Variable argsort : list Z -> list nat.
Variable argpartition : list Z -> nat -> list nat.

Lemma quiet_compute_score (self : FuzzyScorer) :
  no_config_error (compute_score get_matching_blocks self) = true.
Proof.
  unfold compute_score. quiet.
  - unfold seqmat_blocks. quiet.
  - apply quiet_foldM. intros. apply quiet_add_penalty.
  - apply quiet_foldM. intros. apply quiet_add_penalty.
Qed.
Hint Resolve quiet_compute_score : config.

Lemma quiet_score_loop (fus : FuzzyScorer) (rc : list string) :
  no_config_error (score_loop get_matching_blocks fus rc) = true.
Proof.
  revert fus. induction rc as [| c rc IH]; intros fus; simpl; quiet.
Qed.
Hint Resolve quiet_score_loop : config.

Lemma quiet_token_loop (fus : FuzzyScorer) (half : Z) (rc : list string)
    (rsc : list Z) :
  no_config_error (token_loop get_matching_blocks fus half rc rsc) = true.
Proof.
  revert fus rsc. induction rc as [| c rc IH]; intros fus [| cur rsc];
    simpl; quiet.
Qed.
Hint Resolve quiet_token_loop : config.

Lemma quiet_token_rescore (to_match : pyobj) (dm : pynum) (half : option Z)
    (rc : list string) (rsc : list Z) :
  no_config_error
    (token_rescore get_matching_blocks to_match dm half rc rsc) = true.
Proof. unfold token_rescore. quiet. Qed.
Hint Resolve quiet_token_rescore : config.

Lemma quiet_quick_comparison_block (registrant fund : pyobj)
    (choices_r choices_f : pyseq) (match_pos : list Z) (T dm : pynum) :
  no_config_error
    (quick_comparison_block registrant fund choices_r choices_f match_pos
       T dm) = true.
Proof. unfold quick_comparison_block. apply quiet_try_except. quiet. Qed.

Lemma quiet_registrant_block (registrant : pyobj) (T dm : pynum)
    (oi : bool) (vars : option remaining) :
  no_config_error
    (registrant_block get_matching_blocks registrant T dm oi vars) = true.
Proof. unfold registrant_block. apply quiet_try_except. quiet. Qed.

Lemma quiet_fund_block (fund : pyobj) (T dm : pynum) (oi : bool)
    (vars : after_registrant) :
  no_config_error (fund_block get_matching_blocks fund T dm oi vars) = true.
Proof. unfold fund_block. apply quiet_try_except. quiet. Qed.

Lemma quiet_top_positions (top_n : option Z) (sw : list Z) :
  no_config_error (top_positions argsort argpartition top_n sw) = true.
Proof. unfold top_positions. quiet. Qed.
Hint Resolve quiet_top_positions : config.

Lemma quiet_finalize_block (top_n : option Z) (oi : bool)
    (vars : after_fund) :
  no_config_error (finalize_block argsort argpartition top_n oi vars) = true.
Proof. unfold finalize_block. quiet. Qed.

(** [find_cur_best] never raises [InvalidConfig]. *)
Lemma quiet_find_cur_best (registrant fund : pyobj)
    (choices_r choices_f : pyseq) (match_pos : list Z) (top_n : option Z)
    (T dm : pynum) (qc oi : bool) :
  no_config_error
    (find_cur_best get_matching_blocks argsort argpartition registrant fund
       choices_r choices_f match_pos top_n T dm qc oi) = true.
Proof.
  unfold find_cur_best.
  apply quiet_bind.
  { destruct qc; [apply quiet_quick_comparison_block | reflexivity]. }
  intros [vars | r]; [| reflexivity].
  apply quiet_bind; [apply quiet_registrant_block |].
  intros [vars2 | r]; [| reflexivity].
  apply quiet_bind; [apply quiet_fund_block |].
  intros [vars3 | r]; [| reflexivity].
  apply quiet_bind; [apply quiet_finalize_block | reflexivity].
Qed.

End Quiet.

(** * Roundings, with the side of the midpoint *)

Lemma placed_located (v : R) (m e : Z) (l : location) :
  placed v m e l -> located v m e l.
Proof.
  pose proof (bpow_gt_0 e) as Hb.
  destruct l as [| []]; simpl; intros H; try assumption; nra.
Qed.

Lemma loc_of_record_of_loc (m : Z) (l : location) :
  loc_of_shr_record (shr_record_of_loc m l) = l.
Proof. destruct l as [| []]; reflexivity. Qed.

Lemma shr_1_placed (v : R) (mrs : shr_record) (e : Z) :
  0 <= shr_m mrs ->
  placed v (shr_m mrs) e (loc_of_shr_record mrs) ->
  placed v (shr_m (shr_1 mrs)) (e + 1) (loc_of_shr_record (shr_1 mrs)).
Proof.
  destruct mrs as [m r s]. simpl shr_m. intros Hm Hloc.
  pose proof (bpow_gt_0 e) as Hb.
  destruct m as [| p | p]; [| | lia].
  - destruct r, s; simpl in *; rewrite ?bpow_succ in *; lra.
  - destruct p as [p | p |].
    + destruct r, s; simpl in *;
        rewrite ?bpow_succ, ?(IZR_xI p) in *; lra.
    + destruct r, s; simpl in *;
        rewrite ?bpow_succ, ?(IZR_xO p) in *; lra.
    + destruct r, s; simpl in *; rewrite ?bpow_succ in *; lra.
Qed.

Lemma shr_iter_placed (v : R) (mrs : shr_record) (e : Z) (n : nat) :
  0 <= shr_m mrs ->
  placed v (shr_m mrs) e (loc_of_shr_record mrs) ->
  placed v (shr_m (Nat.iter n shr_1 mrs)) (e + Z.of_nat n)
    (loc_of_shr_record (Nat.iter n shr_1 mrs)).
Proof.
  intros Hm Hloc. induction n as [| n IH].
  - simpl. rewrite Z.add_0_r. exact Hloc.
  - rewrite Nat.iter_succ, Nat2Z.inj_succ.
    replace (e + Z.succ (Z.of_nat n)) with (e + Z.of_nat n + 1) by lia.
    apply shr_1_placed; [| exact IH].
    apply (shr_iter_located v mrs e n Hm (placed_located _ _ _ _ Hloc)).
Qed.

Lemma shr_fexp_placed (v : R) (m e : Z) (l : location) :
  0 <= m ->
  placed v m e l ->
  placed v (shr_m (fst (shr_fexp Binary64.prec Binary64.emax m e l)))
    (snd (shr_fexp Binary64.prec Binary64.emax m e l))
    (loc_of_shr_record (fst (shr_fexp Binary64.prec Binary64.emax m e l))).
Proof.
  intros Hm Hloc. unfold shr_fexp, shr.
  destruct (fexp Binary64.prec Binary64.emax (Zdigits2 m + e) - e)
    as [| p | p]; cbn [fst snd].
  - rewrite shr_m_record_of_loc, loc_of_record_of_loc. exact Hloc.
  - rewrite iter_pos_nat.
    pose proof (shr_iter_placed v (shr_record_of_loc m l) e (Pos.to_nat p))
      as H.
    rewrite positive_nat_Z in H. apply H.
    + rewrite shr_m_record_of_loc. exact Hm.
    + rewrite shr_m_record_of_loc, loc_of_record_of_loc. exact Hloc.
  - rewrite shr_m_record_of_loc, loc_of_record_of_loc. exact Hloc.
Qed.

(** Where the rounding of a value goes: the mantissa [m1] at the exponent
    of the format, and the result no larger than its rounding. *)
Lemma binary_round_aux_placed (v : R) (mx ex : Z) (lx : location) :
  0 <= mx ->
  placed v mx ex lx ->
  lx = loc_Exact \/ ex <= fexp64 (Zdigits2 mx + ex) ->
  exists (m1 e1 : Z) (l1 : location),
    0 <= m1 < 2 ^ 53
    /\ placed v m1 e1 l1
    /\ (l1 = loc_Exact \/ normal m1 e1)
    /\ (B2R (binary_round_aux Binary64.prec Binary64.emax false mx ex lx)
        <= IZR (round_nearest_even m1 l1) * bpow e1)%R.
Proof.
  intros Hmx Hpl Hpre.
  pose proof (shr_fexp_located v mx ex lx Hmx (placed_located _ _ _ _ Hpl) Hpre)
    as H1.
  pose proof (shr_fexp_placed v mx ex lx Hmx Hpl) as Hp1.
  unfold binary_round_aux.
  destruct (shr_fexp Binary64.prec Binary64.emax mx ex lx) as [mrs1 e1].
  cbn [fst snd] in Hp1.
  destruct H1 as (Hm1 & Hm1lt & Hloc1 & Hex1 & Hsh1 & He1).
  set (m1 := shr_m mrs1) in *. set (l1 := loc_of_shr_record mrs1) in *.
  exists m1, e1, l1.
  split; [lia |]. split; [exact Hp1 |]. split; [exact Hex1 |].
  destruct (round_nearest_even_bounds m1 l1) as [Hr Hrex].
  set (m2 := round_nearest_even m1 l1) in *.
  assert (Hm2 : 0 <= m2) by lia.
  assert (Hloc2 : located (IZR m2 * bpow e1) m2 e1 loc_Exact) by reflexivity.
  pose proof (shr_fexp_located _ m2 e1 loc_Exact Hm2 Hloc2 (or_introl eq_refl))
    as H3.
  destruct (shr_fexp Binary64.prec Binary64.emax m2 e1 loc_Exact) as [mrs3 e3].
  destruct H3 as (Hm3 & Hm3lt & Hloc3 & Hex3 & Hsh3 & He3).
  set (m3 := shr_m mrs3) in *. set (l3 := loc_of_shr_record mrs3) in *.
  pose proof (bpow_gt_0 e3) as Hb3. pose proof (bpow_gt_0 e1) as Hb1.
  assert (Hv3 : (IZR m3 * bpow e3 <= IZR m2 * bpow e1)%R).
  { destruct l3 as [| c]; simpl in Hloc3; lra. }
  assert (Hm2r : (0 <= IZR m2 * bpow e1)%R).
  { apply IZR_le in Hm2. nra. }
  destruct m3 as [| p3 | p3] eqn:Em3; [| | lia].
  - simpl. exact Hm2r.
  - destruct (e3 <=? Binary64.emax - Binary64.prec); simpl;
      [exact Hv3 | exact Hm2r].
Qed.

(** The rounding of a value that a float bounds below: that float bounds
    the result below, unless the result is [+inf]. *)
Lemma binary_round_aux_lower (v : R) (mx ex : Z) (lx : location)
    (lo elo : Z) :
  0 <= mx ->
  located v mx ex lx ->
  lx = loc_Exact \/ ex <= fexp64 (Zdigits2 mx + ex) ->
  grid lo elo ->
  (IZR lo * bpow elo <= v)%R ->
  match binary_round_aux Binary64.prec Binary64.emax false mx ex lx with
  | S754_zero false => (IZR lo * bpow elo <= 0)%R
  | S754_finite false m e =>
      Z.pos m < 2 ^ 53 /\ ex <= e
      /\ (IZR lo * bpow elo <= IZR (Z.pos m) * bpow e)%R
  | S754_infinity false => True
  | _ => False
  end.
Proof.
  intros Hmx Hloc Hpre Hlo Hv1.
  unfold binary_round_aux.
  pose proof (shr_fexp_located v mx ex lx Hmx Hloc Hpre) as H1.
  destruct (shr_fexp Binary64.prec Binary64.emax mx ex lx) as [mrs1 e1].
  destruct H1 as (Hm1 & Hm1lt & Hloc1 & Hex1 & Hsh1 & He1).
  set (m1 := shr_m mrs1) in *. set (l1 := loc_of_shr_record mrs1) in *.
  destruct (round_nearest_even_bounds m1 l1) as [Hr Hrex].
  set (m2 := round_nearest_even m1 l1) in *.
  pose proof (bpow_gt_0 e1) as Hb1.
  assert (Hv' : (IZR lo * bpow elo <= IZR m2 * bpow e1)%R).
  { destruct l1 as [| c] eqn:El1.
    - rewrite (Hrex eq_refl). simpl in Hloc1. rewrite <- Hloc1. lra.
    - destruct Hex1 as [Hex1 | Hn1]; [discriminate |].
      simpl in Hloc1.
      assert (Hm2 : (IZR m1 <= IZR m2 <= IZR m1 + 1)%R).
      { split; [apply IZR_le; lia |].
        rewrite <- plus_IZR. apply IZR_le; lia. }
      destruct (Rlt_le_dec (IZR lo * bpow elo) ((IZR m1 + 1) * bpow e1))
        as [Hlt | Hge].
      + pose proof (grid_below m1 e1 lo elo Hm1 Hn1 Hlo Hlt). nra.
      + lra. }
  assert (Hm2 : 0 <= m2) by lia.
  assert (Hloc2 : located (IZR m2 * bpow e1) m2 e1 loc_Exact) by reflexivity.
  pose proof (shr_fexp_located _ m2 e1 loc_Exact Hm2 Hloc2 (or_introl eq_refl))
    as H3.
  destruct (shr_fexp Binary64.prec Binary64.emax m2 e1 loc_Exact) as [mrs3 e3].
  destruct H3 as (Hm3 & Hm3lt & Hloc3 & Hex3 & Hsh3 & He3).
  set (m3 := shr_m mrs3) in *. set (l3 := loc_of_shr_record mrs3) in *.
  pose proof (bpow_gt_0 e3) as Hb3.
  assert (Hv3 : (IZR lo * bpow elo <= IZR m3 * bpow e3)%R).
  { destruct l3 as [| c].
    - simpl in Hloc3. rewrite <- Hloc3. exact Hv'.
    - destruct Hex3 as [Hex3 | Hn3]; [discriminate |].
      simpl in Hloc3.
      destruct (Rlt_le_dec (IZR lo * bpow elo) ((IZR m3 + 1) * bpow e3))
        as [Hlt | Hge].
      + exact (grid_below m3 e3 lo elo Hm3 Hn3 Hlo Hlt).
      + lra. }
  destruct m3 as [| p3 | p3] eqn:Em3; [| | lia].
  - simpl in Hv3. lra.
  - destruct (e3 <=? Binary64.emax - Binary64.prec); [| exact I].
    split; [exact Hm3lt |]. split; [lia | exact Hv3].
Qed.

(** The location of a remainder [r] of a division by [nb]. *)
Lemma new_location_cases (nb r : Z) :
  0 <= r < nb ->
  match new_location nb r with
  | loc_Exact => r = 0
  | loc_Inexact Lt => 0 < 2 * r < nb
  | loc_Inexact Eq => 2 * r = nb
  | loc_Inexact Gt => nb < 2 * r
  end.
Proof.
  intros Hr. unfold new_location, new_location_even, new_location_odd.
  change (IntDef.Z.eqb r 0) with (r =? 0).
  change (IntDef.Z.even nb) with (Z.even nb).
  destruct (Z.even nb) eqn:Ev; destruct (Z.eqb_spec r 0) as [| Hne];
    try assumption.
  - change (IntDef.Z.compare (IntDef.Z.mul 2 r) nb) with (2 * r ?= nb).
    destruct (Z.compare_spec (2 * r) nb); lia.
  - change (IntDef.Z.compare (IntDef.Z.add (IntDef.Z.mul 2 r) 1) nb)
      with (2 * r + 1 ?= nb).
    assert (Hodd : Z.odd nb = true) by (rewrite <- Z.negb_even, Ev; reflexivity).
    apply Z.odd_spec in Hodd. destruct Hodd as [k Hk].
    destruct (Z.compare_spec (2 * r + 1) nb); lia.
Qed.

(** Division: the quotient mantissa, with the side of the midpoint on
    which the exact quotient lies. *)
Lemma div_core_placed (mx my : positive) (ex ey : Z) :
  let '(q, e', l) :=
    SFdiv_core_binary Binary64.prec Binary64.emax (Z.pos mx) ex (Z.pos my) ey in
  placed (IZR (Z.pos mx) * bpow ex / (IZR (Z.pos my) * bpow ey)) q e' l.
Proof.
  unfold SFdiv_core_binary.
  set (d1 := Zdigits2 (Z.pos mx)). set (d2 := Zdigits2 (Z.pos my)).
  fold (fexp64 (d1 + ex - (d2 + ey))).
  set (e' := Z.min (fexp64 (d1 + ex - (d2 + ey))) (ex - ey)).
  set (s := ex - ey - e').
  assert (Hs : 0 <= s) by (unfold s, e'; lia).
  rewrite (shift_mantissa (Z.pos mx) s Hs).
  set (m' := Z.pos mx * 2 ^ s).
  assert (Hm' : m' = Z.pos mx * 2 ^ s) by reflexivity.
  clearbody m'.
  pose proof (Z_div_mod m' (Z.pos my) ltac:(lia)) as Hdm.
  destruct (Z.div_eucl m' (Z.pos my)) as [q r] eqn:Edm.
  destruct Hdm as [Heq Hr].
  pose proof (bpow_gt_0 e') as Hbe. pose proof (bpow_gt_0 ey) as Hbey.
  assert (Hmy : (0 < IZR (Z.pos my))%R) by (apply IZR_lt; lia).
  assert (Hv : (IZR (Z.pos mx) * bpow ex / (IZR (Z.pos my) * bpow ey)
               = (IZR q + IZR r / IZR (Z.pos my)) * bpow e')%R).
  { replace ex with (s + e' + ey) by (unfold s; lia).
    rewrite !bpow_plus, (bpow_IZR s Hs).
    assert (Hm : (IZR (Z.pos mx) * IZR (2 ^ s) = IZR (Z.pos my) * IZR q + IZR r)%R).
    { rewrite <- !mult_IZR, <- plus_IZR. f_equal. lia. }
    field_simplify; try lra.
    replace (IZR (Z.pos mx) * IZR (2 ^ s) * bpow e')%R
      with ((IZR (Z.pos my) * IZR q + IZR r) * bpow e')%R
      by (rewrite <- Hm; ring).
    field. lra. }
  rewrite Hv.
  pose proof (new_location_cases (Z.pos my) r Hr) as Hl.
  set (t := (IZR r / IZR (Z.pos my))%R).
  assert (Ht : (t * IZR (Z.pos my) = IZR r)%R).
  { unfold t, Rdiv. rewrite Rmult_assoc, Rinv_l by lra. ring. }
  destruct (new_location (Z.pos my) r) as [| []]; simpl.
  - subst r. unfold t, Rdiv. rewrite Rmult_0_l. ring.
  - assert (H2 : (2 * IZR r = IZR (Z.pos my))%R).
    { rewrite <- mult_IZR. f_equal. exact Hl. }
    assert (Et : t = (/ 2)%R) by nra. rewrite Et. reflexivity.
  - destruct Hl as [Hl0 Hl1].
    apply IZR_lt in Hl0, Hl1. rewrite mult_IZR in Hl0, Hl1.
    assert (Ht1 : (0 < t < / 2)%R) by (split; nra). nra.
  - apply IZR_lt in Hl. rewrite mult_IZR in Hl.
    destruct Hr as [_ Hr]. apply IZR_lt in Hr.
    assert (Ht1 : (/ 2 < t < 1)%R) by (split; nra). nra.
Qed.

(** ** The third of a threshold *)

Lemma no_tie_to_integer (M e m1 e1 n : Z) :
  0 < M < 2 ^ 53 -> 0 <= m1 < 2 ^ 53 -> normal m1 e1 -> 1 <= n <= 34 ->
  ((IZR m1 + 1) * bpow e1 = IZR n)%R ->
  ((IZR m1 + / 2) * bpow e1 <= IZR M * bpow e / 3)%R ->
  (IZR M * bpow e / 3 < IZR n)%R ->
  False.
Proof.
  intros HM Hm1 Hn1 Hn Heq Hge Hlt.
  pose proof (bpow_gt_0 e1) as Hb1. pose proof (bpow_gt_0 e) as Hb.
  assert (Hm1r : (0 <= IZR m1 < IZR (2 ^ 53))%R)
    by (split; [apply IZR_le | apply IZR_lt]; lia).
  assert (HMr : (0 < IZR M < IZR (2 ^ 53))%R)
    by (split; apply IZR_lt; lia).
  assert (Hnr : (1 <= IZR n <= 34)%R)
    by (split; apply IZR_le; lia).
  (* the exponent of the result is negative, and above the smallest *)
  assert (He1 : -1074 < e1 <= -1).
  { split.
    - destruct (Z_lt_le_dec (-1074) e1) as [| Hle]; [assumption | exfalso].
      pose proof (bpow_le e1 (-1074) Hle) as Hb2.
      assert (Hb3 : (bpow (-1074) * IZR (2 ^ 1074) = 1)%R).
      { rewrite <- bpow_IZR by lia. rewrite <- bpow_plus. apply bpow_0. }
      assert (H53 : (IZR (2 ^ 53) + 1 <= IZR (2 ^ 1074))%R).
      { rewrite <- plus_IZR. apply IZR_le.
        assert (2 ^ 54 <= 2 ^ 1074) by (apply Z.pow_le_mono_r; lia). lia. }
      pose proof (bpow_gt_0 (-1074)) as Hb4.
      assert ((IZR m1 + 1) * bpow e1 < 1)%R; [| lra].
      apply Rle_lt_trans with ((IZR m1 + 1) * bpow (-1074))%R; [nra |].
      rewrite <- Hb3. rewrite (Rmult_comm (bpow (-1074))).
      apply Rmult_lt_compat_r; lra.
    - destruct (Z_lt_le_dec e1 0) as [| Hge0]; [lia | exfalso].
      assert (Hn52 : 2 ^ 52 <= m1) by (apply Hn1; lia).
      apply IZR_le in Hn52.
      pose proof (bpow_le 0 e1 Hge0) as Hb2. rewrite bpow_0 in Hb2.
      assert (Hbig : (IZR (2 ^ 52) <= (IZR m1 + 1) * bpow e1)%R) by nra.
      assert (H35 : (35 <= IZR (2 ^ 52))%R) by (apply IZR_le; lia).
      lra. }
  assert (Hn52 : 2 ^ 52 <= m1) by (apply Hn1; lia).
  apply IZR_le in Hn52.
  assert (H2 : (IZR (2 ^ 53) = 2 * IZR (2 ^ 52))%R).
  { rewrite <- mult_IZR. f_equal. }
  (* the exponent of the threshold is larger *)
  assert (Hee : e1 < e).
  { destruct (Z_lt_le_dec e1 e) as [| Hle]; [assumption | exfalso].
    pose proof (bpow_le e e1 Hle) as Hb2. nra. }
  set (j := e - e1 - 1). set (k := - e1 - 1).
  assert (Hj : 0 <= j) by (unfold j; lia).
  assert (Hk : 0 <= k) by (unfold k; lia).
  assert (Hbe : (bpow e = bpow e1 * (2 * IZR (2 ^ j)))%R).
  { rewrite (bpow_split e1 e) by lia. f_equal.
    replace (e - e1) with (Z.succ j) by (unfold j; lia).
    rewrite Z.pow_succ_r, mult_IZR by assumption. reflexivity. }
  assert (Hb0 : (bpow e1 * (2 * IZR (2 ^ k)) = 1)%R).
  { rewrite <- (bpow_0). rewrite (bpow_split e1 0) by lia. f_equal.
    replace (0 - e1) with (Z.succ k) by (unfold k; lia).
    rewrite Z.pow_succ_r, mult_IZR by assumption. reflexivity. }
  set (X := M * 2 ^ j). set (Q := n * 2 ^ k).
  assert (HX : IZR X = (IZR M * IZR (2 ^ j))%R) by (unfold X; apply mult_IZR).
  assert (HQ : IZR Q = (IZR n * IZR (2 ^ k))%R) by (unfold Q; apply mult_IZR).
  set (b := bpow e1) in *.
  assert (E1 : (IZR m1 + 1 = 2 * IZR Q)%R).
  { apply Rmult_eq_reg_r with b; [| lra].
    rewrite Heq, HQ.
    replace (2 * (IZR n * IZR (2 ^ k)) * b)%R
      with (IZR n * (b * (2 * IZR (2 ^ k))))%R by ring.
    rewrite Hb0. ring. }
  assert (E2 : (6 * IZR m1 + 3 <= 4 * IZR X)%R).
  { rewrite Hbe in Hge. rewrite HX.
    assert (Hge' : ((IZR m1 + / 2) * b <= (2 * IZR M * IZR (2 ^ j) / 3) * b)%R)
      by (replace ((2 * IZR M * IZR (2 ^ j) / 3) * b)%R
            with (IZR M * (b * (2 * IZR (2 ^ j))) / 3)%R by field; exact Hge).
    apply Rmult_le_reg_r in Hge'; [| exact Hb1]. lra. }
  assert (E3 : (4 * IZR X < 6 * IZR m1 + 6)%R).
  { rewrite Hbe in Hlt. rewrite <- Heq in Hlt. rewrite HX.
    assert (Hlt' : ((2 * IZR M * IZR (2 ^ j) / 3) * b < (IZR m1 + 1) * b)%R)
      by (replace ((2 * IZR M * IZR (2 ^ j) / 3) * b)%R
            with (IZR M * (b * (2 * IZR (2 ^ j))) / 3)%R by field; exact Hlt).
    apply Rmult_lt_reg_r in Hlt'; [| exact Hb1]. lra. }
  assert (Z1 : m1 + 1 = 2 * Q).
  { apply eq_IZR. rewrite plus_IZR, mult_IZR. exact E1. }
  assert (Z2 : 6 * m1 + 3 <= 4 * X).
  { apply le_IZR. rewrite plus_IZR, !mult_IZR. exact E2. }
  assert (Z3 : 4 * X < 6 * m1 + 6).
  { apply lt_IZR. rewrite plus_IZR, !mult_IZR. exact E3. }
  lia.
Qed.

Lemma truediv_float_3 (f : spec_float) :
  py_truediv (PFloat f) (PInt 3)
  = Ok (PFloat (Binary64.div f (S754_finite false 6755399441055744 (-51)))).
Proof. reflexivity. Qed.

Lemma three_value : (IZR 6755399441055744 * bpow (-51) = 3)%R.
Proof.
  change 6755399441055744 with (3 * 2 ^ 51). rewrite mult_IZR.
  rewrite Rmult_assoc, (Rmult_comm (IZR (2 ^ 51))).
  rewrite <- bpow_IZR by lia. rewrite <- bpow_plus.
  change (-51 + 51) with 0. rewrite bpow_0. ring.
Qed.

(** The integer part of the third of a float between 0 and 100 is the
    integer part of the exact third. *)
Lemma third_float (M : positive) (e : Z) :
  Z.pos M < 2 ^ 53 ->
  (IZR (Z.pos M) * bpow e <= 100)%R ->
  exists h,
    third_of_num (PFloat (S754_finite false M e)) = Ok h
    /\ 0 <= h <= 33
    /\ (IZR (3 * h) <= IZR (Z.pos M) * bpow e < IZR (3 * h + 3))%R.
Proof.
  intros HM Hle.
  set (t := (IZR (Z.pos M) * bpow e)%R) in *.
  pose proof (bpow_gt_0 e) as Hb.
  assert (HMr : (0 < IZR (Z.pos M))%R) by (apply IZR_lt; lia).
  assert (Ht0 : (0 < t)%R) by (unfold t; nra).
  set (h := Int_part (t / 3)).
  destruct (base_Int_part (t / 3)) as [Hh1 Hh2]. fold h in Hh1, Hh2.
  assert (Hh0 : 0 <= h).
  { assert (H : (-1 < IZR h)%R) by lra. apply lt_IZR in H. lia. }
  assert (Hh33 : h <= 33).
  { assert (H : (IZR h < 34)%R) by lra. apply lt_IZR in H. lia. }
  assert (He : e <= 6).
  { destruct (Z_le_gt_dec e 6) as [| Hgt]; [assumption | exfalso].
    pose proof (bpow_le 7 e ltac:(lia)) as H7.
    rewrite (bpow_IZR 7) in H7 by lia.
    assert (H128 : (128 <= bpow e)%R).
    { eapply Rle_trans; [| exact H7]. apply IZR_le. simpl. lia. }
    assert (H1 : (1 <= IZR (Z.pos M))%R) by (apply IZR_le; lia).
    unfold t in Hle. nra. }
  exists h. split; [| split; [lia |]].
  2:{ rewrite plus_IZR, mult_IZR. lra. }
  unfold third_of_num. rewrite truediv_float_3, bind_Ok.
  assert (Hglo : grid h 0) by (split; lia).
  assert (Hghi : grid (h + 1) 0) by (split; lia).
  assert (Hv : (IZR h * bpow 0
                <= B2R (S754_finite false M e)
                   / (IZR (Z.pos 6755399441055744) * bpow (-51))
                <= IZR (h + 1) * bpow 0)%R).
  { rewrite three_value, bpow_0, plus_IZR. simpl B2R. fold t. lra. }
  assert (Hfx : fin_nonneg (S754_finite false M e) e e) by (simpl; lia).
  destruct (div_anchor _ 6755399441055744 (-51) e e h 0 (h + 1) 0 Hfx
              ltac:(lia) Hglo Hghi ltac:(lia) Hv) as [Hfq Hbq].
  set (q := Binary64.div (S754_finite false M e)
              (S754_finite false 6755399441055744 (-51))) in *.
  rewrite bpow_0, !Rmult_1_r in Hbq.
  (* the quotient does not reach the next integer *)
  assert (Hstrict : (B2R q < IZR (h + 1))%R).
  { destruct (Rlt_le_dec (B2R q) (IZR (h + 1))) as [| Hge]; [assumption |].
    exfalso. unfold q, Binary64.div, SFdiv in Hge.
    pose proof (div_core_located M 6755399441055744 e (-51)) as Hc.
    pose proof (div_core_placed M 6755399441055744 e (-51)) as Hp.
    destruct (SFdiv_core_binary Binary64.prec Binary64.emax (Z.pos M) e
                (Z.pos 6755399441055744) (-51)) as [[mq eq] lq].
    destruct Hc as (Hq0 & _ & Hfe & _).
    rewrite three_value in Hp. fold t in Hp.
    destruct (binary_round_aux_placed _ mq eq lq Hq0 Hp (or_intror Hfe))
      as (m1 & e1 & l1 & Hm1 & Hpl & Hnorm & Hround).
    simpl xorb in Hge.
    pose proof (bpow_gt_0 e1) as Hb1.
    assert (Hn : (IZR (h + 1) <= IZR (round_nearest_even m1 l1) * bpow e1)%R)
      by lra.
    assert (Hvn : (t / 3 < IZR (h + 1))%R) by (rewrite plus_IZR; lra).
    assert (Hup : round_nearest_even m1 l1 = m1 + 1
                  /\ normal m1 e1
                  /\ ((IZR m1 + / 2) * bpow e1 <= t / 3)%R
                  /\ (IZR m1 * bpow e1 < t / 3)%R).
    { destruct l1 as [| []]; simpl in Hpl, Hn |- *.
      - exfalso. lra.
      - destruct Hnorm as [| Hnorm]; [discriminate |].
        destruct (Z.even m1); [exfalso; nra |].
        repeat split; try assumption; lra.
      - exfalso. lra.
      - destruct Hnorm as [| Hnorm]; [discriminate |].
        repeat split; try assumption; lra. }
    destruct Hup as (Hr & Hnm & Hmid & Hbelow).
    rewrite Hr, (plus_IZR m1 1) in Hn.
    assert (Hlt : (IZR m1 * bpow e1 < IZR (h + 1) * bpow 0)%R)
      by (rewrite bpow_0; lra).
    pose proof (grid_above m1 e1 (h + 1) 0 ltac:(lia) Hnm Hghi Hlt) as Hga.
    rewrite bpow_0, Rmult_1_r in Hga.
    apply (no_tie_to_integer (Z.pos M) e m1 e1 (h + 1)); try lia;
      try assumption; fold t; lra. }
  destruct (trunc_fin_nonneg q _ _ Hfq) as (z & Hz & Hz0 & Hzv).
  unfold py_int. rewrite Hz. f_equal.
  assert (H1 : (IZR z < IZR (h + 1))%R) by lra.
  assert (H2 : (IZR h < IZR (z + 1))%R) by (rewrite plus_IZR; lra).
  apply lt_IZR in H1, H2. lia.
Qed.

(** * A multiplier and a threshold of either kind *)

(** ** Floats of the format *)

Lemma bounded_grid (m : positive) (e : Z) :
  bounded Binary64.prec Binary64.emax m e = true -> grid (Z.pos m) e.
Proof.
  unfold bounded, canonical_mantissa. intros H.
  apply andb_prop in H. destruct H as [Hc _].
  apply Z.eqb_eq in Hc.
  fold (fexp64 (Z.pos (digits2_pos m) + e)) in Hc. rewrite fexp64_eq in Hc.
  destruct (digits2_pos_bounds m) as [_ Hhi].
  assert (Hd : Z.pos (digits2_pos m) <= 53) by lia.
  assert (2 ^ Z.pos (digits2_pos m) <= 2 ^ 53)
    by (apply Z.pow_le_mono_r; lia).
  unfold grid. lia.
Qed.

(** The exact comparison of an integer with a positive finite float. *)
Lemma compare_Z_finite (z : Z) (m : positive) (e : Z) :
  match Binary64.compare_Z z (S754_finite false m e) with
  | Some Lt => (IZR z < IZR (Z.pos m) * bpow e)%R
  | Some Eq => (IZR z = IZR (Z.pos m) * bpow e)%R
  | Some Gt => (IZR (Z.pos m) * bpow e < IZR z)%R
  | None => False
  end.
Proof.
  unfold Binary64.compare_Z.
  destruct e as [| p | p].
  - rewrite bpow_0, Rmult_1_r.
    change (Z.pos m * 2 ^ 0) with (Z.pos m * 1). rewrite Z.mul_1_r.
    destruct (Z.compare_spec z (Z.pos m)) as [H | H | H];
      [f_equal; exact H | apply IZR_lt; exact H | apply IZR_lt; exact H].
  - rewrite (bpow_IZR (Z.pos p)) by lia. rewrite <- mult_IZR.
    destruct (Z.compare_spec z (Z.pos m * 2 ^ Z.pos p)) as [H | H | H];
      [f_equal; exact H | apply IZR_lt; exact H | apply IZR_lt; exact H].
  - assert (H2 : (0 < IZR (2 ^ Z.pos p))%R).
    { apply IZR_lt. apply Z.pow_pos_nonneg; lia. }
    assert (Hb : (bpow (Z.neg p) * IZR (2 ^ Z.pos p) = 1)%R).
    { rewrite <- bpow_IZR by lia. rewrite <- bpow_plus.
      replace (Z.neg p + Z.pos p) with 0 by lia. apply bpow_0. }
    assert (Hv : (IZR (Z.pos m)
                  = IZR (Z.pos m) * bpow (Z.neg p) * IZR (2 ^ Z.pos p))%R).
    { rewrite Rmult_assoc, Hb. ring. }
    destruct (Z.compare_spec (z * 2 ^ Z.pos p) (Z.pos m)) as [H | H | H].
    + apply (f_equal IZR) in H. rewrite mult_IZR in H. rewrite Hv in H.
      apply Rmult_eq_reg_r in H; lra.
    + apply IZR_lt in H. rewrite mult_IZR in H. rewrite Hv in H.
      apply Rmult_lt_reg_r in H; lra.
    + apply IZR_lt in H. rewrite mult_IZR in H. rewrite Hv in H.
      apply Rmult_lt_reg_r in H; lra.
Qed.


(** ** The third of the threshold *)

Lemma third_of_num_int (t : Z) : third_of_num (PInt t) = third_of t.
Proof. reflexivity. Qed.

(** For a threshold between 0 and 100, [int(valid_threshold/3)] is the
    integer part of the exact third. *)
Lemma third_ok (T : pynum) :
  threshold_ok T = true ->
  third_of_num T = Ok (half_of T)
  /\ 0 <= half_of T <= 33
  /\ floor_third T (half_of T).
Proof.
  intros HT.
  assert (H : exists h, third_of_num T = Ok h /\ 0 <= h <= 33
                        /\ floor_third T h).
  { destruct T as [t | f].
    - simpl in HT. apply andb_prop in HT. destruct HT as [H0 H1].
      apply Z.leb_le in H0, H1.
      exists (t / 3). rewrite third_of_num_int, (third_of_exact t) by lia.
      split; [reflexivity |].
      pose proof (Z.mul_div_le t 3 ltac:(lia)).
      pose proof (Z.mul_succ_div_gt t 3 ltac:(lia)).
      split; [lia |].
      unfold floor_third, num_lt. split.
      + apply Z.ltb_ge. lia.
      + apply Z.ltb_lt. lia.
    - destruct f as [s | s | | s m e]; try discriminate.
      + exists 0. destruct s; repeat split; reflexivity || lia.
      + destruct s; [discriminate |].
        cbn [threshold_ok] in HT. apply andb_prop in HT.
        destruct HT as [Hb H100]. unfold int_ge in H100.
        apply bounded_grid in Hb. destruct Hb as [[_ Hm] He].
        pose proof (compare_Z_finite 100 m e) as Hc.
        assert (Hle : (IZR (Z.pos m) * bpow e <= 100)%R).
        { destruct (Binary64.compare_Z 100 (S754_finite false m e))
            as [[] |]; try discriminate; lra. }
        destruct (third_float m e Hm Hle) as (h & Hh & Hr & Hlo & Hhi).
        exists h. split; [exact Hh |]. split; [exact Hr |].
        unfold floor_third, num_lt.
        pose proof (compare_Z_finite (3 * h) m e) as H1.
        pose proof (compare_Z_finite (3 * h + 3) m e) as H2.
        split.
        * destruct (Binary64.compare_Z (3 * h) (S754_finite false m e))
            as [[] |]; try reflexivity; try contradiction. lra.
        * destruct (Binary64.compare_Z (3 * h + 3) (S754_finite false m e))
            as [[] |]; try reflexivity; try contradiction; lra. }
  destruct H as (h & Hh & Hr & Hf).
  unfold half_of. rewrite Hh. auto.
Qed.

Lemma half_of_int (t : Z) : 0 <= t <= 100 -> half_of (PInt t) = t / 3.
Proof.
  intros Ht. unfold half_of. rewrite third_of_num_int, (third_of_exact t Ht).
  reflexivity.
Qed.

(** ** Sums of non-negative floats *)

Lemma shl_align_value (m : positive) (e e' : Z) :
  (IZR (Z.pos (fst (shl_align m e e'))) * bpow (snd (shl_align m e e'))
   = IZR (Z.pos m) * bpow e)%R
  /\ snd (shl_align m e e') = Z.min e e'.
Proof.
  unfold shl_align. destruct (e' - e) as [| d | d] eqn:E; cbn [fst snd].
  - split; [reflexivity | lia].
  - split; [reflexivity | lia].
  - split; [| lia].
    change (PosDef.Pos.iter xO m d) with (Pos.iter xO m d).
    rewrite pos_iter_xO, mult_IZR. rewrite <- (bpow_IZR (Z.pos d)) by lia.
    rewrite Rmult_assoc, <- bpow_plus. f_equal. f_equal. lia.
Qed.

(** The sum of two positive finite floats is no smaller than a float below
    the exact sum, unless it is [+inf]. *)
Lemma add_finite (mx my : positive) (ex ey lo elo : Z) :
  -1074 <= ex -> -1074 <= ey -> grid lo elo ->
  (IZR lo * bpow elo
   <= IZR (Z.pos mx) * bpow ex + IZR (Z.pos my) * bpow ey)%R ->
  match Binary64.add (S754_finite false mx ex) (S754_finite false my ey) with
  | S754_zero false => (IZR lo * bpow elo <= 0)%R
  | S754_finite false m e =>
      grid (Z.pos m) e /\ (IZR lo * bpow elo <= IZR (Z.pos m) * bpow e)%R
  | S754_infinity false => True
  | _ => False
  end.
Proof.
  intros Hex Hey Hlo Hv.
  unfold Binary64.add, SFadd. cbv zeta.
  set (ez := Z.min ex ey).
  destruct (shl_align_value mx ex ez) as [Hvx Hsx].
  destruct (shl_align_value my ey ez) as [Hvy Hsy].
  set (ax := fst (shl_align mx ex ez)) in *.
  set (ay := fst (shl_align my ey ez)) in *.
  replace (snd (shl_align mx ex ez)) with ez in Hvx by (unfold ez in *; lia).
  replace (snd (shl_align my ey ez)) with ez in Hvy by (unfold ez in *; lia).
  cbn [cond_Zopp].
  change (Z.pos ax + Z.pos ay) with (Z.pos (ax + ay)).
  cbn [binary_normalize]. unfold binary_round.
  set (fe := fexp Binary64.prec Binary64.emax
               (Z.pos (digits2_pos (ax + ay)) + ez)).
  assert (Hfe : -1074 <= fe).
  { unfold fe. fold (fexp64 (Z.pos (digits2_pos (ax + ay)) + ez)).
    rewrite fexp64_eq. lia. }
  destruct (shl_align_value (ax + ay) ez fe) as [Hvz Hsz].
  destruct (shl_align (ax + ay) ez fe) as [mz ez'].
  cbn [fst snd] in Hvz, Hsz.
  assert (Hsum : (IZR (Z.pos mz) * bpow ez'
                  = IZR (Z.pos mx) * bpow ex + IZR (Z.pos my) * bpow ey)%R).
  { rewrite Hvz, <- Hvx, <- Hvy, Pos2Z.inj_add, plus_IZR. ring. }
  pose proof (binary_round_aux_lower (IZR (Z.pos mz) * bpow ez') (Z.pos mz)
                ez' loc_Exact lo elo ltac:(lia) eq_refl (or_introl eq_refl)
                Hlo ltac:(rewrite Hsum; exact Hv)) as H.
  destruct (binary_round_aux Binary64.prec Binary64.emax false (Z.pos mz) ez'
              loc_Exact) as [[] | [] | | [] m e]; try exact H.
  destruct H as (Hm & He & Hb). split; [| exact Hb].
  unfold grid. unfold ez in *. lia.
Qed.

Lemma pos_float_value (y : spec_float) :
  pos_float y ->
  match y with
  | S754_finite false m e => (0 < IZR (Z.pos m) * bpow e)%R
  | _ => True
  end.
Proof.
  destruct y as [s | s | | [] m e]; intros H; try exact I.
  pose proof (bpow_gt_0 e). pose proof (IZR_lt 0 (Z.pos m) ltac:(lia)). nra.
Qed.

Lemma pos_nonneg_float (y : spec_float) : pos_float y -> nonneg_float y.
Proof.
  destruct y as [s | [] | | [] m e]; simpl; try tauto. unfold grid. lia.
Qed.

(** A non-negative float plus a positive one is positive. *)
Lemma add_nonneg_pos (x y : spec_float) :
  nonneg_float x -> pos_float y -> pos_float (Binary64.add x y).
Proof.
  intros Hx Hy.
  destruct x as [[] | [] | | [] mx ex]; simpl in Hx; try tauto;
    destruct y as [sy | [] | | [] my ey]; simpl in Hy; try tauto;
    try exact I; try exact Hy.
  pose proof (add_finite mx my ex ey (Z.pos my) ey Hx ltac:(unfold grid in Hy; lia)
                Hy) as H.
  pose proof (bpow_gt_0 ex) as Hbx. pose proof (bpow_gt_0 ey) as Hby.
  pose proof (IZR_lt 0 (Z.pos mx) ltac:(lia)) as Hmx.
  pose proof (IZR_lt 0 (Z.pos my) ltac:(lia)) as Hmy.
  assert (Hv : (IZR (Z.pos my) * bpow ey
                <= IZR (Z.pos mx) * bpow ex + IZR (Z.pos my) * bpow ey)%R)
    by nra.
  specialize (H Hv).
  destruct (Binary64.add (S754_finite false mx ex) (S754_finite false my ey))
    as [[] | [] | | [] m e]; simpl; try tauto.
  - exfalso. nra.
Qed.

(** And it is no smaller than a float below the exact sum. *)
Lemma add_lower (x y : spec_float) (lo elo : Z) :
  nonneg_float x -> pos_float y -> grid lo elo ->
  (IZR lo * bpow elo <= B2R x + B2R y)%R ->
  match Binary64.add x y with
  | S754_finite false m e => (IZR lo * bpow elo <= IZR (Z.pos m) * bpow e)%R
  | _ => True
  end.
Proof.
  intros Hx Hy Hlo Hv.
  destruct x as [[] | [] | | [] mx ex]; simpl in Hx; try tauto;
    destruct y as [sy | [] | | [] my ey]; simpl in Hy; try tauto;
    try exact I; simpl in Hv.
  - change (IZR lo * bpow elo <= IZR (Z.pos my) * bpow ey)%R. lra.
  - pose proof (add_finite mx my ex ey lo elo Hx
                  ltac:(unfold grid in Hy; lia) Hlo Hv) as H.
    destruct (Binary64.add (S754_finite false mx ex)
                (S754_finite false my ey)) as [[] | [] | | [] m e];
      try exact I. apply H.
Qed.

Lemma of_Z_nonneg (k : Z) :
  0 <= k < 2 ^ 53 -> nonneg_float (Binary64.of_Z k).
Proof.
  intros Hk. destruct (of_Z_exact k Hk) as [Hf _].
  destruct (Binary64.of_Z k) as [[] | [] | | [] m e]; simpl in *;
    try tauto. lia.
Qed.

(** ** The penalty loops, for a float multiplier *)

Lemma add_penalty_float (f : spec_float) (n : nat) (p0 : pynum) (c : ascii) :
  pos_float f -> penalty_inv n p0 -> Z.of_nat n < 2 ^ 53 ->
  exists p1,
    (if isdigit c then py_add p0 (PFloat f) else py_add p0 (PInt 1)) = Ok p1
    /\ penalty_inv (S n) p1.
Proof.
  intros Hf Hp Hn.
  assert (H1 : pos_float (Binary64.of_Z 1)).
  { vm_compute. repeat split; discriminate. }
  destruct p0 as [k | g]; simpl in Hp.
  - destruct (isdigit c).
    + destruct (float_of_int_exact k ltac:(lia)) as (Ek & _).
      unfold py_add, as_float. rewrite Ek. cbv beta iota delta [bind].
      eexists. split; [reflexivity |]. simpl.
      apply add_nonneg_pos; [apply of_Z_nonneg; lia | exact Hf].
    + eexists. split; [reflexivity |]. simpl. lia.
  - destruct (isdigit c).
    + eexists. split; [reflexivity |]. simpl.
      apply add_nonneg_pos; [apply pos_nonneg_float; exact Hp | exact Hf].
    + eexists. split; [reflexivity |].
      change (pos_float (Binary64.add g (Binary64.of_Z 1))).
      apply add_nonneg_pos; [apply pos_nonneg_float; exact Hp | exact H1].
Qed.

Lemma foldM_add_penalty_float (s : string) (f : spec_float)
    (positions : list nat) (n : nat) (p0 : pynum) :
  pos_float f ->
  Forall (fun p => (p < str_len s)%nat) positions ->
  penalty_inv n p0 ->
  Z.of_nat (n + List.length positions) < 2 ^ 53 ->
  exists p,
    foldM (add_penalty (PyStr s) (PFloat f)) positions p0 = Ok p
    /\ penalty_inv (n + List.length positions) p.
Proof.
  intros Hf HF. revert n p0.
  induction HF as [| i rest Hi HF IH]; intros n p0 Hp Hn.
  - exists p0. split; [reflexivity |]. rewrite Nat.add_0_r. exact Hp.
  - cbn [List.length] in Hn.
    destruct (str_get_some s i Hi) as [c Hc].
    destruct (add_penalty_float f n p0 c Hf Hp ltac:(lia)) as (p1 & Hp1 & Hinv).
    destruct (IH (S n) p1 Hinv ltac:(lia)) as (p & Hfold & Hinv').
    exists p. split.
    + cbn [foldM]. unfold add_penalty at 1. cbn [py_getitem].
      unfold str_get. rewrite Hc, bind_Ok, Hp1, bind_Ok. exact Hfold.
    + cbn [List.length]. replace (n + S (List.length rest))%nat
        with (S n + List.length rest)%nat by lia. exact Hinv'.
Qed.

(** The percentage of [m] matches against a positive float penalty. *)
Lemma ratio_percent_float (m : Z) (g : spec_float) :
  0 <= m < 2 ^ 53 -> pos_float g ->
  exists s, ratio_percent m (PFloat g) = Ok s /\ 0 <= s <= 100.
Proof.
  intros Hm Hg.
  destruct (float_of_int_exact m Hm) as (Em & Hfm & Hvm).
  unfold ratio_percent.
  unfold py_add, as_float. rewrite Em. cbv beta iota delta [bind].
  set (total := Binary64.add (Binary64.of_Z m) g).
  assert (Htot : pos_float total)
    by (apply add_nonneg_pos; [apply of_Z_nonneg; exact Hm | exact Hg]).
  assert (Hgm : grid m 0) by (unfold grid; lia).
  assert (Hg0 : (0 <= B2R g)%R).
  { pose proof (pos_float_value g Hg) as Hv.
    destruct g as [s | [] | | [] mg eg]; simpl in Hg |- *; try tauto; lra. }
  pose proof (add_lower (Binary64.of_Z m) g m 0 (of_Z_nonneg m Hm) Hg Hgm
                ltac:(rewrite bpow_0, Hvm; lra)) as Hlow.
  fold total in Hlow.
  unfold py_truediv, as_float. rewrite Em. cbv beta iota delta [bind].
  assert (Hq : exists q elo, Binary64.div (Binary64.of_Z m) total = q
                             /\ fin_nonneg q elo 52
                             /\ (0 <= B2R q <= 1)%R).
  { destruct total as [s | [] | | [] mt et] eqn:Et; simpl in Htot; try tauto.
    - (* the total is infinite *)
      exists (S754_zero false), 0. split; [| split; [exact I | simpl; lra]].
      destruct (Binary64.of_Z m) as [[] | [] | | [] mm em]; simpl in Hfm;
        try tauto; reflexivity.
    - rewrite bpow_0, Rmult_1_r in Hlow.
      pose proof (pos_float_value (S754_finite false mt et) Htot) as Hpos.
      simpl in Hpos.
      destruct (Z.eq_dec m 0) as [-> | Hne].
      + exists (S754_zero false), 0. split; [reflexivity |].
        split; [exact I | simpl; lra].
      + assert (Hm1 : (1 <= IZR m)%R) by (apply IZR_le; lia).
        assert (Het : -52 <= et).
        { destruct (Z_le_gt_dec (-52) et) as [| Hgt]; [assumption | exfalso].
          destruct Htot as [[_ Hmt] _]. apply IZR_lt in Hmt.
          pose proof (bpow_le et (-53) ltac:(lia)) as Hb.
          assert (Hb53 : (bpow (-53) * IZR (2 ^ 53) = 1)%R).
          { rewrite <- bpow_IZR by lia. rewrite <- bpow_plus. apply bpow_0. }
          pose proof (bpow_gt_0 et) as Hbe. pose proof (bpow_gt_0 (-53)) as Hb3.
          assert (IZR (Z.pos mt) * bpow et < 1)%R; [| lra].
          apply Rle_lt_trans with (IZR (Z.pos mt) * bpow (-53))%R.
          - apply Rmult_le_compat_l; [apply IZR_le; lia | exact Hb].
          - rewrite <- Hb53, (Rmult_comm (bpow (-53))).
            apply Rmult_lt_compat_r; assumption. }
        assert (Hg1 : grid 0 0) by (unfold grid; lia).
        assert (Hg2 : grid 1 0) by (unfold grid; lia).
        assert (Hbd : (IZR 0 * bpow 0
                       <= B2R (Binary64.of_Z m) / (IZR (Z.pos mt) * bpow et)
                       <= IZR 1 * bpow 0)%R).
        { rewrite Hvm, bpow_0, !Rmult_1_r. split.
          - apply Rmult_le_reg_r with (IZR (Z.pos mt) * bpow et)%R;
              [exact Hpos |].
            unfold Rdiv. rewrite Rmult_assoc, Rinv_l by lra. lra.
          - apply Rmult_le_reg_r with (IZR (Z.pos mt) * bpow et)%R;
              [exact Hpos |].
            unfold Rdiv. rewrite Rmult_assoc, Rinv_l by lra. lra. }
        destruct (div_anchor (Binary64.of_Z m) mt et (-52) 0 0 0 1 0 Hfm
                    ltac:(lia) Hg1 Hg2 ltac:(lia) Hbd) as [Hfq Hbq].
        eexists _, (Z.min (-1074) (-52 - et)). split; [reflexivity |]. split.
        * destruct (Binary64.div (Binary64.of_Z m) (S754_finite false mt et))
            as [[] | [] | | [] mq eq]; simpl in Hfq |- *; try tauto. lia.
        * rewrite bpow_0, !Rmult_1_r in Hbq. exact Hbq. }
  destruct Hq as (q & eql & Eq & Hfq & Hbq).
  assert (Hnz : Binary64.is_zero total = false).
  { destruct total as [s | [] | | [] mt et]; simpl in Htot; try tauto;
      reflexivity. }
  rewrite Hnz, Eq.
  unfold py_mul. rewrite float_100. cbv beta iota delta [bind as_float].
  destruct (of_Z_exact 100 ltac:(lia)) as [Hf100 Hv100].
  assert (Hg0' : grid 0 0) by (unfold grid; lia).
  assert (Hg100 : grid 100 0) by (unfold grid; lia).
  assert (Hbm : (IZR 0 * bpow 0 <= B2R (Binary64.of_Z 100) * B2R q
                 <= IZR 100 * bpow 0)%R).
  { rewrite Hv100, bpow_0, !Rmult_1_r. lra. }
  destruct (mul_anchor (Binary64.of_Z 100) q (-52) 0 eql 52 0 0 100 0
              Hf100 Hfq ltac:(lia) Hg0' Hg100 ltac:(lia) Hbm) as [Hfy Hby].
  destruct (trunc_fin_nonneg _ _ _ Hfy) as (s & Hs & Hs0 & Hsv).
  exists s. unfold py_int. rewrite Hs. split; [reflexivity |].
  rewrite bpow_0, !Rmult_1_r in Hby.
  assert (Hlt : (IZR s < IZR 101)%R) by lra.
  apply lt_IZR in Hlt. lia.
Qed.

(** ** compute_score for a multiplier of either kind *)

Lemma compute_score_float
    (get_matching_blocks : string -> string -> list block)
    (a b : string) (f : spec_float) (st : bool) :
  blocks_ok 0 0 (str_len a) (str_len b) (get_matching_blocks a b) = true ->
  pos_float f -> Z.of_nat (str_len a + str_len b) < 2 ^ 53 ->
  exists s,
    compute_score get_matching_blocks (scorer_on a b (PFloat f) st) = Ok s
    /\ 0 <= s <= 100.
Proof.
  intros Hok Hf Hlen.
  unfold compute_score, scorer_on. cbn [seq1 seq2 seqmat digit_multiplier].
  cbn [py_len]. rewrite !bind_Ok, !str_len_0.
  destruct (is_empty a) eqn:Ea; destruct (is_empty b) eqn:Eb; cbn [andb orb];
    try (eexists; split; [reflexivity | lia]).
  apply is_empty_len in Ea, Eb.
  cbn [seqmat_blocks]. rewrite bind_Ok.
  pose proof (unmatched_positions_count _ _ _ _ _ Hok) as Hc.
  rewrite sum_lengths_total.
  destruct (unmatched_positions (get_matching_blocks a b) 0 0 [] [])
    as [da db].
  destruct Hc as (Fa & Fb & La & Lb).
  destruct (foldM_add_penalty_float a f da 0 (PInt 0) Hf Fa eq_refl
              ltac:(lia)) as (p1 & Hp1 & Hinv1).
  rewrite Hp1, bind_Ok.
  destruct (foldM_add_penalty_float b f db _ p1 Hf Fb Hinv1 ltac:(lia))
    as (p & Hp & Hinv).
  rewrite Hp, bind_Ok.
  set (m := Z.of_nat (total_len (get_matching_blocks a b))).
  destruct p as [k | g]; simpl in Hinv.
  - replace k with (m + k - m) by lia.
    apply ratio_percent_range; unfold m; lia.
  - apply ratio_percent_float; [unfold m; lia | exact Hinv].
Qed.

Lemma multiplier_pos_float (f : spec_float) :
  multiplier_ok (PFloat f) = true -> pos_float f.
Proof.
  destruct f as [s | [] | | [] m e]; simpl; try discriminate; try tauto.
  apply bounded_grid.
Qed.

Section NumScore.

Variable get_matching_blocks : string -> string -> list block.
Hypothesis blocks_spec : matching_blocks_spec get_matching_blocks.

Variable dm : pynum.
Hypothesis dm_ok : multiplier_ok dm = true.

(** For a multiplier above 0 of either kind, [compute_score] returns a
    score between 0 and 100. *)
Lemma compute_score_num (a b : string) (st : bool) :
  short a -> short b ->
  exists s,
    compute_score get_matching_blocks (scorer_on a b dm st) = Ok s
    /\ 0 <= s <= 100.
Proof.
  intros Ha Hb. unfold short in Ha, Hb. destruct dm as [d | f].
  - apply (compute_score_range _ blocks_spec). apply Z.leb_le. exact dm_ok.
  - apply compute_score_float;
      [apply blocks_spec | apply multiplier_pos_float; exact dm_ok |].
    assert (2 ^ 32 < 2 ^ 53) by (apply Z.pow_lt_mono_r; lia).
    change (2 ^ 32) with (2 * 2 ^ 31) in H. lia.
Qed.

Lemma score_value_num (c q : string) (st : bool) :
  short c -> short q ->
  compute_score get_matching_blocks (scorer_on c q dm st)
  = Ok (score_value get_matching_blocks dm c q)
  /\ 0 <= score_value get_matching_blocks dm c q <= 100.
Proof.
  intros Hc Hq. unfold score_value.
  destruct (compute_score_num c q false Hc Hq) as (s & Hs & Hrange).
  change (compute_score get_matching_blocks (scorer_on c q dm st))
    with (compute_score get_matching_blocks (scorer_on c q dm false)).
  rewrite Hs. auto.
Qed.

End NumScore.

(** ** The length of a string with its words sorted *)

Lemma str_len_app (a b : string) :
  str_len (a ++ b) = (str_len a + str_len b)%nat.
Proof. induction a as [| c a IH]; simpl; [| rewrite IH]; reflexivity. Qed.

Lemma join_cost_split (s acc : string) :
  (join_cost (split_from s acc) <= str_len s + str_len acc + 1)%nat.
Proof.
  revert acc. induction s as [| c s IH]; intros acc; cbn [split_from].
  - destruct acc; simpl; lia.
  - destruct (isspace c).
    + destruct (is_empty acc) eqn:E.
      * specialize (IH EmptyString). simpl in *. lia.
      * specialize (IH EmptyString). simpl in *. lia.
    + specialize (IH (acc ++ String c EmptyString)%string).
      rewrite str_len_app in IH. simpl in *. lia.
Qed.

Lemma join_cost_cons (w : string) (ws : list string) :
  join_cost (w :: ws) = (str_len w + 1 + join_cost ws)%nat.
Proof. reflexivity. Qed.

Lemma join_cost_insert (w : string) (ws : list string) :
  join_cost (insert_sorted w ws) = (str_len w + 1 + join_cost ws)%nat.
Proof.
  induction ws as [| x ws IH]; cbn [insert_sorted]; [reflexivity |].
  destruct (String.ltb w x); [reflexivity |].
  rewrite !join_cost_cons, IH. lia.
Qed.

Lemma join_cost_sorted (ws : list string) :
  join_cost (py_sorted ws) = join_cost ws.
Proof.
  unfold py_sorted.
  assert (H : forall acc,
             join_cost (fold_left (fun acc w => insert_sorted w acc) ws acc)
             = (join_cost ws + join_cost acc)%nat).
  { induction ws as [| w ws IH]; intros acc; cbn [fold_left]; [reflexivity |].
    rewrite IH, join_cost_insert, join_cost_cons. lia. }
  rewrite H. simpl. lia.
Qed.

Lemma join_len (ws : list string) :
  (str_len (py_join ws) <= Nat.pred (join_cost ws))%nat.
Proof.
  unfold py_join.
  assert (H : forall w ws,
             (str_len (String.concat " " (w :: ws)) + 1
              = join_cost (w :: ws))%nat).
  { intros w l. revert w. induction l as [| x l IH]; intros w.
    - simpl. lia.
    - change (String.concat " " (w :: x :: l))
        with (w ++ " " ++ String.concat " " (x :: l))%string.
      rewrite !str_len_app. specialize (IH x).
      change (join_cost (w :: x :: l))
        with (str_len w + 1 + join_cost (x :: l))%nat.
      simpl str_len at 2. lia. }
  destruct ws as [| w ws]; [simpl; lia |].
  specialize (H w ws). lia.
Qed.

Lemma sort_tokens_len (s : string) :
  (str_len (sort_tokens s) <= str_len s)%nat.
Proof.
  unfold sort_tokens.
  pose proof (join_len (py_sorted (py_split s))) as H1.
  rewrite join_cost_sorted in H1.
  pose proof (join_cost_split s EmptyString) as H2.
  fold (py_split s) in H2. simpl in H2. lia.
Qed.

Lemma sort_tokens_short (s : string) : short s -> short (sort_tokens s).
Proof.
  unfold short. pose proof (sort_tokens_len s). lia.
Qed.

(** * The funnel, for a multiplier and a threshold of either kind *)

Lemma short_pool_tokens_r (pool : list candidate) :
  short_pool pool -> Forall (fun c => short (cand_r c)) pool.
Proof.
  unfold short_pool. rewrite !Forall_forall. intros H c Hc. apply H, Hc.
Qed.

Lemma short_pool_tokens_f (pool : list candidate) :
  short_pool pool -> Forall (fun c => short (cand_f c)) pool.
Proof.
  unfold short_pool. rewrite !Forall_forall. intros H c Hc. apply H, Hc.
Qed.

Lemma short_pool_sub (keep : candidate -> bool) (pool : list candidate) :
  short_pool pool -> short_pool (filter keep pool).
Proof.
  unfold short_pool. rewrite !Forall_forall. intros H c Hc.
  apply filter_In in Hc. apply H. tauto.
Qed.

Lemma short_names_r (pool : list candidate) :
  short_pool pool -> Forall short (map cand_r pool).
Proof.
  unfold short_pool. rewrite !Forall_forall. intros H s Hs.
  apply in_map_iff in Hs. destruct Hs as (c & <- & Hc). apply H, Hc.
Qed.

Lemma short_names_f (pool : list candidate) :
  short_pool pool -> Forall short (map cand_f pool).
Proof.
  unfold short_pool. rewrite !Forall_forall. intros H s Hs.
  apply in_map_iff in Hs. destruct Hs as (c & <- & Hc). apply H, Hc.
Qed.

Section NumFunnel.

Variable get_matching_blocks : string -> string -> list block.
Variable argsort : list Z -> list nat.
Variable argpartition : list Z -> nat -> list nat.
Hypothesis blocks_spec : matching_blocks_spec get_matching_blocks.
Hypothesis argsort_ok : argsort_spec argsort.
Hypothesis argpartition_ok : argpartition_spec argpartition.

Variables (qr qf : string) (T dm : pynum) (oi : bool) (top_n : option Z).
Hypothesis dm_ok : multiplier_ok dm = true.
Hypothesis T_ok : threshold_ok T = true.
Hypothesis qr_short : short qr.
Hypothesis qf_short : short qf.
Hypothesis top_n_pos : match top_n with Some n => 1 <= n | None => True end.

Let half := half_of T.

Local Abbreviation raw_r := (Num.raw_r get_matching_blocks qr dm).
Local Abbreviation tok_r := (Num.tok_r get_matching_blocks qr dm).
Local Abbreviation raw_f := (Num.raw_f get_matching_blocks qf dm).
Local Abbreviation tok_f := (Num.tok_f get_matching_blocks qf dm).
Local Abbreviation primary_score :=
  (Num.primary_score get_matching_blocks qr T dm oi).
Local Abbreviation secondary_score :=
  (Num.secondary_score get_matching_blocks qf T dm oi).
Local Abbreviation improved_r := (Num.improved_r get_matching_blocks qr T dm).
Local Abbreviation improved_f := (Num.improved_f get_matching_blocks qf T dm).
Local Abbreviation improved := (Num.improved get_matching_blocks qr qf T dm).
Local Abbreviation quick_r := (Num.quick_r qr T).
Local Abbreviation quick_f := (Num.quick_f qf T).
Local Abbreviation keep_r := (Num.keep_r get_matching_blocks qr T dm oi).
Local Abbreviation keep_f := (Num.keep_f get_matching_blocks qf T dm oi).
Local Abbreviation weighted :=
  (Num.weighted get_matching_blocks qr qf T dm oi).
Local Abbreviation emit := (Num.emit get_matching_blocks qr qf T dm oi).
Local Abbreviation survivors :=
  (Num.survivors get_matching_blocks qr qf T dm oi).

(** ** The loops *)

Lemma score_loop_num (fus : FuzzyScorer) (q : string) (rc : list string) :
  ready fus q dm false -> short q -> Forall short rc ->
  score_loop get_matching_blocks fus rc
  = Ok (map (fun c => score_value get_matching_blocks dm c q) rc).
Proof.
  intros Hr Hq HF. revert fus Hr.
  induction HF as [| c rc Hc HF IH]; intros fus Hr; [reflexivity |].
  cbn [score_loop]. rewrite (set_choice_ready _ _ c _ _ Hr), bind_Ok.
  destruct (score_value_num _ blocks_spec dm dm_ok c q false Hc Hq)
    as [-> _].
  rewrite bind_Ok.
  rewrite (IH _ (scorer_on_ready c q dm false)), bind_Ok. reflexivity.
Qed.

Lemma token_loop_num {A : Type} (fus : FuzzyScorer) (q : string) (h : Z)
    (name : A -> string) (raw : A -> Z) (l : list A) :
  ready fus (sort_tokens q) dm true -> short q ->
  Forall (fun x => short (name x)) l ->
  token_loop get_matching_blocks fus h (map name l) (map raw l)
  = Ok (map (fun x => token_entry h (raw x)
                        (token_value get_matching_blocks dm (name x) q)) l).
Proof.
  intros Hr Hq HF. revert fus Hr.
  induction HF as [| x l Hx HF IH]; intros fus Hr; [reflexivity |].
  cbn [map token_loop]. unfold token_entry at 1.
  destruct (raw x =? 100).
  - rewrite (IH _ Hr), bind_Ok. reflexivity.
  - destruct (raw x <? h).
    + rewrite (IH _ Hr), bind_Ok. reflexivity.
    + rewrite (set_choice_ready _ _ (name x) _ _ Hr), bind_Ok.
      unfold token_value.
      destruct (score_value_num _ blocks_spec dm dm_ok
                  (sort_tokens (name x)) (sort_tokens q) true
                  (sort_tokens_short _ Hx) (sort_tokens_short _ Hq))
        as [-> _].
      rewrite bind_Ok.
      rewrite (IH _ (scorer_on_ready _ _ _ _)), bind_Ok. reflexivity.
Qed.

(** ** The scores in their range *)








(** ** The blocks of find_cur_best *)

Lemma quick_comparison_block_num (pool : list candidate) :
  short_pool pool ->
  quick_comparison_block (PyStr qr) (PyStr qf)
    (SArray (map cand_r pool)) (SArray (map cand_f pool))
    (map cand_pos pool) T dm
  = Ok (match filter quick_r pool with
        | [] => Return None
        | _ :: _ =>
            Continue (Some (rem_of (filter quick_f (filter quick_r pool))))
        end).
Proof.
  intros Hshort. unfold quick_comparison_block.
  destruct (init_ready qr dm) as (fus1 & -> & Hr1). rewrite bind_Ok.
  cbn [py_iter]. rewrite bind_Ok.
  rewrite (quick_loop_map fus1 qr dm T _ Hr1 qr_short (short_names_r _ Hshort)).
  rewrite bind_Ok, map_map.
  change (fun x : candidate => int_ge (quick_value (cand_r x) qr) T)
    with quick_r.
  destruct pool as [| c0 pool']; [reflexivity |].
  assert (Hne : c0 :: pool' <> []) by discriminate.
  cbn [np_mask]. rewrite !(mask_select_map _ quick_r _ Hne), !bind_Ok.
  destruct (init_ready qf dm) as (fus2 & -> & Hr2). rewrite bind_Ok.
  assert (Hs1 : short_pool (filter quick_r (c0 :: pool')))
    by (apply short_pool_sub; assumption).
  rewrite (quick_loop_map fus2 qf dm T _ Hr2 qf_short (short_names_f _ Hs1)).
  rewrite bind_Ok, map_map.
  change (fun x : candidate => int_ge (quick_value (cand_f x) qf) T)
    with quick_f.
  destruct (filter quick_r (c0 :: pool')) as [| c1 S1']; [reflexivity |].
  assert (Hne1 : c1 :: S1' <> []) by discriminate.
  rewrite !(mask_select_map _ quick_f _ Hne1), !bind_Ok.
  reflexivity.
Qed.

(** The scores of a stage, before the filter. *)
Lemma token_rescore_num (q : string) (name : candidate -> string)
    (l : list candidate) :
  short q -> Forall (fun c => short (name c)) l ->
  token_rescore get_matching_blocks (PyStr q) dm (Some half)
    (map name l)
    (map (fun c => score_value get_matching_blocks dm (name c) q) l)
  = Ok (map (fun c =>
               stage_score true half
                 (score_value get_matching_blocks dm (name c) q)
                 (token_value get_matching_blocks dm (name c) q)) l,
        map (fun c =>
               stage_improved half
                 (score_value get_matching_blocks dm (name c) q)
                 (token_value get_matching_blocks dm (name c) q)) l).
Proof.
  intros Hq HF. unfold token_rescore.
  destruct (init_token_ready q dm) as (fus & -> & Hr). rewrite bind_Ok.
  cbn [read_local]. rewrite bind_Ok.
  rewrite (token_loop_num fus q half name _ l Hr Hq HF).
  rewrite bind_Ok, np_maximum_map, np_gt_map. f_equal. f_equal.
  - apply map_ext_in. intros c Hc. apply max_token_entry.
    rewrite Forall_forall in HF.
    apply (score_value_num _ blocks_spec dm dm_ok _ _ false (HF c Hc) Hq).
  - apply map_ext_in. intros c Hc. apply gt_token_entry.
    rewrite Forall_forall in HF.
    apply (score_value_num _ blocks_spec dm dm_ok _ _ false (HF c Hc) Hq).
Qed.

Lemma registrant_block_num (S : list candidate) :
  short_pool S ->
  registrant_block get_matching_blocks (PyStr qr) T dm oi (Some (rem_of S))
  = Ok (match filter keep_r S with
        | [] => Return None
        | _ :: _ =>
            Continue
              (mkAfterRegistrant (rem_of (filter keep_r S))
                 (map primary_score (filter keep_r S))
                 (if oi then Some (map improved_r (filter keep_r S))
                  else None)
                 (if oi then Some half else None))
        end).
Proof.
  intros Hshort. unfold registrant_block.
  destruct (init_ready qr dm) as (fus & -> & Hr). rewrite bind_Ok.
  cbn [read_local rem_of rcr rcf rpos]. rewrite bind_Ok.
  rewrite (score_loop_num fus qr _ Hr qr_short (short_names_r _ Hshort)).
  rewrite bind_Ok, map_map.
  change (fun x : candidate =>
            score_value get_matching_blocks dm (cand_r x) qr) with raw_r.
  assert (Hscores :
    (if oi
     then third <- py_truediv T (PInt 3) ;;
          half_valid_threshold <- py_int third ;;
          ' (best, improvement) <-
            token_rescore get_matching_blocks (PyStr qr) dm
              (Some half_valid_threshold) (map cand_r S) (map raw_r S) ;;
          Ok (best, Some improvement, Some half_valid_threshold)
     else Ok (map raw_r S, None, None))
    = Ok (map primary_score S,
          (if oi then Some (map improved_r S) else None),
          (if oi then Some half else None))).
  { unfold Num.primary_score, stage_score. destruct oi; [| reflexivity].
    destruct (third_ok T T_ok) as [Hthird _].
    unfold third_of_num in Hthird.
    destruct (py_truediv T (PInt 3)) as [third |]; [| discriminate].
    cbn [bind] in Hthird. rewrite bind_Ok, Hthird, bind_Ok.
    fold half.
    pose proof (token_rescore_num qr cand_r S qr_short
                  (short_pool_tokens_r _ Hshort)) as Htr.
    change (map (fun c : candidate =>
                   score_value get_matching_blocks dm (cand_r c) qr) S)
      with (map raw_r S) in Htr.
    rewrite Htr, bind_Ok. reflexivity. }
  rewrite Hscores, bind_Ok. clear Hscores.
  rewrite map_map.
  change (fun x : candidate => int_ge (primary_score x) T) with keep_r.
  rewrite existsb_map_id.
  destruct (filter keep_r S) as [| c0 S'] eqn:Ef.
  - apply existsb_filter_nil in Ef. rewrite Ef. reflexivity.
  - assert (Hex : existsb keep_r S = true).
    { destruct (existsb keep_r S) eqn:E; [reflexivity |].
      apply existsb_filter_nil in E. congruence. }
    rewrite Hex. cbn [negb].
    assert (Hne : S <> []) by (intros ->; discriminate).
    revert Ef. destruct oi; intros Ef; cbn [read_local];
      repeat (rewrite (mask_select_map _ _ S Hne) || rewrite bind_Ok);
      rewrite Ef; reflexivity.
Qed.

Lemma fund_block_num (S : list candidate) :
  short_pool S ->
  fund_block get_matching_blocks (PyStr qf) T dm oi
    (mkAfterRegistrant (rem_of S) (map primary_score S)
       (if oi then Some (map improved_r S) else None)
       (if oi then Some half else None))
  = Ok (match filter keep_f S with
        | [] => Return None
        | _ :: _ =>
            Continue
              (mkAfterFund (rem_of (filter keep_f S))
                 (map primary_score (filter keep_f S))
                 (map secondary_score (filter keep_f S))
                 (if oi then Some (map improved (filter keep_f S))
                  else None))
        end).
Proof.
  intros Hshort. unfold fund_block.
  destruct (init_ready qf dm) as (fus & -> & Hr). rewrite bind_Ok.
  cbn [ar_rem ar_rrsc ar_improvement ar_half rem_of rcr rcf rpos].
  rewrite (score_loop_num fus qf _ Hr qf_short (short_names_f _ Hshort)).
  rewrite bind_Ok, map_map.
  change (fun x : candidate =>
            score_value get_matching_blocks dm (cand_f x) qf) with raw_f.
  assert (Hscores :
    (if oi
     then ' (best, improved0) <-
            token_rescore get_matching_blocks (PyStr qf) dm
              (if oi then Some half else None)
              (map cand_f S) (map raw_f S) ;;
          imp <- read_local (if oi then Some (map improved_r S) else None)
                   (fun i => i) ;;
          Ok (best, Some (np_or imp improved0))
     else Ok (map raw_f S, if oi then Some (map improved_r S) else None))
    = Ok (map secondary_score S,
          (if oi then Some (map improved S) else None))).
  { unfold Num.secondary_score, stage_score. destruct oi; [| reflexivity].
    pose proof (token_rescore_num qf cand_f S qf_short
                  (short_pool_tokens_f _ Hshort)) as Htr.
    change (map (fun c : candidate =>
                   score_value get_matching_blocks dm (cand_f c) qf) S)
      with (map raw_f S) in Htr.
    rewrite Htr, bind_Ok. cbn [read_local]. rewrite bind_Ok.
    rewrite np_or_map. reflexivity. }
  rewrite Hscores, bind_Ok. clear Hscores.
  rewrite map_map.
  change (fun x : candidate => int_ge (secondary_score x) T) with keep_f.
  rewrite existsb_map_id.
  destruct (filter keep_f S) as [| c0 S'] eqn:Ef.
  - apply existsb_filter_nil in Ef. rewrite Ef. reflexivity.
  - assert (Hex : existsb keep_f S = true).
    { destruct (existsb keep_f S) eqn:E; [reflexivity |].
      apply existsb_filter_nil in E. congruence. }
    rewrite Hex. cbn [negb].
    assert (Hne : S <> []) by (intros ->; discriminate).
    revert Ef. destruct oi; intros Ef; cbn [read_local];
      repeat (rewrite (mask_select_map _ _ S Hne) || rewrite bind_Ok);
      rewrite Ef; reflexivity.
Qed.

Lemma finalize_block_num (S : list candidate) :
  exists pos,
    finalize_block argsort argpartition top_n oi
      (mkAfterFund (rem_of S) (map primary_score S) (map secondary_score S)
         (if oi then Some (map improved S) else None))
    = Ok (map (fun k => emit (nth k S no_candidate)) pos)
    /\ top_spec top_n (map weighted S) pos.
Proof.
  unfold finalize_block.
  cbn [af_rem af_rrsc af_rfsc af_improvement rem_of rcr rcf rpos].
  rewrite weighted_scores_map.
  change (map (fun x : candidate =>
                 np_floor_sqrt (wrap64 (primary_score x * secondary_score x))) S)
    with (map weighted S).
  destruct (top_positions_spec argsort argpartition argsort_ok
              argpartition_ok top_n (map weighted S) top_n_pos)
    as (pos & Hpos & Hspec).
  exists pos. split; [| exact Hspec].
  rewrite Hpos, bind_Ok.
  assert (HF : Forall (fun i => (i < List.length S)%nat) pos).
  { destruct Hspec as (_ & HF & _). rewrite length_map in HF. exact HF. }
  rewrite !(take_idx_map _ S no_candidate pos HF), !bind_Ok.
  rewrite zip_with_map.
  assert (Hflags :
    (if oi
     then imp <- read_local (if oi then Some (map improved S) else None)
                   (fun i => i) ;;
          imp1 <- take_idx imp pos ;;
          Ok (zip_with (fun (fl : string) (i : bool) =>
                          if i then "OR"%string else fl)
                (repeat EmptyString (List.length pos)) imp1)
     else Ok (repeat EmptyString (List.length pos)))
    = Ok (map (fun k => if oi && improved (nth k S no_candidate)
                        then "OR"%string else EmptyString) pos)).
  { destruct oi.
    - cbn [read_local andb]. rewrite bind_Ok.
      rewrite (take_idx_map _ S no_candidate pos HF), bind_Ok.
      rewrite repeat_map, zip_with_map. reflexivity.
    - cbn [andb]. rewrite repeat_map. reflexivity. }
  rewrite Hflags, bind_Ok, zip_picks_map. reflexivity.
Qed.

Lemma survivors_num_unfold (pool : list candidate) :
  survivors pool
  = filter keep_f (filter keep_r (filter quick_f (filter quick_r pool))).
Proof. reflexivity. Qed.

(** [find_cur_best] with the quick comparison: the survivors of the four
    filters at the positions of the best weighted scores, or [None] when
    nothing survives. *)
Lemma find_cur_best_num (pool : list candidate) :
  short_pool pool ->
  exists pos,
    find_cur_best get_matching_blocks argsort argpartition
      (PyStr qr) (PyStr qf)
      (SArray (map cand_r pool)) (SArray (map cand_f pool))
      (map cand_pos pool) top_n T dm true oi
    = Ok (match survivors pool with
          | [] => None
          | _ :: _ =>
              Some (map (fun k => emit (nth k (survivors pool) no_candidate))
                      pos)
          end)
    /\ top_spec top_n (map weighted (survivors pool)) pos.
Proof.
  intros Hshort.
  destruct (finalize_block_num (survivors pool)) as (pos & Hfin & Hspec).
  exists pos. split; [| exact Hspec].
  unfold find_cur_best.
  rewrite (quick_comparison_block_num pool Hshort).
  rewrite bind_Ok. rewrite survivors_num_unfold in Hfin |- *.
  destruct (filter quick_r pool) as [| c0 S0] eqn:E0; [reflexivity |].
  set (S1 := filter quick_f (c0 :: S0)) in *.
  assert (Hs1 : short_pool S1).
  { unfold S1. rewrite <- E0. do 2 apply short_pool_sub. exact Hshort. }
  rewrite (registrant_block_num S1 Hs1).
  rewrite bind_Ok.
  destruct (filter keep_r S1) as [| c2 S2'] eqn:E2; [reflexivity |].
  set (S2 := c2 :: S2') in *.
  assert (Hs2 : short_pool S2).
  { rewrite <- E2. apply short_pool_sub. exact Hs1. }
  rewrite (fund_block_num S2 Hs2).
  rewrite bind_Ok.
  destruct (filter keep_f S2) as [| c3 S3'] eqn:E3; [reflexivity |].
  rewrite Hfin, bind_Ok. reflexivity.
Qed.



End NumFunnel.

(* ================================================================= *)
(** * The statements of the specification, one by one *)

(** ** compute_score *)

(** C1.  [compute_score] divides before it multiplies by 100, and the
    quotient of two integers is a float: with 29 matched characters and a
    penalty of 71, [29/100] is the float just below 0.29, its product with
    100 is just below 29, and the score is 28, where the stated
    [floor(100 * matches / (matches + penalty))] is 29.  The choice is
    29 times the letter a, the string to match the same followed by
    71 times the letter b, the multiplier 1. *)
Theorem C1_compute_score_divides_first :
  ratio_percent 29 (PInt 71) = Ok 28
  /\ spec_matching_blocks (chars_of "a" 29)
       (chars_of "a" 29 ++ chars_of "b" 71)
     = [(0, 0, 29); (29, 100, 0)]%nat
  /\ compute_score spec_matching_blocks
       (scorer_on (chars_of "a" 29) (chars_of "a" 29 ++ chars_of "b" 71)
          (PInt 1) false)
     = Ok 28
  /\ spec_compute_score spec_matching_blocks 1
       (chars_of "a" 29) (chars_of "a" 29 ++ chars_of "b" 71)
     = 29.
Proof. vm_compute. repeat split; reflexivity. Qed.

(** C2.  With the multiplier 0.1, a number above 0, the unmatched digits
    of the choice a12345678 weigh less than a character: its score
    against the string a is 55, above the quick ratio 20 that
    [real_quick_ratio] returns as the bound of the score.  The quick
    ratio itself is the stated [floor(100 * 2 * min / (len + len))]. *)
Theorem C2_quick_ratio_below_score :
  compute_score spec_matching_blocks
    (scorer_on "a12345678" "a" (PFloat tenth) false) = Ok 55
  /\ real_quick_ratio (scorer_on "a12345678" "a" (PFloat tenth) false)
     = Ok 20
  /\ spec_quick_ratio "a12345678" "a" = 20.
Proof. vm_compute. repeat split; reflexivity. Qed.

(** ** The funnel without the quick comparison *)

(** C3.  With [quick_comparison] off nothing assigns [rcr], [rcf] and
    [rpos], which the quick comparison alone sets: [find_cur_best] raises
    [UnboundLocalError] on every input, where the same call with the quick
    comparison returns its matches. *)
Theorem C3_quick_comparison_off_raises
    (get_matching_blocks : string -> string -> list block)
    (argsort : list Z -> list nat) (argpartition : list Z -> nat -> list nat)
    (registrant fund : pyobj) (choices_r choices_f : pyseq)
    (match_pos : list Z) (top_n : option Z) (valid_threshold dm : pynum)
    (order_irrelevance : bool) :
  find_cur_best get_matching_blocks argsort argpartition registrant fund
    choices_r choices_f match_pos top_n valid_threshold dm false
    order_irrelevance
  = Raise UnboundLocalError
  /\ run_find_cur_best (PyStr "ab fund") (PyStr "cd co")
       [("ab fund", "cd co", 0); ("xy fund", "zw", 1)]%string
       (Some 3) (PInt 95) (PInt 3) true true
     = Ok (Some [("ab fund : cd co", 100, 0, "")])%string
  /\ run_find_cur_best (PyStr "ab fund") (PyStr "cd co")
       [("ab fund", "cd co", 0); ("xy fund", "zw", 1)]%string
       (Some 3) (PInt 95) (PInt 3) false true
     = Raise UnboundLocalError.
Proof.
  split; [apply find_cur_best_unbound |].
  vm_compute. split; reflexivity.
Qed.

(** With a pool that returns its results in the order of its inputs, the
    process pool and the list comprehension give one output. *)
Lemma find_best_pool_agrees
    (get_matching_blocks : string -> string -> list block)
    (argsort : list Z -> list nat) (argpartition : list Z -> nat -> list nat)
    (self : FuzzyFundMatcher) (top_n : option Z)
    (valid_threshold dm : pynum) (quick_comparison order_irrelevance : bool) :
  find_best get_matching_blocks argsort argpartition ordered_pool_map self
    top_n valid_threshold dm true quick_comparison order_irrelevance
  = find_best get_matching_blocks argsort argpartition ordered_pool_map self
      top_n valid_threshold dm false quick_comparison order_irrelevance.
Proof. reflexivity. Qed.

(** C7.  [preproc_string] hands a single query back as two strings, not
    as two arrays of one string, and [find_best] walks through their
    characters: the one query Ab Fund : Cd & Co, whose registrant has
    seven characters and whose fund has five, gets five entries, with or
    without the process pool, given as a list of one string or as a
    string.  Two queries get one entry each. *)
Theorem C7_single_query_by_characters :
  run_find_best (InSeq ["Ab Fund : Cd & Co"]%string)
    (InSeq ["Ab Fund : Cd & Co"; "Xy Fund : Zw"]%string)
    (Some 3) (PInt 95) (PInt 3) false true true
  = Ok [None; None; None; None; None]
  /\ run_find_best (InSeq ["Ab Fund : Cd & Co"]%string)
       (InSeq ["Ab Fund : Cd & Co"; "Xy Fund : Zw"]%string)
       (Some 3) (PInt 95) (PInt 3) true true true
     = Ok [None; None; None; None; None]
  /\ run_find_best (InStr "Ab Fund : Cd & Co")
       (InSeq ["Ab Fund : Cd & Co"; "Xy Fund : Zw"]%string)
       (Some 3) (PInt 95) (PInt 3) false true true
     = Ok [None; None; None; None; None]
  /\ run_find_best (InSeq ["Ab Fund : Cd & Co"; "Xy Fund : Zw"]%string)
       (InSeq ["Ab Fund : Cd & Co"; "Xy Fund : Zw"]%string)
       (Some 3) (PInt 95) (PInt 3) false true true
     = Ok [Some ("ab fund : cd co", [("ab fund : cd co", 100, 0, "")]);
           Some ("xy fund : zw", [("xy fund : zw", 100, 1, "")])]%string.
Proof. vm_compute. repeat split; reflexivity. Qed.

(** C8.  With [quick_comparison] off, the default of [find_best], a batch
    against an empty pool and a query that is not a string both end in
    [UnboundLocalError], which no handler of [find_cur_best] catches; with
    the quick comparison both give [None]. *)
Theorem C8_errors_without_quick_comparison :
  run_find_best (InSeq ["Ab Fund : Cd & Co"; "Xy Fund : Zw"]%string)
    (InSeq []) (Some 3) (PInt 95) (PInt 3) false false false
  = Raise UnboundLocalError
  /\ run_find_best (InSeq ["Ab Fund : Cd & Co"; "Xy Fund : Zw"]%string)
       (InSeq []) (Some 3) (PInt 95) (PInt 3) false true false
     = Ok [None; None]
  /\ run_find_cur_best PyNone (PyStr "cd co")
       [("ab fund", "cd co", 0); ("xy fund", "zw", 1)]%string
       (Some 3) (PInt 95) (PInt 3) false false
     = Raise UnboundLocalError
  /\ run_find_cur_best PyNone (PyStr "cd co")
       [("ab fund", "cd co", 0); ("xy fund", "zw", 1)]%string
       (Some 3) (PInt 95) (PInt 3) true false
     = Ok None
  /\ run_find_cur_best (PyStr "ab fund") PyNaN
       [("ab fund", "cd co", 0); ("xy fund", "zw", 1)]%string
       (Some 3) (PInt 95) (PInt 3) true false
     = Ok None.
Proof. vm_compute. repeat split; reflexivity. Qed.

(** ** The two orders of the arguments of compute_score *)

(** C9, as amended.  With an integer multiplier, the score of [(a, b)] is
    the score of [(b, a)] whenever the blocks of [(b, a)] are those of
    [(a, b)] with the two starts exchanged. *)
Theorem C9_compute_score_mirrored
    (get_matching_blocks : string -> string -> list block)
    (a b : string) (d : Z) (st : bool) :
  blocks_ok 0 0 (str_len a) (str_len b) (get_matching_blocks a b) = true ->
  get_matching_blocks b a = mirror (get_matching_blocks a b) ->
  compute_score get_matching_blocks (scorer_on a b (PInt d) st)
  = compute_score get_matching_blocks (scorer_on b a (PInt d) st).
Proof.
  intros Hok Hmir.
  assert (Hok' : blocks_ok 0 0 (str_len b) (str_len a)
                   (get_matching_blocks b a) = true).
  { rewrite Hmir. apply blocks_ok_mirror. exact Hok. }
  rewrite (compute_score_at _ a b d st Hok).
  rewrite (compute_score_at _ b a d st Hok').
  rewrite (andb_comm (is_empty b)), (orb_comm (is_empty b)).
  assert (Hpen : penalty_value get_matching_blocks d b a
                 = penalty_value get_matching_blocks d a b).
  { unfold penalty_value, unmatched.
    rewrite Hmir, unmatched_positions_mirror. cbn [fst snd]. lia. }
  rewrite Hpen, Hmir, sum_lengths_mirror. reflexivity.
Qed.

(** The two strings fund 123 and fund 124 share their first seven
    characters, in either order. *)
Lemma C9_compute_score_mirrored_witness :
  compute_score spec_matching_blocks
    (scorer_on "fund 123" "fund 124" (PInt 3) false)
  = compute_score spec_matching_blocks
      (scorer_on "fund 124" "fund 123" (PInt 3) false).
Proof.
  apply (C9_compute_score_mirrored spec_matching_blocks
           "fund 123" "fund 124" 3 false); reflexivity.
Defined.

(** C9, as stated, fails: the aligner of the specification finds one
    common character from tide to diet and two from diet to tide. *)
Lemma C9_compute_score_not_symmetric :
  compute_score spec_matching_blocks (scorer_on "tide" "diet" (PInt 1) false)
  = Ok 14
  /\ compute_score spec_matching_blocks
       (scorer_on "diet" "tide" (PInt 1) false)
     = Ok 33.
Proof. vm_compute. split; reflexivity. Qed.

(** ** The shape of what preproc_string returns *)

Lemma fold_left_length {A B : Type} (F : list A -> B -> list A)
    (ws : list B) (st : list A) :
  (forall st w, List.length (F st w) = List.length st) ->
  List.length (fold_left F ws st) = List.length st.
Proof.
  intros HF. revert st. induction ws as [| w ws IH]; intros st; simpl.
  - reflexivity.
  - rewrite IH. apply HF.
Qed.

Lemma zip_with_length {A B C : Type} (f : A -> B -> C) (xs : list A)
    (ys : list B) :
  List.length xs = List.length ys ->
  List.length (zip_with f xs ys) = List.length xs.
Proof.
  revert ys. induction xs as [| x xs IH]; intros [| y ys] H; simpl in *;
    try reflexivity; try discriminate.
  rewrite IH; [reflexivity | lia].
Qed.

(** On a sequence that is not empty, [preproc_string] makes two lists of
    its length and returns each as an array, or as its only element. *)
Lemma preproc_string_lists (re_sub : string -> string -> string -> string)
    (s : string) (l : list string) (trim_words : option (list string))
    (regex_sub : option (list (string * string))) (rem_reg_from_fund : bool) :
  exists st_r st_f,
    preproc_string re_sub (InSeq (s :: l)) trim_words regex_sub
      rem_reg_from_fund
    = Some (array_or_scalar st_r, array_or_scalar st_f)
    /\ List.length st_r = List.length (s :: l)
    /\ List.length st_f = List.length (s :: l).
Proof.
  unfold preproc_string. cbn [input_len List.length Nat.eqb].
  eexists. eexists. split; [reflexivity |].
  assert (Htrim : forall st : list string,
    List.length
      match trim_words with
      | Some ws =>
          fold_left
            (fun st trim_word =>
               map (re_sub ("\b" ++ trim_word ++ "\b") " ") st)%string ws st
      | None => st
      end = List.length st).
  { intros st. destruct trim_words as [ws |]; [| reflexivity].
    apply fold_left_length. intros st0 w. apply length_map. }
  assert (Hsub : forall st : list string,
    List.length
      match regex_sub with
      | Some rs =>
          fold_left (fun st '(reg, sub) => map (re_sub reg sub) st) rs st
      | None => st
      end = List.length st).
  { intros st. destruct regex_sub as [rs |]; [| reflexivity].
    apply fold_left_length. intros st0 [reg sub]. apply length_map. }
  split.
  - rewrite !length_map, Hsub, Htrim, !length_map. reflexivity.
  - rewrite length_map.
    destruct rem_reg_from_fund.
    + rewrite zip_with_length;
        rewrite !length_map, !Hsub, !Htrim, !length_map; reflexivity.
    + rewrite !length_map, Hsub, Htrim, !length_map. reflexivity.
Qed.

Lemma preproc_string_one_string
    (re_sub : string -> string -> string -> string) (c : ascii) (s : string)
    (trim_words : option (list string))
    (regex_sub : option (list (string * string))) (rem_reg_from_fund : bool) :
  preproc_string re_sub (InStr (String c s)) trim_words regex_sub
    rem_reg_from_fund
  = preproc_string re_sub (InSeq [String c s]) trim_words regex_sub
      rem_reg_from_fund.
Proof. reflexivity. Qed.

Lemma array_or_scalar_one (st : list string) :
  List.length st = 1%nat -> exists s, array_or_scalar st = SScalar s.
Proof.
  destruct st as [| s [| s' st]]; simpl; try discriminate. eauto.
Qed.

Lemma array_or_scalar_many (st : list string) (n : nat) :
  List.length st = S (S n) -> array_or_scalar st = SArray st.
Proof.
  destruct st as [| s [| s' st]]; simpl; try discriminate. reflexivity.
Qed.

(** C10.  [preproc_string] returns [None] for an empty input, two strings
    for one input string, given alone or as a sequence of one, and two
    arrays of the length of the input for two strings or more. *)
Theorem C10_preproc_string_shape
    (re_sub : string -> string -> string -> string)
    (trim_words : option (list string))
    (regex_sub : option (list (string * string))) (rem_reg_from_fund : bool) :
  preproc_string re_sub (InSeq []) trim_words regex_sub rem_reg_from_fund
  = None
  /\ preproc_string re_sub (InStr EmptyString) trim_words regex_sub
       rem_reg_from_fund = None
  /\ (forall s : string,
        exists r f,
          preproc_string re_sub (InSeq [s]) trim_words regex_sub
            rem_reg_from_fund = Some (SScalar r, SScalar f))
  /\ (forall (c : ascii) (s : string),
        exists r f,
          preproc_string re_sub (InStr (String c s)) trim_words regex_sub
            rem_reg_from_fund = Some (SScalar r, SScalar f))
  /\ (forall (s1 s2 : string) (l : list string),
        exists rs fs,
          preproc_string re_sub (InSeq (s1 :: s2 :: l)) trim_words regex_sub
            rem_reg_from_fund = Some (SArray rs, SArray fs)
          /\ List.length rs = List.length (s1 :: s2 :: l)
          /\ List.length fs = List.length (s1 :: s2 :: l)).
Proof.
  split; [reflexivity |]. split; [reflexivity |].
  assert (Hone : forall s : string,
            exists r f,
              preproc_string re_sub (InSeq [s]) trim_words regex_sub
                rem_reg_from_fund = Some (SScalar r, SScalar f)).
  { intros s.
    destruct (preproc_string_lists re_sub s [] trim_words regex_sub
                rem_reg_from_fund) as (st_r & st_f & -> & Hr & Hf).
    destruct (array_or_scalar_one st_r Hr) as [r ->].
    destruct (array_or_scalar_one st_f Hf) as [f ->].
    eauto. }
  split; [exact Hone |]. split.
  - intros c s. rewrite preproc_string_one_string. apply Hone.
  - intros s1 s2 l.
    destruct (preproc_string_lists re_sub s1 (s2 :: l) trim_words regex_sub
                rem_reg_from_fund) as (st_r & st_f & -> & Hr & Hf).
    rewrite (array_or_scalar_many st_r _ Hr), (array_or_scalar_many st_f _ Hf).
    eauto.
Qed.

(** ** The scores and the flag of the two stages *)

Lemma stage_improved_iff (half raw tok : Z) :
  stage_improved half raw tok = true
  <-> raw <> 100 /\ half <= raw /\ raw < tok.
Proof.
  unfold stage_improved.
  destruct (Z.eqb_spec raw 100); destruct (Z.ltb_spec raw half);
    destruct (Z.ltb_spec raw tok); simpl; split; intros Himp;
    try discriminate; try reflexivity; lia.
Qed.

Lemma emit_flag_iff (get_matching_blocks : string -> string -> list block)
    (qr qf : string) (t d : Z) (c : candidate) :
  pick_flag (emit get_matching_blocks qr qf t d true c) = "OR"%string
  <-> improved get_matching_blocks qr qf t d c = true.
Proof.
  unfold emit, pick_flag. cbn [snd andb].
  destruct (improved get_matching_blocks qr qf t d c); split; intros Himp;
    try reflexivity; discriminate.
Qed.

Lemma emit_num_flag_iff (get_matching_blocks : string -> string -> list block)
    (qr qf : string) (T dm : pynum) (c : candidate) :
  pick_flag (Num.emit get_matching_blocks qr qf T dm true c) = "OR"%string
  <-> Num.improved get_matching_blocks qr qf T dm c = true.
Proof.
  unfold Num.emit, pick_flag. cbn [snd andb].
  destruct (Num.improved get_matching_blocks qr qf T dm c); split;
    intros Himp; try reflexivity; discriminate.
Qed.

(** C5.  With [order_irrelevance], for a multiplier above 0 and a
    threshold between 0 and 100, each an [int] or a float, and whatever
    [quick_comparison] is.  The cutoff [int(valid_threshold/3)] is the
    integer part of the exact third of the threshold.  The registrant
    block, on any candidates it is given, scores each with the raw score
    of [compute_score] when this is 100 or below the cutoff, and with the
    larger of the raw and the token-sorted score otherwise, and marks it
    as improved when the token-sorted score was computed and is strictly
    larger; the fund block does the same for the funds and marks a
    candidate when either stage did.  [find_cur_best] with the quick
    comparison emits the survivors at the positions of the best weighted
    scores, each with the flag OR exactly when it is marked; without the
    quick comparison it raises and emits nothing. *)
Theorem C5_order_irrelevance
    (get_matching_blocks : string -> string -> list block)
    (argsort : list Z -> list nat) (argpartition : list Z -> nat -> list nat)
    (qr qf : string) (T dm : pynum) (quick_comparison : bool)
    (top_n : option Z) (pool : list candidate) :
  matching_blocks_spec get_matching_blocks ->
  argsort_spec argsort -> argpartition_spec argpartition ->
  multiplier_ok dm = true -> threshold_ok T = true ->
  short qr -> short qf ->
  match top_n with Some n => 1 <= n | None => True end ->
  short_pool pool ->
  (third_of_num T = Ok (half_of T) /\ floor_third T (half_of T))
  /\ (forall c : candidate,
         short (cand_r c) -> short (cand_f c) ->
         compute_score get_matching_blocks
           (scorer_on (cand_r c) qr dm false)
         = Ok (Num.raw_r get_matching_blocks qr dm c)
         /\ compute_score get_matching_blocks
              (scorer_on (sort_tokens (cand_r c)) (sort_tokens qr) dm true)
            = Ok (Num.tok_r get_matching_blocks qr dm c)
         /\ compute_score get_matching_blocks
              (scorer_on (cand_f c) qf dm false)
            = Ok (Num.raw_f get_matching_blocks qf dm c)
         /\ compute_score get_matching_blocks
              (scorer_on (sort_tokens (cand_f c)) (sort_tokens qf) dm true)
            = Ok (Num.tok_f get_matching_blocks qf dm c))
  /\ (forall S : list candidate,
         short_pool S ->
         registrant_block get_matching_blocks (PyStr qr) T dm true
           (Some (rem_of S))
         = Ok (match
                 filter (Num.keep_r get_matching_blocks qr T dm true) S
               with
               | [] => Return None
               | _ :: _ =>
                   Continue
                     (mkAfterRegistrant
                        (rem_of
                           (filter
                              (Num.keep_r get_matching_blocks qr T dm true) S))
                        (map (Num.primary_score get_matching_blocks qr T dm
                                true)
                           (filter
                              (Num.keep_r get_matching_blocks qr T dm true) S))
                        (Some
                           (map (Num.improved_r get_matching_blocks qr T dm)
                              (filter
                                 (Num.keep_r get_matching_blocks qr T dm true)
                                 S)))
                        (Some (half_of T)))
               end))
  /\ (forall S : list candidate,
         short_pool S ->
         fund_block get_matching_blocks (PyStr qf) T dm true
           (mkAfterRegistrant (rem_of S)
              (map (Num.primary_score get_matching_blocks qr T dm true) S)
              (Some (map (Num.improved_r get_matching_blocks qr T dm) S))
              (Some (half_of T)))
         = Ok (match
                 filter (Num.keep_f get_matching_blocks qf T dm true) S
               with
               | [] => Return None
               | _ :: _ =>
                   Continue
                     (mkAfterFund
                        (rem_of
                           (filter
                              (Num.keep_f get_matching_blocks qf T dm true) S))
                        (map (Num.primary_score get_matching_blocks qr T dm
                                true)
                           (filter
                              (Num.keep_f get_matching_blocks qf T dm true) S))
                        (map (Num.secondary_score get_matching_blocks qf T dm
                                true)
                           (filter
                              (Num.keep_f get_matching_blocks qf T dm true) S))
                        (Some
                           (map (Num.improved get_matching_blocks qr qf T dm)
                              (filter
                                 (Num.keep_f get_matching_blocks qf T dm true)
                                 S))))
               end))
  /\ (forall c : candidate,
         Num.primary_score get_matching_blocks qr T dm true c
         = if (Num.raw_r get_matching_blocks qr dm c =? 100)
              || (Num.raw_r get_matching_blocks qr dm c <? half_of T)
           then Num.raw_r get_matching_blocks qr dm c
           else Z.max (Num.raw_r get_matching_blocks qr dm c)
                  (Num.tok_r get_matching_blocks qr dm c))
  /\ (forall c : candidate,
         Num.improved get_matching_blocks qr qf T dm c = true
         <-> (Num.raw_r get_matching_blocks qr dm c <> 100
              /\ half_of T <= Num.raw_r get_matching_blocks qr dm c
              /\ Num.raw_r get_matching_blocks qr dm c
                 < Num.tok_r get_matching_blocks qr dm c)
             \/ (Num.raw_f get_matching_blocks qf dm c <> 100
                 /\ half_of T <= Num.raw_f get_matching_blocks qf dm c
                 /\ Num.raw_f get_matching_blocks qf dm c
                    < Num.tok_f get_matching_blocks qf dm c))
  /\ exists pos : list nat,
       find_cur_best get_matching_blocks argsort argpartition
         (PyStr qr) (PyStr qf)
         (SArray (map cand_r pool)) (SArray (map cand_f pool))
         (map cand_pos pool) top_n T dm quick_comparison true
       = (if quick_comparison
          then
            Ok (match
                  Num.survivors get_matching_blocks qr qf T dm true pool
                with
                | [] => None
                | _ :: _ =>
                    Some (map (fun k =>
                                 Num.emit get_matching_blocks qr qf T dm true
                                   (nth k
                                      (Num.survivors get_matching_blocks qr qf
                                         T dm true pool) no_candidate)) pos)
                end)
          else Raise UnboundLocalError)
       /\ top_spec top_n
            (map (Num.weighted get_matching_blocks qr qf T dm true)
               (Num.survivors get_matching_blocks qr qf T dm true pool)) pos
       /\ forall c : candidate,
            pick_flag (Num.emit get_matching_blocks qr qf T dm true c)
            = "OR"%string
            <-> Num.improved get_matching_blocks qr qf T dm c = true.
Proof.
  intros Hblocks Hsort Hpart Hdm HT Hqr Hqf Htop Hshort.
  split; [| split; [| split; [| split; [| split; [| split]]]]].
  - destruct (third_ok T HT) as (H1 & _ & H2). split; assumption.
  - intros c Hcr Hcf. repeat split.
    + apply (score_value_num _ Hblocks dm Hdm _ _ false Hcr Hqr).
    + apply (score_value_num _ Hblocks dm Hdm _ _ true
               (sort_tokens_short _ Hcr) (sort_tokens_short _ Hqr)).
    + apply (score_value_num _ Hblocks dm Hdm _ _ false Hcf Hqf).
    + apply (score_value_num _ Hblocks dm Hdm _ _ true
               (sort_tokens_short _ Hcf) (sort_tokens_short _ Hqf)).
  - intros S HS.
    apply (registrant_block_num _ Hblocks qr T dm true Hdm HT Hqr S HS).
  - intros S HS.
    apply (fund_block_num _ Hblocks qr qf T dm true Hdm Hqf S HS).
  - intros c. reflexivity.
  - intros c. unfold Num.improved, Num.improved_r, Num.improved_f.
    rewrite orb_true_iff, !stage_improved_iff. reflexivity.
  - destruct (find_cur_best_num get_matching_blocks argsort argpartition
                Hblocks Hsort Hpart qr qf T dm true top_n Hdm HT Hqr Hqf Htop
                pool Hshort) as (pos & Hres & Hspec).
    exists pos. split; [| split; [exact Hspec |]].
    + destruct quick_comparison; [exact Hres | reflexivity].
    + intros c. apply emit_num_flag_iff.
Qed.

(** The query growth fund : alpha beta against four candidates, the first
    with the words of both names in another order, for the threshold 92.5,
    so the cutoff 30, and the multiplier 2.5. *)
Lemma C5_order_irrelevance_witness :
  (third_of_num (PFloat float_92_5) = Ok (half_of (PFloat float_92_5))
   /\ floor_third (PFloat float_92_5) (half_of (PFloat float_92_5)))
  /\ exists pos : list nat,
       run_find_cur_best (PyStr "growth fund") (PyStr "alpha beta")
         [("fund growth", "beta alpha", 7);
          ("growth fund", "alpha beta", 8);
          ("growth fund 12", "alpha beta", 9);
          ("growth fund", "alpha gamma", 10)]%string
         (Some 2) (PFloat float_92_5) (PFloat float_2_5) true true
       = Ok (match
               Num.survivors spec_matching_blocks "growth fund" "alpha beta"
                 (PFloat float_92_5) (PFloat float_2_5) true
                 [("fund growth", "beta alpha", 7);
                  ("growth fund", "alpha beta", 8);
                  ("growth fund 12", "alpha beta", 9);
                  ("growth fund", "alpha gamma", 10)]%string
             with
             | [] => None
             | _ :: _ =>
                 Some (map (fun k =>
                              Num.emit spec_matching_blocks "growth fund"
                                "alpha beta" (PFloat float_92_5)
                                (PFloat float_2_5) true
                                (nth k
                                   (Num.survivors spec_matching_blocks
                                      "growth fund" "alpha beta"
                                      (PFloat float_92_5) (PFloat float_2_5)
                                      true
                                      [("fund growth", "beta alpha", 7);
                                       ("growth fund", "alpha beta", 8);
                                       ("growth fund 12", "alpha beta", 9);
                                       ("growth fund", "alpha gamma", 10)]%string)
                                   no_candidate)) pos)
             end)
       /\ top_spec (Some 2)
            (map (Num.weighted spec_matching_blocks "growth fund" "alpha beta"
                    (PFloat float_92_5) (PFloat float_2_5) true)
               (Num.survivors spec_matching_blocks "growth fund" "alpha beta"
                  (PFloat float_92_5) (PFloat float_2_5) true
                  [("fund growth", "beta alpha", 7);
                   ("growth fund", "alpha beta", 8);
                   ("growth fund 12", "alpha beta", 9);
                   ("growth fund", "alpha gamma", 10)]%string)) pos.
Proof.
  destruct (C5_order_irrelevance spec_matching_blocks stable_argsort
              sorting_argpartition "growth fund" "alpha beta"
              (PFloat float_92_5) (PFloat float_2_5) true (Some 2)
              [("fund growth", "beta alpha", 7);
               ("growth fund", "alpha beta", 8);
               ("growth fund 12", "alpha beta", 9);
               ("growth fund", "alpha gamma", 10)]%string
              spec_matching_blocks_ok stable_argsort_ok
              sorting_argpartition_ok eq_refl eq_refl
              ltac:(unfold short; simpl; lia)
              ltac:(unfold short; simpl; lia) ltac:(simpl; lia)
              ltac:(unfold short_pool, short; simpl;
                    repeat constructor; simpl; lia))
    as (Hcut & _ & _ & _ & _ & _ & pos & Hres & Hspec & _).
  split; [exact Hcut |]. exists pos. split; [exact Hres | exact Hspec].
Defined.

(** ** The ranked output *)


Lemma survivors_keep (get_matching_blocks : string -> string -> list block)
    (qr qf : string) (t d : Z) (oi : bool) (pool : list candidate)
    (c : candidate) :
  In c (survivors get_matching_blocks qr qf t d oi pool) ->
  t <= primary_score get_matching_blocks qr t d oi c
  /\ t <= secondary_score get_matching_blocks qf t d oi c.
Proof.
  unfold survivors. intros Hc.
  apply filter_In in Hc. destruct Hc as [Hc Hf].
  apply filter_In in Hc. destruct Hc as [_ Hr].
  unfold keep_r in Hr. unfold keep_f in Hf.
  apply Z.leb_le in Hr. apply Z.leb_le in Hf. auto.
Qed.





(** ** The configuration is never checked *)

(** C4, as amended.  Neither the scorer nor the funnel checks its
    configuration: the constructor of the scorer keeps any multiplier as
    it is given, and no call of the constructor or of [find_cur_best]
    raises [InvalidConfig], whatever the multiplier and the threshold. *)
Theorem C4_configuration_unchecked
    (get_matching_blocks : string -> string -> list block)
    (argsort : list Z -> list nat) (argpartition : list Z -> nat -> list nat)
    (to_match choice : pyobj) (valid_threshold dm : pynum) :
  FuzzyScorer_init to_match choice dm false
  = Ok {| seq1 := choice; seq2 := to_match; seqmat := Some (choice, to_match);
          digit_multiplier := dm; sorted_token := false |}
  /\ (forall sorted_token : bool,
         no_config_error (FuzzyScorer_init to_match choice dm sorted_token)
         = true)
  /\ (forall (registrant fund : pyobj) (choices_r choices_f : pyseq)
             (match_pos : list Z) (top_n : option Z)
             (quick_comparison order_irrelevance : bool),
         no_config_error
           (find_cur_best get_matching_blocks argsort argpartition
              registrant fund choices_r choices_f match_pos top_n
              valid_threshold dm quick_comparison order_irrelevance)
         = true).
Proof.
  split; [reflexivity |]. split.
  - intros st. apply quiet_FuzzyScorer_init.
  - intros. apply quiet_find_cur_best.
Qed.

(** C4, as stated, fails: the scorer is built with the multipliers 0 and
    -3, and the funnel runs with the threshold -5 and the multiplier 0, and
    with the threshold 150 and the multiplier -1. *)
Lemma C4_out_of_range_accepted :
  FuzzyScorer_init (PyStr "fund") PyNone (PInt 0) false
  = Ok {| seq1 := PyNone; seq2 := PyStr "fund";
          seqmat := Some (PyNone, PyStr "fund");
          digit_multiplier := PInt 0; sorted_token := false |}
  /\ FuzzyScorer_init (PyStr "fund") PyNone (PInt (-3)) false
     = Ok {| seq1 := PyNone; seq2 := PyStr "fund";
             seqmat := Some (PyNone, PyStr "fund");
             digit_multiplier := PInt (-3); sorted_token := false |}
  /\ run_find_cur_best (PyStr "ab fund") (PyStr "cd co")
       [("ab fund", "cd co", 10); ("xy fund", "zw", 11)]%string
       (Some 3) (PInt (-5)) (PInt 0) true false
     = Ok (Some [("ab fund : cd co", 100, 10, "");
                 ("xy fund : zw", 0, 11, "")])%string
  /\ run_find_cur_best (PyStr "ab fund") (PyStr "cd co")
       [("ab fund", "cd co", 10); ("xy fund", "zw", 11)]%string
       (Some 3) (PInt 150) (PInt (-1)) true false
     = Ok None.
Proof. vm_compute. repeat split; reflexivity. Qed.

(* ================================================================= *)
(** * Further properties of the scorer *)

Lemma score_of_strings (get_matching_blocks : string -> string -> list block)
    (a b : string) (dm : pynum) :
  score_of get_matching_blocks (PyStr b) (PyStr a) dm
  = compute_score get_matching_blocks (scorer_on a b dm false).
Proof. reflexivity. Qed.

Lemma quick_of_strings (a b : string) (dm : pynum) :
  quick_of (PyStr b) (PyStr a) dm = real_quick_ratio (scorer_on a b dm false).
Proof. reflexivity. Qed.

(** X1.  With an integer multiplier of at least 1, and an aligner whose
    blocks follow each other inside the two strings, [compute_score]
    raises nothing on two strings and returns a score between 0 and 100. *)
Theorem X1_score_between_0_and_100
    (get_matching_blocks : string -> string -> list block)
    (a b : string) (d : Z) :
  matching_blocks_spec get_matching_blocks -> 1 <= d ->
  exists s,
    score_of get_matching_blocks (PyStr b) (PyStr a) (PInt d) = Ok s
    /\ 0 <= s <= 100.
Proof.
  intros Hblocks Hd. rewrite score_of_strings.
  apply compute_score_range; assumption.
Qed.

Lemma X1_score_between_0_and_100_witness :
  exists s,
    score_of spec_matching_blocks (PyStr "fund 124") (PyStr "fund 123")
      (PInt 3) = Ok s
    /\ 0 <= s <= 100.
Proof.
  apply (X1_score_between_0_and_100 spec_matching_blocks
           "fund 123" "fund 124" 3).
  - exact spec_matching_blocks_ok.
  - lia.
Defined.

(** X2.  With an integer multiplier [d] of at least 1, the score of two
    strings is 100 when both are empty, 0 when one is, and otherwise the
    integer part of [100 * matches / (matches + penalty)] or one less:
    [matches] is the total length of the blocks and [penalty] counts the
    characters of both strings that no block covers, a digit for [d]. *)
Theorem X2_score_is_the_percentage_or_one_less
    (get_matching_blocks : string -> string -> list block)
    (a b : string) (d : Z) :
  matching_blocks_spec get_matching_blocks -> 1 <= d ->
  d * Z.of_nat (str_len a + str_len b) <= 2 ^ 32 ->
  exists s,
    score_of get_matching_blocks (PyStr b) (PyStr a) (PInt d) = Ok s
    /\ if is_empty a && is_empty b then s = 100
       else if is_empty a || is_empty b then s = 0
       else
         let bs := get_matching_blocks a b in
         let matches := sum_lengths bs in
         let penalty :=
           penalty_of d a (uncovered covers_a bs (str_len a))
           + penalty_of d b (uncovered covers_b bs (str_len b)) in
         100 * matches / (matches + penalty) - 1 <= s
         <= 100 * matches / (matches + penalty).
Proof.
  intros Hblocks Hd Hlen. rewrite score_of_strings.
  destruct (compute_score_within_one get_matching_blocks a b d false
              (Hblocks a b) Hd Hlen) as (s & Hs & Hnear).
  exists s. split; [exact Hs |].
  unfold spec_compute_score in Hnear.
  rewrite (compute_score_at _ a b d false (Hblocks a b)) in Hs.
  destruct (is_empty a && is_empty b); [congruence |].
  destruct (is_empty a || is_empty b); [congruence |].
  exact Hnear.
Qed.

Lemma X2_score_is_the_percentage_or_one_less_witness :
  exists s,
    score_of spec_matching_blocks (PyStr "fund 124") (PyStr "fund 123")
      (PInt 3) = Ok s
    /\ 100 * 7 / (7 + 6) - 1 <= s <= 100 * 7 / (7 + 6).
Proof.
  exact (X2_score_is_the_percentage_or_one_less spec_matching_blocks
           "fund 123" "fund 124" 3 spec_matching_blocks_ok
           ltac:(lia) ltac:(simpl; lia)).
Defined.

(** X3.  On two strings of fewer than [2^31] characters
    [real_quick_ratio] returns 100 when both are empty and otherwise the
    integer part of [200 * min(len1, len2) / (len1 + len2)], whatever the
    multiplier: the float operations lose nothing. *)
Theorem X3_quick_ratio_formula (a b : string) (dm : pynum) :
  short a -> short b ->
  quick_of (PyStr b) (PyStr a) dm
  = Ok (if is_empty a && is_empty b then 100
        else 200 * Z.of_nat (Nat.min (str_len a) (str_len b))
             / Z.of_nat (str_len a + str_len b)).
Proof.
  intros Ha Hb. rewrite quick_of_strings.
  apply real_quick_ratio_exact; assumption.
Qed.

Lemma X3_quick_ratio_formula_witness :
  quick_of (PyStr "growth fund") (PyStr "growth") (PInt 3) = Ok 70.
Proof.
  exact (X3_quick_ratio_formula "growth" "growth fund" (PInt 3)
           ltac:(unfold short; simpl; lia) ltac:(unfold short; simpl; lia)).
Defined.

(** X4.  With an integer multiplier of at least 1 the quick ratio is an
    upper bound of the score, as the docstring of [real_quick_ratio]
    says. *)
Theorem X4_quick_ratio_bounds_the_score
    (get_matching_blocks : string -> string -> list block)
    (a b : string) (d : Z) :
  matching_blocks_spec get_matching_blocks -> 1 <= d ->
  short a -> short b ->
  exists s q,
    score_of get_matching_blocks (PyStr b) (PyStr a) (PInt d) = Ok s
    /\ quick_of (PyStr b) (PyStr a) (PInt d) = Ok q
    /\ s <= q.
Proof.
  intros Hblocks Hd Ha Hb. rewrite score_of_strings, quick_of_strings.
  destruct (compute_score_le_quick get_matching_blocks Hblocks a b d false
              Hd Ha Hb) as (s & q & Hs & Hq & Hle).
  exists s, q. repeat split; try assumption. lia.
Qed.

Lemma X4_quick_ratio_bounds_the_score_witness :
  exists s q,
    score_of spec_matching_blocks (PyStr "growth fund") (PyStr "growth")
      (PInt 3) = Ok s
    /\ quick_of (PyStr "growth fund") (PyStr "growth") (PInt 3) = Ok q
    /\ s <= q.
Proof.
  exact (X4_quick_ratio_bounds_the_score spec_matching_blocks
           "growth" "growth fund" 3 spec_matching_blocks_ok ltac:(lia)
           ltac:(unfold short; simpl; lia) ltac:(unfold short; simpl; lia)).
Defined.

(** ** Strings that match in one block, and sorted words *)

(** Nothing unmatched gives 100: [n / n] is the float 1. *)
Lemma ratio_percent_full (n : Z) :
  0 < n -> ratio_percent n (PInt 0) = Ok 100.
Proof.
  intros Hn.
  destruct (ratio_percent_between n n (2 ^ 51) (2 ^ 51) 100 (100 * 2 ^ 44))
    as (s & Hs & _ & Hlo & Hhi); try lia.
  rewrite Z.sub_diag in Hs. rewrite Hs. f_equal. lia.
Qed.

Lemma compute_score_one_block
    (get_matching_blocks : string -> string -> list block)
    (t : string) (dm : pynum) (st : bool) :
  (is_empty t = false -> get_matching_blocks t t = one_block t) ->
  compute_score get_matching_blocks (scorer_on t t dm st) = Ok 100.
Proof.
  intros Hone. unfold compute_score, scorer_on.
  cbn [seq1 seq2 seqmat digit_multiplier py_len]. rewrite !bind_Ok.
  rewrite str_len_0. destruct (is_empty t) eqn:Et; [reflexivity |].
  cbn [andb orb seqmat_blocks]. rewrite bind_Ok, (Hone eq_refl).
  unfold one_block. cbn [unmatched_positions]. unfold py_range.
  cbn [Nat.add Nat.sub]. rewrite !Nat.sub_diag. cbn [seq app foldM].
  rewrite !bind_Ok. unfold sum_lengths, block_len. cbn [fold_left snd].
  apply ratio_percent_full. apply is_empty_len in Et. lia.
Qed.

(** *** The order of strings *)

Lemma ascii_compare_refl (a : ascii) : Ascii.compare a a = Eq.
Proof. unfold Ascii.compare. apply N.compare_refl. Qed.

Lemma ascii_compare_lt_trans (a b c : ascii) :
  Ascii.compare a b = Lt -> Ascii.compare b c = Lt -> Ascii.compare a c = Lt.
Proof.
  unfold Ascii.compare. rewrite !N.compare_lt_iff. apply N.lt_trans.
Qed.

Lemma string_compare_lt_trans (a b c : string) :
  String.compare a b = Lt -> String.compare b c = Lt ->
  String.compare a c = Lt.
Proof.
  revert b c. induction a as [| x a IH]; intros [| y b] [| z c]; simpl;
    try discriminate; try reflexivity.
  destruct (Ascii.compare x y) eqn:Exy; try discriminate;
    destruct (Ascii.compare y z) eqn:Eyz; try discriminate; intros H1 H2.
  - apply Ascii.compare_eq_iff in Exy, Eyz. subst.
    rewrite ascii_compare_refl. eapply IH; eassumption.
  - apply Ascii.compare_eq_iff in Exy. subst. rewrite Eyz. reflexivity.
  - apply Ascii.compare_eq_iff in Eyz. subst. rewrite Exy. reflexivity.
  - rewrite (ascii_compare_lt_trans _ _ _ Exy Eyz). reflexivity.
Qed.

Lemma ltb_false_trans (a b c : string) :
  String.ltb b a = false -> String.ltb c b = false -> String.ltb c a = false.
Proof.
  unfold String.ltb. intros H1 H2.
  destruct (String.compare c a) eqn:Eca; try reflexivity.
  destruct (String.compare b a) eqn:Eba; try discriminate.
  - apply String.compare_eq_iff in Eba. subst. rewrite Eca in H2.
    discriminate.
  - destruct (String.compare c b) eqn:Ecb; try discriminate.
    + apply String.compare_eq_iff in Ecb. subst. congruence.
    + rewrite String.compare_antisym in Ecb, Eba.
      destruct (String.compare b c) eqn:Ebc; try discriminate.
      destruct (String.compare a b) eqn:Eab; try discriminate.
      pose proof (string_compare_lt_trans _ _ _ Eab Ebc) as Hac.
      rewrite String.compare_antisym, Hac in Eca. discriminate.
Qed.

Lemma ltb_false_antisym (a b : string) :
  String.ltb b a = false -> String.ltb a b = false -> a = b.
Proof.
  unfold String.ltb. intros H1 H2.
  destruct (String.compare a b) eqn:Eab; try discriminate.
  - apply String.compare_eq_iff. exact Eab.
  - rewrite String.compare_antisym, Eab in H1. discriminate.
Qed.

(** *** [sorted] *)

Lemma insert_sorted_perm (w : string) (ws : list string) :
  Permutation (insert_sorted w ws) (w :: ws).
Proof.
  induction ws as [| x ws IH]; simpl; [reflexivity |].
  destruct (String.ltb w x); [reflexivity |].
  rewrite IH. apply perm_swap.
Qed.

Lemma insert_sorted_sorted (w : string) (ws : list string) :
  Sorted (fun a b => String.ltb b a = false) ws ->
  Sorted (fun a b => String.ltb b a = false) (insert_sorted w ws).
Proof.
  induction ws as [| x ws IH]; intros Hs; simpl.
  - repeat constructor.
  - destruct (String.ltb w x) eqn:Ewx.
    + constructor; [exact Hs |]. constructor.
      unfold String.ltb in *. rewrite String.compare_antisym.
      destruct (String.compare w x); try discriminate. reflexivity.
    + inversion Hs as [| ? ? Hs' Hhd]; subst.
      constructor; [apply IH; exact Hs' |].
      destruct ws as [| y ws]; simpl.
      * constructor. exact Ewx.
      * destruct (String.ltb w y); constructor; [exact Ewx |].
        inversion Hhd; subst. assumption.
Qed.

Lemma py_sorted_from (ws acc : list string) :
  Sorted (fun a b => String.ltb b a = false) acc ->
  Permutation (fold_left (fun acc w => insert_sorted w acc) ws acc) (ws ++ acc)
  /\ Sorted (fun a b => String.ltb b a = false)
       (fold_left (fun acc w => insert_sorted w acc) ws acc).
Proof.
  revert acc. induction ws as [| w ws IH]; intros acc Hs; simpl.
  - split; [reflexivity | exact Hs].
  - destruct (IH _ (insert_sorted_sorted w acc Hs)) as [HP HS].
    split; [| exact HS].
    rewrite HP, (insert_sorted_perm w acc). symmetry.
    apply Permutation_middle.
Qed.

Lemma sorted_perm_unique (l1 l2 : list string) :
  StronglySorted (fun a b => String.ltb b a = false) l1 ->
  StronglySorted (fun a b => String.ltb b a = false) l2 ->
  Permutation l1 l2 -> l1 = l2.
Proof.
  intros H1. revert l2.
  induction H1 as [| a l1 H1 IH Ha]; intros l2 H2 HP.
  - apply Permutation_nil in HP. subst. reflexivity.
  - destruct H2 as [| b l2 H2 Hb].
    + apply Permutation_sym, Permutation_nil in HP. discriminate.
    + assert (Hab : a = b).
      { assert (Ia : In a (b :: l2))
          by (apply (Permutation_in _ HP); left; reflexivity).
        assert (Ib : In b (a :: l1))
          by (apply (Permutation_in _ (Permutation_sym HP)); left;
              reflexivity).
        rewrite Forall_forall in Ha, Hb.
        destruct Ia as [-> | Ia]; [reflexivity |].
        destruct Ib as [-> | Ib]; [reflexivity |].
        apply ltb_false_antisym; [apply Ha, Ib | apply Hb, Ia]. }
      subst b. f_equal. apply IH; [exact H2 |].
      apply (Permutation_cons_inv HP).
Qed.

(** [sorted] gives one list for all the orders of the same words. *)
Lemma py_sorted_perm (ws1 ws2 : list string) :
  Permutation ws1 ws2 -> py_sorted ws1 = py_sorted ws2.
Proof.
  intros HP. unfold py_sorted.
  destruct (py_sorted_from ws1 [] (Sorted_nil _)) as [P1 S1].
  destruct (py_sorted_from ws2 [] (Sorted_nil _)) as [P2 S2].
  rewrite app_nil_r in P1, P2.
  apply sorted_perm_unique.
  - apply Sorted_StronglySorted; [| exact S1].
    intros x y z. apply ltb_false_trans.
  - apply Sorted_StronglySorted; [| exact S2].
    intros x y z. apply ltb_false_trans.
  - rewrite P1, P2. exact HP.
Qed.

(** X5.  Two strings that hold the same words in any order have one
    sorted-token form, and get the score 100 from
    [compute_sorted_token_score] and from a scorer built with
    [sorted_token], whatever the multiplier, as soon as the aligner
    matches a string with itself in one block. *)
Theorem X5_same_words_score_100
    (get_matching_blocks : string -> string -> list block)
    (s1 s2 : string) (dm : pynum) :
  Permutation (py_split s1) (py_split s2) ->
  (is_empty (sort_tokens s1) = false ->
   get_matching_blocks (sort_tokens s1) (sort_tokens s1)
   = one_block (sort_tokens s1)) ->
  sort_and_token (PyStr s1) = sort_and_token (PyStr s2)
  /\ token_score_of get_matching_blocks (PyStr s2) (PyStr s1) dm = Ok 100
  /\ (fus <- FuzzyScorer_init (PyStr s2) (PyStr s1) dm true ;;
      compute_score get_matching_blocks fus) = Ok 100.
Proof.
  intros HP Hone.
  assert (Heq : sort_tokens s2 = sort_tokens s1).
  { unfold sort_tokens. rewrite (py_sorted_perm _ _ HP). reflexivity. }
  split; [| split].
  - unfold sort_and_token. fold (sort_tokens s1) (sort_tokens s2).
    rewrite Heq. reflexivity.
  - unfold token_score_of, FuzzyScorer_init. cbn [bind].
    unfold compute_sorted_token_score.
    cbn [seq1 seq2 py_split_obj digit_multiplier sorted_token bind].
    fold (sort_tokens s1) (sort_tokens s2). rewrite Heq.
    fold (scorer_on (sort_tokens s1) (sort_tokens s1) dm false).
    rewrite (compute_score_one_block _ _ dm false Hone). reflexivity.
  - unfold FuzzyScorer_init, sort_and_token. cbn [bind].
    fold (sort_tokens s1) (sort_tokens s2). rewrite Heq.
    fold (scorer_on (sort_tokens s1) (sort_tokens s1) dm true).
    apply (compute_score_one_block _ _ dm true Hone).
Qed.

Lemma X5_same_words_score_100_witness :
  sort_and_token (PyStr "High Risk") = sort_and_token (PyStr "Risk High")
  /\ token_score_of spec_matching_blocks (PyStr "Risk High")
       (PyStr "High Risk") (PInt 3) = Ok 100
  /\ (fus <- FuzzyScorer_init (PyStr "Risk High") (PyStr "High Risk")
               (PInt 3) true ;;
      compute_score spec_matching_blocks fus) = Ok 100.
Proof.
  apply (X5_same_words_score_100 spec_matching_blocks
           "High Risk" "Risk High" (PInt 3)).
  - simpl. apply perm_swap.
  - intros _. reflexivity.
Defined.

(** X6.  [compute_sorted_token_score] puts the two strings back but leaves
    the scorer without its matcher: a [set_choice] that follows raises
    [AttributeError], for any choice, while [compute_score] builds a new
    matcher from the two strings. *)
Theorem X6_token_score_drops_the_matcher
    (get_matching_blocks : string -> string -> list block)
    (fus fus' : FuzzyScorer) (score : Z) :
  compute_sorted_token_score get_matching_blocks fus = Ok (score, fus') ->
  seq1 fus' = seq1 fus /\ seq2 fus' = seq2 fus /\ seqmat fus' = None
  /\ (forall choice : pyobj, set_choice fus' choice = Raise AttributeError)
  /\ compute_score get_matching_blocks fus'
     = compute_score get_matching_blocks
         {| seq1 := seq1 fus; seq2 := seq2 fus;
            seqmat := Some (seq1 fus, seq2 fus);
            digit_multiplier := digit_multiplier fus;
            sorted_token := sorted_token fus |}.
Proof.
  unfold compute_sorted_token_score. intros H.
  destruct (py_split_obj (seq1 fus)) as [w1 |]; [| discriminate].
  destruct (py_split_obj (seq2 fus)) as [w2 |]; [| discriminate].
  cbn [bind] in H.
  destruct (compute_score get_matching_blocks _) as [s |]; [| discriminate].
  cbn [bind] in H. injection H as _ <-.
  cbn [seq1 seq2 seqmat]. repeat split.
  intros choice. unfold set_choice. cbn [sorted_token seqmat].
  destruct (sorted_token fus); [| reflexivity].
  destruct choice; reflexivity.
Qed.

Lemma X6_token_score_drops_the_matcher_witness :
  set_choice
    {| seq1 := PyStr "High Risk"; seq2 := PyStr "Risk High"; seqmat := None;
       digit_multiplier := PInt 3; sorted_token := false |}
    (PyStr "Low Risk")
  = Raise AttributeError.
Proof.
  exact (proj1 (proj2 (proj2 (proj2
           (X6_token_score_drops_the_matcher spec_matching_blocks
              (scorer_on "High Risk" "Risk High" (PInt 3) false)
              {| seq1 := PyStr "High Risk"; seq2 := PyStr "Risk High";
                 seqmat := None; digit_multiplier := PInt 3;
                 sorted_token := false |}
              100 eq_refl)))) (PyStr "Low Risk")).
Defined.

(** ** The funnel on any input *)

Lemma bind_inv {A B : Type} (m : result A) (k : A -> result B) (b : B) :
  bind m k = Ok b -> exists a, m = Ok a /\ k a = Ok b.
Proof. destruct m as [a | e]; simpl; [eauto | discriminate]. Qed.

Lemma filter_twice {A : Type} (p q : A -> bool) (l : list A) :
  filter p (filter q l) = filter (fun x => q x && p x) l.
Proof.
  induction l as [| x l IH]; simpl; [reflexivity |].
  destruct (q x); simpl; [destruct (p x) |]; rewrite IH; reflexivity.
Qed.

(** The quick ratio of two strings is no smaller than their score. *)
Lemma quick_bounds_raw (get_matching_blocks : string -> string -> list block)
    (c q : string) (t d : Z) :
  matching_blocks_spec get_matching_blocks ->
  1 <= d -> short c -> short q ->
  t <= score_value get_matching_blocks (PInt d) c q ->
  (t <=? quick_value c q) = true.
Proof.
  intros Hblocks Hd Hc Hq Ht.
  destruct (compute_score_le_quick get_matching_blocks Hblocks c q d false
              Hd Hc Hq) as (s & qv & Hs & Hquick & Hle).
  rewrite (quick_value_eq c q (PInt d) false Hc Hq) in Hquick.
  injection Hquick as <-.
  unfold score_value in Ht. rewrite Hs in Ht. apply Z.leb_le. lia.
Qed.

Lemma survivors_raw (get_matching_blocks : string -> string -> list block)
    (qr qf : string) (t d : Z) (pool : list candidate) :
  matching_blocks_spec get_matching_blocks ->
  1 <= d -> short qr -> short qf -> short_pool pool ->
  survivors get_matching_blocks qr qf t d false pool
  = raw_matches get_matching_blocks qr qf t d pool.
Proof.
  intros Hblocks Hd Hqr Hqf Hshort.
  rewrite survivors_unfold, !filter_twice. unfold raw_matches.
  apply filter_ext_in. intros c Hin.
  unfold short_pool in Hshort. rewrite Forall_forall in Hshort.
  destruct (Hshort c Hin) as [Hcr Hcf].
  unfold keep_r, keep_f, primary_score, secondary_score, stage_score,
    quick_r, quick_f.
  destruct (Z.leb_spec t (raw_r get_matching_blocks qr d c)) as [Hr | Hr];
    destruct (Z.leb_spec t (raw_f get_matching_blocks qf d c)) as [Hf | Hf];
    rewrite ?(quick_bounds_raw get_matching_blocks _ _ t d Hblocks Hd Hcr Hqr
                Hr),
            ?(quick_bounds_raw get_matching_blocks _ _ t d Hblocks Hd Hcf Hqf
                Hf);
    rewrite ?andb_false_r; reflexivity.
Qed.

(** *** Blocks return nothing but None *)

Lemma rn_bind {A B : Type} (m : result A) (k : A -> result (outcome B)) :
  (forall a, returns_none (k a)) -> returns_none (bind m k).
Proof.
  intros Hk r H. apply bind_inv in H. destruct H as (a & _ & H).
  exact (Hk a r H).
Qed.

Lemma rn_continue {A : Type} (a : A) : returns_none (Ok (Continue a)).
Proof. intros r H. discriminate. Qed.

Lemma rn_return_none {A : Type} : returns_none (Ok (@Return A None)).
Proof. intros r H. injection H as <-. reflexivity. Qed.

Lemma rn_raise {A : Type} (e : exn) : returns_none (@Raise (outcome A) e).
Proof. intros r H. discriminate. Qed.

Lemma rn_try {A : Type} (handled : list exn) (body : result (outcome A)) :
  returns_none body -> returns_none (try_except handled body).
Proof.
  intros Hb r H. unfold try_except in H. destruct body as [o | e].
  - exact (Hb r H).
  - destruct (existsb (exn_eqb e) handled); [| discriminate].
    injection H as <-. reflexivity.
Qed.

Ltac returns :=
  repeat first
    [ apply rn_try
    | apply rn_continue
    | apply rn_return_none
    | apply rn_raise
    | apply rn_bind; intros ?
    | progress cbv zeta
    | match goal with
      | |- returns_none (if ?b then _ else _) => destruct b
      | |- returns_none (match ?x with _ => _ end) => destruct x
      end ].

Lemma quick_comparison_block_returns (registrant fund : pyobj)
    (choices_r choices_f : pyseq) (match_pos : list Z) (T dm : pynum) :
  returns_none
    (quick_comparison_block registrant fund choices_r choices_f match_pos T dm).
Proof. unfold quick_comparison_block. returns. Qed.

Lemma registrant_block_returns
    (get_matching_blocks : string -> string -> list block)
    (registrant : pyobj) (T dm : pynum) (oi : bool) (vars : option remaining) :
  returns_none (registrant_block get_matching_blocks registrant T dm oi vars).
Proof. unfold registrant_block. returns. Qed.

Lemma fund_block_returns
    (get_matching_blocks : string -> string -> list block)
    (fund : pyobj) (T dm : pynum) (oi : bool) (vars : after_registrant) :
  returns_none (fund_block get_matching_blocks fund T dm oi vars).
Proof. unfold fund_block. returns. Qed.

(** *** The flags *)

Lemma zip_picks_flags (picks : list string) (scores pos : list Z)
    (flags : list string) (p : pick) :
  In p (zip_picks picks scores pos flags) -> In (pick_flag p) flags.
Proof.
  revert scores pos flags.
  induction picks as [| x picks IH]; intros [| s scores] [| i pos] [| f flags] H;
    simpl in H; try contradiction.
  destruct H as [<- | H]; [left; reflexivity | right; eapply IH; exact H].
Qed.

Lemma zip_with_flags (flags : list string) (imp : list bool) (f : string) :
  In f (zip_with (fun (fl : string) (i : bool) => if i then "OR"%string else fl)
          flags imp) ->
  f = "OR"%string \/ In f flags.
Proof.
  revert imp. induction flags as [| fl flags IH]; intros [| i imp] H;
    simpl in H; try contradiction.
  destruct H as [<- | H].
  - destruct i; [left; reflexivity | right; left; reflexivity].
  - destruct (IH _ H) as [Hf | Hf]; [left; exact Hf | right; right; exact Hf].
Qed.

Lemma finalize_block_flags (argsort : list Z -> list nat)
    (argpartition : list Z -> nat -> list nat) (top_n : option Z) (oi : bool)
    (vars : after_fund) (picks : list pick) :
  finalize_block argsort argpartition top_n oi vars = Ok picks ->
  Forall (fun p => pick_flag p = EmptyString
                   \/ (oi = true /\ pick_flag p = "OR"%string)) picks.
Proof.
  unfold finalize_block. cbv zeta. intros H.
  apply bind_inv in H. destruct H as (pos_top & _ & H).
  apply bind_inv in H. destruct H as (rcr1 & _ & H).
  apply bind_inv in H. destruct H as (rcf1 & _ & H).
  apply bind_inv in H. destruct H as (scores1 & _ & H).
  apply bind_inv in H. destruct H as (rpos1 & _ & H).
  apply bind_inv in H. destruct H as (flags & Hflags & H).
  injection H as <-.
  apply Forall_forall. intros p Hp. apply zip_picks_flags in Hp.
  destruct oi.
  - apply bind_inv in Hflags. destruct Hflags as (imp & _ & Hflags).
    apply bind_inv in Hflags. destruct Hflags as (imp1 & _ & Hflags).
    injection Hflags as <-. apply zip_with_flags in Hp.
    destruct Hp as [Hp | Hp]; [right; auto | left].
    apply repeat_spec in Hp. exact Hp.
  - injection Hflags as <-. left. apply repeat_spec in Hp. exact Hp.
Qed.

(** *** Pools and queries that are no arrays of strings *)

Lemma chars_short (s : string) : Forall short (chars s).
Proof.
  induction s as [| c s IH]; simpl; constructor; [| exact IH].
  unfold short. simpl. lia.
Qed.

Lemma find_cur_best_returned
    (get_matching_blocks : string -> string -> list block)
    (argsort : list Z -> list nat) (argpartition : list Z -> nat -> list nat)
    (registrant fund : pyobj) (choices_r choices_f : pyseq)
    (match_pos : list Z) (top_n : option Z) (T dm : pynum) (oi : bool) :
  quick_comparison_block registrant fund choices_r choices_f match_pos T dm
  = Ok (Return None) ->
  find_cur_best get_matching_blocks argsort argpartition registrant fund
    choices_r choices_f match_pos top_n T dm true oi = Ok None.
Proof. intros H. unfold find_cur_best. rewrite H. reflexivity. Qed.

Lemma quick_block_no_registrant (registrant fund : pyobj)
    (choices_r choices_f : pyseq) (match_pos : list Z) (T dm : pynum) :
  not_a_string registrant = true ->
  quick_comparison_block registrant fund choices_r choices_f match_pos T dm
  = Ok (Return None).
Proof.
  intros Hn. destruct registrant as [q | |]; [discriminate | |];
    (destruct choices_r as [| s | l];
     [reflexivity | destruct s; reflexivity | destruct l; reflexivity]).
Qed.

Lemma quick_block_no_array (registrant fund : pyobj) (s : string)
    (choices_f : pyseq) (match_pos : list Z) (T dm : pynum) :
  short_field registrant ->
  quick_comparison_block registrant fund (SScalar s) choices_f match_pos T dm
  = Ok (Return None).
Proof.
  intros Hq. destruct registrant as [q | |];
    [| apply quick_block_no_registrant; reflexivity
     | apply quick_block_no_registrant; reflexivity].
  unfold quick_comparison_block.
  destruct (init_ready q dm) as (fus & -> & Hr). rewrite bind_Ok.
  cbn [py_iter]. rewrite bind_Ok.
  rewrite (quick_loop_map fus q dm T _ Hr Hq (chars_short s)), bind_Ok.
  reflexivity.
Qed.

Lemma quick_loop_no_string (fund : pyobj) (T dm : pynum) (c : string)
    (rest : list string) :
  not_a_string fund = true ->
  (fus <- FuzzyScorer_init fund PyNone dm false ;;
   quick_loop fus T (c :: rest)) = Raise TypeError.
Proof. intros Hn. destruct fund; [discriminate | reflexivity | reflexivity]. Qed.

Lemma mask_select_cases {A : Type} (l : list A) (valid : list bool) :
  mask_select l valid = Raise IndexError \/ exists x, mask_select l valid = Ok x.
Proof.
  unfold mask_select. destruct valid; [left; reflexivity |].
  destruct (_ =? _)%nat; [right; eauto | left; reflexivity].
Qed.

Lemma quick_block_no_fund (q : string) (fund : pyobj)
    (choices_r choices_f : pyseq) (match_pos : list Z) (T dm : pynum) :
  not_a_string fund = true -> short q ->
  Forall short (pyseq_strings choices_r) ->
  quick_comparison_block (PyStr q) fund choices_r choices_f match_pos T dm
  = Ok (Return None).
Proof.
  intros Hn Hq Hshort.
  destruct choices_r as [| s | l];
    [reflexivity | apply quick_block_no_array; exact Hq |].
  unfold quick_comparison_block.
  destruct (init_ready q dm) as (fus & -> & Hr). rewrite bind_Ok.
  cbn [py_iter]. rewrite bind_Ok.
  cbn [pyseq_strings] in Hshort.
  rewrite (quick_loop_map fus q dm T _ Hr Hq Hshort), bind_Ok.
  cbn [np_mask].
  destruct (mask_select_cases l (map (fun c => int_ge (quick_value c q) T) l))
    as [-> | [rcr1 ->]]; [reflexivity |].
  rewrite bind_Ok.
  assert (Hf : np_mask choices_f (map (fun c => int_ge (quick_value c q) T) l)
               = Raise TypeError
               \/ np_mask choices_f
                    (map (fun c => int_ge (quick_value c q) T) l)
                  = Raise IndexError
               \/ exists x, np_mask choices_f
                              (map (fun c => int_ge (quick_value c q) T) l)
                            = Ok x).
  { destruct choices_f as [| s | lf]; cbn [np_mask]; auto.
    destruct (mask_select_cases lf
                (map (fun c => int_ge (quick_value c q) T) l))
      as [-> | [x ->]]; eauto. }
  destruct Hf as [-> | [-> | [rcf1 ->]]]; [reflexivity | reflexivity |].
  rewrite bind_Ok.
  destruct (mask_select_cases match_pos
              (map (fun c => int_ge (quick_value c q) T) l))
    as [-> | [rpos1 ->]]; [reflexivity |].
  rewrite bind_Ok.
  destruct rcf1 as [| c rest].
  - destruct fund; [discriminate | reflexivity | reflexivity].
  - destruct fund; [discriminate | reflexivity | reflexivity].
Qed.

(** *** The loop of find_best *)

Lemma find_best_loop (F : pyobj * pyobj -> result (option (list pick)))
    (P Q : string -> Prop) (rs fs : list string) :
  (forall r f, P r -> Q f -> exists m, F (PyStr r, PyStr f) = Ok m) ->
  Forall P rs -> Forall Q fs ->
  (matches <- mapM F (zip_with (fun reg fund => (PyStr reg, PyStr fund)) rs fs) ;;
   Ok (finish_output matches rs fs))
  = Ok (zip_with (fun r f => query_entry r f (F (PyStr r, PyStr f))) rs fs).
Proof.
  intros HF HP. revert fs.
  induction HP as [| r rs Hr HP IH]; intros fs HQ; [reflexivity |].
  destruct HQ as [| f fs Hf HQ]; [reflexivity |].
  cbn [zip_with mapM]. destruct (HF r f Hr Hf) as [m Hm].
  rewrite Hm, bind_Ok. specialize (IH fs HQ).
  destruct (mapM F (zip_with (fun reg fund => (PyStr reg, PyStr fund)) rs fs))
    as [ms | e]; [| discriminate].
  cbn [bind] in IH |- *. injection IH as IH.
  cbn [finish_output]. rewrite IH. unfold query_entry at 2.
  destruct m as [[| p ps] |]; reflexivity.
Qed.

Lemma zip_with_len {A B C : Type} (f : A -> B -> C) (xs : list A) (ys : list B) :
  List.length (zip_with f xs ys) = Nat.min (List.length xs) (List.length ys).
Proof.
  revert ys. induction xs as [| x xs IH]; intros [| y ys]; simpl;
    try reflexivity. rewrite IH. reflexivity.
Qed.

(** X7.  With the quick comparison and without [order_irrelevance], for an
    integer multiplier of at least 1, the quick comparison discards no
    candidate that the scores would keep: the candidates from which
    [find_cur_best] picks its matches are those of the pool whose
    registrant score and whose fund score, as [compute_score] gives them,
    both reach the threshold; the matches are distinct candidates among
    these, [top_n] of them or all when there are no more, in descending
    order of the weighted score, and none left out has a larger one. *)
Theorem X7_quick_comparison_keeps_every_match
    (get_matching_blocks : string -> string -> list block)
    (argsort : list Z -> list nat) (argpartition : list Z -> nat -> list nat)
    (qr qf : string) (t d : Z) (top_n : option Z) (pool : list candidate) :
  matching_blocks_spec get_matching_blocks ->
  argsort_spec argsort -> argpartition_spec argpartition ->
  1 <= d -> short qr -> short qf -> 0 <= t <= 100 ->
  match top_n with Some n => 1 <= n | None => True end ->
  short_pool pool ->
  (forall c : candidate,
      compute_score get_matching_blocks
        (scorer_on (cand_r c) qr (PInt d) false)
      = Ok (raw_r get_matching_blocks qr d c)
      /\ compute_score get_matching_blocks
           (scorer_on (cand_f c) qf (PInt d) false)
         = Ok (raw_f get_matching_blocks qf d c))
  /\ (forall c : candidate,
         In c (raw_matches get_matching_blocks qr qf t d pool)
         <-> In c pool
             /\ t <= raw_r get_matching_blocks qr d c
             /\ t <= raw_f get_matching_blocks qf d c)
  /\ exists pos : list nat,
       find_cur_best get_matching_blocks argsort argpartition
         (PyStr qr) (PyStr qf)
         (SArray (map cand_r pool)) (SArray (map cand_f pool))
         (map cand_pos pool) top_n (PInt t) (PInt d) true false
       = Ok (match raw_matches get_matching_blocks qr qf t d pool with
             | [] => None
             | _ :: _ =>
                 Some (map (fun k =>
                              emit get_matching_blocks qr qf t d false
                                (nth k
                                   (raw_matches get_matching_blocks qr qf t d
                                      pool) no_candidate)) pos)
             end)
       /\ top_spec top_n
            (map (weighted get_matching_blocks qr qf t d false)
               (raw_matches get_matching_blocks qr qf t d pool)) pos.
Proof.
  intros Hblocks Hsort Hpart Hd Hqr Hqf Ht Htop Hshort.
  split; [| split].
  - intros c. split; apply (score_value_eq _ Hblocks _ _ _ false Hd).
  - intros c. unfold raw_matches. rewrite filter_In, andb_true_iff.
    rewrite !Z.leb_le. tauto.
  - destruct (find_cur_best_pool get_matching_blocks argsort argpartition
                Hblocks Hsort Hpart qr qf t d false top_n Hd Hqr Hqf Ht Htop
                pool Hshort) as (pos & Hres & Hspec).
    rewrite (survivors_raw _ qr qf t d pool Hblocks Hd Hqr Hqf Hshort)
      in Hres, Hspec.
    exists pos. split; [exact Hres | exact Hspec].
Qed.

Lemma X7_quick_comparison_keeps_every_match_witness :
  exists pos : list nat,
    run_find_cur_best (PyStr "growth fund") (PyStr "alpha beta")
      [("growth fund 2", "alpha beta", 7);
       ("income fund", "alpha beta", 8);
       ("growth fund", "alpha gamma", 9)]%string
      (Some 3) (PInt 60) (PInt 3) true false
    = Ok (match
            raw_matches spec_matching_blocks "growth fund" "alpha beta" 60 3
              [("growth fund 2", "alpha beta", 7);
               ("income fund", "alpha beta", 8);
               ("growth fund", "alpha gamma", 9)]%string
          with
          | [] => None
          | _ :: _ =>
              Some (map (fun k =>
                           emit spec_matching_blocks "growth fund"
                             "alpha beta" 60 3 false
                             (nth k
                                (raw_matches spec_matching_blocks
                                   "growth fund" "alpha beta" 60 3
                                   [("growth fund 2", "alpha beta", 7);
                                    ("income fund", "alpha beta", 8);
                                    ("growth fund", "alpha gamma", 9)]%string)
                                no_candidate)) pos)
          end).
Proof.
  destruct (X7_quick_comparison_keeps_every_match spec_matching_blocks
              stable_argsort sorting_argpartition "growth fund" "alpha beta"
              60 3 (Some 3)
              [("growth fund 2", "alpha beta", 7);
               ("income fund", "alpha beta", 8);
               ("growth fund", "alpha gamma", 9)]%string
              spec_matching_blocks_ok stable_argsort_ok
              sorting_argpartition_ok
              ltac:(lia) ltac:(unfold short; simpl; lia)
              ltac:(unfold short; simpl; lia) ltac:(lia) ltac:(simpl; lia)
              ltac:(unfold short_pool, short; simpl;
                    repeat constructor; simpl; lia))
    as (_ & _ & pos & Hres & _).
  exists pos. exact Hres.
Defined.

(** X8.  Whatever it is given, [find_cur_best] flags a match with the empty
    string or with OR, and with OR only under [order_irrelevance]. *)
Theorem X8_flags_are_empty_or_OR
    (get_matching_blocks : string -> string -> list block)
    (argsort : list Z -> list nat) (argpartition : list Z -> nat -> list nat)
    (registrant fund : pyobj) (choices_r choices_f : pyseq)
    (match_pos : list Z) (top_n : option Z) (valid_threshold dm : pynum)
    (quick_comparison order_irrelevance : bool) (picks : list pick) :
  find_cur_best get_matching_blocks argsort argpartition registrant fund
    choices_r choices_f match_pos top_n valid_threshold dm quick_comparison
    order_irrelevance
  = Ok (Some picks) ->
  Forall (fun p => pick_flag p = EmptyString
                   \/ (order_irrelevance = true /\ pick_flag p = "OR"%string))
    picks.
Proof.
  unfold find_cur_best. intros H.
  apply bind_inv in H. destruct H as (o1 & E1 & H).
  destruct o1 as [vars1 | r1].
  2: { injection H as ->. destruct quick_comparison; [| discriminate].
       apply quick_comparison_block_returns in E1. discriminate. }
  apply bind_inv in H. destruct H as (o2 & E2 & H).
  destruct o2 as [vars2 | r2].
  2: { injection H as ->. apply registrant_block_returns in E2.
       discriminate. }
  apply bind_inv in H. destruct H as (o3 & E3 & H).
  destruct o3 as [vars3 | r3].
  2: { injection H as ->. apply fund_block_returns in E3. discriminate. }
  apply bind_inv in H. destruct H as (r & Hfin & H).
  injection H as <-.
  exact (finalize_block_flags _ _ _ _ _ _ Hfin).
Qed.

Lemma X8_flags_are_empty_or_OR_witness :
  Forall (fun p => pick_flag p = EmptyString
                   \/ (false = true /\ pick_flag p = "OR"%string))
    [("ab fund : cd co", 100, 0, EmptyString)]%string.
Proof.
  apply (X8_flags_are_empty_or_OR spec_matching_blocks stable_argsort
           sorting_argpartition (PyStr "ab fund") (PyStr "cd co")
           (SArray (map cand_r
              [("ab fund", "cd co", 0); ("xy fund", "zw", 1)]%string))
           (SArray (map cand_f
              [("ab fund", "cd co", 0); ("xy fund", "zw", 1)]%string))
           (map cand_pos [("ab fund", "cd co", 0); ("xy fund", "zw", 1)]%string)
           (Some 3) (PInt 95) (PInt 3) true false).
  vm_compute. reflexivity.
Defined.

(** X9.  With the quick comparison, a pool that is no array of at least
    two names matches nothing: [find_cur_best] returns [None] when the pool
    is [None], the single string [preproc_string] returns for one name, or
    an empty array, whatever the query, the threshold and the multiplier. *)
Theorem X9_pool_of_one_matches_nothing
    (get_matching_blocks : string -> string -> list block)
    (argsort : list Z -> list nat) (argpartition : list Z -> nat -> list nat)
    (registrant fund : pyobj) (s : string) (choices_f : pyseq)
    (match_pos : list Z) (top_n : option Z) (valid_threshold dm : pynum)
    (order_irrelevance : bool) :
  short_field registrant ->
  find_cur_best get_matching_blocks argsort argpartition registrant fund
    (SScalar s) choices_f match_pos top_n valid_threshold dm true
    order_irrelevance = Ok None
  /\ find_cur_best get_matching_blocks argsort argpartition registrant fund
       SNone choices_f match_pos top_n valid_threshold dm true
       order_irrelevance = Ok None
  /\ find_cur_best get_matching_blocks argsort argpartition registrant fund
       (SArray []) choices_f match_pos top_n valid_threshold dm true
       order_irrelevance = Ok None.
Proof.
  intros Hq. split; [| split]; apply find_cur_best_returned.
  - apply quick_block_no_array. exact Hq.
  - reflexivity.
  - reflexivity.
Qed.

Lemma X9_pool_of_one_matches_nothing_witness :
  find_cur_best spec_matching_blocks stable_argsort sorting_argpartition
    (PyStr "ab fund") (PyStr "cd co") (SScalar "ab fund") (SScalar "cd co")
    [0] (Some 3) (PInt 0) (PInt 1) true false = Ok None.
Proof.
  apply (X9_pool_of_one_matches_nothing spec_matching_blocks stable_argsort
           sorting_argpartition (PyStr "ab fund") (PyStr "cd co") "ab fund"
           (SScalar "cd co") [0] (Some 3) (PInt 0) (PInt 1) false).
  unfold short_field, short. simpl. lia.
Defined.

(** X10.  With the quick comparison, a query whose registrant is not a
    string ([None], or the NaN of a missing cell) gets [None] on any pool;
    so does a query whose fund is not a string, when the names before it
    are shorter than 2^31 characters. *)
Theorem X10_missing_name_gets_None
    (get_matching_blocks : string -> string -> list block)
    (argsort : list Z -> list nat) (argpartition : list Z -> nat -> list nat)
    (registrant fund : pyobj) (choices_r choices_f : pyseq)
    (match_pos : list Z) (top_n : option Z) (valid_threshold dm : pynum)
    (order_irrelevance : bool) :
  not_a_string registrant = true
  \/ (not_a_string fund = true /\ short_field registrant
      /\ Forall short (pyseq_strings choices_r)) ->
  find_cur_best get_matching_blocks argsort argpartition registrant fund
    choices_r choices_f match_pos top_n valid_threshold dm true
    order_irrelevance = Ok None.
Proof.
  intros [Hr | (Hf & Hq & Hshort)]; apply find_cur_best_returned.
  - apply quick_block_no_registrant. exact Hr.
  - destruct registrant as [q | |];
      [| apply quick_block_no_registrant; reflexivity
       | apply quick_block_no_registrant; reflexivity].
    apply quick_block_no_fund; assumption.
Qed.

Lemma X10_missing_name_gets_None_witness :
  find_cur_best spec_matching_blocks stable_argsort sorting_argpartition
    (PyStr "ab fund") PyNaN (SArray ["ab fund"; "xy fund"]%string)
    (SArray ["cd co"; "zw"]%string) [0; 1] (Some 3) (PInt 0) (PInt 1) true
    true = Ok None.
Proof.
  apply (X10_missing_name_gets_None spec_matching_blocks stable_argsort
           sorting_argpartition (PyStr "ab fund") PyNaN
           (SArray ["ab fund"; "xy fund"]%string)
           (SArray ["cd co"; "zw"]%string) [0; 1] (Some 3) (PInt 0) (PInt 1)
           true).
  right. split; [reflexivity |]. split.
  - unfold short_field, short. simpl. lia.
  - unfold short. simpl. repeat constructor; simpl; lia.
Defined.

(** X11.  [find_best] needs the queries [preproc] prepares: on a matcher
    that was never preprocessed it raises [TypeError], whatever the matcher
    holds; [preproc] itself raises [TypeError] when called without
    [regex_sub], whatever the matcher holds; and on a matcher whose list
    of queries is empty, [preproc] leaves the registrants and funds of the
    queries at [None] and [find_best] raises [TypeError]. *)
Theorem X11_find_best_without_queries
    (get_matching_blocks : string -> string -> list block)
    (argsort : list Z -> list nat) (argpartition : list Z -> nat -> list nat)
    (re_sub : string -> string -> string -> string)
    (pool_map : (pyobj * pyobj -> result (option (list pick))) ->
                list (pyobj * pyobj) -> result (list (option (list pick))))
    (queries candidates : pyinput) (positions : option (list Z))
    (trim_words : option (list string)) (regex_sub : list (string * string))
    (rem_reg_from_fund combine_reg_fund : bool)
    (top_n : option Z) (valid_threshold dm : pynum)
    (multi_processing quick_comparison order_irrelevance : bool) :
  find_best get_matching_blocks argsort argpartition pool_map
    (FuzzyFundMatcher_init queries candidates positions) top_n
    valid_threshold dm multi_processing quick_comparison order_irrelevance
  = Raise TypeError
  /\ preproc re_sub (FuzzyFundMatcher_init queries candidates positions)
       trim_words None rem_reg_from_fund combine_reg_fund
     = Raise TypeError
  /\ (input_len queries = 0%nat ->
      (self <- preproc re_sub
                 (FuzzyFundMatcher_init queries candidates positions)
                 trim_words (Some regex_sub) rem_reg_from_fund
                 combine_reg_fund ;;
       find_best get_matching_blocks argsort argpartition pool_map self top_n
         valid_threshold dm multi_processing quick_comparison
         order_irrelevance)
      = Raise TypeError).
Proof.
  split; [reflexivity |]. split; [reflexivity |]. intros Hlen.
  unfold preproc. cbn [to_matches FuzzyFundMatcher_init].
  assert (Hnone :
    preproc_string re_sub
      (if combine_reg_fund then combine_names queries else queries)
      trim_words (Some regex_sub) rem_reg_from_fund = None).
  { destruct combine_reg_fund.
    - destruct queries as [s | l]; simpl in Hlen.
      + destruct s; [reflexivity | discriminate].
      + destruct l; [reflexivity | discriminate].
    - unfold preproc_string. rewrite Hlen. reflexivity. }
  rewrite Hnone. reflexivity.
Qed.

Lemma X11_find_best_without_queries_witness :
  run_find_best (InSeq []) (InSeq ["Ab Fund : Cd & Co"; "Xy Fund : Zw"]%string)
    (Some 3) (PInt 95) (PInt 3) false true true
  = Raise TypeError.
Proof.
  exact (proj2 (proj2 (X11_find_best_without_queries spec_matching_blocks
                         stable_argsort sorting_argpartition no_regex
                         ordered_pool_map (InSeq [])
                         (InSeq ["Ab Fund : Cd & Co"; "Xy Fund : Zw"]%string)
                         None None [] false false (Some 3) (PInt 95) (PInt 3)
                         false true true)) eq_refl).
Defined.

(** X12.  On arrays of queries and of candidates, with the quick
    comparison and without the process pool, [find_best] returns one entry
    for each pair of a registrant and a fund of the queries, in their
    order: [None] exactly when no candidate survives the filters of
    [find_cur_best], and otherwise the name of the query with the matches
    [find_cur_best] returns for it, which are not empty. *)
Theorem X12_find_best_one_entry_per_query
    (get_matching_blocks : string -> string -> list block)
    (argsort : list Z -> list nat) (argpartition : list Z -> nat -> list nat)
    (pool_map : (pyobj * pyobj -> result (option (list pick))) ->
                list (pyobj * pyobj) -> result (list (option (list pick))))
    (queries candidates : pyinput) (rs fs : list string)
    (t d : Z) (oi : bool) (top_n : option Z) (pool : list candidate) :
  matching_blocks_spec get_matching_blocks ->
  argsort_spec argsort -> argpartition_spec argpartition ->
  1 <= d -> 0 <= t <= 100 ->
  match top_n with Some n => 1 <= n | None => True end ->
  short_pool pool -> Forall short rs -> Forall short fs ->
  find_best get_matching_blocks argsort argpartition pool_map
    {| to_matches := queries; choices := candidates;
       to_matches_r := SArray rs; to_matches_f := SArray fs;
       choices_r := SArray (map cand_r pool);
       choices_f := SArray (map cand_f pool);
       match_pos := map cand_pos pool |}
    top_n (PInt t) (PInt d) false true oi
  = Ok (zip_with
          (fun r f =>
             query_entry r f
               (find_cur_best get_matching_blocks argsort argpartition
                  (PyStr r) (PyStr f) (SArray (map cand_r pool))
                  (SArray (map cand_f pool)) (map cand_pos pool) top_n
                  (PInt t) (PInt d) true oi)) rs fs)
  /\ List.length
       (zip_with
          (fun r f =>
             query_entry r f
               (find_cur_best get_matching_blocks argsort argpartition
                  (PyStr r) (PyStr f) (SArray (map cand_r pool))
                  (SArray (map cand_f pool)) (map cand_pos pool) top_n
                  (PInt t) (PInt d) true oi)) rs fs)
     = Nat.min (List.length rs) (List.length fs)
  /\ forall r f : string,
       short r -> short f ->
       match
         query_entry r f
           (find_cur_best get_matching_blocks argsort argpartition
              (PyStr r) (PyStr f) (SArray (map cand_r pool))
              (SArray (map cand_f pool)) (map cand_pos pool) top_n
              (PInt t) (PInt d) true oi)
       with
       | None => survivors get_matching_blocks r f t d oi pool = []
       | Some (name, picks) =>
           name = label r f
           /\ picks <> []
           /\ survivors get_matching_blocks r f t d oi pool <> []
           /\ find_cur_best get_matching_blocks argsort argpartition
                (PyStr r) (PyStr f) (SArray (map cand_r pool))
                (SArray (map cand_f pool)) (map cand_pos pool) top_n
                (PInt t) (PInt d) true oi
              = Ok (Some picks)
       end.
Proof.
  intros Hblocks Hsort Hpart Hd Ht Htop Hshort Hrs Hfs.
  split; [| split].
  - unfold find_best.
    cbn [to_matches_r to_matches_f choices_r choices_f match_pos py_iter].
    rewrite !bind_Ok.
    apply (find_best_loop
             (wrapper_find_cur_best get_matching_blocks argsort argpartition
                (SArray (map cand_r pool)) (SArray (map cand_f pool))
                (map cand_pos pool) top_n (PInt t) (PInt d) true oi)
             short short rs fs); [| exact Hrs | exact Hfs].
    intros r f Hr Hf. unfold wrapper_find_cur_best. cbn [fst snd].
    destruct (find_cur_best_pool get_matching_blocks argsort argpartition
                Hblocks Hsort Hpart r f t d oi top_n Hd Hr Hf Ht Htop
                pool Hshort) as (pos & -> & _).
    eauto.
  - apply zip_with_len.
  - intros r f Hr Hf.
    destruct (find_cur_best_pool get_matching_blocks argsort argpartition
                Hblocks Hsort Hpart r f t d oi top_n Hd Hr Hf Ht Htop
                pool Hshort) as (pos & Hres & Hspec).
    rewrite Hres.
    destruct (survivors get_matching_blocks r f t d oi pool)
      as [| c0 S] eqn:ES; [reflexivity |].
    destruct Hspec as (_ & _ & Hlen & _).
    rewrite length_map in Hlen. cbn [List.length] in Hlen.
    assert (Hpos : pos <> []).
    { intros ->. cbn [List.length] in Hlen.
      destruct top_n as [n |]; cbv beta iota in Htop; lia. }
    destruct pos as [| k pos]; [congruence |].
    cbn [map query_entry]. repeat split; discriminate.
Qed.

Lemma X12_find_best_one_entry_per_query_witness :
  find_best spec_matching_blocks stable_argsort sorting_argpartition
    ordered_pool_map
    {| to_matches := InSeq []; choices := InSeq [];
       to_matches_r := SArray ["ab fund"; "xy fund"]%string;
       to_matches_f := SArray ["cd co"; "zw"]%string;
       choices_r :=
         SArray (map cand_r
                   [("ab fund", "cd co", 0); ("xy fund", "zw", 1)]%string);
       choices_f :=
         SArray (map cand_f
                   [("ab fund", "cd co", 0); ("xy fund", "zw", 1)]%string);
       match_pos :=
         map cand_pos [("ab fund", "cd co", 0); ("xy fund", "zw", 1)]%string |}
    (Some 3) (PInt 95) (PInt 3) false true true
  = Ok (zip_with
          (fun r f =>
             query_entry r f
               (run_find_cur_best (PyStr r) (PyStr f)
                  [("ab fund", "cd co", 0); ("xy fund", "zw", 1)]%string
                  (Some 3) (PInt 95) (PInt 3) true true))
          ["ab fund"; "xy fund"]%string ["cd co"; "zw"]%string).
Proof.
  apply (X12_find_best_one_entry_per_query spec_matching_blocks
           stable_argsort sorting_argpartition ordered_pool_map
           (InSeq []) (InSeq []) ["ab fund"; "xy fund"]%string
           ["cd co"; "zw"]%string 95 3 true (Some 3)
           [("ab fund", "cd co", 0); ("xy fund", "zw", 1)]%string
           spec_matching_blocks_ok stable_argsort_ok sorting_argpartition_ok
           ltac:(lia) ltac:(lia) ltac:(simpl; lia)
           ltac:(unfold short_pool, short; simpl;
                 repeat constructor; simpl; lia)
           ltac:(unfold short; simpl; repeat constructor; simpl; lia)
           ltac:(unfold short; simpl; repeat constructor; simpl; lia)).
Defined.

(** ** A top_n that is not positive *)

Section TopFrom.

Variable argsort : list Z -> list nat.
Variable argpartition : list Z -> nat -> list nat.
Hypothesis argsort_ok : argsort_spec argsort.
Hypothesis argpartition_ok : argpartition_spec argpartition.

(** The positions from place [kth] of the partition on, best first. *)
Lemma top_positions_from (n : Z) (sw : list Z) (kth : nat) :
  (Z.of_nat (List.length sw) >? n) = true ->
  normalize_kth (- n) (List.length sw) = Ok kth ->
  (kth < List.length sw)%nat ->
  (forall part : list nat,
      List.length part = List.length sw ->
      py_slice_from (- n) part = skipn kth part) ->
  exists pos,
    top_positions argsort argpartition (Some n) sw = Ok pos
    /\ NoDup pos
    /\ Forall (fun i => (i < List.length sw)%nat) pos
    /\ List.length pos = (List.length sw - kth)%nat
    /\ StronglySorted Z.ge (map (value_at sw) pos)
    /\ (forall i j, (i < List.length sw)%nat -> ~ In i pos -> In j pos ->
                    value_at sw i <= value_at sw j).
Proof.
  intros Hgt Hkth Hk Hslice0. unfold top_positions. rewrite Hgt.
  set (len := List.length sw) in *.
  rewrite Hkth, bind_Ok.
  destruct (argpartition_ok sw kth Hk) as [HPp Hpart].
  set (part := argpartition sw kth) in *.
  destruct (perm_seq_bounds _ _ HPp) as (Hnd & Hf & Hl).
  rewrite (Hslice0 part Hl).
  set (pos_top := skipn kth part).
  assert (Hsplit : part = firstn kth part ++ pos_top)
    by (symmetry; apply firstn_skipn).
  assert (Hlp : List.length pos_top = (len - kth)%nat).
  { unfold pos_top. rewrite length_skipn, Hl. reflexivity. }
  assert (Hfp : Forall (fun i => (i < len)%nat) pos_top).
  { apply Forall_forall. intros i Hi. rewrite Forall_forall in Hf.
    apply Hf. rewrite Hsplit. apply in_or_app. right. exact Hi. }
  assert (Hndp : NoDup pos_top).
  { rewrite Hsplit in Hnd. apply NoDup_app_remove_l in Hnd. exact Hnd. }
  rewrite (take_idx_nth sw pos_top 0 Hfp), bind_Ok.
  change (map (fun i : nat => nth i sw 0) pos_top)
    with (map (value_at sw) pos_top).
  set (top_scores := map (value_at sw) pos_top).
  destruct (argsort_ok top_scores) as [HPs HSs].
  destruct (perm_seq_bounds _ _ HPs) as (Hnds & Hfs & Hls).
  assert (Hlts : List.length top_scores = List.length pos_top)
    by (unfold top_scores; apply length_map).
  rewrite Hlts in Hfs, Hls, HPs.
  rewrite (take_idx_nth pos_top (argsort top_scores) O Hfs), bind_Ok.
  set (ordered := map (fun i => nth i pos_top O) (argsort top_scores)).
  assert (HPo : Permutation ordered pos_top).
  { unfold ordered.
    rewrite (Permutation_map (fun i => nth i pos_top O) HPs).
    clear. induction pos_top as [| x l IH]; [reflexivity |].
    cbn [List.length seq map nth]. constructor.
    rewrite <- seq_shift, map_map. exact IH. }
  eexists. split; [reflexivity |].
  repeat split.
  - apply NoDup_rev. apply (Permutation_NoDup (Permutation_sym HPo) Hndp).
  - apply Forall_forall. intros i Hi. apply in_rev in Hi.
    apply (Permutation_in _ HPo) in Hi.
    rewrite Forall_forall in Hfp. auto.
  - rewrite length_rev, (Permutation_length HPo), Hlp. reflexivity.
  - rewrite map_rev. apply sorted_rev_ge.
    assert (Hmap : map (value_at sw) ordered
                   = map (value_at top_scores) (argsort top_scores)).
    { unfold ordered. rewrite map_map. apply map_ext_in.
      intros i Hi. rewrite Forall_forall in Hfs. specialize (Hfs i Hi).
      change (value_at top_scores i)
        with (nth i (map (value_at sw) pos_top) 0).
      rewrite (nth_indep (map (value_at sw) pos_top) 0 (value_at sw O))
        by (rewrite length_map; exact Hfs).
      rewrite (map_nth (value_at sw)). reflexivity. }
    rewrite Hmap. exact HSs.
  - intros i j Hi Hni Hj.
    apply in_rev in Hj. apply (Permutation_in _ HPo) in Hj.
    assert (Hni' : ~ In i pos_top).
    { intros H. apply Hni. apply -> in_rev.
      apply (Permutation_in _ (Permutation_sym HPo)). exact H. }
    assert (Hi_part : In i part).
    { apply (Permutation_in _ (Permutation_sym HPp)). apply in_seq. lia. }
    rewrite Hsplit in Hi_part. apply in_app_or in Hi_part.
    destruct Hi_part as [Hi1 | Hi2]; [| contradiction].
    apply (In_nth _ _ O) in Hi1. destruct Hi1 as (a & Ha & Hnth).
    rewrite length_firstn, Hl in Ha.
    apply (In_nth _ _ O) in Hj. destruct Hj as (b & Hb & Hnthb).
    assert (Ha' : nth a part O = i).
    { rewrite <- Hnth. rewrite Hsplit at 1. rewrite app_nth1; [reflexivity |].
      rewrite length_firstn, Hl. lia. }
    assert (Hb' : nth (kth + b) part O = j).
    { rewrite <- Hnthb. unfold pos_top. rewrite nth_skipn. reflexivity. }
    rewrite <- Ha', <- Hb'. apply Hpart; fold len; lia.
Qed.

(** [top_n <= 0]: the position [-top_n] of the partition is counted
    from the start of the array. *)
Lemma top_positions_nonpositive (n : Z) (sw : list Z) :
  n <= 0 -> - n < Z.of_nat (List.length sw) ->
  exists pos,
    top_positions argsort argpartition (Some n) sw = Ok pos
    /\ NoDup pos
    /\ Forall (fun i => (i < List.length sw)%nat) pos
    /\ List.length pos = (List.length sw - Z.to_nat (- n))%nat
    /\ StronglySorted Z.ge (map (value_at sw) pos)
    /\ (forall i j, (i < List.length sw)%nat -> ~ In i pos -> In j pos ->
                    value_at sw i <= value_at sw j).
Proof.
  intros Hn Hlen. apply top_positions_from.
  - apply Z.gtb_lt. lia.
  - unfold normalize_kth.
    destruct (Z.ltb_spec (- n) 0); [lia |].
    destruct (Z.leb_spec 0 (- n)); [| lia].
    destruct (Z.ltb_spec (- n) (Z.of_nat (List.length sw))); [| lia].
    reflexivity.
  - lia.
  - intros part Hl. unfold py_slice_from. rewrite Hl.
    destruct (Z.ltb_spec (- n) 0); [lia |]. f_equal. lia.
Qed.

Lemma top_positions_too_few (n : Z) (sw : list Z) :
  n < 0 -> Z.of_nat (List.length sw) <= - n ->
  top_positions argsort argpartition (Some n) sw = Raise ValueError.
Proof.
  intros Hn Hlen. unfold top_positions.
  destruct (Z.gtb_spec (Z.of_nat (List.length sw)) n); [| lia].
  unfold normalize_kth.
  destruct (Z.ltb_spec (- n) 0); [lia |].
  destruct (Z.leb_spec 0 (- n)); [| lia].
  destruct (Z.ltb_spec (- n) (Z.of_nat (List.length sw))); [lia |].
  reflexivity.
Qed.

End TopFrom.

Section FinalizeAt.

Variable get_matching_blocks : string -> string -> list block.
Variable argsort : list Z -> list nat.
Variable argpartition : list Z -> nat -> list nat.
Hypothesis blocks_spec : matching_blocks_spec get_matching_blocks.

Variables (qr qf : string) (t d : Z) (oi : bool) (top_n : option Z).
Hypothesis d_pos : 1 <= d.
Hypothesis qr_short : short qr.
Hypothesis qf_short : short qf.
Hypothesis t_range : 0 <= t <= 100.

Local Abbreviation primary_score :=
  (primary_score get_matching_blocks qr t d oi).
Local Abbreviation secondary_score :=
  (secondary_score get_matching_blocks qf t d oi).
Local Abbreviation improved := (improved get_matching_blocks qr qf t d).
Local Abbreviation weighted := (weighted get_matching_blocks qr qf t d oi).
Local Abbreviation emit := (emit get_matching_blocks qr qf t d oi).
Local Abbreviation survivors :=
  (survivors get_matching_blocks qr qf t d oi).

(** [find_cur_best] up to the block FINALIZE. *)
Lemma find_cur_best_to_finalize (pool : list candidate) :
  short_pool pool ->
  find_cur_best get_matching_blocks argsort argpartition
    (PyStr qr) (PyStr qf)
    (SArray (map cand_r pool)) (SArray (map cand_f pool))
    (map cand_pos pool) top_n (PInt t) (PInt d) true oi
  = match survivors pool with
    | [] => Ok None
    | _ :: _ =>
        r <- finalize_block argsort argpartition top_n oi
               (mkAfterFund (rem_of (survivors pool))
                  (map primary_score (survivors pool))
                  (map secondary_score (survivors pool))
                  (if oi then Some (map improved (survivors pool))
                   else None)) ;;
        Ok (Some r)
    end.
Proof.
  intros Hshort. unfold find_cur_best.
  rewrite (quick_comparison_block_pool qr qf t d qr_short qf_short t_range
             pool Hshort).
  rewrite bind_Ok. rewrite survivors_unfold.
  destruct (filter (quick_r qr t) pool) as [| c0 S0] eqn:E0; [reflexivity |].
  set (S1 := filter (quick_f qf t) (c0 :: S0)) in *.
  rewrite (registrant_block_pool _ blocks_spec qr t d oi d_pos t_range S1).
  rewrite bind_Ok.
  destruct (filter (keep_r get_matching_blocks qr t d oi) S1)
    as [| c2 S2'] eqn:E2; [reflexivity |].
  set (S2 := c2 :: S2') in *.
  rewrite (fund_block_pool _ blocks_spec qr qf t d oi d_pos S2).
  rewrite bind_Ok.
  destruct (filter (keep_f get_matching_blocks qf t d oi) S2)
    as [| c3 S3'] eqn:E3; reflexivity.
Qed.

Lemma finalize_block_at (S : list candidate) (pos : list nat) :
  top_positions argsort argpartition top_n (map weighted S) = Ok pos ->
  Forall (fun i => (i < List.length S)%nat) pos ->
  finalize_block argsort argpartition top_n oi
    (mkAfterFund (rem_of S) (map primary_score S) (map secondary_score S)
       (if oi then Some (map improved S) else None))
  = Ok (map (fun k => emit (nth k S no_candidate)) pos).
Proof.
  intros Hpos HF. unfold finalize_block.
  cbn [af_rem af_rrsc af_rfsc af_improvement rem_of rcr rcf rpos].
  rewrite weighted_scores_map.
  change (map (fun x : candidate =>
                 np_floor_sqrt (wrap64 (primary_score x * secondary_score x))) S)
    with (map weighted S).
  rewrite Hpos, bind_Ok.
  rewrite !(take_idx_map _ S no_candidate pos HF), !bind_Ok.
  rewrite zip_with_map.
  assert (Hflags :
    (if oi
     then imp <- read_local (if oi then Some (map improved S) else None)
                   (fun i => i) ;;
          imp1 <- take_idx imp pos ;;
          Ok (zip_with (fun (fl : string) (i : bool) =>
                          if i then "OR"%string else fl)
                (repeat EmptyString (List.length pos)) imp1)
     else Ok (repeat EmptyString (List.length pos)))
    = Ok (map (fun k => if oi && improved (nth k S no_candidate)
                        then "OR"%string else EmptyString) pos)).
  { destruct oi.
    - cbn [read_local andb]. rewrite bind_Ok.
      rewrite (take_idx_map _ S no_candidate pos HF), bind_Ok.
      rewrite repeat_map, zip_with_map. reflexivity.
    - cbn [andb]. rewrite repeat_map. reflexivity. }
  rewrite Hflags, bind_Ok, zip_picks_map. reflexivity.
Qed.

Lemma finalize_block_raises (S : list candidate) (e : exn) :
  top_positions argsort argpartition top_n (map weighted S) = Raise e ->
  finalize_block argsort argpartition top_n oi
    (mkAfterFund (rem_of S) (map primary_score S) (map secondary_score S)
       (if oi then Some (map improved S) else None))
  = Raise e.
Proof.
  intros Hpos. unfold finalize_block.
  cbn [af_rem af_rrsc af_rfsc af_improvement rem_of rcr rcf rpos].
  rewrite weighted_scores_map.
  change (map (fun x : candidate =>
                 np_floor_sqrt (wrap64 (primary_score x * secondary_score x))) S)
    with (map weighted S).
  rewrite Hpos. reflexivity.
Qed.

End FinalizeAt.

(** X13.  A [top_n] of 0 does not ask for no match: with it
    [find_cur_best] returns every candidate that survives the filters,
    best first.  A negative [top_n] leaves out that many of the worst
    survivors, and raises [ValueError] when there are no more survivors
    than that. *)
Theorem X13_top_n_zero_or_negative
    (get_matching_blocks : string -> string -> list block)
    (argsort : list Z -> list nat) (argpartition : list Z -> nat -> list nat)
    (qr qf : string) (t d n : Z) (oi : bool) (pool : list candidate) :
  matching_blocks_spec get_matching_blocks ->
  argsort_spec argsort -> argpartition_spec argpartition ->
  1 <= d -> short qr -> short qf -> 0 <= t <= 100 -> short_pool pool ->
  n <= 0 ->
  exists pos : list nat,
    find_cur_best get_matching_blocks argsort argpartition
      (PyStr qr) (PyStr qf)
      (SArray (map cand_r pool)) (SArray (map cand_f pool))
      (map cand_pos pool) (Some n) (PInt t) (PInt d) true oi
    = match survivors get_matching_blocks qr qf t d oi pool with
      | [] => Ok None
      | _ :: _ =>
          if - n <? Z.of_nat
                      (List.length
                         (survivors get_matching_blocks qr qf t d oi pool))
          then
            Ok (Some (map (fun k =>
                             emit get_matching_blocks qr qf t d oi
                               (nth k
                                  (survivors get_matching_blocks qr qf t d oi
                                     pool) no_candidate)) pos))
          else Raise ValueError
      end
    /\ NoDup pos
    /\ Forall (fun k =>
                 (k < List.length
                        (survivors get_matching_blocks qr qf t d oi pool))%nat)
         pos
    /\ List.length pos
       = (List.length (survivors get_matching_blocks qr qf t d oi pool)
          - Z.to_nat (- n))%nat
    /\ StronglySorted Z.ge
         (map (fun k =>
                 pick_score
                   (emit get_matching_blocks qr qf t d oi
                      (nth k (survivors get_matching_blocks qr qf t d oi pool)
                         no_candidate))) pos)
    /\ (forall i j : nat,
           (i < List.length
                  (survivors get_matching_blocks qr qf t d oi pool))%nat ->
           ~ In i pos -> In j pos ->
           weighted get_matching_blocks qr qf t d oi
             (nth i (survivors get_matching_blocks qr qf t d oi pool)
                no_candidate)
           <= weighted get_matching_blocks qr qf t d oi
                (nth j (survivors get_matching_blocks qr qf t d oi pool)
                   no_candidate)).
Proof.
  intros Hblocks Hsort Hpart Hd Hqr Hqf Ht Hshort Hn.
  rewrite (find_cur_best_to_finalize get_matching_blocks argsort argpartition
             Hblocks qr qf t d oi (Some n) Hd Hqr Hqf Ht pool Hshort).
  set (S := survivors get_matching_blocks qr qf t d oi pool).
  destruct (Z.ltb_spec (- n) (Z.of_nat (List.length S))) as [Hlt | Hge].
  - destruct (top_positions_nonpositive argsort argpartition Hsort Hpart n
                (map (weighted get_matching_blocks qr qf t d oi) S) Hn)
      as (pos & Hpos & Hnd & HF & Hlen & Hsorted & Hbest);
      [rewrite length_map; exact Hlt |].
    rewrite length_map in HF, Hlen, Hbest.
    exists pos. split; [| split; [exact Hnd | split; [exact HF |]]].
    + destruct S as [| c0 S'] eqn:ES; [reflexivity |]. rewrite <- ES in *.
      rewrite (finalize_block_at get_matching_blocks argsort argpartition
                 qr qf t d oi (Some n) S pos Hpos HF).
      reflexivity.
    + split; [exact Hlen |]. split.
      * assert (Hscores :
          map (fun k =>
                 pick_score
                   (emit get_matching_blocks qr qf t d oi
                      (nth k S no_candidate))) pos
          = map (value_at (map (weighted get_matching_blocks qr qf t d oi) S))
              pos).
        { apply map_ext_in. intros k Hk. rewrite Forall_forall in HF.
          unfold value_at.
          rewrite (nth_indep _ 0
                     (weighted get_matching_blocks qr qf t d oi no_candidate))
            by (rewrite length_map; apply HF, Hk).
          rewrite (map_nth (weighted get_matching_blocks qr qf t d oi)).
          reflexivity. }
        rewrite Hscores. exact Hsorted.
      * intros i j Hi Hni Hj. rewrite Forall_forall in HF.
        specialize (Hbest i j Hi Hni Hj). unfold value_at in Hbest.
        rewrite !(nth_indep _ 0
                    (weighted get_matching_blocks qr qf t d oi no_candidate))
          in Hbest by (rewrite length_map; auto).
        rewrite !(map_nth (weighted get_matching_blocks qr qf t d oi))
          in Hbest.
        exact Hbest.
  - exists []. split.
    + destruct S as [| c0 S'] eqn:ES; [reflexivity |]. rewrite <- ES in *.
      rewrite (finalize_block_raises get_matching_blocks argsort argpartition
                 qr qf t d oi (Some n) S ValueError); [reflexivity |].
      apply top_positions_too_few; rewrite ?length_map; [| exact Hge].
      destruct (Z.eq_dec n 0) as [-> | Hne]; [| lia].
      rewrite ES in Hge. cbn [List.length] in Hge. lia.
    + split; [constructor |]. split; [constructor |].
      split; [cbn [List.length]; lia |]. split; [constructor |].
      intros i j _ _ [].
Qed.

(** With [top_n = 0] both candidates come back, the better first. *)
Lemma X13_top_n_zero_or_negative_witness :
  exists pos : list nat,
    run_find_cur_best (PyStr "growth fund") (PyStr "alpha beta")
      [("growth fund 2", "alpha beta", 7); ("growth fund", "alpha beta", 8)]%string
      (Some 0) (PInt 60) (PInt 3) true false
    = Ok (Some (map (fun k =>
                       emit spec_matching_blocks "growth fund" "alpha beta"
                         60 3 false
                         (nth k
                            [("growth fund 2", "alpha beta", 7);
                             ("growth fund", "alpha beta", 8)]%string
                            no_candidate)) pos))
    /\ List.length pos = 2%nat.
Proof.
  destruct (X13_top_n_zero_or_negative spec_matching_blocks stable_argsort
              sorting_argpartition "growth fund" "alpha beta" 60 3 0 false
              [("growth fund 2", "alpha beta", 7);
               ("growth fund", "alpha beta", 8)]%string
              spec_matching_blocks_ok stable_argsort_ok
              sorting_argpartition_ok
              ltac:(lia) ltac:(unfold short; simpl; lia)
              ltac:(unfold short; simpl; lia) ltac:(lia)
              ltac:(unfold short_pool, short; simpl;
                    repeat constructor; simpl; lia)
              ltac:(lia))
    as (pos & Hres & _ & _ & Hlen & _).
  exists pos. split; [exact Hres | exact Hlen].
Defined.

(** ** Words: split and join *)

Lemma append_nil_r (s : string) : (s ++ EmptyString)%string = s.
Proof. induction s as [| c s IH]; simpl; [| rewrite IH]; reflexivity. Qed.

Lemma append_assoc (a b c : string) :
  ((a ++ b) ++ c)%string = (a ++ (b ++ c))%string.
Proof. induction a as [| x a IH]; simpl; [| rewrite IH]; reflexivity. Qed.

Lemma sol_app (a b : list ascii) :
  string_of_list_ascii (a ++ b)
  = (string_of_list_ascii a ++ string_of_list_ascii b)%string.
Proof. induction a as [| x a IH]; simpl; [| rewrite IH]; reflexivity. Qed.

Lemma all_chars_app (p : ascii -> bool) (a b : string) :
  all_chars p (a ++ b) = all_chars p a && all_chars p b.
Proof.
  induction a as [| x a IH]; simpl; [reflexivity |].
  rewrite IH, andb_assoc. reflexivity.
Qed.

Lemma all_chars_sol (p : ascii -> bool) (l : list ascii) :
  all_chars p (string_of_list_ascii l) = forallb p l.
Proof. induction l as [| x l IH]; simpl; [| rewrite IH]; reflexivity. Qed.

Lemma all_chars_los (p : ascii -> bool) (s : string) :
  forallb p (list_ascii_of_string s) = all_chars p s.
Proof. induction s as [| x s IH]; simpl; [| rewrite IH]; reflexivity. Qed.

Lemma forallb_rev {A : Type} (p : A -> bool) (l : list A) :
  forallb p l = true -> forallb p (rev l) = true.
Proof.
  rewrite !forallb_forall. intros H x Hx. apply H, in_rev, Hx.
Qed.

(** The words [split] makes are words. *)
Lemma split_from_ok (s acc : string) :
  all_chars nonspace acc = true ->
  Forall (fun w => is_word w = true) (split_from s acc).
Proof.
  revert acc. induction s as [| c s IH]; intros acc Hacc; simpl.
  - destruct (is_empty acc) eqn:E; constructor; [| constructor].
    unfold is_word. rewrite E, Hacc. reflexivity.
  - destruct (isspace c) eqn:Ec.
    + destruct (is_empty acc) eqn:E; [apply IH; reflexivity |].
      constructor; [| apply IH; reflexivity].
      unfold is_word. rewrite E, Hacc. reflexivity.
    + apply IH. rewrite all_chars_app, Hacc. simpl.
      unfold nonspace. rewrite Ec. reflexivity.
Qed.

Lemma py_split_ok (s : string) :
  Forall (fun w => is_word w = true) (py_split s).
Proof. apply split_from_ok. reflexivity. Qed.

Lemma split_from_word (w rest acc : string) :
  all_chars nonspace w = true ->
  split_from (w ++ rest) acc = split_from rest (acc ++ w).
Proof.
  revert acc. induction w as [| c w IH]; intros acc H; simpl in *.
  - rewrite append_nil_r. reflexivity.
  - apply andb_true_iff in H. destruct H as [Hc Hw].
    unfold nonspace in Hc. apply negb_true_iff in Hc. rewrite Hc.
    rewrite (IH _ Hw), append_assoc. reflexivity.
Qed.

(** Joining words and splitting the result gives the words back. *)
Lemma split_join (ws : list string) :
  Forall (fun w => is_word w = true) ws -> py_split (py_join ws) = ws.
Proof.
  induction 1 as [| w ws Hw HF IH]; [reflexivity |].
  unfold py_split, py_join in *.
  apply andb_true_iff in Hw. destruct Hw as [Hne Hch].
  apply negb_true_iff in Hne.
  cbn [String.concat]. destruct ws as [| w' ws'].
  - rewrite <- (append_nil_r w) at 1. rewrite (split_from_word _ _ _ Hch).
    cbn [split_from String.append]. rewrite Hne. reflexivity.
  - rewrite (split_from_word _ _ _ Hch).
    cbn [split_from String.append].
    change (isspace " ") with true. cbv iota. rewrite Hne.
    f_equal. exact IH.
Qed.

Lemma py_sorted_perm_self (ws : list string) :
  Permutation (py_sorted ws) ws
  /\ Sorted (fun a b => String.ltb b a = false) (py_sorted ws).
Proof.
  destruct (py_sorted_from ws [] (Sorted_nil _)) as [HP HS].
  rewrite app_nil_r in HP. split; assumption.
Qed.

Lemma py_sorted_ok (ws : list string) :
  Forall (fun w => is_word w = true) ws ->
  Forall (fun w => is_word w = true) (py_sorted ws).
Proof.
  intros H. destruct (py_sorted_perm_self ws) as [HP _].
  apply (Permutation_Forall (Permutation_sym HP) H).
Qed.

Lemma split_sort_tokens (s : string) :
  py_split (sort_tokens s) = py_sorted (py_split s).
Proof.
  unfold sort_tokens. apply split_join, py_sorted_ok, py_split_ok.
Qed.

(** X14.  [sort_and_token] keeps the words of a string and puts them in
    ascending order, and applying it twice gives what applying it once
    gives. *)
Theorem X14_sort_and_token_sorts_once (s : string) :
  sort_and_token (PyStr s) = Ok (PyStr (sort_tokens s))
  /\ Permutation (py_split (sort_tokens s)) (py_split s)
  /\ Sorted word_le (py_split (sort_tokens s))
  /\ (t <- sort_and_token (PyStr s) ;; sort_and_token t)
     = sort_and_token (PyStr s).
Proof.
  split; [reflexivity |]. rewrite split_sort_tokens.
  destruct (py_sorted_perm_self (py_split s)) as [HP HS].
  split; [exact HP |]. split; [exact HS |].
  cbn [sort_and_token bind]. fold (sort_tokens s).
  rewrite split_sort_tokens.
  rewrite (py_sorted_perm _ _ HP). reflexivity.
Qed.

(** ** The names preproc_string returns *)

Lemma keep_alnum_space_chars (s : string) :
  all_chars name_char (keep_alnum_space s) = true.
Proof.
  induction s as [| c s IH]; simpl; [reflexivity |].
  destruct (isletter c || ((48 <=? code c) && (code c <=? 57))%N || isspace c)
    eqn:E; [| exact IH].
  simpl. unfold name_char at 1. rewrite E, IH. reflexivity.
Qed.

Lemma span_space_snd (p : ascii -> bool) (l : list ascii) :
  forallb p l = true -> forallb p (snd (span_space l)) = true.
Proof.
  induction l as [| c l IH]; intros H; simpl; [reflexivity |].
  destruct (isspace c); [| exact H].
  simpl in H. apply andb_true_iff in H. destruct H as [_ H].
  destruct (span_space l) as [w r]. simpl in *. auto.
Qed.

Lemma collapse_spaces_from_chars (p : ascii -> bool) (fuel : nat)
    (l : list ascii) :
  p " "%char = true -> forallb p l = true ->
  forallb p (collapse_spaces_from fuel l) = true.
Proof.
  intros Hsp. revert l. induction fuel as [| fuel IH]; intros l Hl;
    [exact Hl |].
  destruct l as [| c tail]; [reflexivity |].
  cbn [collapse_spaces_from].
  pose proof (span_space_snd p (c :: tail) Hl) as Hrest.
  destruct (span_space (c :: tail)) as [w rest]. cbn [snd] in Hrest.
  assert (Hother :
    forallb p (if existsb (Ascii.eqb " ") w
               then " "%char :: collapse_spaces_from fuel rest
               else c :: collapse_spaces_from fuel tail) = true).
  { simpl in Hl. apply andb_true_iff in Hl. destruct Hl as [Hc Htail].
    destruct (existsb (Ascii.eqb " ") w); simpl.
    - rewrite Hsp. apply IH. exact Hrest.
    - rewrite Hc. apply IH. exact Htail. }
  destruct rest as [| x rest']; [exact Hother |].
  assert (Hamp :
    forallb p (" "%char :: collapse_spaces_from fuel (snd (span_space rest')))
    = true).
  { simpl. rewrite Hsp. apply IH. apply span_space_snd.
    simpl in Hrest. apply andb_true_iff in Hrest. tauto. }
  destruct x as [[] [] [] [] [] [] [] []];
    first [exact Hamp | exact Hother].
Qed.

Lemma name_char_blank : name_char " "%char = true.
Proof. reflexivity. Qed.

Lemma collapse_spaces_chars (s : string) :
  all_chars name_char s = true ->
  all_chars name_char (collapse_spaces s) = true.
Proof.
  intros H. unfold collapse_spaces. rewrite all_chars_sol.
  apply collapse_spaces_from_chars; [reflexivity |].
  rewrite all_chars_los. exact H.
Qed.

Lemma split_from_chars (p : ascii -> bool) (s acc : string) :
  all_chars p s = true -> all_chars p acc = true ->
  Forall (fun w => all_chars p w = true) (split_from s acc).
Proof.
  revert acc. induction s as [| c s IH]; intros acc Hs Hacc; simpl.
  - destruct (is_empty acc); repeat constructor. exact Hacc.
  - simpl in Hs. apply andb_true_iff in Hs. destruct Hs as [Hc Hs].
    destruct (isspace c).
    + destruct (is_empty acc); [apply IH; auto |].
      constructor; [exact Hacc | apply IH; auto].
    + apply IH; [exact Hs |].
      rewrite all_chars_app, Hacc. simpl. rewrite Hc. reflexivity.
Qed.

Lemma py_join_chars (p : ascii -> bool) (ws : list string) :
  p " "%char = true ->
  Forall (fun w => all_chars p w = true) ws ->
  all_chars p (py_join ws) = true.
Proof.
  intros Hsp. unfold py_join.
  induction 1 as [| w ws Hw HF IH]; [reflexivity |].
  cbn [String.concat]. destruct ws as [| w' ws']; [exact Hw |].
  rewrite !all_chars_app, Hw, IH. simpl. rewrite Hsp. reflexivity.
Qed.

Lemma remove_words_chars (r f : string) :
  all_chars name_char f = true ->
  all_chars name_char (remove_words r f) = true.
Proof.
  intros H. unfold remove_words. apply py_join_chars; [reflexivity |].
  apply Forall_forall. intros w Hw. apply filter_In in Hw.
  destruct Hw as [Hw _].
  pose proof (split_from_chars name_char f EmptyString H eq_refl) as HF.
  rewrite Forall_forall in HF. apply HF. exact Hw.
Qed.

(** *** strip *)

Lemma lstrip_split (l : list ascii) :
  exists ws, l = ws ++ lstrip l /\ forallb isspace ws = true.
Proof.
  induction l as [| c l IH]; simpl.
  - exists []. split; reflexivity.
  - destruct (isspace c) eqn:Ec.
    + destruct IH as (ws & Hl & Hws). exists (c :: ws). split.
      * simpl. rewrite <- Hl. reflexivity.
      * simpl. rewrite Ec. exact Hws.
    + exists []. split; reflexivity.
Qed.

Lemma lstrip_head (l : list ascii) : head_space (lstrip l) = false.
Proof.
  induction l as [| c l IH]; simpl; [reflexivity |].
  destruct (isspace c) eqn:Ec; [exact IH | simpl; exact Ec].
Qed.

Lemma lstrip_chars (p : ascii -> bool) (l : list ascii) :
  forallb p l = true -> forallb p (lstrip l) = true.
Proof.
  induction l as [| c l IH]; intros H; simpl; [reflexivity |].
  destruct (isspace c); [| exact H].
  simpl in H. apply andb_true_iff in H. apply IH. tauto.
Qed.

(** What [strip] takes away is whitespace at the two ends. *)
Lemma py_strip_parts (s : string) :
  exists (ws1 ws2 core : list ascii),
    s = (string_of_list_ascii ws1
         ++ (string_of_list_ascii core ++ string_of_list_ascii ws2))%string
    /\ py_strip s = string_of_list_ascii core
    /\ forallb isspace ws1 = true /\ forallb isspace ws2 = true
    /\ head_space core = false /\ head_space (rev core) = false.
Proof.
  unfold py_strip. set (l := list_ascii_of_string s).
  destruct (lstrip_split l) as (ws1 & Hl & Hws1).
  destruct (lstrip_split (rev (lstrip l))) as (ws2 & Hl2 & Hws2).
  set (l1 := lstrip l) in *. set (l2 := lstrip (rev l1)) in *.
  assert (Hl1 : l1 = rev l2 ++ rev ws2).
  { rewrite <- (rev_involutive l1), Hl2, rev_app_distr. reflexivity. }
  exists ws1, (rev ws2), (rev l2). split; [| split; [reflexivity |]].
  - rewrite <- !sol_app, <- Hl1, <- Hl. unfold l.
    symmetry. apply string_of_list_ascii_of_string.
  - split; [exact Hws1 |]. split; [apply forallb_rev; exact Hws2 |]. split.
    + pose proof (lstrip_head l) as Hh. fold l1 in Hh. rewrite Hl1 in Hh.
      destruct (rev l2); [reflexivity | exact Hh].
    + rewrite rev_involutive. apply lstrip_head.
Qed.

Lemma py_strip_chars (p : ascii -> bool) (s : string) :
  all_chars p s = true -> all_chars p (py_strip s) = true.
Proof.
  intros H. unfold py_strip. rewrite all_chars_sol.
  apply forallb_rev, lstrip_chars, forallb_rev, lstrip_chars.
  rewrite all_chars_los. exact H.
Qed.

Lemma py_strip_trimmed (s : string) : trimmed (py_strip s) = true.
Proof.
  destruct (py_strip_parts s) as (ws1 & ws2 & core & _ & -> & _ & _ & H1 & H2).
  unfold trimmed. rewrite list_ascii_of_string_of_list_ascii, H1, H2.
  reflexivity.
Qed.

Lemma py_strip_clean (s : string) :
  all_chars name_char s = true -> clean (py_strip s) = true.
Proof.
  intros H. unfold clean.
  rewrite (py_strip_chars _ _ H), py_strip_trimmed. reflexivity.
Qed.

Lemma split_spaces (ws : list ascii) (acc : string) :
  forallb isspace ws = true ->
  split_from (string_of_list_ascii ws) acc
  = if is_empty acc then [] else [acc].
Proof.
  revert acc. induction ws as [| c ws IH]; intros acc H; simpl;
    [reflexivity |].
  simpl in H. apply andb_true_iff in H. destruct H as [Hc H].
  rewrite Hc, (IH EmptyString H). destruct (is_empty acc); reflexivity.
Qed.

Lemma split_from_spaces_l (ws : list ascii) (s : string) :
  forallb isspace ws = true ->
  split_from (string_of_list_ascii ws ++ s) EmptyString
  = split_from s EmptyString.
Proof.
  induction ws as [| c ws IH]; intros H; simpl; [reflexivity |].
  simpl in H. apply andb_true_iff in H. destruct H as [Hc H].
  rewrite Hc. apply IH. exact H.
Qed.

Lemma split_from_spaces_r (s : string) (ws : list ascii) (acc : string) :
  forallb isspace ws = true ->
  split_from (s ++ string_of_list_ascii ws) acc = split_from s acc.
Proof.
  intros H. revert acc. induction s as [| c s IH]; intros acc; simpl.
  - apply split_spaces. exact H.
  - destruct (isspace c); [destruct (is_empty acc) |]; rewrite IH;
      reflexivity.
Qed.

(** [strip] changes no word. *)
Lemma py_strip_split (s : string) : py_split (py_strip s) = py_split s.
Proof.
  destruct (py_strip_parts s) as (ws1 & ws2 & core & Hs & -> & H1 & H2 & _).
  rewrite Hs. unfold py_split.
  rewrite (split_from_spaces_l _ _ H1), (split_from_spaces_r _ _ _ H2).
  reflexivity.
Qed.

Lemma remove_words_split (r f : string) :
  py_split (remove_words r f) = filter (not_among (py_split r)) (py_split f).
Proof.
  unfold remove_words. rewrite split_join; [reflexivity |].
  apply Forall_forall. intros w Hw. apply filter_In in Hw.
  destruct Hw as [Hw _].
  pose proof (py_split_ok f) as HF. rewrite Forall_forall in HF. auto.
Qed.

Lemma pyseq_strings_array (st : list string) :
  pyseq_strings (array_or_scalar st) = st.
Proof. destruct st as [| a [| b st]]; reflexivity. Qed.

Lemma zip_with_in {A B C : Type} (g : A -> B -> C) (xs : list A) (ys : list B)
    (z : C) :
  In z (zip_with g xs ys) -> exists x y, In x xs /\ In y ys /\ z = g x y.
Proof.
  revert ys. induction xs as [| x xs IH]; intros [| y ys] H; simpl in H;
    try contradiction.
  destruct H as [<- | H].
  - exists x, y. simpl. auto.
  - destruct (IH _ H) as (x' & y' & Hx & Hy & ->).
    exists x', y'. simpl. auto.
Qed.

Lemma zip_with_nth {A B C : Type} (g : A -> B -> C) (xs : list A) (ys : list B)
    (i : nat) (z : C) :
  nth_error (zip_with g xs ys) i = Some z ->
  exists x y, nth_error xs i = Some x /\ nth_error ys i = Some y /\ z = g x y.
Proof.
  revert ys i. induction xs as [| x xs IH]; intros [| y ys] [| i] H;
    simpl in H; try discriminate.
  - injection H as <-. exists x, y. auto.
  - apply (IH _ _ H).
Qed.

Lemma map_nth_inv {A B : Type} (g : A -> B) (l : list A) (i : nat) (y : B) :
  nth_error (map g l) i = Some y ->
  exists x, nth_error l i = Some x /\ y = g x.
Proof.
  revert i. induction l as [| x l IH]; intros [| i] H; simpl in H;
    try discriminate.
  - injection H as <-. exists x. split; reflexivity.
  - apply (IH _ H).
Qed.

(** X15.  On strings of characters below U+0100, as are the strings here,
    inputs and results of the substitutions alike: the registrants and
    funds [preproc_string] returns hold nothing but ASCII letters, the
    digits 0 to 9 and whitespace, and neither start nor end with
    whitespace, whatever the stop words and the regular expressions do.
    (Above U+00FF the class [\d] of the pattern holds further decimal
    digits, which the pattern keeps as well.) *)
Theorem X15_preproc_string_names_are_clean
    (re_sub : string -> string -> string -> string) (strings : pyinput)
    (trim_words : option (list string))
    (regex_sub : option (list (string * string))) (rem_reg_from_fund : bool)
    (st_r st_f : pyseq) :
  preproc_string re_sub strings trim_words regex_sub rem_reg_from_fund
  = Some (st_r, st_f) ->
  Forall (fun s => clean s = true) (pyseq_strings st_r)
  /\ Forall (fun s => clean s = true) (pyseq_strings st_f).
Proof.
  unfold preproc_string. intros H.
  destruct (input_len strings =? 0)%nat; [discriminate |].
  cbv zeta in H. injection H as <- <-.
  rewrite !pyseq_strings_array.
  assert (Hmap : forall l : list string,
            Forall (fun s => clean s = true)
              (map py_strip (map collapse_spaces (map keep_alnum_space l)))).
  { intros l. apply Forall_forall. intros x Hx.
    apply in_map_iff in Hx. destruct Hx as (a & <- & Ha).
    apply in_map_iff in Ha. destruct Ha as (b & <- & Hb).
    apply in_map_iff in Hb. destruct Hb as (c & <- & Hc).
    apply py_strip_clean, collapse_spaces_chars, keep_alnum_space_chars. }
  split; [apply Hmap |].
  destruct rem_reg_from_fund; [| apply Hmap].
  apply Forall_forall. intros x Hx.
  apply in_map_iff in Hx. destruct Hx as (a & <- & Ha).
  apply zip_with_in in Ha. destruct Ha as (r & f & _ & Hf & ->).
  apply in_map_iff in Hf. destruct Hf as (b & <- & Hb).
  apply in_map_iff in Hb. destruct Hb as (c & <- & Hc).
  apply py_strip_clean, remove_words_chars, collapse_spaces_chars,
    keep_alnum_space_chars.
Qed.

Lemma X15_preproc_string_names_are_clean_witness :
  Forall (fun s => clean s = true)
    (pyseq_strings (SArray ["ab fund inc"; "xyfund"]%string))
  /\ Forall (fun s => clean s = true)
       (pyseq_strings (SArray ["cd co"; "zw a"]%string)).
Proof.
  apply (X15_preproc_string_names_are_clean no_regex
           (InSeq ["  Ab Fund, Inc. : Cd & Co "; "Xy-Fund : Zw (A)"]%string)
           None None false).
  vm_compute. reflexivity.
Defined.

(** X16.  With [rem_reg_from_fund], [preproc_string] returns the
    registrants it returns without it, and the words of each fund are the
    words of the fund without the option that are no words of its
    registrant, in their order: no word of a returned fund is a word of
    its registrant. *)
Theorem X16_rem_reg_from_fund_removes_registrant_words
    (re_sub : string -> string -> string -> string) (strings : pyinput)
    (trim_words : option (list string))
    (regex_sub : option (list (string * string)))
    (st_r st_f plain_r plain_f : pyseq) :
  preproc_string re_sub strings trim_words regex_sub true
  = Some (st_r, st_f) ->
  preproc_string re_sub strings trim_words regex_sub false
  = Some (plain_r, plain_f) ->
  st_r = plain_r
  /\ forall (i : nat) (r f f0 : string),
       nth_error (pyseq_strings st_r) i = Some r ->
       nth_error (pyseq_strings st_f) i = Some f ->
       nth_error (pyseq_strings plain_f) i = Some f0 ->
       py_split f = filter (not_among (py_split r)) (py_split f0)
       /\ forall w : string, In w (py_split f) -> ~ In w (py_split r).
Proof.
  unfold preproc_string. intros H1 H2.
  destruct (input_len strings =? 0)%nat; [discriminate |].
  cbv zeta in H1, H2. injection H1 as <- <-. injection H2 as <- <-.
  split; [reflexivity |].
  rewrite !pyseq_strings_array. intros i r f f0 Hr Hf Hf0.
  apply map_nth_inv in Hr. destruct Hr as (a & Ha & ->).
  apply map_nth_inv in Hf0. destruct Hf0 as (b & Hb & ->).
  apply map_nth_inv in Hf. destruct Hf as (x & Hx & ->).
  apply zip_with_nth in Hx. destruct Hx as (a' & b' & Ha' & Hb' & ->).
  rewrite Ha in Ha'. injection Ha' as <-.
  rewrite Hb in Hb'. injection Hb' as <-.
  rewrite !py_strip_split, remove_words_split.
  split; [reflexivity |].
  intros w Hw Hin. apply filter_In in Hw. destruct Hw as [_ Hw].
  unfold not_among in Hw. apply negb_true_iff in Hw.
  assert (Hex : existsb (String.eqb w) (py_split a) = true).
  { apply existsb_exists. exists w. split; [exact Hin |].
    apply String.eqb_refl. }
  congruence.
Qed.

Lemma X16_rem_reg_from_fund_removes_registrant_words_witness :
  SArray ["alpha growth"; "beta"]%string
  = SArray ["alpha growth"; "beta"]%string
  /\ forall (i : nat) (r f f0 : string),
       nth_error (pyseq_strings (SArray ["alpha growth"; "beta"]%string)) i
       = Some r ->
       nth_error (pyseq_strings (SArray ["income fund"; "gamma"]%string)) i
       = Some f ->
       nth_error
         (pyseq_strings
            (SArray ["alpha growth income fund"; "gamma"]%string)) i
       = Some f0 ->
       py_split f = filter (not_among (py_split r)) (py_split f0)
       /\ forall w : string, In w (py_split f) -> ~ In w (py_split r).
Proof.
  apply (X16_rem_reg_from_fund_removes_registrant_words no_regex
           (InSeq ["Alpha Growth : Alpha Growth Income Fund";
                   "Beta : Gamma"]%string) None None).
  - vm_compute. reflexivity.
  - vm_compute. reflexivity.
Defined.

(** ** The scores 100 and 0 *)

Lemma uncovered_bound (covers : nat -> block -> bool) (bs : list block)
    (n : nat) :
  Forall (fun p => (p < n)%nat) (uncovered covers bs n).
Proof.
  apply Forall_forall. intros p Hp. unfold uncovered in Hp.
  apply filter_In in Hp. destruct Hp as [Hp _]. apply in_seq in Hp. lia.
Qed.

Lemma penalty_of_zero (d : Z) (s : string) (positions : list nat) :
  1 <= d -> Forall (fun p => (p < str_len s)%nat) positions ->
  penalty_of d s positions = 0 -> positions = [].
Proof.
  intros Hd HF H0. pose proof (penalty_of_ge d s positions Hd HF) as Hge.
  rewrite H0 in Hge.
  destruct positions; [reflexivity | cbn [List.length] in Hge; lia].
Qed.

(** X17.  With an integer multiplier of at least 1, the score of two
    strings that are not empty is 100 exactly when the blocks of the
    aligner leave no character of either string uncovered, and it is 0
    when the blocks match no character at all. *)
Theorem X17_score_100_means_nothing_unmatched
    (get_matching_blocks : string -> string -> list block)
    (a b : string) (d : Z) :
  matching_blocks_spec get_matching_blocks -> 1 <= d ->
  d * Z.of_nat (str_len a + str_len b) <= 2 ^ 32 ->
  is_empty a = false -> is_empty b = false ->
  exists s,
    score_of get_matching_blocks (PyStr b) (PyStr a) (PInt d) = Ok s
    /\ (s = 100
        <-> uncovered covers_a (get_matching_blocks a b) (str_len a) = []
            /\ uncovered covers_b (get_matching_blocks a b) (str_len b) = [])
    /\ (sum_lengths (get_matching_blocks a b) = 0 -> s = 0).
Proof.
  intros Hblocks Hd Hlen Ea Eb.
  change (score_of get_matching_blocks (PyStr b) (PyStr a) (PInt d))
    with (compute_score get_matching_blocks (scorer_on a b (PInt d) false)).
  rewrite (compute_score_at _ a b d false (Hblocks a b)), Ea, Eb.
  cbn [andb orb].
  pose proof (penalty_value_uncovered _ a b d (Hblocks a b)) as Hpen.
  destruct (penalty_value_bounds _ a b d (Hblocks a b) Hd)
    as (Hm0 & Hma & Hmb & Hp).
  apply is_empty_len in Ea, Eb.
  set (m := sum_lengths (get_matching_blocks a b)) in *.
  set (pen := penalty_value get_matching_blocks d a b) in *.
  set (Ua := uncovered covers_a (get_matching_blocks a b) (str_len a)) in *.
  set (Ub := uncovered covers_b (get_matching_blocks a b) (str_len b)) in *.
  pose proof (penalty_of_ge d a Ua Hd (uncovered_bound _ _ _)) as Ga.
  pose proof (penalty_of_ge d b Ub Hd (uncovered_bound _ _ _)) as Gb.
  assert (Hzero : pen = 0 <-> Ua = [] /\ Ub = []).
  { split.
    - intros H0. split.
      + apply (penalty_of_zero d a Ua Hd (uncovered_bound _ _ _)). lia.
      + apply (penalty_of_zero d b Ub Hd (uncovered_bound _ _ _)). lia.
    - intros [Ha Hb]. rewrite Hpen, Ha, Hb. reflexivity. }
  destruct (Z.eq_dec pen 0) as [H0 | Hpos].
  - exists 100. rewrite H0. split; [apply ratio_percent_full; lia |].
    split; [tauto | lia].
  - destruct (ratio_percent_below m (m + pen) (m + pen) 100)
      as (s & Hs & Hs0 & Hs1); try nia.
    replace (m + pen - m) with pen in Hs by lia.
    exists s. split; [exact Hs |]. split.
    + split; [lia | intros H; apply Hzero in H; lia].
    + intros Hm.
      destruct (ratio_percent_below m (m + pen) (m + pen) 1)
        as (s' & Hs' & Hs0' & Hs1'); try nia.
      replace (m + pen - m) with pen in Hs' by lia.
      rewrite Hs in Hs'. injection Hs' as <-. lia.
Qed.

Lemma X17_score_100_means_nothing_unmatched_witness :
  exists s,
    score_of spec_matching_blocks (PyStr "fund 124") (PyStr "fund 123")
      (PInt 3) = Ok s
    /\ (s = 100
        <-> uncovered covers_a (spec_matching_blocks "fund 123" "fund 124")
              (str_len "fund 123") = []
            /\ uncovered covers_b (spec_matching_blocks "fund 123" "fund 124")
                 (str_len "fund 124") = [])
    /\ (sum_lengths (spec_matching_blocks "fund 123" "fund 124") = 0 -> s = 0).
Proof.
  exact (X17_score_100_means_nothing_unmatched spec_matching_blocks
           "fund 123" "fund 124" 3 spec_matching_blocks_ok ltac:(lia)
           ltac:(simpl; lia) eq_refl eq_refl).
Defined.

(** ** Changing the choice of a scorer *)

(** X18.  [set_choice] on a scorer leaves what the constructor builds for
    the new choice, errors included: the scorer depends on its last choice
    only. *)
Theorem X18_set_choice_is_a_new_scorer
    (to_match choice0 choice : pyobj) (dm : pynum) (st : bool)
    (fus : FuzzyScorer) :
  FuzzyScorer_init to_match choice0 dm st = Ok fus ->
  set_choice fus choice = FuzzyScorer_init to_match choice dm st
  /\ forall (choice1 : pyobj) (fus1 : FuzzyScorer),
       set_choice fus choice1 = Ok fus1 ->
       set_choice fus1 choice = set_choice fus choice.
Proof.
  intros H.
  assert (Hset : forall c0 f c,
            FuzzyScorer_init to_match c0 dm st = Ok f ->
            set_choice f c = FuzzyScorer_init to_match c dm st).
  { intros c0 f c Hf. unfold FuzzyScorer_init, set_choice in *.
    destruct st.
    - destruct c0, to_match; simpl in Hf; try discriminate;
        injection Hf as <-; destruct c; reflexivity.
    - simpl in Hf. injection Hf as <-. reflexivity. }
  split; [exact (Hset _ _ _ H) |].
  intros choice1 fus1 H1. rewrite (Hset _ _ choice1 H) in H1.
  rewrite (Hset _ _ choice H1), (Hset _ _ choice H). reflexivity.
Qed.

Lemma X18_set_choice_is_a_new_scorer_witness :
  set_choice
    {| seq1 := PyStr EmptyString; seq2 := PyStr "High Risk";
       seqmat := Some (PyStr EmptyString, PyStr "High Risk");
       digit_multiplier := PInt 3; sorted_token := true |}
    (PyStr "Risk High")
  = FuzzyScorer_init (PyStr "Risk High") (PyStr "Risk High") (PInt 3) true.
Proof.
  exact (proj1 (X18_set_choice_is_a_new_scorer (PyStr "Risk High") PyNone
                  (PyStr "Risk High") (PInt 3) true _ eq_refl)).
Defined.

(** ** preproc with combine_reg_fund *)

Lemma no_colon_after_lower (c : ascii) :
  Ascii.eqb (lower_char (if Ascii.eqb c ":" then " "%char else c)) ":" = false.
Proof. destruct c as [[] [] [] [] [] [] [] []]; reflexivity. Qed.

Lemma split_colon_combined (s : string) :
  split_colon (lower (replace_colon s))
  = (lower (replace_colon s), EmptyString).
Proof.
  induction s as [| c s IH]; [reflexivity |].
  cbn [replace_colon lower split_colon].
  rewrite no_colon_after_lower, IH. reflexivity.
Qed.

(** X19.  With [combine_reg_fund], and no stop words and no regular
    expressions, [preproc] leaves no fund to the queries: the colons of a
    name become blanks, the whole name is cleaned into the registrant, and
    every fund is the empty string. *)
Theorem X19_combine_reg_fund_leaves_no_fund
    (re_sub : string -> string -> string -> string)
    (s : string) (l : list string) (candidates : pyinput)
    (positions : option (list Z)) (rem_reg_from_fund : bool) :
  exists self,
    preproc re_sub (FuzzyFundMatcher_init (InSeq (s :: l)) candidates positions)
      None (Some []) rem_reg_from_fund true
    = Ok self
    /\ to_matches self = InSeq (map replace_colon (s :: l))
    /\ to_matches_r self
       = array_or_scalar
           (map (fun e =>
                   py_strip
                     (collapse_spaces
                        (keep_alnum_space (lower (replace_colon e)))))
              (s :: l))
    /\ to_matches_f self
       = array_or_scalar (map (fun _ => EmptyString) (s :: l)).
Proof.
  unfold preproc.
  cbn [to_matches choices to_matches_r to_matches_f choices_r choices_f
       match_pos FuzzyFundMatcher_init combine_names].
  assert (Hq :
    preproc_string re_sub (InSeq (map replace_colon (s :: l))) None (Some [])
      rem_reg_from_fund
    = Some (array_or_scalar
              (map (fun e =>
                      py_strip
                        (collapse_spaces
                           (keep_alnum_space (lower (replace_colon e)))))
                 (s :: l)),
            array_or_scalar (map (fun _ => EmptyString) (s :: l)))).
  { unfold preproc_string. cbn [input_len]. rewrite length_map.
    cbn [List.length Nat.eqb fold_left].
    set (names := s :: l).
    assert (Hsplit : map split_colon (map lower (map replace_colon names))
                     = map (fun e => (lower (replace_colon e), EmptyString))
                         names).
    { rewrite !map_map. apply map_ext. intros e. apply split_colon_combined. }
    rewrite Hsplit, !map_map. cbn [fst snd].
    f_equal. f_equal. f_equal.
    destruct rem_reg_from_fund.
    - rewrite zip_with_map, map_map. apply map_ext. intros e. reflexivity.
    - rewrite map_map. reflexivity. }
  change (combine_names (InSeq (s :: l)))
    with (InSeq (map replace_colon (s :: l))).
  rewrite Hq.
  destruct (preproc_string re_sub (combine_names candidates) None (Some [])
              rem_reg_from_fund) as [[cr cf] |];
    eexists; (split; [reflexivity |]); auto.
Qed.

(** ** find_best on a pool that is no array *)

(** X20.  With the quick comparison and without the process pool,
    [find_best] on a matcher whose candidates are [None], a single name or
    an empty array, which is what [preproc] leaves of fewer than two
    candidates, returns [None] for every query. *)
Theorem X20_find_best_without_a_pool
    (get_matching_blocks : string -> string -> list block)
    (argsort : list Z -> list nat) (argpartition : list Z -> nat -> list nat)
    (pool_map : (pyobj * pyobj -> result (option (list pick))) ->
                list (pyobj * pyobj) -> result (list (option (list pick))))
    (self : FuzzyFundMatcher) (rs fs : list string)
    (top_n : option Z) (valid_threshold dm : pynum) (oi : bool) :
  to_matches_r self = SArray rs -> to_matches_f self = SArray fs ->
  Forall short rs ->
  no_pool (choices_r self) = true ->
  find_best get_matching_blocks argsort argpartition pool_map self top_n
    valid_threshold dm false true oi
  = Ok (repeat None (Nat.min (List.length rs) (List.length fs))).
Proof.
  intros Hr Hf Hshort Hpool.
  assert (Hnone : forall r f, short r ->
    find_cur_best get_matching_blocks argsort argpartition (PyStr r)
      (PyStr f) (choices_r self) (choices_f self) (match_pos self) top_n
      valid_threshold dm true oi = Ok None).
  { intros r f Hq. apply find_cur_best_returned.
    destruct (choices_r self) as [| c | [| c0 cs]];
      [reflexivity | apply quick_block_no_array; exact Hq | reflexivity
      | discriminate]. }
  unfold find_best. rewrite Hr, Hf.
  cbn [py_iter]. rewrite !bind_Ok.
  rewrite (find_best_loop
             (wrapper_find_cur_best get_matching_blocks argsort argpartition
                (choices_r self) (choices_f self) (match_pos self) top_n
                valid_threshold dm true oi)
             short (fun _ => True) rs fs).
  - f_equal. clear Hr Hf.
    revert fs. induction Hshort as [| r rs Hq HF IH]; intros [| f fs];
      try reflexivity.
    cbn [zip_with List.length Nat.min repeat]. rewrite IH. f_equal.
    unfold wrapper_find_cur_best. cbn [fst snd].
    rewrite (Hnone r f Hq). reflexivity.
  - intros r f Hq _. unfold wrapper_find_cur_best. cbn [fst snd].
    rewrite (Hnone r f Hq). eauto.
  - exact Hshort.
  - apply Forall_forall. intros; exact I.
Qed.

Lemma X20_find_best_without_a_pool_witness :
  find_best spec_matching_blocks stable_argsort sorting_argpartition
    ordered_pool_map
    {| to_matches := InSeq []; choices := InSeq [];
       to_matches_r := SArray ["ab fund"; "xy fund"]%string;
       to_matches_f := SArray ["cd co"; "zw"]%string;
       choices_r := SScalar "ab fund"; choices_f := SScalar "cd co";
       match_pos := [0] |}
    (Some 3) (PInt 0) (PInt 1) false true true
  = Ok (repeat None 2).
Proof.
  apply (X20_find_best_without_a_pool spec_matching_blocks stable_argsort
           sorting_argpartition ordered_pool_map
           {| to_matches := InSeq []; choices := InSeq [];
              to_matches_r := SArray ["ab fund"; "xy fund"]%string;
              to_matches_f := SArray ["cd co"; "zw"]%string;
              choices_r := SScalar "ab fund"; choices_f := SScalar "cd co";
              match_pos := [0] |}
           ["ab fund"; "xy fund"]%string ["cd co"; "zw"]%string
           (Some 3) (PInt 0) (PInt 1) true).
  - reflexivity.
  - reflexivity.
  - unfold short. simpl. repeat constructor; simpl; lia.
  - reflexivity.
Defined.

(** ** The matches are candidates of the pool *)

Lemma NoDup_map_filter {A B : Type} (g : A -> B) (keep : A -> bool)
    (l : list A) :
  NoDup (map g l) -> NoDup (map g (filter keep l)).
Proof.
  induction l as [| x l IH]; intros H; simpl; [constructor |].
  simpl in H. inversion H as [| ? ? Hx Hl]; subst.
  destruct (keep x); [| apply IH; exact Hl].
  simpl. constructor; [| apply IH; exact Hl].
  intros Hin. apply Hx. apply in_map_iff in Hin.
  destruct Hin as (y & Hy & Hin). apply filter_In in Hin.
  apply in_map_iff. exists y. tauto.
Qed.

Lemma NoDup_map_nth {A : Type} (l : list A) (d : A) (pos : list nat) :
  NoDup l -> NoDup pos -> Forall (fun k => (k < List.length l)%nat) pos ->
  NoDup (map (fun k => nth k l d) pos).
Proof.
  intros Hl Hpos HF. induction Hpos as [| k pos Hk Hpos IH]; simpl;
    [constructor |].
  inversion HF as [| ? ? Hlt HF']; subst.
  constructor; [| apply IH; exact HF'].
  intros Hin. apply in_map_iff in Hin. destruct Hin as (k' & Heq & Hk').
  rewrite Forall_forall in HF'.
  assert (k' = k).
  { apply (proj1 (NoDup_nth l d) Hl); [apply HF', Hk' | exact Hlt | exact Heq]. }
  subst. contradiction.
Qed.

(** X21.  With the quick comparison, for an integer multiplier of at
    least 1, each match [find_cur_best] returns is a candidate of the
    pool, with its name, its own position and stage scores that reach the
    threshold; when the positions of the pool are distinct, no position
    comes back twice. *)
Theorem X21_matches_are_candidates
    (get_matching_blocks : string -> string -> list block)
    (argsort : list Z -> list nat) (argpartition : list Z -> nat -> list nat)
    (qr qf : string) (t d : Z) (oi : bool) (top_n : option Z)
    (pool : list candidate) (picks : list pick) :
  matching_blocks_spec get_matching_blocks ->
  argsort_spec argsort -> argpartition_spec argpartition ->
  1 <= d -> short qr -> short qf -> 0 <= t <= 100 ->
  match top_n with Some n => 1 <= n | None => True end ->
  short_pool pool ->
  find_cur_best get_matching_blocks argsort argpartition
    (PyStr qr) (PyStr qf)
    (SArray (map cand_r pool)) (SArray (map cand_f pool))
    (map cand_pos pool) top_n (PInt t) (PInt d) true oi
  = Ok (Some picks) ->
  Forall (fun p =>
            exists (j : nat) (c : candidate),
              nth_error pool j = Some c
              /\ p = emit get_matching_blocks qr qf t d oi c
              /\ fst (fst (fst p)) = label (cand_r c) (cand_f c)
              /\ nth_error (map cand_pos pool) j = Some (pick_pos p)
              /\ t <= primary_score get_matching_blocks qr t d oi c
              /\ t <= secondary_score get_matching_blocks qf t d oi c)
    picks
  /\ (NoDup (map cand_pos pool) -> NoDup (map pick_pos picks)).
Proof.
  intros Hblocks Hsort Hpart Hd Hqr Hqf Ht Htop Hshort Hres.
  destruct (find_cur_best_pool get_matching_blocks argsort argpartition
              Hblocks Hsort Hpart qr qf t d oi top_n Hd Hqr Hqf Ht Htop
              pool Hshort) as (pos & Hpool & Hspec).
  rewrite Hres in Hpool.
  set (S := survivors get_matching_blocks qr qf t d oi pool) in *.
  destruct Hspec as (Hnd & HF & _). rewrite length_map in HF.
  assert (Hpicks :
    picks = map (fun k => emit get_matching_blocks qr qf t d oi
                            (nth k S no_candidate)) pos).
  { destruct S; [discriminate | congruence]. }
  assert (Hsub : forall c, In c S -> In c pool).
  { intros c Hc. unfold S in Hc. rewrite survivors_unfold in Hc.
    repeat (apply filter_In in Hc; destruct Hc as [Hc _]). exact Hc. }
  split.
  - rewrite Hpicks. apply Forall_forall. intros p Hp.
    apply in_map_iff in Hp. destruct Hp as (k & <- & Hk).
    rewrite Forall_forall in HF.
    assert (Hin : In (nth k S no_candidate) S) by (apply nth_In, HF, Hk).
    destruct (survivors_keep _ _ _ _ _ _ _ _ Hin) as [Hp Hs].
    destruct (In_nth_error _ _ (Hsub _ Hin)) as [j Hj].
    exists j, (nth k S no_candidate).
    split; [exact Hj |]. split; [reflexivity |]. split; [reflexivity |].
    split; [| split; assumption].
    rewrite nth_error_map, Hj. reflexivity.
  - intros Hdistinct. rewrite Hpicks, map_map.
    change (fun x : nat =>
              pick_pos (emit get_matching_blocks qr qf t d oi
                          (nth x S no_candidate)))
      with (fun x : nat => cand_pos (nth x S no_candidate)).
    assert (HS : NoDup (map cand_pos S)).
    { unfold S. rewrite survivors_unfold.
      repeat apply NoDup_map_filter. exact Hdistinct. }
    assert (Heq : map (fun k => cand_pos (nth k S no_candidate)) pos
                  = map (fun k => nth k (map cand_pos S)
                                    (cand_pos no_candidate)) pos).
    { apply map_ext. intros k. symmetry. apply map_nth. }
    rewrite Heq. apply NoDup_map_nth; [exact HS | exact Hnd |].
    rewrite length_map. exact HF.
Qed.

Lemma X21_matches_are_candidates_witness :
  NoDup (map pick_pos [("ab fund : cd co", 100, 0, EmptyString)]%string).
Proof.
  refine (proj2
            (X21_matches_are_candidates spec_matching_blocks stable_argsort
               sorting_argpartition "ab fund" "cd co" 95 3 false (Some 3)
               [("ab fund", "cd co", 0); ("xy fund", "zw", 1)]%string
               [("ab fund : cd co", 100, 0, EmptyString)]%string
               spec_matching_blocks_ok stable_argsort_ok
               sorting_argpartition_ok
               ltac:(lia) ltac:(unfold short; simpl; lia)
               ltac:(unfold short; simpl; lia) ltac:(lia) ltac:(simpl; lia)
               ltac:(unfold short_pool, short; simpl;
                     repeat constructor; simpl; lia)
               _) _).
  - vm_compute. reflexivity.
  - simpl. constructor; [simpl; lia |].
    constructor; [simpl; tauto | constructor].
Defined.

(** ** Lower case *)

Lemma lower_char_not_upper (c : ascii) : not_upper (lower_char c) = true.
Proof. destruct c as [[] [] [] [] [] [] [] []]; reflexivity. Qed.

Lemma lower_not_upper (s : string) : all_chars not_upper (lower s) = true.
Proof.
  induction s as [| c s IH]; simpl; [reflexivity |].
  rewrite lower_char_not_upper, IH. reflexivity.
Qed.

Lemma split_colon_chars (p : ascii -> bool) (s : string) :
  all_chars p s = true ->
  all_chars p (fst (split_colon s)) = true
  /\ all_chars p (snd (split_colon s)) = true.
Proof.
  induction s as [| c s IH]; intros H; simpl; [auto |].
  simpl in H. apply andb_true_iff in H. destruct H as [Hc Hs].
  destruct (Ascii.eqb c ":"); [simpl; auto |].
  destruct (IH Hs) as [H1 H2]. destruct (split_colon s) as [r f].
  simpl in *. rewrite Hc, H1. auto.
Qed.

Lemma keep_alnum_space_sub (p : ascii -> bool) (s : string) :
  all_chars p s = true -> all_chars p (keep_alnum_space s) = true.
Proof.
  induction s as [| c s IH]; intros H; simpl; [reflexivity |].
  simpl in H. apply andb_true_iff in H. destruct H as [Hc Hs].
  destruct (isletter c || ((48 <=? code c) && (code c <=? 57))%N || isspace c);
    [simpl; rewrite Hc |]; apply IH; exact Hs.
Qed.

Lemma collapse_spaces_sub (p : ascii -> bool) (s : string) :
  p " "%char = true -> all_chars p s = true ->
  all_chars p (collapse_spaces s) = true.
Proof.
  intros Hsp H. unfold collapse_spaces. rewrite all_chars_sol.
  apply collapse_spaces_from_chars; [exact Hsp |].
  rewrite all_chars_los. exact H.
Qed.

Lemma remove_words_sub (p : ascii -> bool) (r f : string) :
  p " "%char = true -> all_chars p f = true ->
  all_chars p (remove_words r f) = true.
Proof.
  intros Hsp H. unfold remove_words. apply py_join_chars; [exact Hsp |].
  apply Forall_forall. intros w Hw. apply filter_In in Hw.
  destruct Hw as [Hw _].
  pose proof (split_from_chars p f EmptyString H eq_refl) as HF.
  rewrite Forall_forall in HF. apply HF. exact Hw.
Qed.

(** X22.  Called with no stop word and no regular expression,
    [preproc_string] returns names without any upper-case ASCII letter. *)
Theorem X22_preproc_string_lower_case
    (re_sub : string -> string -> string -> string) (strings : pyinput)
    (trim_words : option (list string))
    (regex_sub : option (list (string * string))) (rem_reg_from_fund : bool)
    (st_r st_f : pyseq) :
  no_substitution trim_words regex_sub = true ->
  preproc_string re_sub strings trim_words regex_sub rem_reg_from_fund
  = Some (st_r, st_f) ->
  Forall (fun s => all_chars not_upper s = true) (pyseq_strings st_r)
  /\ Forall (fun s => all_chars not_upper s = true) (pyseq_strings st_f).
Proof.
  intros Hno. unfold preproc_string. intros H.
  destruct (input_len strings =? 0)%nat; [discriminate |].
  cbv zeta in H.
  assert (Htrim : forall st : list string,
            match trim_words with
            | Some ws =>
                fold_left
                  (fun st trim_word =>
                     map (re_sub ("\b" ++ trim_word ++ "\b") " ") st)%string
                  ws st
            | None => st
            end = st).
  { intros st. destruct trim_words as [[| w ws] |]; try reflexivity.
    discriminate. }
  assert (Hsub : forall st : list string,
            match regex_sub with
            | Some rs =>
                fold_left (fun st '(reg, sub) => map (re_sub reg sub) st) rs st
            | None => st
            end = st).
  { intros st. destruct regex_sub as [[| w ws] |]; try reflexivity.
    destruct trim_words as [[| ? ?] |]; discriminate. }
  rewrite !Hsub, !Htrim in H. injection H as <- <-.
  rewrite !pyseq_strings_array.
  set (names := map lower
                  match strings with
                  | InStr s => [s]
                  | InSeq l => l
                  end).
  assert (Hnames : forall s, In s names -> all_chars not_upper s = true).
  { intros s Hs. unfold names in Hs. apply in_map_iff in Hs.
    destruct Hs as (x & <- & _). apply lower_not_upper. }
  assert (Hr : forall (part : string * string -> string) (x : string),
            (forall s, all_chars not_upper s = true ->
                       all_chars not_upper (part (split_colon s)) = true) ->
            In x (map collapse_spaces
                    (map keep_alnum_space (map part (map split_colon names)))) ->
            all_chars not_upper x = true).
  { intros part x Hpart Hx.
    apply in_map_iff in Hx. destruct Hx as (a & <- & Ha).
    apply in_map_iff in Ha. destruct Ha as (b & <- & Hb).
    apply in_map_iff in Hb. destruct Hb as (c & <- & Hc).
    apply in_map_iff in Hc. destruct Hc as (e & <- & He).
    apply collapse_spaces_sub; [reflexivity |].
    apply keep_alnum_space_sub, Hpart, Hnames, He. }
  split.
  - apply Forall_forall. intros x Hx.
    apply in_map_iff in Hx. destruct Hx as (a & <- & Ha).
    apply py_strip_chars. apply (Hr fst a); [| exact Ha].
    intros s Hs. apply (split_colon_chars _ _ Hs).
  - apply Forall_forall. intros x Hx.
    apply in_map_iff in Hx. destruct Hx as (a & <- & Ha).
    apply py_strip_chars. destruct rem_reg_from_fund.
    + apply zip_with_in in Ha. destruct Ha as (r & f & _ & Hf & ->).
      apply remove_words_sub; [reflexivity |].
      apply (Hr snd f); [| exact Hf].
      intros s Hs. apply (split_colon_chars _ _ Hs).
    + apply (Hr snd a); [| exact Ha].
      intros s Hs. apply (split_colon_chars _ _ Hs).
Qed.

Lemma X22_preproc_string_lower_case_witness :
  Forall (fun s => all_chars not_upper s = true)
    (pyseq_strings (SArray ["ab fund inc"; "xyfund"]%string))
  /\ Forall (fun s => all_chars not_upper s = true)
       (pyseq_strings (SArray ["cd co"; "zw a"]%string)).
Proof.
  apply (X22_preproc_string_lower_case no_regex
           (InSeq ["  Ab Fund, Inc. : Cd & Co "; "Xy-Fund : Zw (A)"]%string)
           None None false).
  - reflexivity.
  - vm_compute. reflexivity.
Defined.

(** ** The score from the counts of characters *)

(** X23.  With an integer multiplier [d] of at least 1, the score of two
    strings that are not empty is at most the percentage of the matched
    characters for a penalty of 1 for each unmatched character, and at
    least the percentage for a penalty of [d] for each, less the one point
    the float division can lose; with the default multiplier 1 the two
    percentages are the same, [100 * matches / (len1 + len2 - matches)],
    and the score is that percentage or one less. *)
Theorem X23_score_from_the_counts
    (get_matching_blocks : string -> string -> list block)
    (a b : string) (d : Z) :
  matching_blocks_spec get_matching_blocks -> 1 <= d ->
  d * Z.of_nat (str_len a + str_len b) <= 2 ^ 32 ->
  is_empty a = false -> is_empty b = false ->
  exists s,
    score_of get_matching_blocks (PyStr b) (PyStr a) (PInt d) = Ok s
    /\ let m := sum_lengths (get_matching_blocks a b) in
       let free := Z.of_nat (str_len a) + Z.of_nat (str_len b) - 2 * m in
       0 <= m /\ 0 <= free
       /\ 100 * m / (m + d * free) - 1 <= s <= 100 * m / (m + free).
Proof.
  intros Hblocks Hd Hlen Ea Eb.
  change (score_of get_matching_blocks (PyStr b) (PyStr a) (PInt d))
    with (compute_score get_matching_blocks (scorer_on a b (PInt d) false)).
  destruct (compute_score_within_one get_matching_blocks a b d false
              (Hblocks a b) Hd Hlen) as (s & Hs & Hnear).
  exists s. split; [exact Hs |].
  unfold spec_compute_score in Hnear. rewrite Ea, Eb in Hnear.
  cbn [andb orb] in Hnear. cbv zeta in Hnear.
  rewrite <- (penalty_value_uncovered _ a b d (Hblocks a b)) in Hnear.
  destruct (penalty_value_bounds _ a b d (Hblocks a b) Hd)
    as (Hm0 & Hma & Hmb & Hp).
  apply is_empty_len in Ea, Eb. cbv zeta.
  set (m := sum_lengths (get_matching_blocks a b)) in *.
  set (pen := penalty_value get_matching_blocks d a b) in *.
  set (free := Z.of_nat (str_len a) + Z.of_nat (str_len b) - 2 * m) in *.
  assert (Hfree : 0 <= free) by (unfold free; lia).
  split; [exact Hm0 |]. split; [exact Hfree |].
  assert (Hup : 100 * m / (m + pen) <= 100 * m / (m + free)).
  { apply Z.div_le_compat_l; [lia |]. unfold free in *. lia. }
  assert (Hlow : 100 * m / (m + d * free) <= 100 * m / (m + pen)).
  { apply Z.div_le_compat_l; [lia |]. unfold free in *. lia. }
  lia.
Qed.

Lemma X23_score_from_the_counts_witness :
  exists s,
    score_of spec_matching_blocks (PyStr "fund 124") (PyStr "fund 123")
      (PInt 1) = Ok s
    /\ 0 <= 7 /\ 0 <= 2 /\ 100 * 7 / (7 + 1 * 2) - 1 <= s <= 100 * 7 / (7 + 2).
Proof.
  exact (X23_score_from_the_counts spec_matching_blocks
           "fund 123" "fund 124" 1 spec_matching_blocks_ok ltac:(lia)
           ltac:(simpl; lia) eq_refl eq_refl).
Defined.
